(* ===== verification/_CoqProject ===== *)
-Q . S2P
Prelude.v
GoErrors.v
GoStrconv.v
GoStrings.v
GoUtf8.v
Json.v
JsonFacts.v
GoTime.v
GoDuration.v
GoFloat.v
FloatFacts.v
Domain.v
Jsonb.v
GoContext.v
GoSha256.v
GoFlag.v
GoPath.v
GoOs.v
Crash.v
OsFacts.v
Observability.v
Events.v
Database.v
Storage.v
Migrate.v
Migrators.v
Broker.v
Relay.v
Pricing.v
PricingService.v
Consumer.v
ShipmentApi.v
Grpc.v
Config.v
Protoc.v
ProtocFacts.v
App.v
Smoke.v
SmokeFacts.v
Registry.v
Stack.v
Binaries.v
Processes.v
Ports.v
PortsMain.v
PortsFacts.v
Programs.v
System.v
Sessions.v
Isolation.v
Waiting.v
Lifecycle.v
Implementation.v
Progress.v
Delivery.v
