(* ===== verification/Prelude.v ===== *)
(** * ParcelLab: a verified model

    ParcelLab creates shipments, prices them over HTTP, and dispatches each one
    exactly once through a transactional outbox and Kafka.  This library models
    the Go program under src/ as functions and proves what makes it correct.

    ** The program and its parts

    A caller asks the gRPC service (src/internal/shipmentapi) for a shipment.  The
    service asks the pricing service (src/internal/pricing), and writes the
    shipment and an event in one transaction (src/internal/storage).  The relay
    (src/internal/relay) claims pending events in batches, publishes them
    (src/internal/broker) and marks those Kafka acknowledged.  The consumer
    (src/internal/consumer) decodes each record (src/internal/events) and records
    the event and its dispatch in one transaction, then commits the offset.  At
    every arrow something can fail, repeat or stop; the design is at-least-once
    delivery with deduplication in the database.

    ** Files

    What the code takes from the language and its standard library:
    - Prelude (this file): 64- and 32-bit integers with their wrap-around, bytes
      and strings, automation.
    - GoErrors: error values, [errors.Is], [errors.As], the result of a call.
    - GoStrconv, GoStrings, GoUtf8, GoTime, GoDuration, GoFloat: strconv, strings
      and bufio.Scanner, runes and quoting, RFC 3339 times on a proleptic calendar,
      [time.ParseDuration] with its float64 arithmetic, reading and printing
      float64 numbers.  FloatFacts: whole numbers below 2^53 print and read back.
    - GoFlag: package flag with boolean flags.
    - GoSha256, GoPath, GoOs: the digest, path/filepath, and package os over a file
      system whose calls can fail half done.  Crash, OsFacts: a logic of programs
      that can stop at any moment, and what each call does in it.
    - Json, JsonFacts: the JSON scanner, the decoding of struct fields, printing,
      and that parsing inverts printing.
    - GoContext: contexts with deadlines, a clock, the [select] of a timer, and
      src/internal/correlation.

    The components, one file each:
    - Domain: src/internal/domain/domain.go.
    - Events: src/internal/events/events.go; Jsonb: what the jsonb column the
      payload passes through preserves.
    - Database: src/db/migrations/0001_init.sql as four finite maps, and each SQL
      statement of the Store as a function that fails with an SQLSTATE.
    - Storage: src/internal/storage/store.go, a monad of statements inside a
      transaction ([TX]) and the operations of the Store; Migrate:
      src/internal/storage/migrate.go; Migrators: any number of them at once, under
      the advisory lock.
    - Broker: src/internal/broker/publisher.go.  Relay: src/internal/relay/relay.go.
    - Consumer: src/internal/consumer/handler.go and consumer.go.
    - Pricing: src/internal/pricing/client.go.  PricingService: the service it asks,
      src/pricing/app/pricing.py and main.py.
    - ShipmentApi: src/internal/shipmentapi/server.go and interceptors.go.  Grpc: the
      messages, stubs and dispatch generated under src/gen/parcellab/v1.
    - Config: src/internal/config/config.go.
    - Observability: src/internal/observability/observability.go.  App:
      src/internal/app/app.go and the opening of the Store; what a process holds
      open is a ledger in the world.  Binaries: the run functions under src/cmd.
    - Smoke, SmokeFacts: src/cmd/smoke/main.go.
    - Registry: the NewMetrics functions of relay, consumer, pricing and API, the
      counters of the pricing service (main.py), the registry of each process and
      its page of metrics.
    - Ports, PortsMain, PortsFacts: src/tools/ports/ports.go and main.go.
    - Protoc, ProtocFacts: src/tools/protoc/main.go.

    The whole:
    - Programs, Sessions: the transactions of the Store as programs of statements,
      and what a session writes before it commits.  Isolation: sessions of services,
      relays and consumers whose statements interleave, with waiting, locks, failures
      and lost processes.  Waiting: who waits for whom, and a scheduler.
    - System: a step relation in which services, relays, a Kafka topic, consumers,
      crashes and replays (src/cmd/replay) interleave; its steps run the
      transaction bodies and conversions of the component files.
    - Lifecycle: the abstract life of an order, which System refines.
      Implementation: the operations of the component files are sequences of
      steps of System, so its invariants hold of the code as it runs.
    - Progress: that no reachable state is a dead end.  Delivery: that the loops of
      the relay and the consumer, run on working services, reach the end.
    - Processes: what each binary opens, it closes.
    - Stack: service, pricing, relay and consumer in one process, with the smoke
      test run against them.

    A Go struct is a record, a method a function that takes and returns the state
    it changes; names are the source's, with the receiver's type in front where
    two methods would clash.  State is passed explicitly: [St W] is the tables of
    the database and a world [W] for everything else, metrics are threaded
    through the loops that count, errors are the [Err] side of [res].

    ** Interfaces

    Code outside the repository is a type class with laws that state what its
    documentation promises: [Pool] (pgx transactions are all or nothing; a failed
    commit may have happened), [Pgconn], [PgScan] (any scan order), [Jsonb] (member
    order and escapes may change, values do not), [Clock], [Rand], [Kgo],
    [KafkaConsumer], [Http], [GrpcStatus], [GoMap] (any iteration order),
    [Machine], [LogWriter], [Pgxpool], [Network], [GrpcServer], [MigratorWorld],
    [ClientConn], [KafkaReader], [Group], [Stdout], [Disk], [Zip], [Runtime], [Collectors]
    (client_golang), [PrometheusClient] (its counterpart in Python), [FastAPI] and
    [Python].
    The source's own interfaces are classes too: [PublisherI],
    [Outbox], [DispatchStore], [Pricer], [StoreI]; the Store is an instance of
    those it implements.  Reference instances make the examples run and show
    that the laws can hold.

    ** What is proved

    - The system (System, Progress): in every reachable state a shipment has at
      most one dispatch, for its event and at its price; a row marked published is
      in the topic and a record below a committed offset is dispatched; no record
      of the topic can stop a consumer by itself; and every stored event can still
      be published, committed and dispatched.
    - Delivery: once the services work again, the loops of the code publish the whole
      backlog and handle every record no offset covers, in as many polls as there
      are events and records, and every stored event has its dispatch.
    - The refinements (Lifecycle, Implementation): an order is stored, published
      and dispatched in that order and each once; the Store, the relay and the
      handler, run on the database, take only steps of the system.
    - Concurrency (Isolation, Waiting): however the statements of concurrent
      transactions interleave, the committed tables, topic and offsets are those of
      a run of System; relays never share an event; waiting never goes in a circle.
    - The processes (Processes, Observability, Registry): whatever the path, everything
      opened is closed when a process returns; a wrong environment stops it
      before it opens anything; a replay publishes the stored event and changes
      nothing; readiness is the check's answer; log lines carry the correlation
      ID of their context.
    - The Store: each operation is atomic under failing statements and ambiguous
      commits, and is described exactly on success; the Store keeps the tables
      consistent with each other, one event for each shipment and one dispatch for
      each processed event; recording again reports a duplicate; a claimed batch
      is the oldest pending rows no other transaction holds; a created shipment
      reads back.
    - Events: encoding, jsonb and decoding compose to the identity, and every
      payload is an event, malformed or unsupported.
    - Relay: a poll marks exactly what was acknowledged; the backoff is bounded;
      the loop stops when cancelled and only then.
    - Consumer: every record is handled within its attempts; success means
      dispatched; offsets are committed for a handled prefix only; a validated
      configuration keeps its waits inside the time of a record, as long as the
      product of its waits fits 64 bits.
    - Pricing and API: client and pricing service agree on the tariff, only valid
      prices get through, every answer has its type, each failure has its code
      and message, and only Internal hides its detail.
    - The smoke test: it always ends, and when it passes everything it announces was
      observed, in order; it passes against the modelled services.
    - Configuration and tools: all parse errors are reported, [Retry] ends,
      migrations are applied once and in order, even by migrators that run at once
      (Migrators), chosen ports are distinct, and the .env a run leaves makes every
      service want the port [Choose] gave it.  The installer of protoc can be
      stopped at any call, any number of times, and as long as a marker that is
      there can be looked at, a release directory with its marker still holds the
      whole archive of the pinned digest; a run that succeeds has installed it.
    - Where the code does not do what it says there is a theorem with the values
      that show it: [MaxWait_overflow_accepted], [backoff_overflows],
      [duplicate_status_not_pending], [future_type_change_malformed],
      [RenderEnv_trims_newlines], [unreadable_marker_loses_install].

    ** Bounds and fuel

    Recursion that is not structural takes fuel, and a lemma shows that the amount
    used is enough: [json_fuel] (JsonFacts), [handle_fuel] (one unit per attempt,
    [attempts_spec]), [retry_fuel] (one per half second, [Retry_ends]), the ports
    above the desired one ([next_free_spec]), the bytes of a duration, the depth of
    a directory to remove ([RemoveAll_gone]), the nanoseconds of a step of the
    smoke test ([smoke_verdict]).  Counts on a page of metrics are shown to read
    back below 2^53 ([whole_number_read]).  Links are followed forty times and MkdirTemp
    tries ten thousand names, as in Go.  The endless loops of the relay and the
    consumer take a number of polls, and the theorems hold for every number.
    Integers are in [Z] with [wrap64] wherever the code can leave 64 bits.

    ** What is not modelled

    The log lines of the components (the logger itself is modelled) and what
    histograms observe beyond their count; serving gRPC and HTTP connections, which
    the binaries see as moments when serving ends; reflection and the wire format of
    the generated protobuf code; the format of zip archives; two installers at the
    same time, and the umask.  Of PostgreSQL, one statement is one step of its
    session, as READ COMMITTED lets the others see it; the order in which a single
    statement takes its locks is not modelled.  Times of the database are
    microseconds, as Postgres keeps them. *)
From stdpp Require Export base tactics strings list gmap numbers.
From Stdlib Require Export ZArith Lia Ascii.

Set Default Goal Selector "!".

(** ** Machine integers

    Go's [int], [int64] and [time.Duration] are 64-bit two's complement
    integers on every platform the stack runs on, [int32] has 32 bits.  A value
    is a [Z] in range; an operation that can leave the range wraps. *)
Definition wrap (w z : Z) : Z := (z + 2 ^ (w - 1)) mod 2 ^ w - 2 ^ (w - 1).

Definition in_range (w z : Z) : bool :=
  bool_decide (- 2 ^ (w - 1) ≤ z < 2 ^ (w - 1))%Z.

Abbreviation int32_ok := (in_range 32).
Abbreviation int64_ok := (in_range 64).
Abbreviation wrap64 := (wrap 64).

Definition max_int64 : Z := 9223372036854775807.
Definition max_int32 : Z := 2147483647.

Lemma wrap_id w z : (0 < w)%Z → in_range w z = true → wrap w z = z.
Proof.
  intros Hw Hz. unfold in_range in Hz. apply bool_decide_eq_true in Hz.
  assert (2 ^ w = 2 * 2 ^ (w - 1))%Z as Hpow.
  { rewrite <- Z.pow_succ_r by lia. f_equal. lia. }
  unfold wrap. rewrite Z.mod_small; lia.
Qed.

Lemma int64_ok_iff z :
  int64_ok z = true ↔ (- 9223372036854775808 ≤ z ≤ 9223372036854775807)%Z.
Proof.
  unfold in_range. rewrite bool_decide_eq_true.
  change (2 ^ (64 - 1))%Z with 9223372036854775808%Z. lia.
Qed.

Lemma int32_ok_iff z :
  int32_ok z = true ↔ (- 2147483648 ≤ z ≤ 2147483647)%Z.
Proof.
  unfold in_range. rewrite bool_decide_eq_true.
  change (2 ^ (32 - 1))%Z with 2147483648%Z. lia.
Qed.

Lemma wrap64_id z :
  (- 9223372036854775808 ≤ z ≤ 9223372036854775807)%Z → wrap64 z = z.
Proof. intros Hz. apply wrap_id; [lia|]. by apply int64_ok_iff. Qed.

Lemma wrap64_range z :
  (- 9223372036854775808 ≤ wrap64 z ≤ 9223372036854775807)%Z.
Proof.
  unfold wrap. change (2 ^ (64 - 1))%Z with 9223372036854775808%Z.
  change (2 ^ 64)%Z with 18446744073709551616%Z.
  pose proof (Z.mod_pos_bound (z + 9223372036854775808) 18446744073709551616). lia.
Qed.

(** ** Byte strings

    A Go [string] and a [[]byte] are both sequences of bytes; [string] is a
    list of 8-bit characters, so both are modelled by it. *)
Definition code (c : ascii) : Z := Z.of_N (N_of_ascii c).

Definition chr (z : Z) : ascii := ascii_of_N (Z.to_N z).

Lemma code_range c : (0 ≤ code c < 256)%Z.
Proof. unfold code. pose proof (N_ascii_bounded c). lia. Qed.

Lemma code_chr z : (0 ≤ z < 256)%Z → code (chr z) = z.
Proof. intros Hz. unfold code, chr. rewrite N_ascii_embedding by lia. lia. Qed.

Lemma chr_code c : chr (code c) = c.
Proof. unfold code, chr. rewrite N2Z.id. apply ascii_N_embedding. Qed.

(** The byte is in the inclusive range of the two bounds. *)
Definition between (lo hi : Z) (c : ascii) : bool := (lo <=? code c)%Z && (code c <=? hi)%Z.

Definition is_digit : ascii → bool := between 48 57.
Definition is_upper : ascii → bool := between 65 90.

Fixpoint str_forall (p : ascii → bool) (s : string) : bool :=
  match s with
  | EmptyString => true
  | String c s => p c && str_forall p s
  end.

Fixpoint str_drop (n : nat) (s : string) : string :=
  match n, s with
  | S n, String _ s => str_drop n s
  | _, _ => s
  end.

Fixpoint str_take (n : nat) (s : string) : string :=
  match n, s with
  | S n, String c s => String c (str_take n s)
  | _, _ => EmptyString
  end.

Definition str_nth (n : nat) (s : string) : option ascii := String.get n s.

(** The string of one byte. *)
Definition str1 (c : ascii) : string := String c EmptyString.

Lemma str_app_nil_l s : "" +:+ s = s.
Proof. done. Qed.
Lemma str_app_cons c s t : String c s +:+ t = String c (s +:+ t).
Proof. done. Qed.
Lemma str_app_nil_r s : s +:+ "" = s.
Proof. induction s as [|c s IH]; [done|]. by rewrite str_app_cons, IH. Qed.
Lemma str_app_assoc s t u : s +:+ (t +:+ u) = (s +:+ t) +:+ u.
Proof. induction s as [|c s IH]; [done|]. by rewrite !str_app_cons, IH. Qed.
Lemma str_app_length s t :
  String.length (s +:+ t) = String.length s + String.length t.
Proof. induction s as [|c s IH]; [done|]. rewrite str_app_cons. simpl. by rewrite IH. Qed.
Lemma str_forall_app p s t :
  str_forall p (s +:+ t) = str_forall p s && str_forall p t.
Proof.
  induction s as [|c s IH]; [done|].
  rewrite str_app_cons. simpl. rewrite IH. by destruct (p c).
Qed.
Lemma str_drop_app s t : str_drop (String.length s) (s +:+ t) = t.
Proof. induction s as [|c s IH]; [done|]. by rewrite str_app_cons. Qed.
Lemma str_take_app s t : str_take (String.length s) (s +:+ t) = s.
Proof. induction s as [|c s IH]; [by destruct t|]. rewrite str_app_cons. simpl. by rewrite IH. Qed.
Lemma str_take_ge n s : String.length s ≤ n → str_take n s = s.
Proof.
  revert n. induction s as [|c s IH]; intros [|n]; simpl; intros; try done; [lia|].
  by rewrite IH by lia.
Qed.
Lemma str_app_inj_l s t u : s +:+ t = s +:+ u → t = u.
Proof. induction s as [|c s IH]; [done|]. rewrite !str_app_cons. naive_solver. Qed.

(** ** Automation *)

(** [crush] closes the routine goals: case analysis on the matches and tests of
    the goal, then the generic solvers. *)
Ltac destruct_tests :=
  repeat match goal with
  | H : context [bool_decide ?P] |- _ =>
      first [ rewrite (bool_decide_eq_true_2 P) in H by (done || lia)
            | rewrite (bool_decide_eq_false_2 P) in H by (done || lia)
            | destruct (bool_decide_reflect P) ]
  | |- context [bool_decide ?P] =>
      first [ rewrite (bool_decide_eq_true_2 P) by (done || lia)
            | rewrite (bool_decide_eq_false_2 P) by (done || lia)
            | destruct (bool_decide_reflect P) ]
  | _ => case_match
  end.

Ltac crush := intros; destruct_tests; simplify_eq/=; try done; try lia; try naive_solver.

Create HintDb parcel discriminated.
Create Rewrite HintDb parcel_str.
#[export] Hint Resolve code_range wrap64_range : parcel.
#[export] Hint Rewrite str_app_nil_r str_app_cons str_app_nil_l : parcel_str.
