(* ===== verification/GoErrors.v ===== *)
(** * Go error values

    The [error] interface as the program uses it: sentinels made by
    [errors.New], errors built by [fmt.Errorf] with [%w] or by [errors.Join],
    the typed errors the code looks for with [errors.As], and gRPC statuses.
    [errors.Is] and [errors.As] are searches of the tree of wrapped errors.
    The file also has the monad of a Go call that returns [(T, error)]. *)
From S2P Require Import Prelude.

(** gRPC status codes (google.golang.org/grpc/codes), the ones the code names
    and those a status of another origin can carry. *)
Inductive Code :=
  | OK | Canceled | Unknown | InvalidArgument | DeadlineExceeded | NotFound
  | AlreadyExists | PermissionDenied | ResourceExhausted | FailedPrecondition
  | Aborted | OutOfRange | Unimplemented | Internal | Unavailable | DataLoss
  | Unauthenticated.

#[export] Instance Code_eq_dec : EqDecision Code.
Proof. solve_decision. Defined.

Inductive goerr :=
  (** [errors.New] held in a package variable: identity is the variable. *)
  | ESentinel (name msg : string)
  (** [fmt.Errorf] with [%w] verbs, or [errors.Join]. *)
  | EWrap (msg : string) (causes : list goerr)
  (** An error value nothing in the program looks into. *)
  | EOther (msg : string)
  (** [*pgconn.PgError]: an error reported by the server, with its SQLSTATE. *)
  | EPg (sqlstate msg : string)
  (** [*pgconn.ConnectError], with the error it unwraps to. *)
  | EConnect (msg : string) (causes : list goerr)
  (** A value of an external type that implements [net.Error]. *)
  | ENet (msg : string)
  (** A gRPC status error. *)
  | EStatus (code : Code) (msg : string).

(** [err.Error()]. *)
Definition Error (e : goerr) : string :=
  match e with
  | ESentinel _ m | EWrap m _ | EOther m | EPg _ m | EConnect m _ | ENet m
  | EStatus _ m => m
  end.

(** The errors [err] unwraps to. *)
Definition unwrap (e : goerr) : list goerr :=
  match e with
  | EWrap _ cs | EConnect _ cs => cs
  | _ => []
  end.

(** Depth-first search of the tree of an error: the traversal [errors.Is] and
    [errors.As] share. *)
Fixpoint tree_any (p : goerr → bool) (e : goerr) : bool :=
  p e ||
  match e with
  | EWrap _ cs | EConnect _ cs => existsb (tree_any p) cs
  | _ => false
  end.

Definition same_sentinel (target e : goerr) : bool :=
  match target, e with
  | ESentinel n _, ESentinel n' _ => bool_decide (n = n')
  | _, _ => false
  end.

(** [errors.Is(err, target)] for a sentinel target. *)
Definition Is (e target : goerr) : bool := tree_any (same_sentinel target) e.

(** The sentinels of package context. *)
Definition CtxCanceled : goerr := ESentinel "context.Canceled" "context canceled".
Definition CtxDeadlineExceeded : goerr :=
  ESentinel "context.DeadlineExceeded" "context deadline exceeded".

(** [errors.As] for the types the code looks for.  [context.DeadlineExceeded]
    itself implements [net.Error]. *)
Definition As_ConnectError (e : goerr) : bool :=
  tree_any (λ e, match e with EConnect _ _ => true | _ => false end) e.
Definition As_netError (e : goerr) : bool :=
  tree_any (λ e, match e with
                 | ENet _ => true
                 | _ => same_sentinel CtxDeadlineExceeded e
                 end) e.

(** The [*pgconn.PgError] found first, depth first. *)
Fixpoint As_PgError (e : goerr) : option string :=
  match e with
  | EPg code _ => Some code
  | EWrap _ cs | EConnect _ cs =>
      foldr (λ c acc, match As_PgError c with Some s => Some s | None => acc end) None cs
  | _ => None
  end.

(** [fmt.Errorf("prefix: %w", err)]. *)
Definition wrapf (prefix : string) (e : goerr) : goerr :=
  EWrap (prefix +:+ Error e) [e].

(** ** Lemmas *)

Lemma tree_any_wrap p m cs :
  tree_any p (EWrap m cs) = p (EWrap m cs) || existsb (tree_any p) cs.
Proof. done. Qed.

Lemma Is_wrap m cs n t :
  Is (EWrap m cs) (ESentinel n t) = existsb (λ c, Is c (ESentinel n t)) cs.
Proof. done. Qed.

Lemma Is_wrapf prefix e n t : Is (wrapf prefix e) (ESentinel n t) = Is e (ESentinel n t).
Proof. unfold wrapf. rewrite Is_wrap. simpl. by rewrite orb_false_r. Qed.

Lemma Is_refl n m : Is (ESentinel n m) (ESentinel n m) = true.
Proof. unfold Is. simpl. by rewrite bool_decide_eq_true_2. Qed.

Create Rewrite HintDb parcel_err.
#[export] Hint Rewrite Is_wrap Is_wrapf Is_refl : parcel_err.

(** ** Calls that return a value and an error *)
Inductive res (A : Type) := Ok (a : A) | Err (e : goerr).
Arguments Ok {A} a.
Arguments Err {A} e.

#[export] Instance Ok_inj {A} : Inj (=) (=) (@Ok A).
Proof. by intros a b [= ->]. Qed.

#[export] Instance res_ret : MRet res := λ A a, Ok a.
#[export] Instance res_bind : MBind res := λ A B f m,
  match m with Ok a => f a | Err e => Err e end.
#[export] Instance res_fmap : FMap res := λ A B f m,
  match m with Ok a => Ok (f a) | Err e => Err e end.

Definition is_ok {A} (r : res A) : bool := match r with Ok _ => true | Err _ => false end.
Definition err_of {A} (r : res A) : option goerr :=
  match r with Ok _ => None | Err e => Some e end.

(** The value of a result, if it has one. *)
Definition from_res {A} (d : A) (r : res A) : A :=
  match r with Ok a => a | Err _ => d end.

Lemma from_res_ok {A} (d : A) r : is_ok r = true → r = Ok (from_res d r).
Proof. by destruct r. Qed.

(** [if err != nil { return ..., f(err) }]. *)
Definition map_err {A} (f : goerr → goerr) (r : res A) : res A :=
  match r with Ok a => Ok a | Err e => Err (f e) end.

(** A function that returns only an error: [nil] is [None]. *)
Definition check (e : option goerr) : res unit :=
  match e with None => Ok () | Some e => Err e end.

Lemma res_bind_ok {A B} (f : A → res B) (m : res A) b :
  (m ≫= f) = Ok b ↔ ∃ a, m = Ok a ∧ f a = Ok b.
Proof. destruct m; simpl; naive_solver. Qed.

Lemma res_bind_err {A B} (f : A → res B) (m : res A) e :
  (m ≫= f) = Err e ↔ m = Err e ∨ ∃ a, m = Ok a ∧ f a = Err e.
Proof. destruct m; simpl; naive_solver. Qed.

Lemma check_ok e : check e = Ok () ↔ e = None.
Proof. destruct e; naive_solver. Qed.
