(* ===== verification/GoStrconv.v ===== *)
(** * Decimal numbers

    The part of package strconv the program uses: [Itoa] (also the decimal form
    encoding/json writes) and [ParseInt] in base 10 with 64 bits, which [Atoi]
    and encoding/json call.  The round trip is proved for every 64-bit value. *)
From S2P Require Import Prelude GoErrors.

Definition digit (d : Z) : ascii := chr (48 + d).

(** The decimal digits of [n], before the string [acc]; one step of the fuel per
    digit. *)
Fixpoint dec_digits (fuel : nat) (n : Z) (acc : string) : string :=
  match fuel with
  | O => acc
  | S fuel =>
      if (n <? 10)%Z then String (digit n) acc
      else dec_digits fuel (n / 10) (String (digit (n mod 10)) acc)
  end.

(** A number has at most as many decimal digits as binary ones. *)
Definition dec (n : Z) : string := dec_digits (S (Z.to_nat (Z.log2 n))) n "".

(** [strconv.Itoa]. *)
Definition Itoa (z : Z) : string := if (z <? 0)%Z then "-" +:+ dec (- z) else dec z.

(** The value of a run of digits, most significant first. *)
Fixpoint digits_val (acc : Z) (s : string) : option Z :=
  match s with
  | EmptyString => Some acc
  | String c s =>
      if is_digit c then digits_val (acc * 10 + (code c - 48)) s else None
  end.

Definition ErrSyntax : goerr := ESentinel "strconv.ErrSyntax" "invalid syntax".
Definition ErrRange : goerr := ESentinel "strconv.ErrRange" "value out of range".

(** [strconv.ParseInt(s, 10, 64)]: an optional sign, then digits only. *)
Definition parse_mag (neg : bool) (s : string) : res Z :=
  match s with
  | EmptyString => Err ErrSyntax
  | _ =>
      match digits_val 0 s with
      | None => Err ErrSyntax
      | Some n =>
          if neg then if (n <=? 2 ^ 63)%Z then Ok (- n)%Z else Err ErrRange
          else if (n <? 2 ^ 63)%Z then Ok n else Err ErrRange
      end
  end.

Definition ParseInt (s : string) : res Z :=
  match s with
  | String "-" r => parse_mag true r
  | String "+" r => parse_mag false r
  | _ => parse_mag false s
  end.

(** [strconv.Atoi] on a platform with a 64-bit [int]. *)
Definition Atoi (s : string) : res Z := ParseInt s.

(** The longest prefix of digits, and what follows it. *)
Fixpoint take_digits (s : string) : string * string :=
  match s with
  | EmptyString => (EmptyString, EmptyString)
  | String c s' =>
      if is_digit c then let (d, r) := take_digits s' in (String c d, r)
      else (EmptyString, s)
  end.

(** ** Lemmas *)

Lemma digit_code d : (0 ≤ d < 10)%Z → code (digit d) = (48 + d)%Z.
Proof. intros. apply code_chr. lia. Qed.

Lemma digit_is_digit d : (0 ≤ d < 10)%Z → is_digit (digit d) = true.
Proof. intros. unfold is_digit, between. rewrite digit_code by lia. lia. Qed.

Lemma dec_digits_val fuel n acc :
  (0 ≤ n < 2 ^ Z.of_nat (S fuel))%Z →
  digits_val 0 (dec_digits (S fuel) n acc) = digits_val n acc.
Proof.
  revert n acc. induction fuel as [|fuel IH]; intros n acc Hn; simpl.
  - rewrite (proj2 (Z.ltb_lt n 10)) by (change (2 ^ Z.of_nat 1)%Z with 2%Z in Hn; lia). simpl.
    assert (n < 10)%Z by (change (2 ^ Z.of_nat 1)%Z with 2%Z in Hn; lia).
    rewrite digit_is_digit, digit_code by lia. f_equal. lia.
  - destruct (Z.ltb_spec n 10).
    + simpl. rewrite digit_is_digit, digit_code by lia. f_equal. lia.
    + pose proof (Z.mod_pos_bound n 10 ltac:(lia)).
      change (if (n / 10 <? 10)%Z then String (digit (n / 10)) (String (digit (n mod 10)) acc)
              else dec_digits fuel (n / 10 / 10)
                (String (digit ((n / 10) mod 10)) (String (digit (n mod 10)) acc)))
        with (dec_digits (S fuel) (n / 10) (String (digit (n mod 10)) acc)).
      rewrite IH.
      * simpl. rewrite digit_is_digit, digit_code by lia. f_equal.
        rewrite (Z.div_mod n 10) at 3 by lia. lia.
      * rewrite Nat2Z.inj_succ, Z.pow_succ_r in Hn by lia.
        split; [apply Z.div_pos; lia|]. apply Z.div_lt_upper_bound; lia.
Qed.

Lemma log2_bound n :
  (0 ≤ n)%Z → (0 ≤ n < 2 ^ Z.of_nat (S (Z.to_nat (Z.log2 n))))%Z.
Proof.
  intros Hn. split; [done|].
  rewrite Nat2Z.inj_succ, Z2Nat.id by apply Z.log2_nonneg.
  destruct (Z.eq_dec n 0%Z) as [->|]; [done|].
  apply Z.log2_spec. lia.
Qed.

Lemma dec_val n : (0 ≤ n)%Z → digits_val 0 (dec n) = Some n.
Proof. intros Hn. unfold dec. rewrite dec_digits_val; [done|]. by apply log2_bound. Qed.

(** The digits of a number, with what they are put in front of. *)
Lemma dec_digits_shape fuel n acc :
  (0 ≤ n < 2 ^ Z.of_nat (S fuel))%Z →
  ∃ d ds, (0 ≤ d < 10)%Z ∧ (d = 0%Z → n = 0%Z ∧ ds = "") ∧
    str_forall is_digit ds = true ∧
    dec_digits (S fuel) n acc = String (digit d) (ds +:+ acc).
Proof.
  revert n acc. induction fuel as [|fuel IH]; intros n acc Hn.
  - change (2 ^ Z.of_nat 1)%Z with 2%Z in Hn. exists n, "". simpl.
    rewrite (proj2 (Z.ltb_lt n 10)) by lia. naive_solver lia.
  - change (dec_digits (S (S fuel)) n acc) with
      (if (n <? 10)%Z then String (digit n) acc
       else dec_digits (S fuel) (n / 10) (String (digit (n mod 10)) acc)).
    destruct (Z.ltb_spec n 10); [exists n, ""; naive_solver lia|].
    rewrite Nat2Z.inj_succ, Z.pow_succ_r in Hn by lia.
    destruct (IH (n / 10)%Z (String (digit (n mod 10)) acc)) as (d & ds & Hd & H0 & Hds & ->).
    { split; [apply Z.div_pos; lia|]. apply Z.div_lt_upper_bound; lia. }
    pose proof (Z.mod_pos_bound n 10 ltac:(lia)).
    exists d, (ds +:+ str1 (digit (n mod 10))). split; [done|split; [|split]].
    + intros Hd0. destruct (H0 Hd0) as [Hn0 _].
      pose proof (Z.div_str_pos n 10). lia.
    + rewrite str_forall_app, Hds. simpl. by rewrite digit_is_digit by lia.
    + by rewrite <- str_app_assoc.
Qed.

Lemma dec_shape n :
  (0 ≤ n)%Z →
  ∃ d ds, (0 ≤ d < 10)%Z ∧ (d = 0%Z → n = 0%Z ∧ ds = "") ∧
    str_forall is_digit ds = true ∧ dec n = String (digit d) ds.
Proof.
  intros Hn. unfold dec.
  destruct (dec_digits_shape _ n "" (log2_bound n Hn)) as (d & ds & ? & ? & ? & ->).
  exists d, ds. by rewrite str_app_nil_r.
Qed.

Lemma take_digits_app ds r :
  str_forall is_digit ds = true →
  take_digits (ds +:+ r) = (ds +:+ (take_digits r).1, (take_digits r).2).
Proof.
  intros Hds. induction ds as [|c ds IH]; [apply surjective_pairing|].
  simpl in Hds. apply andb_true_iff in Hds as [Hc Hds].
  rewrite !str_app_cons. simpl. by rewrite Hc, (IH Hds).
Qed.

(** A sign is not a digit. *)
Lemma ParseInt_unsigned c s :
  is_digit c = true → ParseInt (String c s) = parse_mag false (String c s).
Proof. by destruct c as [[] [] [] [] [] [] [] []]. Qed.

(** Round trip: parsing the decimal form of a 64-bit integer gives it back. *)
Lemma ParseInt_Itoa z : int64_ok z = true → ParseInt (Itoa z) = Ok z.
Proof.
  intros Hz%int64_ok_iff. unfold Itoa. destruct (Z.ltb_spec z 0).
  - destruct (dec_shape (- z)) as (d & ds & _ & _ & _ & Hs); [lia|].
    pose proof (dec_val (- z) ltac:(lia)) as Hv. rewrite Hs in *.
    rewrite str_app_cons, str_app_nil_l. unfold ParseInt, parse_mag. rewrite Hv.
    rewrite (proj2 (Z.leb_le _ _)) by lia. f_equal. lia.
  - destruct (dec_shape z) as (d & ds & Hd & _ & _ & Hs); [lia|].
    pose proof (dec_val z ltac:(lia)) as Hv. rewrite Hs in *.
    rewrite ParseInt_unsigned by (apply digit_is_digit; lia).
    unfold parse_mag. rewrite Hv. by rewrite (proj2 (Z.ltb_lt _ _)) by lia.
Qed.

#[export] Hint Resolve ParseInt_Itoa : parcel.

Lemma dec_digits_length fuel n acc :
  String.length (dec_digits fuel n acc) ≤ fuel + String.length acc.
Proof.
  revert n acc. induction fuel as [|fuel IH]; intros n acc; [done|]. cbn [dec_digits].
  destruct (n <? 10)%Z; [simpl; lia|]. specialize (IH (n / 10)%Z (String (digit (n mod 10)) acc)).
  simpl in IH. lia.
Qed.

Lemma Itoa_natural z : (0 ≤ z)%Z → str_forall is_digit (Itoa z) = true ∧ Itoa z ≠ "".
Proof.
  intros Hz. unfold Itoa. rewrite (proj2 (Z.ltb_ge z 0)) by lia.
  destruct (dec_shape z Hz) as (d & ds & Hd & _ & Hds & ->). split; [|done]. simpl.
  by rewrite digit_is_digit.
Qed.
