(* ===== verification/GoStrings.v ===== *)
(** * Package strings and bufio.Scanner

    The parts of packages strings, sort and bufio the program uses: [strings.Split] and
    [strings.Join] with a one-byte separator, [strings.TrimRight] of a byte, the
    greedy prefix of a byte class, and reading a text line by line with a
    [bufio.Scanner], its limit on the length of a line included. *)
From stdpp Require Import sorting.
From S2P Require Import Prelude GoErrors.

Definition newline : ascii := "010".
Definition carriage_return : ascii := "013".

(** [strings.Split(s, sep)]: never empty. *)
Fixpoint Split (sep : ascii) (s : string) : list string :=
  match s with
  | EmptyString => [""]
  | String c s =>
      if Ascii.eqb c sep then "" :: Split sep s
      else
        match Split sep s with
        | x :: l => String c x :: l
        | [] => [str1 c]
        end
  end.

(** [strings.Join(l, sep)]. *)
Fixpoint Join (sep : ascii) (l : list string) : string :=
  match l with
  | [] => ""
  | [x] => x
  | x :: l => x +:+ String sep (Join sep l)
  end.

(** [strings.TrimRight(s, c)]. *)
Fixpoint TrimRight (c : ascii) (s : string) : string :=
  match s with
  | EmptyString => ""
  | String d s =>
      match TrimRight c s with
      | EmptyString => if Ascii.eqb d c then "" else str1 d
      | t => String d t
      end
  end.

(** The longest prefix of bytes of a class, and the rest. *)
Fixpoint span (p : ascii → bool) (s : string) : string * string :=
  match s with
  | EmptyString => ("", "")
  | String c r => if p c then let (a, b) := span p r in (String c a, b) else ("", s)
  end.

Definition skip (p : ascii → bool) (s : string) : string := (span p s).2.

(** The text after the last separator. *)
Definition after_last (sep : ascii) (s : string) : string := List.last (Split sep s) "".

(** [strings.Contains] and [bytes.Contains]. *)
Fixpoint Contains (s sub : string) : bool :=
  String.prefix sub s || match s with String _ r => Contains r sub | EmptyString => false end.

(** [sort.Strings] *)
Definition str_le (s t : string) : Prop := String.leb s t = true.
#[export] Instance str_le_dec : RelDecision str_le.
Proof. unfold str_le. intros s t. apply _. Defined.
Definition sort_Strings : list string → list string := merge_sort str_le.

(** ** Reading lines *)

(** An [io.Reader]: what it delivers, and the error it then ends with ([None] is
    [io.EOF]). *)
Record Reader := mkReader { rd_data : string; rd_err : option goerr }.

Definition ErrTooLong : goerr := ESentinel "bufio.ErrTooLong" "bufio.Scanner: token too long".

(** [bufio.MaxScanTokenSize]. *)
Definition MaxScanTokenSize : nat := Z.to_nat 65536.

(** The text after the last newline is a line unless it is empty. *)
Fixpoint drop_last_empty (l : list string) : list string :=
  match l with
  | [] => []
  | [x] => if bool_decide (x = "") then [] else [x]
  | x :: l => x :: drop_last_empty l
  end.

Definition raw_lines (s : string) : list string := drop_last_empty (Split newline s).

Fixpoint drop_cr (s : string) : string :=
  match s with
  | EmptyString => ""
  | String c EmptyString => if Ascii.eqb c carriage_return then "" else s
  | String c s => String c (drop_cr s)
  end.

(** The lines before the first that does not fit the buffer. *)
Fixpoint fitting (l : list string) : list string * bool :=
  match l with
  | [] => ([], true)
  | x :: l =>
      if String.length x <? MaxScanTokenSize then let (a, b) := fitting l in (x :: a, b)
      else ([], false)
  end.

(** The lines [Scan] and [Text] yield, and what [Err] returns afterwards. *)
Definition ScanLines (r : Reader) : list string * option goerr :=
  let (l, ok) := fitting (raw_lines (rd_data r)) in
  (drop_cr <$> l, if ok then rd_err r else Some ErrTooLong).

(** ** Lemmas *)

Definition no_byte (c : ascii) (s : string) : bool := str_forall (λ d, negb (Ascii.eqb d c)) s.

Lemma Split_cons sep s : ∃ x l, Split sep s = x :: l.
Proof.
  destruct s as [|c s]; simpl; [by eexists _, _|]. case_match; [by eexists _, _|].
  case_match; by eexists _, _.
Qed.

Lemma Join_Split sep s : Join sep (Split sep s) = s.
Proof.
  induction s as [|c s IH]; [done|]. simpl. destruct (Split_cons sep s) as (x & l & E).
  rewrite E in *. destruct (Ascii.eqb_spec c sep) as [->|Hc].
  - simpl in *. by rewrite IH.
  - simpl in *. destruct l; by rewrite ?str_app_cons, IH.
Qed.

Lemma Split_no_byte sep s : Forall (λ x, no_byte sep x = true) (Split sep s).
Proof.
  induction s as [|c s IH]; [by repeat constructor|]. simpl.
  destruct (Split sep s) as [|x l]; destruct (Ascii.eqb c sep) eqn:E; repeat constructor; try done;
    unfold no_byte; simpl; rewrite ?E; try done; by inversion IH.
Qed.

Lemma Split_app sep x s : no_byte sep x = true → Split sep (x +:+ String sep s) = x :: Split sep s.
Proof.
  induction x as [|c x IH]; simpl.
  - intros _. by rewrite Ascii.eqb_refl.
  - intros [Hc Hx]%andb_true_iff. apply negb_true_iff in Hc. simpl.
    by rewrite Hc, IH.
Qed.

Lemma Split_single sep x : no_byte sep x = true → Split sep x = [x].
Proof.
  induction x as [|c x IH]; [done|]. simpl. intros [Hc%negb_true_iff Hx]%andb_true_iff.
  by rewrite Hc, IH.
Qed.

Lemma Split_Join sep l : l ≠ [] → Forall (λ x, no_byte sep x = true) l → Split sep (Join sep l) = l.
Proof.
  intros Hn Hf. induction Hf as [|x l Hx Hf IH]; [done|]. destruct l as [|y l].
  - by apply Split_single.
  - simpl in *. rewrite Split_app by done. by rewrite IH.
Qed.

(** A text of lines, each with its newline. *)
Lemma raw_lines_text l :
  l ≠ [] → Forall (λ x, no_byte newline x = true) l → raw_lines (Join newline l +:+ str1 newline) = l.
Proof.
  intros Hn Hf. unfold raw_lines. revert Hn. induction Hf as [|x l Hx Hf IH]; [done|]. intros _.
  destruct l as [|y l].
  - cbn [Join]. unfold str1. rewrite Split_app by done. done.
  - change (Join newline (x :: y :: l)) with (x +:+ String newline (Join newline (y :: l))).
    rewrite <- str_app_assoc, str_app_cons, Split_app by done.
    specialize (IH ltac:(done)). destruct (Split_cons newline (Join newline (y :: l) +:+ str1 newline)) as (z & r & E).
    rewrite E in *. change (x :: drop_last_empty (z :: r) = x :: y :: l). by rewrite IH.
Qed.

Lemma span_app p s t :
  str_forall p s = true → match t with String c _ => p c = false | _ => True end → span p (s +:+ t) = (s, t).
Proof.
  intros Hs Ht. induction s as [|c s IH].
  - rewrite str_app_nil_l. destruct t as [|c t]; [done|]. simpl. by rewrite Ht.
  - rewrite str_app_cons. simpl in *. apply andb_true_iff in Hs as [Hc Hs]. by rewrite Hc, IH.
Qed.

Lemma span_spec p s :
  s = (span p s).1 +:+ (span p s).2 ∧ str_forall p (span p s).1 = true ∧
  match (span p s).2 with String c _ => p c = false | _ => True end.
Proof.
  induction s as [|c s IH]; [done|]. simpl. destruct (p c) eqn:Hc; [|done].
  destruct (span p s) as [a b]. simpl in *. destruct IH as (-> & Ha & Hb).
  by rewrite str_app_cons, Hc.
Qed.

Lemma fitting_all l : Forall (λ x, String.length x < MaxScanTokenSize) l → fitting l = (l, true).
Proof.
  induction 1 as [|x l Hx _ IH]; [done|]. cbn [fitting].
  rewrite (proj2 (Nat.ltb_lt _ _) Hx). by rewrite IH.
Qed.

Lemma fitting_ok l l' : fitting l = (l', true) → l' = l ∧ Forall (λ x, String.length x < MaxScanTokenSize) l.
Proof.
  revert l'. induction l as [|x l IH]; intros l'; cbn [fitting]; [by intros [= <-]|].
  destruct (Nat.ltb_spec (String.length x) MaxScanTokenSize); [|done].
  destruct (fitting l) as [a b]. intros [= <- ->]. destruct (IH a eq_refl) as [-> ?].
  split; [done|]. by constructor.
Qed.

Lemma drop_cr_cases s : drop_cr s = s ∨ s = drop_cr s +:+ str1 carriage_return.
Proof.
  induction s as [|c s IH]; [by left|]. destruct s as [|d s].
  - simpl. destruct (Ascii.eqb_spec c carriage_return) as [->|]; [by right|by left].
  - cbn [drop_cr] in *. destruct IH as [->|IH]; [by left|]. right. rewrite str_app_cons. by f_equal.
Qed.

Lemma str_snoc s : s ≠ "" → ∃ u c, s = u +:+ str1 c.
Proof.
  induction s as [|c s IH]; [done|]. intros _. destruct s as [|d s]; [by exists "", c|].
  destruct (IH ltac:(done)) as (u & e & ->). exists (String c u), e. by rewrite str_app_cons.
Qed.

Lemma str_snoc_inj s t c d : s +:+ str1 c = t +:+ str1 d → s = t ∧ c = d.
Proof.
  revert t. induction s as [|e s IH]; intros [|f t]; rewrite ?str_app_nil_l, ?str_app_cons; intros [=];
    subst; try done.
  - destruct t; done.
  - destruct s; done.
  - by destruct (IH t) as [-> ->].
Qed.

(** A string of [k] equal bytes. *)
Fixpoint bytes_of (c : ascii) (k : nat) : string :=
  match k with
  | O => ""
  | S k => String c (bytes_of c k)
  end.

Lemma TrimRight_spec c s : ∃ k, s = TrimRight c s +:+ bytes_of c k.
Proof.
  induction s as [|d s [k IH]]; [by exists 0|]. simpl. destruct (TrimRight c s) as [|e t] eqn:E.
  - destruct (Ascii.eqb_spec d c) as [->|].
    + exists (S k). rewrite IH. done.
    + exists k. by rewrite IH at 1.
  - exists k. by rewrite IH at 1.
Qed.

Lemma Split_bytes sep s k : Split sep (s +:+ bytes_of sep k) = Split sep s ++ replicate k "".
Proof.
  induction s as [|c s IH].
  - rewrite str_app_nil_l. induction k as [|k IH]; [done|]. simpl. by rewrite Ascii.eqb_refl, IH.
  - rewrite str_app_cons. simpl. rewrite IH. destruct (Split_cons sep s) as (x & l & ->). simpl.
    by destruct (Ascii.eqb c sep).
Qed.

(** The lines of a text against those of the text without its last newlines:
    some empty ones are missing. *)
Lemma raw_lines_trim s :
  ∃ k, raw_lines s = drop_last_empty (Split newline (TrimRight newline s) ++ replicate k "").
Proof.
  unfold raw_lines. destruct (TrimRight_spec newline s) as [k Hk]. exists k.
  by rewrite <- Split_bytes, <- Hk.
Qed.

Lemma drop_last_empty_cases l : drop_last_empty l = l ∨ l = drop_last_empty l ++ [""].
Proof.
  induction l as [|x l IH]; [by left|]. destruct l as [|y l].
  - simpl. case_bool_decide; subst; [by right|by left].
  - change (drop_last_empty (x :: y :: l)) with (x :: drop_last_empty (y :: l)).
    destruct IH as [-> | IH]; [by left|]. right. simpl. by f_equal.
Qed.

Lemma TrimRight_bytes c s k : TrimRight c (s +:+ bytes_of c k) = TrimRight c s.
Proof.
  induction s as [|d s IH].
  - rewrite str_app_nil_l. induction k as [|k IH]; [done|]. simpl. by rewrite IH, Ascii.eqb_refl.
  - rewrite str_app_cons. simpl. by rewrite IH.
Qed.

Lemma sort_Strings_perm l : sort_Strings l ≡ₚ l.
Proof. apply merge_sort_Permutation. Qed.
