(* ===== verification/GoUtf8.v ===== *)
(** * UTF-8 and JSON strings

    Package unicode/utf8's decoding of a byte string into runes (with the
    invalid bytes it reports one at a time), and the two string transformations
    of encoding/json: [escape], what [json.Marshal] writes between the quotes
    (HTML escaping on, the default), and [unquote], what [json.Unmarshal] reads
    back.  The round trip holds for every valid UTF-8 string.  Also white space
    ([TrimSpace]), [strconv.Quote] and [hex.EncodeToString]. *)
From S2P Require Import Prelude.

(** ** Runes *)

Definition quote : ascii := "034".
Definition backslash : ascii := "\".

(** One decoded rune with the bytes it occupies; [RBad] is a byte that starts no
    valid encoding (utf8.RuneError with width 1). *)
Inductive rune :=
  | R1 (b0 : ascii)
  | R2 (b0 b1 : ascii)
  | R3 (b0 b1 b2 : ascii)
  | R4 (b0 b1 b2 b3 : ascii)
  | RBad (b0 : ascii).

Definition cont : ascii → bool := between 128 191.
Definition is_ascii (c : ascii) : bool := (code c <? 128)%Z.
Definition rune2 (b0 b1 : ascii) : bool := between 194 223 b0 && cont b1.
Definition rune3 (b0 b1 b2 : ascii) : bool :=
  (between 224 224 b0 && between 160 191 b1
   || (between 225 236 b0 || between 238 239 b0) && cont b1
   || between 237 237 b0 && between 128 159 b1) && cont b2.
Definition rune4 (b0 b1 b2 b3 : ascii) : bool :=
  (between 240 240 b0 && between 144 191 b1
   || between 241 243 b0 && cont b1
   || between 244 244 b0 && between 128 143 b1) && cont b2 && cont b3.

Fixpoint runes (s : string) : list rune :=
  match s with
  | EmptyString => []
  | String c r =>
      if is_ascii c then R1 c :: runes r
      else
        match r with
        | String c1 r1 =>
            if rune2 c c1 then R2 c c1 :: runes r1
            else
              match r1 with
              | String c2 r2 =>
                  if rune3 c c1 c2 then R3 c c1 c2 :: runes r2
                  else
                    match r2 with
                    | String c3 r3 =>
                        if rune4 c c1 c2 c3 then R4 c c1 c2 c3 :: runes r3
                        else RBad c :: runes r
                    | EmptyString => RBad c :: runes r
                    end
              | EmptyString => RBad c :: runes r
              end
        | EmptyString => RBad c :: runes r
        end
  end.

Definition rune_bytes (r : rune) : string :=
  match r with
  | R1 a | RBad a => str1 a
  | R2 a b => String a (str1 b)
  | R3 a b c => String a (String b (str1 c))
  | R4 a b c d => String a (String b (String c (str1 d)))
  end.

Fixpoint runes_bytes (l : list rune) : string :=
  match l with
  | [] => ""
  | r :: l => rune_bytes r +:+ runes_bytes l
  end.

Definition rune_ok (r : rune) : bool :=
  match r with
  | R1 a => is_ascii a
  | R2 a b => rune2 a b
  | R3 a b c => rune3 a b c
  | R4 a b c d => rune4 a b c d
  | RBad _ => false
  end.

(** [utf8.ValidString]. *)
Definition utf8_valid (s : string) : bool := forallb rune_ok (runes s).

(** ** White space *)

(** [unicode.IsSpace]. *)
Definition rune_space (r : rune) : bool :=
  match r with
  | R1 c => between 9 13 c || Ascii.eqb c " "
  | R2 a b => Ascii.eqb a "194" && (Ascii.eqb b "133" || Ascii.eqb b "160")
  | R3 a b c =>
      Ascii.eqb a "225" && Ascii.eqb b "154" && Ascii.eqb c "128"
      || Ascii.eqb a "226" && Ascii.eqb b "128" && (between 128 138 c || between 168 169 c || Ascii.eqb c "175")
      || Ascii.eqb a "226" && Ascii.eqb b "129" && Ascii.eqb c "159"
      || Ascii.eqb a "227" && Ascii.eqb b "128" && Ascii.eqb c "128"
  | _ => false
  end.

Fixpoint drop_spaces (l : list rune) : list rune :=
  match l with
  | r :: l' => if rune_space r then drop_spaces l' else l
  | [] => []
  end.

(** [bytes.TrimSpace] and [strings.TrimSpace]. *)
Definition TrimSpace (s : string) : string :=
  runes_bytes (rev (drop_spaces (rev (drop_spaces (runes s))))).

(** [strings.Fields]: the texts between white space, from a list of runes with the
    runes of the current text. *)
Fixpoint fields_of (cur l : list rune) : list string :=
  let flush := match cur with [] => [] | _ => [runes_bytes cur] end in
  match l with
  | [] => flush
  | r :: l => if rune_space r then flush ++ fields_of [] l else fields_of (cur ++ [r]) l
  end.
Definition Fields (s : string) : list string := fields_of [] (runes s).

Example Fields_ex : Fields "  podman  compose " = ["podman"; "compose"].
Proof. vm_compute. reflexivity. Qed.

(** ** Escaping *)

Definition hex_digit (z : Z) : ascii :=
  if (z <? 10)%Z then chr (48 + z) else chr (87 + z).

(** The value of a hexadecimal digit of either case. *)
Definition hex_val (c : ascii) : option Z :=
  if between 48 57 c then Some (code c - 48)%Z
  else if between 97 102 c then Some (code c - 87)%Z
  else if between 65 70 c then Some (code c - 55)%Z
  else None.

Definition esc (e : ascii) : list rune := [R1 backslash; R1 e].

Definition esc_ascii (c : ascii) : list rune :=
  if Ascii.eqb c quote || Ascii.eqb c backslash then esc c
  else if Ascii.eqb c "008" then esc "b"
  else if Ascii.eqb c "012" then esc "f"
  else if Ascii.eqb c "010" then esc "n"
  else if Ascii.eqb c "013" then esc "r"
  else if Ascii.eqb c "009" then esc "t"
  else if (code c <? 32)%Z || Ascii.eqb c "<" || Ascii.eqb c ">" || Ascii.eqb c "&" then
    esc "u" ++ [R1 "0"; R1 "0"; R1 (hex_digit (code c / 16)); R1 (hex_digit (code c mod 16))]
  else [R1 c].

(** U+2028 and U+2029 are escaped too; an invalid byte becomes the escape of
    U+FFFD. *)
Definition esc_rune (r : rune) : list rune :=
  match r with
  | R1 c => esc_ascii c
  | R3 a b c =>
      if between 226 226 a && between 128 128 b && between 168 169 c then
        esc "u" ++ [R1 "2"; R1 "0"; R1 "2"; R1 (hex_digit (code c - 160))]
      else [r]
  | RBad _ => esc "u" ++ [R1 "f"; R1 "f"; R1 "f"; R1 "d"]
  | _ => [r]
  end.

Definition escape (s : string) : string := runes_bytes (flat_map esc_rune (runes s)).

(** ** Unquoting *)

(** [utf8.EncodeRune] for a code point that is not a surrogate. *)
Definition encode_rune (r : Z) : string :=
  (if r <? 128 then str1 (chr r)
   else if r <? 2048 then String (chr (192 + r / 64)) (str1 (chr (128 + r mod 64)))
   else if r <? 65536 then
     String (chr (224 + r / 4096)) (String (chr (128 + (r / 64) mod 64)) (str1 (chr (128 + r mod 64))))
   else
     String (chr (240 + r / 262144)) (String (chr (128 + (r / 4096) mod 64))
       (String (chr (128 + (r / 64) mod 64)) (str1 (chr (128 + r mod 64))))))%Z.

Definition replacement : string := encode_rune 65533.

(** The code unit of four hexadecimal digits. *)
Definition hex4 (a b c d : ascii) : option Z :=
  a ← hex_val a; b ← hex_val b; c ← hex_val c; d ← hex_val d;
  Some (a * 4096 + b * 256 + c * 16 + d)%Z.

Definition is_surrogate (r : Z) : bool := (55296 <=? r)%Z && (r <? 57344)%Z.

(** [utf16.DecodeRune]: [None] is U+FFFD. *)
Definition utf16_decode (hi lo : Z) : option Z :=
  if (55296 <=? hi)%Z && (hi <? 56320)%Z && (56320 <=? lo)%Z && (lo <? 57344)%Z
  then Some ((hi - 55296) * 1024 + (lo - 56320) + 65536)%Z else None.

Definition simple_escape (e : ascii) : option ascii :=
  if Ascii.eqb e quote || Ascii.eqb e backslash || Ascii.eqb e "/" then Some e
  else if Ascii.eqb e "b" then Some "008"%char
  else if Ascii.eqb e "f" then Some "012"%char
  else if Ascii.eqb e "n" then Some "010"%char
  else if Ascii.eqb e "r" then Some "013"%char
  else if Ascii.eqb e "t" then Some "009"%char
  else None.

(** The bytes a string literal denotes; [None] on an escape the scanner does not
    let through. *)
Fixpoint unq (l : list rune) : option string :=
  match l with
  | [] => Some ""
  | RBad _ :: l => String.append replacement <$> unq l
  | R1 x :: l1 =>
      if Ascii.eqb x backslash then
        match l1 with
        | R1 e :: l2 =>
            if Ascii.eqb e "u" then
              match l2 with
              | R1 a :: R1 b :: R1 c :: R1 d :: l3 =>
                  match hex4 a b c d with
                  | None => None
                  | Some u =>
                      if is_surrogate u then
                        match l3 with
                        | R1 x' :: R1 e' :: R1 a' :: R1 b' :: R1 c' :: R1 d' :: l4 =>
                            match (if Ascii.eqb x' backslash && Ascii.eqb e' "u"
                                   then hex4 a' b' c' d' else None) ≫= utf16_decode u with
                            | Some cp => String.append (encode_rune cp) <$> unq l4
                            | None => String.append replacement <$> unq l3
                            end
                        | _ => String.append replacement <$> unq l3
                        end
                      else String.append (encode_rune u) <$> unq l3
                  end
              | _ => None
              end
            else
              match simple_escape e with
              | Some b => String b <$> unq l2
              | None => None
              end
        | _ => None
        end
      else String x <$> unq l1
  | r :: l => String.append (rune_bytes r) <$> unq l
  end.

Definition unquote (raw : string) : option string := unq (runes raw).

(** ** Lemmas *)

Lemma between_iff lo hi c : between lo hi c = true ↔ (lo ≤ code c ≤ hi)%Z.
Proof. unfold between. rewrite andb_true_iff, !Z.leb_le. done. Qed.

Ltac unfold_bytes :=
  unfold rune2, rune3, rune4, cont, is_ascii in *;
  repeat match goal with
  | H : _ && _ = true |- _ => apply andb_true_iff in H as [? ?]
  | H : _ || _ = true |- _ => apply orb_true_iff in H as [?|?]
  | H : between _ _ _ = true |- _ => apply between_iff in H
  end.

Ltac byte_false :=
  match goal with
  | |- ?b = false => destruct b eqn:?; [exfalso; unfold_bytes; lia | done]
  end.

Lemma rune2_not_ascii a b : rune2 a b = true → is_ascii a = false.
Proof. intros. unfold is_ascii. unfold_bytes. lia. Qed.
Lemma rune3_not_ascii a b c :
  rune3 a b c = true → is_ascii a = false ∧ rune2 a b = false.
Proof. intros. split; [unfold is_ascii; unfold_bytes; lia|]. byte_false. Qed.
Lemma rune4_not_ascii a b c d :
  rune4 a b c d = true →
  is_ascii a = false ∧ rune2 a b = false ∧ rune3 a b c = false.
Proof.
  intros. split; [unfold is_ascii; unfold_bytes; lia|]. split; byte_false.
Qed.

Lemma runes_ok_app r s : rune_ok r = true → runes (rune_bytes r +:+ s) = r :: runes s.
Proof.
  destruct r as [a|a b|a b c|a b c d|a]; cbn [rune_ok rune_bytes]; unfold str1;
    rewrite ?str_app_cons, ?str_app_nil_l; intros H; simpl.
  - by rewrite H.
  - by rewrite (rune2_not_ascii _ _ H), H.
  - by destruct (rune3_not_ascii _ _ _ H) as [-> ->]; rewrite H.
  - by destruct (rune4_not_ascii _ _ _ _ H) as (-> & -> & ->); rewrite H.
  - done.
Qed.

Lemma runes_runes_bytes l s :
  forallb rune_ok l = true → runes (runes_bytes l +:+ s) = l ++ runes s.
Proof.
  induction l as [|r l IH]; [done|]. simpl. intros [Hr Hl]%andb_true_iff.
  by rewrite <- str_app_assoc, runes_ok_app, IH.
Qed.

Lemma runes_bytes_runes s : runes_bytes (runes s) = s.
Proof.
  remember (String.length s) as n eqn:Hn.
  assert (String.length s ≤ n) as Hle by lia. clear Hn.
  revert s Hle. induction n as [|n IH]; intros s Hle.
  { destruct s; [done|simpl in Hle; lia]. }
  destruct s as [|c r]; [done|]. simpl in *.
  destruct (is_ascii c); [by simpl; rewrite IH by lia|].
  destruct r as [|c1 r1]; [done|]. simpl in Hle.
  destruct (rune2 c c1); [by simpl; rewrite IH by lia|].
  assert (runes_bytes (RBad c :: runes (String c1 r1)) = String c (String c1 r1)) as Hbad.
  { cbn [runes_bytes]. rewrite IH by (simpl; lia). done. }
  destruct r1 as [|c2 r2]; [done|].
  destruct (rune3 c c1 c2); [by simpl; rewrite IH by (simpl in *; lia)|].
  destruct r2 as [|c3 r3]; [done|].
  destruct (rune4 c c1 c2 c3); [by simpl; rewrite IH by (simpl in *; lia)|done].
Qed.

Lemma runes_app_valid s t :
  utf8_valid s = true → runes (s +:+ t) = runes s ++ runes t.
Proof. intros. rewrite <- (runes_bytes_runes s) at 1. by apply runes_runes_bytes. Qed.

Lemma runes_bytes_app l1 l2 : runes_bytes (l1 ++ l2) = runes_bytes l1 +:+ runes_bytes l2.
Proof.
  induction l1 as [|r l1 IH]; [done|]. simpl. by rewrite IH, str_app_assoc.
Qed.

Lemma forallb_flat_map {A B} (f : A → list B) (p : B → bool) (q : A → bool) l :
  (∀ a, q a = true → forallb p (f a) = true) →
  forallb q l = true → forallb p (flat_map f l) = true.
Proof.
  intros Hf. induction l as [|a l IH]; [done|]. simpl. rewrite forallb_app.
  intros [Ha Hl]%andb_true_iff. by rewrite Hf, IH.
Qed.

Lemma esc_ascii_ok c : is_ascii c = true → forallb rune_ok (esc_ascii c) = true.
Proof. destruct c as [[] [] [] [] [] [] [] []]; done. Qed.

Lemma u2028_bytes a b c :
  between 226 226 a && between 128 128 b && between 168 169 c = true →
  R3 a b c = R3 "226" "128" (if (code c =? 168)%Z then "168" else "169").
Proof.
  intros. unfold_bytes.
  rewrite <- (chr_code a), <- (chr_code b), <- (chr_code c).
  replace (code a) with 226%Z by lia. replace (code b) with 128%Z by lia.
  destruct (Z.eqb_spec (code (chr (code c))) 168) as [E|E];
    rewrite code_chr in E by lia.
  - by rewrite E.
  - by replace (code c) with 169%Z by lia.
Qed.

Lemma esc_rune_ok r : rune_ok r = true → forallb rune_ok (esc_rune r) = true.
Proof.
  destruct r as [a|a b|a b c|a b c d|a]; simpl; intros H; rewrite ?H; try done.
  - by apply esc_ascii_ok.
  - destruct (_ && _ && _) eqn:E; [|by simpl; rewrite H].
    pose proof (u2028_bytes _ _ _ E) as [= -> -> ->]. by destruct (code c =? 168)%Z.
Qed.

Lemma runes_escape s t :
  utf8_valid s = true →
  runes (escape s +:+ t) = flat_map esc_rune (runes s) ++ runes t.
Proof.
  intros. apply runes_runes_bytes. eapply forallb_flat_map; [apply esc_rune_ok|done].
Qed.

Lemma unq_esc_ascii c l :
  is_ascii c = true → unq (esc_ascii c ++ l) = String c <$> unq l.
Proof. destruct c as [[] [] [] [] [] [] [] []]; done. Qed.

Lemma unq_esc_rune r l :
  rune_ok r = true → unq (esc_rune r ++ l) = String.append (rune_bytes r) <$> unq l.
Proof.
  destruct r as [a|a b|a b c|a b c d|a]; cbn [rune_ok esc_rune]; intros H; try done.
  - rewrite unq_esc_ascii by done. by destruct (unq l).
  - destruct (_ && _ && _) eqn:E; [|done].
    pose proof (u2028_bytes _ _ _ E) as [= -> -> ->]. by destruct (code c =? 168)%Z.
Qed.

(** Round trip: a valid UTF-8 string survives escaping and unquoting. *)
Lemma unquote_escape s : utf8_valid s = true → unquote (escape s) = Some s.
Proof.
  intros Hs. unfold unquote. rewrite <- (str_app_nil_r (escape s)), runes_escape by done.
  rewrite <- (runes_bytes_runes s) at 2. unfold utf8_valid in Hs.
  induction (runes s) as [|r l IH]; [done|]. simpl in *.
  apply andb_true_iff in Hs as [Hr Hl].
  rewrite <- app_assoc, unq_esc_rune, IH by done. done.
Qed.

(** ** Go string literals *)

Definition hex2 (c : ascii) : string :=
  String (hex_digit (code c / 16)) (str1 (hex_digit (code c mod 16))).

(** One rune of [strconv.Quote], the verb [%q].  Runes outside ASCII are kept:
    the tables of printable runes are not modelled, and only log lines and error
    texts show the result. *)
Definition quote_rune (r : rune) : string :=
  match r with
  | R1 c =>
      if Ascii.eqb c quote || Ascii.eqb c backslash then String backslash (str1 c)
      else if Ascii.eqb c "007" then "\a"
      else if Ascii.eqb c "008" then "\b"
      else if Ascii.eqb c "012" then "\f"
      else if Ascii.eqb c "010" then "\n"
      else if Ascii.eqb c "013" then "\r"
      else if Ascii.eqb c "009" then "\t"
      else if Ascii.eqb c "011" then "\v"
      else if (code c <? 32)%Z || Ascii.eqb c "127" then "\x" +:+ hex2 c
      else str1 c
  | RBad c => "\x" +:+ hex2 c
  | _ => rune_bytes r
  end.

Fixpoint quote_runes (l : list rune) : string :=
  match l with
  | [] => ""
  | r :: l => quote_rune r +:+ quote_runes l
  end.

Definition Quote (s : string) : string := String quote (quote_runes (runes s) +:+ str1 quote).

(** [hex.EncodeToString]. *)
Fixpoint EncodeToString (s : string) : string :=
  match s with
  | EmptyString => ""
  | String c s => hex2 c +:+ EncodeToString s
  end.

Lemma hex2_inj c d s t : hex2 c +:+ s = hex2 d +:+ t → c = d ∧ s = t.
Proof.
  unfold hex2, str1. rewrite !str_app_cons, !str_app_nil_l. intros [= H1 H2 ->].
  split; [|done]. clear -H1 H2. rewrite <- (chr_code c), <- (chr_code d). f_equal.
  assert (∀ x y, (0 <= x < 16)%Z → (0 <= y < 16)%Z → hex_digit x = hex_digit y → x = y) as Hinj.
  { intros x y Hx Hy E%(f_equal code). unfold hex_digit in E.
    destruct (Z.ltb_spec x 10), (Z.ltb_spec y 10); rewrite !code_chr in E by lia; lia. }
  pose proof (code_range c). pose proof (code_range d).
  pose proof (Z.div_mod (code c) 16). pose proof (Z.mod_pos_bound (code c) 16).
  pose proof (Z.div_mod (code d) 16). pose proof (Z.mod_pos_bound (code d) 16).
  apply Hinj in H1, H2; lia.
Qed.

Lemma EncodeToString_inj s t : EncodeToString s = EncodeToString t → s = t.
Proof.
  revert t. induction s as [|c s IH]; intros [|d t]; simpl; try done.
  intros [-> ?]%hex2_inj. f_equal. auto.
Qed.

Lemma EncodeToString_length s : String.length (EncodeToString s) = 2 * String.length s.
Proof. induction s as [|c s IH]; simpl; [done|]. rewrite str_app_length, IH. simpl. lia. Qed.

Lemma hex_digit_ascii z : (0 <= z < 16)%Z → is_ascii (hex_digit z) = true.
Proof.
  intros Hz. unfold hex_digit, is_ascii.
  destruct (Z.ltb_spec z 10); rewrite code_chr by lia; lia.
Qed.

Lemma EncodeToString_ascii s : str_forall is_ascii (EncodeToString s) = true.
Proof.
  induction s as [|c s IH]; [done|]. simpl. rewrite str_forall_app, IH. simpl.
  pose proof (code_range c). pose proof (Z.div_mod (code c) 16).
  pose proof (Z.mod_pos_bound (code c) 16).
  rewrite !hex_digit_ascii by lia. done.
Qed.

Lemma hex_digit_no_nul z : (0 <= z < 16)%Z → Ascii.eqb (hex_digit z) "000" = false.
Proof.
  intros Hz. apply Ascii.eqb_neq. intros E%(f_equal code). unfold hex_digit in E.
  destruct (Z.ltb_spec z 10); rewrite code_chr in E by lia; change (code "000") with 0%Z in E; lia.
Qed.

Lemma EncodeToString_no_nul s : str_forall (λ c, negb (Ascii.eqb c "000")) (EncodeToString s) = true.
Proof.
  induction s as [|c s IH]; [done|]. simpl. rewrite str_forall_app, IH. simpl.
  pose proof (code_range c). pose proof (Z.div_mod (code c) 16).
  pose proof (Z.mod_pos_bound (code c) 16).
  by rewrite !hex_digit_no_nul by lia.
Qed.

Lemma ascii_valid s : str_forall is_ascii s = true → utf8_valid s = true.
Proof.
  unfold utf8_valid. induction s as [|c s IH]; [done|]. simpl.
  intros [Hc Hs]%andb_true_iff. rewrite Hc. simpl. rewrite Hc. auto.
Qed.

Lemma utf8_valid_app s t : utf8_valid s = true → utf8_valid t = true → utf8_valid (s +:+ t) = true.
Proof.
  intros Hs Ht. unfold utf8_valid. rewrite runes_app_valid, forallb_app by done.
  by apply andb_true_iff.
Qed.
