(* ===== verification/Json.v ===== *)
(** * encoding/json

    Syntax: the values of JSON text as Go's scanner accepts it (whitespace,
    literals, numbers, strings with their escapes, nesting of at most 10000).
    A string keeps its raw bytes between the quotes and a number its literal,
    since the decoder reads them differently for each Go type.  [json_print] is
    the compact form [json.Marshal] writes.

    Decoding: how [json.Unmarshal] stores a value through a pointer field of a
    struct.  A type error leaves the target unusable to every caller of this
    program, so it is [None]. *)
From S2P Require Import Prelude GoErrors GoStrconv GoUtf8.

Inductive json :=
  | JNull
  | JBool (b : bool)
  | JNum (lit : string)
  | JStr (raw : string)
  | JArr (elems : list json)
  | JObj (members : list (string * json)).

(** ** Scanning *)

Definition is_ws (c : ascii) : bool :=
  Ascii.eqb c " " || Ascii.eqb c "009" || Ascii.eqb c "010" || Ascii.eqb c "013".

Fixpoint skip_ws (s : string) : string :=
  match s with
  | String c r => if is_ws c then skip_ws r else s
  | EmptyString => s
  end.

Definition is_hex (c : ascii) : bool := bool_decide (is_Some (hex_val c)).

(** The raw contents of a string, after its opening quote, and what follows the
    closing one. *)
Fixpoint scan_str (s : string) : option (string * string) :=
  match s with
  | EmptyString => None
  | String c r =>
      if Ascii.eqb c quote then Some ("", r)
      else if (code c <? 32)%Z then None
      else if Ascii.eqb c backslash then
        match r with
        | EmptyString => None
        | String e r1 =>
            if bool_decide (is_Some (simple_escape e)) then
              prod_map (λ raw, String c (String e raw)) id <$> scan_str r1
            else if Ascii.eqb e "u" then
              match r1 with
              | String h1 (String h2 (String h3 (String h4 r2))) =>
                  if is_hex h1 && is_hex h2 && is_hex h3 && is_hex h4 then
                    prod_map (λ raw, String c (String e (String h1 (String h2 (String h3 (String h4 raw)))))) id
                      <$> scan_str r2
                  else None
              | _ => None
              end
            else None
        end
      else prod_map (String c) id <$> scan_str r
  end.

(** The input after the byte [c]. *)
Definition expect (c : ascii) (s : string) : option string :=
  match s with
  | String x r => if Ascii.eqb x c then Some r else None
  | EmptyString => None
  end.

(** One or more digits. *)
Definition digits1 (s : string) : option (string * string) :=
  match take_digits s with
  | (EmptyString, _) => None
  | (ds, r) => Some (ds, r)
  end.

Definition scan_int (s : string) : option (string * string) :=
  match s with
  | String c r =>
      if Ascii.eqb c "0" then Some (str1 c, r)
      else if is_digit c then Some (take_digits s)
      else None
  | EmptyString => None
  end.

Definition scan_frac (s : string) : option (string * string) :=
  match expect "." s with
  | Some r => prod_map (String ".") id <$> digits1 r
  | None => Some ("", s)
  end.

Definition scan_exp (s : string) : option (string * string) :=
  match s with
  | String c r =>
      if Ascii.eqb c "e" || Ascii.eqb c "E" then
        match r with
        | String g r' =>
            if Ascii.eqb g "+" || Ascii.eqb g "-"
            then prod_map (λ d, String c (String g d)) id <$> digits1 r'
            else prod_map (String c) id <$> digits1 r
        | EmptyString => None
        end
      else Some ("", s)
  | EmptyString => Some ("", s)
  end.

Definition scan_num (s : string) : option (string * string) :=
  let (sign, s) := match expect "-" s with
                   | Some r => ("-", r)
                   | None => ("", s)
                   end in
  '(i, s) ← scan_int s;
  '(f, s) ← scan_frac s;
  '(e, s) ← scan_exp s;
  Some (sign +:+ i +:+ f +:+ e, s).

(** The input after a fixed word. *)
Fixpoint strip (w s : string) : option string :=
  match w, s with
  | EmptyString, _ => Some s
  | String a w, String b s => if Ascii.eqb a b then strip w s else None
  | _, EmptyString => None
  end.

Definition max_nesting : N := 10000.

(** The parser.  Every call uses one unit of fuel, and two nested calls consume a
    byte of the input, so twice its length is enough. *)
Fixpoint pvalue (n : nat) (d : N) (s : string) {struct n} : option (json * string) :=
  match n with
  | O => None
  | S n =>
      match skip_ws s with
      | EmptyString => None
      | String c r =>
          if Ascii.eqb c quote then prod_map JStr id <$> scan_str r
          else if Ascii.eqb c "{" then
            if (d =? 0)%N then None
            else match expect "}" (skip_ws r) with
                 | Some r' => Some (JObj [], r')
                 | None => prod_map JObj id <$> pmembers n (d - 1) r
                 end
          else if Ascii.eqb c "[" then
            if (d =? 0)%N then None
            else match expect "]" (skip_ws r) with
                 | Some r' => Some (JArr [], r')
                 | None => prod_map JArr id <$> pelems n (d - 1) r
                 end
          else if Ascii.eqb c "n" then (λ r, (JNull, r)) <$> strip "ull" r
          else if Ascii.eqb c "t" then (λ r, (JBool true, r)) <$> strip "rue" r
          else if Ascii.eqb c "f" then (λ r, (JBool false, r)) <$> strip "alse" r
          else prod_map JNum id <$> scan_num (String c r)
      end
  end
with pelems (n : nat) (d : N) (s : string) {struct n} : option (list json * string) :=
  match n with
  | O => None
  | S n =>
      '(v, r) ← pvalue n d s;
      match expect "," (skip_ws r), expect "]" (skip_ws r) with
      | Some r, _ => prod_map (cons v) id <$> pelems n d r
      | None, Some r => Some ([v], r)
      | None, None => None
      end
  end
with pmembers (n : nat) (d : N) (s : string) {struct n} : option (list (string * json) * string) :=
  match n with
  | O => None
  | S n =>
      r ← expect quote (skip_ws s);
      '(k, r) ← scan_str r;
      r ← expect ":" (skip_ws r);
      '(v, r) ← pvalue n d r;
      match expect "," (skip_ws r), expect "}" (skip_ws r) with
      | Some r, _ => prod_map (cons (k, v)) id <$> pmembers n d r
      | None, Some r => Some ([(k, v)], r)
      | None, None => None
      end
  end.

Definition json_fuel (s : string) : nat := 2 * String.length s + 2.

(** A complete JSON text: one value, with nothing but whitespace around it. *)
Definition json_parse (s : string) : option json :=
  '(v, r) ← pvalue (json_fuel s) max_nesting s;
  match skip_ws r with EmptyString => Some v | _ => None end.

(** ** Printing *)

Fixpoint str_join (sep : string) (l : list string) : string :=
  match l with
  | [] => ""
  | [s] => s
  | s :: l => s +:+ sep +:+ str_join sep l
  end.

Definition quoted (raw : string) : string := String quote (raw +:+ str1 quote).

Fixpoint json_print (v : json) : string :=
  match v with
  | JNull => "null"
  | JBool true => "true"
  | JBool false => "false"
  | JNum lit => lit
  | JStr raw => quoted raw
  | JArr l => "[" +:+ str_join "," (map json_print l) +:+ "]"
  | JObj ms =>
      "{" +:+ str_join "," (map (λ '(k, v), quoted k +:+ ":" +:+ json_print v) ms) +:+ "}"
  end.

(** ** Decoding into Go types *)

(** encoding/json prefers an exact match of a field name and falls back to a
    match under case folding.  Of the runes outside ASCII, only U+017F and
    U+212A fold to an ASCII letter. *)
Definition fold_ascii (c : ascii) : ascii :=
  if between 97 122 c then chr (code c - 32) else c.
Definition fold_rune (r : rune) : string :=
  match r with
  | R1 c => str1 (fold_ascii c)
  | R2 a b => if Ascii.eqb a "197" && Ascii.eqb b "191" then "S" else rune_bytes r
  | R3 a b c =>
      if Ascii.eqb a "226" && Ascii.eqb b "132" && Ascii.eqb c "170" then "K" else rune_bytes r
  | _ => rune_bytes r
  end.
Fixpoint fold_runes (l : list rune) : string :=
  match l with
  | [] => ""
  | r :: l => fold_rune r +:+ fold_runes l
  end.
Definition fold_name (s : string) : string := fold_runes (runes s).

(** A member's raw key names the struct field [field]. *)
Definition names (raw field : string) : bool :=
  match unquote raw with
  | Some k => bool_decide (fold_name k = fold_name field)
  | None => false
  end.

(** Storing a value in a field of pointer type: [null] stores nil. *)
Definition dec_string (v : json) : option (option string) :=
  match v with
  | JNull => Some None
  | JStr raw => Some <$> unquote raw
  | _ => None
  end.

Definition dec_int (w : Z) (v : json) : option (option Z) :=
  match v with
  | JNull => Some None
  | JNum lit =>
      match ParseInt lit with
      | Ok n => if in_range w n then Some (Some n) else None
      | Err _ => None
      end
  | _ => None
  end.

(** A struct, member by member in the order of the text. *)
Definition dec_members {A} (step : A → string → json → option A) : A → list (string * json) → option A :=
  foldl (λ acc '(k, v), acc ← acc; step acc k v) ∘ Some.
