(* ===== verification/JsonFacts.v ===== *)
(** * Facts about the JSON parser

    The fuel of [json_parse] never decides its result, and parsing what
    [json_print] wrote gives the value back. *)
From S2P Require Import Prelude GoErrors GoStrconv GoUtf8 Json.

Create HintDb json discriminated.

Abbreviation len := String.length.

(** ** Every scanner returns a suffix of its input *)

Lemma skip_ws_len s : len (skip_ws s) ≤ len s.
Proof. induction s as [|c s IH]; simpl; [done|]. case_match; simpl; lia. Qed.

Lemma expect_len c s r : expect c s = Some r → len s = S (len r).
Proof. destruct s; simpl; [done|]. intros. by case_match; simplify_eq. Qed.

Lemma strip_len w s r : strip w s = Some r → len r ≤ len s.
Proof.
  revert s. induction w as [|a w IH]; intros [|b s] H; simplify_eq/=; try lia.
  case_match; [|done]. apply IH in H. lia.
Qed.

Lemma strip_text p q : strip p (p +:+ q) = Some q.
Proof. induction p as [|c p IH]; [done|]. rewrite str_app_cons. cbn [strip]. by rewrite Ascii.eqb_refl. Qed.

Lemma scan_str_len s raw r : scan_str s = Some (raw, r) → len r < len s.
Proof.
  remember (len s) as n eqn:Hn. assert (len s ≤ n) as Hle by lia. rewrite Hn. clear Hn.
  revert s raw r Hle. induction n as [|n IH]; intros s raw r Hle H;
    destruct s as [|c s]; simplify_eq/=; [lia|].
  repeat first [case_match; simplify_eq/= | done];
    try (apply fmap_Some in H as ([raw' r'] & H & ?); simplify_eq/=;
         apply IH in H; simpl in *; lia).
  lia.
Qed.

Lemma take_digits_len s : len (take_digits s).2 ≤ len s.
Proof.
  induction s as [|c s IH]; simpl; [done|]. case_match; simpl; [|done].
  destruct (take_digits s). simpl in *. lia.
Qed.

Lemma digits1_len s ds r : digits1 s = Some (ds, r) → len r ≤ len s.
Proof.
  unfold digits1. pose proof (take_digits_len s). destruct (take_digits s) as [[|] ?];
    intros; simplify_eq/=; lia.
Qed.

Lemma scan_int_len s i r : scan_int s = Some (i, r) → len r < len s.
Proof.
  destruct s as [|c s]; simpl; [done|]. pose proof (take_digits_len s).
  repeat case_match; intros; simplify_eq/=; lia.
Qed.

Lemma scan_frac_len s f r : scan_frac s = Some (f, r) → len r ≤ len s.
Proof.
  unfold scan_frac. case_match eqn:E; [|naive_solver].
  intros ([d r'] & H & ?)%fmap_Some. apply expect_len in E. apply digits1_len in H.
  simplify_eq/=. lia.
Qed.

Lemma scan_exp_len s e r : scan_exp s = Some (e, r) → len r ≤ len s.
Proof.
  destruct s as [|c s]; simpl; [naive_solver|]. case_match; [|naive_solver].
  destruct s as [|g s]; [done|].
  case_match; intros ([d r'] & Hd%digits1_len & ?)%fmap_Some; simplify_eq/=; lia.
Qed.

Lemma scan_num_len s l r : scan_num s = Some (l, r) → len r < len s.
Proof.
  unfold scan_num.
  assert (∃ sg s', (match expect "-" s with Some r => ("-", r) | None => ("", s) end) = (sg, s')
                   ∧ len s' ≤ len s) as (sg & s' & -> & Hl).
  { case_match eqn:E; [apply expect_len in E|]; eexists _, _; split; eauto; lia. }
  intros ([i r1] & H1%scan_int_len & ([f r2] & H2%scan_frac_len & ([e r3] & H3%scan_exp_len & ?)%bind_Some)%bind_Some)%bind_Some.
  simplify_eq/=. lia.
Qed.

(** [fmap_inv] opens a successful [<$>] or [≫=] in the hypotheses. *)
Ltac opt_inv :=
  repeat match goal with
  | H : _ <$> _ = Some _ |- _ => apply fmap_Some in H as (? & H & ?); simplify_eq/=
  | H : _ ≫= _ = Some _ |- _ => apply bind_Some in H as (? & ? & H)
  | p : _ * _ |- _ => destruct p
  | H : (_, _) = _ |- _ => progress simplify_eq/=
  end.

(** The parser consumes at least one byte. *)
Lemma parse_len n :
  (∀ d s v r, pvalue n d s = Some (v, r) → len r < len s) ∧
  (∀ d s l r, pelems n d s = Some (l, r) → len r < len s) ∧
  (∀ d s l r, pmembers n d s = Some (l, r) → len r < len s).
Proof.
  induction n as [|n (IHv & IHe & IHm)]; [done|].
  split; [|split]; intros d s v r H; simpl in H; pose proof (skip_ws_len s).
  - destruct (skip_ws s) as [|c t]; [done|]. simpl in *. pose proof (skip_ws_len t).
    repeat first [case_match; simplify_eq/= | done]; opt_inv;
    repeat match goal with
    | H : expect _ _ = Some _ |- _ => apply expect_len in H
    | H : strip _ _ = Some _ |- _ => apply strip_len in H
    | H : scan_str _ = Some _ |- _ => apply scan_str_len in H
    | H : pmembers _ _ _ = Some _ |- _ => apply IHm in H
    | H : pelems _ _ _ = Some _ |- _ => apply IHe in H
    | H : scan_num _ = Some _ |- _ => apply scan_num_len in H; simpl in H
    end; lia.
  - opt_inv.
    match goal with H : pvalue _ _ _ = Some (_, ?x) |- _ =>
      apply IHv in H; pose proof (skip_ws_len x) end.
    repeat first [case_match; simplify_eq/= | done]; opt_inv;
    repeat match goal with
    | H : expect _ _ = Some _ |- _ => apply expect_len in H
    | H : pelems _ _ _ = Some _ |- _ => apply IHe in H
    end; lia.
  - opt_inv.
    repeat match goal with
    | H : expect _ (skip_ws ?x) = Some _ |- _ => pose proof (skip_ws_len x); apply expect_len in H
    | H : scan_str _ = Some _ |- _ => apply scan_str_len in H
    | H : pvalue _ _ _ = Some _ |- _ => apply IHv in H
    end.
    match goal with H : match expect _ (skip_ws ?x) with _ => _ end = _ |- _ =>
      pose proof (skip_ws_len x) end.
    repeat first [case_match; simplify_eq/= | done]; opt_inv;
    repeat match goal with
    | H : expect _ _ = Some _ |- _ => apply expect_len in H
    | H : pmembers _ _ _ = Some _ |- _ => apply IHm in H
    end; lia.
Qed.

(** ** Enough fuel *)

(** [f x = g x] for the rest of the input a successful prefix leaves. *)
Lemma bind_cong {A B} (m : option A) (f g : A → option B) :
  (∀ a, m = Some a → f a = g a) → m ≫= f = m ≫= g.
Proof. destruct m; naive_solver. Qed.

Lemma fuel_step n :
  (∀ d s, 2 * len s + 2 ≤ n → pvalue (S n) d s = pvalue n d s) ∧
  (∀ d s, 2 * len s + 3 ≤ n → pelems (S n) d s = pelems n d s) ∧
  (∀ d s, 2 * len s + 3 ≤ n → pmembers (S n) d s = pmembers n d s).
Proof.
  induction n as [|n (IHv & IHe & IHm)]; [split; [|split]; intros; lia|].
  split; [|split]; intros d s Hn; pose proof (skip_ws_len s) as Hs.
  - remember (S n) as m eqn:Hm. rewrite Hm at 2. simpl.
    destruct (skip_ws s) as [|c t]; [done|]. simpl in Hs.
    destruct (Ascii.eqb c quote); [done|].
    destruct (Ascii.eqb c "{").
    { destruct (d =? 0)%N, (expect "}" (skip_ws t)); try done. by rewrite IHm by lia. }
    destruct (Ascii.eqb c "["); [|done].
    destruct (d =? 0)%N, (expect "]" (skip_ws t)); try done. by rewrite IHe by lia.
  - remember (S n) as m eqn:Hm. rewrite Hm at 2. simpl. rewrite IHv by lia.
    apply bind_cong. intros [v r] Hv%parse_len. pose proof (skip_ws_len r).
    destruct (expect "," (skip_ws r)) as [r'|] eqn:E; [|done].
    apply expect_len in E. by rewrite IHe by lia.
  - remember (S n) as m eqn:Hm. rewrite Hm at 2. simpl.
    apply bind_cong. intros r1 H1%expect_len.
    apply bind_cong. intros [k r2] H2%scan_str_len.
    pose proof (skip_ws_len r2). apply bind_cong. intros r3 H3%expect_len.
    rewrite IHv by lia. apply bind_cong. intros [v r4] H4%parse_len.
    pose proof (skip_ws_len r4).
    destruct (expect "," (skip_ws r4)) as [r5|] eqn:E; [|done].
    apply expect_len in E. by rewrite IHm by lia.
Qed.

(** More fuel than [json_fuel] changes nothing. *)
Lemma pvalue_fuel n d s : json_fuel s ≤ n → pvalue n d s = pvalue (json_fuel s) d s.
Proof.
  intros Hn. induction Hn as [|n Hn IH]; [done|]. unfold json_fuel in *.
  by rewrite (proj1 (fuel_step n)) by lia.
Qed.

(** ** Printing and parsing back *)

(** The literal is read back whole in front of anything that cannot extend it. *)
Definition num_stop (s : string) : bool :=
  match s with
  | EmptyString => true
  | String c _ => negb (is_digit c || Ascii.eqb c "." || Ascii.eqb c "e" || Ascii.eqb c "E")
  end.

Definition wf_raw (raw : string) : Prop :=
  ∀ r, scan_str (raw +:+ String quote r) = Some (raw, r).

Definition lit_start (c : ascii) : bool := is_digit c || Ascii.eqb c "-".

Definition wf_lit (lit : string) : Prop :=
  (∃ c l, lit = String c l ∧ lit_start c = true) ∧
  ∀ r, num_stop r = true → scan_num (lit +:+ r) = Some (lit, r).

Fixpoint json_wf (v : json) : Prop :=
  match v with
  | JNull | JBool _ => True
  | JNum lit => wf_lit lit
  | JStr raw => wf_raw raw
  | JArr l => foldr (λ v P, json_wf v ∧ P) True l
  | JObj ms => foldr (λ '(k, v) P, (wf_raw k ∧ json_wf v) ∧ P) True ms
  end.

Fixpoint json_size (v : json) : nat :=
  match v with
  | JArr l => S (foldr (λ v n, S (json_size v) + n) 0 l)
  | JObj ms => S (foldr (λ '(_, v) n, S (json_size v) + n) 0 ms)
  | _ => 1
  end.

Fixpoint json_depth (v : json) : N :=
  match v with
  | JArr l => 1 + foldr (λ v n, N.max (json_depth v) n) 0 l
  | JObj ms => 1 + foldr (λ '(_, v) n, N.max (json_depth v) n) 0 ms
  | _ => 0
  end%N.

(** Induction on a value with the hypothesis for every element. *)
Lemma json_nested_ind (P : json → Prop) :
  P JNull → (∀ b, P (JBool b)) → (∀ l, P (JNum l)) → (∀ r, P (JStr r)) →
  (∀ l, Forall P l → P (JArr l)) →
  (∀ ms, Forall (λ m, P m.2) ms → P (JObj ms)) → ∀ v, P v.
Proof.
  intros Hn Hb Hl Hs Ha Ho. fix IH 1. intros [|b|l|r|l|ms].
  - exact Hn.
  - apply Hb.
  - apply Hl.
  - apply Hs.
  - apply Ha. induction l as [|v l IHl]; constructor; [apply IH|exact IHl].
  - apply Ho. induction ms as [|[k v] ms IHms]; constructor; [apply IH|exact IHms].
Qed.

Lemma lit_start_ws c : lit_start c = true → is_ws c = false.
Proof. by destruct c as [[] [] [] [] [] [] [] []]. Qed.

(** The first byte of a printed value is no whitespace and no closing bracket. *)
Lemma print_head v :
  json_wf v → ∃ c r, json_print v = String c r ∧ is_ws c = false ∧
    Ascii.eqb c "]" = false.
Proof.
  destruct v as [|[]|l|raw|l|ms]; simpl; intros H; try (by eexists _, _; eauto).
  destruct H as [(c & l' & -> & Hc) _]. exists c, l'. split; [done|].
  by destruct c as [[] [] [] [] [] [] [] []].
Qed.

Lemma skip_ws_head c r : is_ws c = false → skip_ws (String c r) = String c r.
Proof. simpl. by intros ->. Qed.

Lemma expect_head c d r : expect c (String d r) = if Ascii.eqb d c then Some r else None.
Proof. done. Qed.

(** What the round trip says of one value. *)
Definition reads_back (v : json) : Prop :=
  ∀ n d r, json_wf v → json_size v ≤ n → (json_depth v ≤ d)%N → num_stop r = true →
    pvalue n d (json_print v +:+ r) = Some (v, r).

Lemma num_stop_bracket c r :
  Ascii.eqb c "," || Ascii.eqb c "]" || Ascii.eqb c "}" = true → num_stop (String c r) = true.
Proof. by destruct c as [[] [] [] [] [] [] [] []]. Qed.

Lemma str_join_cons sep s l :
  l ≠ [] → str_join sep (s :: l) = s +:+ sep +:+ str_join sep l.
Proof. by destruct l. Qed.

Lemma scan_quoted raw r : wf_raw raw → scan_str (raw +:+ String quote "" +:+ r) = Some (raw, r).
Proof. intros H. apply H. Qed.

Lemma reads_elems l v :
  reads_back v → Forall reads_back l →
  ∀ n d r, json_wf (JArr (v :: l)) → json_size (JArr (v :: l)) ≤ S n →
    (json_depth (JArr (v :: l)) ≤ 1 + d)%N →
    pelems n d (str_join "," (map json_print (v :: l)) +:+ String "]" r) = Some (v :: l, r).
Proof.
  intros Hv Hl. revert v Hv. induction Hl as [|w l Hw Hl IH]; intros v Hv n d r Hwf Hn Hd;
    (destruct n as [|n]; [simpl in Hn; lia|]); simpl in Hn, Hd; destruct Hwf as [Hwfv Hwfl].
  - cbn [map str_join pelems]. rewrite (Hv n d (String "]" r)) by (done || lia). done.
  - rewrite map_cons, str_join_cons by done. rewrite <- !str_app_assoc.
    pose proof (IH w Hw n d r Hwfl ltac:(simpl; lia) ltac:(simpl; lia)) as HE.
    remember (str_join "," (map json_print (w :: l)) +:+ String "]" r) as u eqn:Hu.
    change ("," +:+ u) with (String "," u). cbn [pelems].
    rewrite (Hv n d (String "," u)) by (done || lia). simpl. by rewrite HE.
Qed.

Definition print_member (m : string * json) : string :=
  quoted m.1 +:+ ":" +:+ json_print m.2.

Lemma pmembers_print k v u n d :
  wf_raw k →
  pmembers (S n) d (print_member (k, v) +:+ u) =
    '(w, r) ← pvalue n d (json_print v +:+ u);
    match expect "," (skip_ws r), expect "}" (skip_ws r) with
    | Some r, _ => prod_map (cons (k, w)) id <$> pmembers n d r
    | None, Some r => Some ([(k, w)], r)
    | None, None => None
    end.
Proof.
  intros Hk. unfold print_member, quoted, str1. cbn [fst snd].
  rewrite <- !str_app_assoc, str_app_cons, <- !str_app_assoc.
  cbn [pmembers]. rewrite skip_ws_head, expect_head by done. simpl.
  by rewrite scan_quoted.
Qed.

Lemma reads_members ms m :
  reads_back m.2 → Forall (λ m, reads_back m.2) ms →
  ∀ n d r, json_wf (JObj (m :: ms)) → json_size (JObj (m :: ms)) ≤ S n →
    (json_depth (JObj (m :: ms)) ≤ 1 + d)%N →
    pmembers n d (str_join "," (map print_member (m :: ms)) +:+ String "}" r) = Some (m :: ms, r).
Proof.
  intros Hm Hms. revert m Hm. induction Hms as [|w ms Hw Hms IH]; intros [k v] Hm n d r Hwf Hn Hd;
    (destruct n as [|n]; [simpl in Hn; lia|]); simpl in Hn, Hd, Hm; destruct Hwf as [[Hk Hwfv] Hwfl].
  - cbn [map str_join]. rewrite pmembers_print by done.
    by rewrite (Hm n d (String "}" r)) by (done || lia).
  - rewrite map_cons, str_join_cons by done.
    pose proof (IH w Hw n d r Hwfl ltac:(destruct w; simpl in *; lia)
      ltac:(destruct w; simpl in *; lia)) as HE.
    rewrite <- !str_app_assoc, pmembers_print by done.
    rewrite (Hm n d) by (done || lia). exact (f_equal (fmap (prod_map (cons (k, v)) id)) HE).
Qed.

Lemma json_print_obj ms : json_print (JObj ms) = "{" +:+ str_join "," (map print_member ms) +:+ "}".
Proof. simpl. do 2 f_equal. f_equal. apply map_ext. by intros [k v]. Qed.

Lemma join_head c s l : ∃ t, str_join "," (String c s :: l) = String c t.
Proof. destruct l; simpl; eauto. Qed.

Lemma pvalue_arr n d s :
  (0 < d)%N →
  pvalue (S n) d (String "[" s) =
    match expect "]" (skip_ws s) with
    | Some r => Some (JArr [], r)
    | None => prod_map JArr id <$> pelems n (d - 1) s
    end.
Proof. intros Hd. simpl. by rewrite (proj2 (N.eqb_neq d 0)) by lia. Qed.

Lemma pvalue_obj n d s :
  (0 < d)%N →
  pvalue (S n) d (String "{" s) =
    match expect "}" (skip_ws s) with
    | Some r => Some (JObj [], r)
    | None => prod_map JObj id <$> pmembers n (d - 1) s
    end.
Proof. intros Hd. simpl. by rewrite (proj2 (N.eqb_neq d 0)) by lia. Qed.

Lemma reads_back_all v : reads_back v.
Proof.
  induction v as [|b|lit|raw|l Hl|ms Hms] using json_nested_ind; intros n d r Hwf Hn Hd Hr;
    (destruct n as [|n]; [simpl in Hn; lia|]).
  - done.
  - by destruct b.
  - destruct Hwf as [(c & l & -> & Hc) Hlit]. specialize (Hlit r Hr).
    cbn [json_print]. rewrite str_app_cons in *. cbn [pvalue].
    rewrite skip_ws_head by by apply lit_start_ws.
    assert (Ascii.eqb c quote = false ∧ Ascii.eqb c "{" = false ∧ Ascii.eqb c "[" = false ∧
      Ascii.eqb c "n" = false ∧ Ascii.eqb c "t" = false ∧ Ascii.eqb c "f" = false)
      as (-> & -> & -> & -> & -> & ->) by by destruct c as [[] [] [] [] [] [] [] []].
    by rewrite Hlit.
  - cbn [json_print]. unfold quoted. rewrite str_app_cons, <- str_app_assoc. simpl.
    by rewrite scan_quoted.
  - destruct l as [|v l]; [cbn in *; by rewrite (proj2 (N.eqb_neq d 0)) by lia|].
    inversion_clear Hl as [|? ? Hv Hl']. cbn [json_print].
    rewrite <- !str_app_assoc, str_app_cons, str_app_nil_l. change ("]" +:+ r) with (String "]" r).
    rewrite pvalue_arr by (simpl in Hd; lia).
    destruct (print_head v) as (c & t & Hc & Hws & Hb); [apply Hwf|].
    pose proof (reads_elems l v Hv Hl' n (d - 1)%N r Hwf Hn ltac:(lia)) as HE.
    cbn [map] in HE |- *. rewrite Hc in HE |- *.
    destruct (join_head c t (map json_print l)) as [u Hu]. rewrite Hu in HE |- *.
    rewrite str_app_cons in *. by rewrite skip_ws_head, expect_head, Hb, HE by done.
  - destruct ms as [|m ms]; [cbn in *; by rewrite (proj2 (N.eqb_neq d 0)) by lia|].
    inversion_clear Hms as [|? ? Hm Hms']. rewrite json_print_obj.
    rewrite <- !str_app_assoc, str_app_cons, str_app_nil_l. change ("}" +:+ r) with (String "}" r).
    rewrite pvalue_obj by (simpl in Hd; lia).
    pose proof (reads_members ms m Hm Hms' n (d - 1)%N r Hwf Hn ltac:(lia)) as HE.
    cbn [map] in HE |- *.
    assert (∃ t, print_member m = String quote t) as [t Ht] by (destruct m; eauto).
    rewrite Ht in HE |- *. destruct (join_head quote t (map print_member ms)) as [u Hu].
    rewrite Hu in HE |- *. rewrite str_app_cons in *.
    by rewrite skip_ws_head, expect_head, HE by done.
Qed.

(** The fuel of [json_parse] covers what [json_print] wrote. *)
Lemma str_join_len l : sum_list_with (S ∘ len) l ≤ S (len (str_join "," l)).
Proof.
  induction l as [|s l IH]; [simpl; lia|]. destruct l as [|s' l]; [simpl; lia|].
  rewrite str_join_cons by done. rewrite !str_app_length. simpl in *. lia.
Qed.

Lemma json_size_len v : json_wf v → json_size v ≤ 2 * len (json_print v).
Proof.
  induction v as [|b|lit|raw|l Hl|ms Hms] using json_nested_ind; intros Hwf.
  - simpl. lia.
  - destruct b; simpl; lia.
  - destruct Hwf as [(c & l & -> & _) _]. simpl. lia.
  - simpl. lia.
  - cbn [json_print]. rewrite !str_app_length. simpl (len "[" + _).
    pose proof (str_join_len (map json_print l)). simpl in Hwf |- *.
    enough (foldr (λ v n, S (json_size v + n)) 0 l
      ≤ 2 * sum_list_with (S ∘ len) (map json_print l)) by lia.
    clear H. induction Hl as [|v l Hv Hl IH]; simpl in *; [lia|].
    destruct Hwf as [Hv' Hl']. specialize (Hv Hv'). specialize (IH Hl'). lia.
  - rewrite json_print_obj, !str_app_length. simpl (len "{" + _).
    pose proof (str_join_len (map print_member ms)). simpl in Hwf |- *.
    enough (foldr (λ '(_, v) n, S (json_size v + n)) 0 ms
      ≤ 2 * sum_list_with (S ∘ len) (map print_member ms)) by lia.
    clear H. induction Hms as [|[k v] ms Hv Hms IH]; [simpl; lia|].
    destruct Hwf as [[_ Hv'] Hl']. specialize (Hv Hv'). specialize (IH Hl').
    assert (len (json_print v) ≤ len (print_member (k, v))) as Hlen.
    { unfold print_member. cbn [fst snd]. rewrite !str_app_length. lia. }
    cbn [foldr map sum_list_with compose snd] in *. lia.
Qed.

(** Round trip on values. *)
Lemma json_parse_print v :
  json_wf v → (json_depth v ≤ max_nesting)%N → json_parse (json_print v) = Some v.
Proof.
  intros Hwf Hd. unfold json_parse.
  pose proof (json_size_len v Hwf). pose proof (reads_back_all v) as Hv.
  specialize (Hv (json_fuel (json_print v)) max_nesting "" Hwf).
  rewrite str_app_nil_r in Hv. rewrite Hv; [done|unfold json_fuel; lia|done..].
Qed.

(** ** Well-formed strings and numbers *)

(** Rune by rune, the scanner copies what [escape] writes. *)
Lemma scan_esc_ascii c s :
  is_ascii c = true →
  scan_str (runes_bytes (esc_ascii c) +:+ s)
    = prod_map (String.append (runes_bytes (esc_ascii c))) id <$> scan_str s.
Proof.
  destruct c as [[] [] [] [] [] [] [] []]; intros H; try done;
    by destruct (scan_str s) as [[]|] eqn:E;
      cbn -[scan_str]; rewrite ?str_app_cons, ?str_app_nil_l; simpl; rewrite E.
Qed.

Lemma scan_high c s :
  is_ascii c = false → scan_str (String c s) = prod_map (String c) id <$> scan_str s.
Proof. by destruct c as [[] [] [] [] [] [] [] []]. Qed.

Lemma high_byte lo hi c : between lo hi c = true → (128 ≤ lo)%Z → is_ascii c = false.
Proof. intros H%between_iff ?. unfold is_ascii. lia. Qed.

Lemma rune_high r :
  rune_ok r = true →
  match r with
  | R1 _ | RBad _ => True
  | R2 a b => is_ascii a = false ∧ is_ascii b = false
  | R3 a b c => is_ascii a = false ∧ is_ascii b = false ∧ is_ascii c = false
  | R4 a b c d => is_ascii a = false ∧ is_ascii b = false ∧ is_ascii c = false ∧ is_ascii d = false
  end.
Proof. destruct r; intros H; simpl in H; [done|..|done]; unfold_bytes; unfold is_ascii; lia. Qed.

Lemma scan_esc_rune r s :
  rune_ok r = true →
  scan_str (runes_bytes (esc_rune r) +:+ s)
    = prod_map (String.append (runes_bytes (esc_rune r))) id <$> scan_str s.
Proof.
  intros Hr. pose proof (rune_high r Hr) as Hhigh.
  destruct r as [a|a b|a b c|a b c d|a]; cbn [esc_rune] in *; [by apply scan_esc_ascii|..|done].
  - destruct Hhigh as [Ha Hb]. cbn [runes_bytes rune_bytes]. unfold str1.
    autorewrite with parcel_str.
    rewrite !scan_high by done. by destruct (scan_str s) as [[]|].
  - destruct (_ && _ && _) eqn:E.
    + pose proof (u2028_bytes _ _ _ E) as [= -> -> ->].
      destruct (code c =? 168)%Z;
        match goal with |- context [runes_bytes ?l] =>
          let x := eval vm_compute in (runes_bytes l) in change (runes_bytes l) with x
        end; rewrite !str_app_cons, str_app_nil_l; simpl; by destruct (scan_str s) as [[]|].
    + destruct Hhigh as (Ha & Hb & Hc). cbn [runes_bytes rune_bytes]. unfold str1.
      autorewrite with parcel_str.
      rewrite !scan_high by done. by destruct (scan_str s) as [[]|].
  - destruct Hhigh as (Ha & Hb & Hc & Hd). cbn [runes_bytes rune_bytes]. unfold str1.
    autorewrite with parcel_str.
    rewrite !scan_high by done. by destruct (scan_str s) as [[]|].
Qed.

Lemma wf_raw_escape s : utf8_valid s = true → wf_raw (escape s).
Proof.
  unfold utf8_valid, escape. intros Hs r. induction (runes s) as [|x l IH]; [done|].
  simpl in *. apply andb_true_iff in Hs as [Hx Hl].
  rewrite runes_bytes_app, <- str_app_assoc, scan_esc_rune by done.
  by rewrite IH by done.
Qed.

(** The decimal form of an integer is a number literal. *)
Lemma num_stop_digits r : num_stop r = true → take_digits r = ("", r).
Proof.
  destruct r as [|c r]; [done|]. simpl. by destruct (is_digit c).
Qed.

Lemma scan_tail_stop r :
  num_stop r = true → scan_frac r = Some ("", r) ∧ scan_exp r = Some ("", r).
Proof.
  destruct r as [|c r]; [done|]. simpl. unfold scan_frac. rewrite expect_head.
  by destruct (is_digit c), (Ascii.eqb c "."), (Ascii.eqb c "e"), (Ascii.eqb c "E").
Qed.

Lemma digit_facts d :
  (0 ≤ d < 10)%Z → is_digit (digit d) = true ∧ Ascii.eqb (digit d) "-" = false ∧
    Ascii.eqb (digit d) "0" = bool_decide (d = 0%Z).
Proof.
  intros Hd. assert (d ∈ [0;1;2;3;4;5;6;7;8;9]%Z) as Hin by (repeat rewrite elem_of_cons; lia).
  repeat (apply elem_of_cons in Hin as [->|Hin]; [done|]). by apply not_elem_of_nil in Hin.
Qed.

Lemma scan_int_dec n r :
  (0 ≤ n)%Z → num_stop r = true → scan_int (dec n +:+ r) = Some (dec n, r).
Proof.
  intros Hn Hr. destruct (dec_shape n Hn) as (d & ds & Hd & H0 & Hds & ->).
  rewrite str_app_cons. simpl. destruct (digit_facts d Hd) as (-> & _ & ->).
  case_bool_decide as Hd0; [by destruct (H0 Hd0) as [_ ->]|].
  rewrite take_digits_app, (num_stop_digits r Hr) by done. simpl.
  by rewrite str_app_nil_r.
Qed.

Lemma wf_lit_Itoa z : wf_lit (Itoa z).
Proof.
  unfold Itoa. destruct (Z.ltb_spec z 0) as [Hz|Hz].
  - destruct (dec_shape (- z)) as (d & ds & Hd & _ & _ & Hs); [lia|]. split.
    + exists "-"%char, (dec (- z)). done.
    + intros r Hr. unfold scan_num. rewrite !str_app_cons, str_app_nil_l, expect_head. simpl.
      rewrite scan_int_dec by (done || lia). simpl.
      destruct (scan_tail_stop r Hr) as [-> H]. simpl. rewrite H. simpl.
      by rewrite !str_app_nil_r.
  - destruct (dec_shape z) as (d & ds & Hd & _ & _ & Hs); [lia|].
    destruct (digit_facts d Hd) as (Hdig & Hneg & _). split.
    + rewrite Hs. exists (digit d), ds. unfold lit_start. by rewrite Hdig.
    + intros r Hr. unfold scan_num.
      assert (expect "-" (dec z +:+ r) = None) as ->.
      { rewrite Hs, str_app_cons, expect_head. by rewrite Hneg. }
      rewrite scan_int_dec by (done || lia). simpl.
      destruct (scan_tail_stop r Hr) as [-> H]. simpl. rewrite H. simpl.
      by rewrite !str_app_nil_r.
Qed.

#[export] Hint Resolve wf_raw_escape wf_lit_Itoa : json.
