(* ===== verification/GoTime.v ===== *)
(** * Package time

    [time.Time] as an instant (seconds since the Unix epoch and nanoseconds)
    with the zone offset it is shown in, its RFC 3339 form as [MarshalJSON]
    writes it and [UnmarshalJSON] reads it, and [time.Duration].  Formatting and
    parsing are inverse on every UTC instant of the years 0 to 9999. *)
From S2P Require Import Prelude GoErrors GoStrconv.

Record Time := mkTime { t_sec : Z; t_nsec : Z; t_off : Z }.

#[export] Instance Time_eq_dec : EqDecision Time.
Proof. solve_decision. Defined.

(** Go's zero [Time] is January 1, year 1, 00:00:00 UTC. *)
Definition zero_Time : Time := mkTime (-62135596800) 0 0.

(** [t.UTC()]. *)
Definition UTC (t : Time) : Time := mkTime (t_sec t) (t_nsec t) 0.

Definition time_ok (t : Time) : bool :=
  bool_decide (0 ≤ t_nsec t < 1000000000)%Z.

(** Durations are nanoseconds. *)
Definition Nanosecond : Z := 1.
Definition Millisecond : Z := 1000000.
Definition Second : Z := 1000000000.
Definition Minute : Z := 60 * Second.
Definition Hour : Z := 60 * Minute.

(** ** The civil calendar *)

Definition is_leap (y : Z) : bool :=
  ((y mod 4 =? 0) && (negb (y mod 100 =? 0) || (y mod 400 =? 0)))%Z.

Definition month_lens (leap : bool) : list Z :=
  [31; if leap then 29 else 28; 31; 30; 31; 30; 31; 31; 30; 31; 30; 31]%Z.

(** [time.daysIn]. *)
Definition days_in (m y : Z) : Z := nth (Z.to_nat (m - 1)) (month_lens (is_leap y)) 0%Z.

(** Days from January 1 of year 0 to January 1 of year [y]. *)
Definition days_before_year (y : Z) : Z :=
  (365 * y + (y + 3) / 4 - (y + 99) / 100 + (y + 399) / 400)%Z.

Definition sum_Z : list Z → Z := foldr Z.add 0%Z.

Definition days_of_civil (y m d : Z) : Z :=
  (days_before_year y + sum_Z (take (Z.to_nat (m - 1)) (month_lens (is_leap y))) + d - 1)%Z.

Definition year_of_days (d : Z) : Z :=
  let y := (d * 400 / 146097)%Z in
  if (days_before_year (y + 1) <=? d)%Z then (y + 1)%Z
  else if (d <? days_before_year y)%Z then (y - 1)%Z
  else y.

(** Month and day of month of a day of the year, counting both from the month
    [m] whose length heads [lens]. *)
Fixpoint find_month (m : Z) (lens : list Z) (doy : Z) : Z * Z :=
  match lens with
  | [] => (m, doy + 1)%Z
  | l :: lens => if (doy <? l)%Z then (m, doy + 1)%Z else find_month (m + 1) lens (doy - l)
  end.

Definition civil_of_days (d : Z) : Z * Z * Z :=
  let y := year_of_days d in
  let (m, day) := find_month 1 (month_lens (is_leap y)) (d - days_before_year y) in
  (y, m, day).

(** January 1, 1970. *)
Definition unix_epoch_days : Z := 719528.

(** ** RFC 3339 *)

Fixpoint pad (k : nat) (n : Z) : string :=
  match k with
  | O => ""
  | S k => pad k (n / 10) +:+ str1 (digit (n mod 10))
  end.

(** [n] in [k] digits, without the trailing zeros. *)
Fixpoint pad_trim (k : nat) (n : Z) : string :=
  match k with
  | O => ""
  | S k' => if (n mod 10 =? 0)%Z then pad_trim k' (n / 10) else pad k n
  end.

Definition fmt_zone (off : Z) : string :=
  if (off =? 0)%Z then "Z"
  else
    let z := Z.quot off 60 in
    (if (z <? 0)%Z then "-" else "+") +:+ pad 2 (Z.abs z / 60) +:+ ":" +:+ pad 2 (Z.abs z mod 60).

(** [appendStrictRFC3339]: an error when the year does not have four digits or
    the zone is not under 24 hours. *)
Definition format_rfc3339 (t : Time) : res string :=
  let abs := (t_sec t + t_off t)%Z in
  let '(y, m, d) := civil_of_days (abs / 86400 + unix_epoch_days) in
  let sod := (abs mod 86400)%Z in
  if negb ((0 <=? y)%Z && (y <=? 9999)%Z) then
    Err (EOther "Time.MarshalJSON: year outside of range [0,9999]")
  else if (24 <=? Z.abs (Z.quot (t_off t) 60) / 60)%Z then
    Err (EOther "Time.MarshalJSON: timezone hour outside of range [0,23]")
  else
    Ok (pad 4 y +:+ "-" +:+ pad 2 m +:+ "-" +:+ pad 2 d +:+ "T" +:+
        pad 2 (sod / 3600) +:+ ":" +:+ pad 2 (sod / 60 mod 60) +:+ ":" +:+ pad 2 (sod mod 60) +:+
        (if (t_nsec t =? 0)%Z then "" else "." +:+ pad_trim 9 (t_nsec t)) +:+
        fmt_zone (t_off t)).

(** The digits [s] as a number in the given range. *)
Definition parse_uint (s : string) (lo hi : Z) : option Z :=
  n ← digits_val 0 s;
  if (lo <=? n)%Z && (n <=? hi)%Z then Some n else None.

Definition str2 (a b : ascii) : string := String a (str1 b).
Definition str4 (a b c d : ascii) : string := String a (String b (str2 c d)).

(** The optional fraction: nanoseconds from the first nine digits. *)
Definition parse_frac (s : string) : Z * string :=
  match s with
  | String "." (String c _ as r) =>
      if is_digit c then
        let (ds, rest) := take_digits r in
        let ds := str_take 9 ds in
        (default 0%Z (digits_val 0 ds) * 10 ^ (9 - Z.of_nat (String.length ds)), rest)%Z
      else (0%Z, s)
  | _ => (0%Z, s)
  end.

Definition parse_zone (s : string) : option Z :=
  match s with
  | String "Z" EmptyString => Some 0%Z
  | String sg (String h1 (String h2 (String ":" (String m1 (String m2 EmptyString))))) =>
      hr ← parse_uint (str2 h1 h2) 0 23;
      mm ← parse_uint (str2 m1 m2) 0 59;
      if Ascii.eqb sg "-" then Some (- ((hr * 60 + mm) * 60))%Z
      else if Ascii.eqb sg "+" then Some ((hr * 60 + mm) * 60)%Z
      else None
  | _ => None
  end.

(** [parseStrictRFC3339].  Its fallback to the general parser only ever changes
    the error, so every failure is [None]. *)
Definition parse_rfc3339 (s : string) : option Time :=
  match s with
  | String y1 (String y2 (String y3 (String y4 (String s1 (String m1 (String m2 (String s2
      (String d1 (String d2 (String t (String h1 (String h2 (String c1 (String n1 (String n2
      (String c2 (String e1 (String e2 r)))))))))))))))))) =>
      y ← parse_uint (str4 y1 y2 y3 y4) 0 9999;
      m ← parse_uint (str2 m1 m2) 1 12;
      d ← parse_uint (str2 d1 d2) 1 (days_in m y);
      h ← parse_uint (str2 h1 h2) 0 23;
      mi ← parse_uint (str2 n1 n2) 0 59;
      sec ← parse_uint (str2 e1 e2) 0 59;
      if Ascii.eqb s1 "-" && Ascii.eqb s2 "-" && Ascii.eqb t "T" && Ascii.eqb c1 ":" && Ascii.eqb c2 ":" then
        let (ns, r) := parse_frac r in
        off ← parse_zone r;
        Some (mkTime ((days_of_civil y m d - unix_epoch_days) * 86400
                      + h * 3600 + mi * 60 + sec - off)%Z ns off)
      else None
  | _ => None
  end.

(** ** The calendar is a bijection *)

Lemma days_before_bounds y :
  (146097 * y - 400 <= 400 * days_before_year y <= 146097 * y + 700)%Z.
Proof.
  unfold days_before_year.
  pose proof (Z.div_mod (y + 3) 4). pose proof (Z.mod_pos_bound (y + 3) 4).
  pose proof (Z.div_mod (y + 99) 100). pose proof (Z.mod_pos_bound (y + 99) 100).
  pose proof (Z.div_mod (y + 399) 400). pose proof (Z.mod_pos_bound (y + 399) 400).
  lia.
Qed.

Lemma year_of_days_spec d :
  (days_before_year (year_of_days d) <= d < days_before_year (year_of_days d + 1))%Z.
Proof.
  unfold year_of_days. set (y := (d * 400 / 146097)%Z).
  pose proof (Z.div_mod (d * 400) 146097). pose proof (Z.mod_pos_bound (d * 400) 146097).
  pose proof (days_before_bounds (y - 1)). pose proof (days_before_bounds (y + 1 + 1)).
  destruct (Z.leb_spec (days_before_year (y + 1)) d); [lia|].
  destruct (Z.ltb_spec d (days_before_year y)); [|lia].
  replace (y - 1 + 1)%Z with y by lia. lia.
Qed.

Lemma div_ceil_step k y :
  (0 < k)%Z → ((y + 1 + (k - 1)) / k = (y + (k - 1)) / k + if y mod k =? 0 then 1 else 0)%Z.
Proof.
  intros Hk. replace (y + 1 + (k - 1))%Z with (y + 1 * k)%Z by lia.
  rewrite Z.div_add by lia.
  pose proof (Z.div_mod y k ltac:(lia)) as E. pose proof (Z.mod_pos_bound y k Hk).
  destruct (Z.eqb_spec (y mod k) 0) as [Hm|Hm].
  - rewrite <- (Z.div_unique_pos (y + (k - 1)) k (y / k) (k - 1)); lia.
  - rewrite <- (Z.div_unique_pos (y + (k - 1)) k (y / k + 1) (y mod k - 1)); lia.
Qed.

Lemma year_length y :
  (days_before_year (y + 1) = days_before_year y + sum_Z (month_lens (is_leap y)))%Z.
Proof.
  assert (sum_Z (month_lens (is_leap y)) = 365 + if is_leap y then 1 else 0)%Z as ->
    by (by destruct (is_leap y)).
  pose proof (div_ceil_step 4 y ltac:(lia)). pose proof (div_ceil_step 100 y ltac:(lia)).
  pose proof (div_ceil_step 400 y ltac:(lia)).
  unfold days_before_year, is_leap.
  change (4 - 1)%Z with 3%Z in *. change (100 - 1)%Z with 99%Z in *.
  change (400 - 1)%Z with 399%Z in *.
  assert (y mod 100 = 0 → y mod 4 = 0)%Z by (intros; Z.div_mod_to_equations; lia).
  assert (y mod 400 = 0 → y mod 100 = 0)%Z by (intros; Z.div_mod_to_equations; lia).
  destruct (Z.eqb_spec (y mod 4) 0), (Z.eqb_spec (y mod 100) 0), (Z.eqb_spec (y mod 400) 0);
    simpl; lia.
Qed.

(** [find_month] splits a day of the year into whole months and a remainder. *)
Lemma find_month_spec lens m doy :
  (0 <= doy < sum_Z lens)%Z →
  ∃ i, i < length lens ∧
    find_month m lens doy = (m + Z.of_nat i, doy - sum_Z (take i lens) + 1)%Z ∧
    (0 <= doy - sum_Z (take i lens) < nth i lens 0)%Z.
Proof.
  revert m doy. induction lens as [|l lens IH]; intros m doy Hd; simpl in *; [lia|].
  destruct (Z.ltb_spec doy l).
  - exists 0. rewrite Z.add_0_r. simpl. rewrite Z.sub_0_r. split; [lia|]. split; [done|lia].
  - destruct (IH (m + 1)%Z (doy - l)%Z) as (i & Hi & -> & Hr); [lia|].
    exists (S i). simpl. split; [lia|]. split; [f_equal; lia|lia].
Qed.

Lemma month_lens_length b : length (month_lens b) = 12.
Proof. done. Qed.

Lemma civil_of_days_spec d y m day :
  civil_of_days d = (y, m, day) →
  days_of_civil y m day = d ∧ (1 <= m <= 12)%Z ∧ (1 <= day <= days_in m y)%Z ∧ (day <= 31)%Z.
Proof.
  unfold civil_of_days. pose proof (year_of_days_spec d) as Hy.
  set (y0 := year_of_days d) in *. rewrite year_length in Hy.
  destruct (find_month_spec (month_lens (is_leap y0)) 1 (d - days_before_year y0))
    as (i & Hi & -> & Hr); [lia|].
  rewrite month_lens_length in Hi.
  intros [= <- <- <-]. unfold days_of_civil, days_in.
  replace (Z.to_nat (1 + Z.of_nat i - 1)) with i by lia.
  split; [lia|]. split; [lia|]. split; [lia|].
  assert (nth i (month_lens (is_leap y0)) 0 <= 31)%Z; [|lia].
  do 12 (destruct i as [|i]; [by destruct (is_leap y0)|]). lia.
Qed.

(** ** Fixed-width numbers *)

Lemma digits_val_app acc s t v :
  digits_val acc s = Some v → digits_val acc (s +:+ t) = digits_val v t.
Proof.
  revert acc. induction s as [|c s IH]; intros acc; simpl; [by intros [= ->]|].
  rewrite ?str_app_cons. simpl. case_match; [apply IH|done].
Qed.

Lemma pad_val k n acc :
  (0 <= n < 10 ^ Z.of_nat k)%Z →
  digits_val acc (pad k n) = Some (acc * 10 ^ Z.of_nat k + n)%Z.
Proof.
  revert n. induction k as [|k IH]; intros n Hn.
  { simpl in *. f_equal. lia. }
  rewrite Nat2Z.inj_succ, Z.pow_succ_r in * by lia.
  pose proof (Z.div_mod n 10). pose proof (Z.mod_pos_bound n 10).
  cbn [pad]. erewrite digits_val_app by (apply IH; lia). simpl.
  rewrite digit_is_digit, digit_code by lia. f_equal. lia.
Qed.

Lemma pad_length k n : String.length (pad k n) = k.
Proof.
  revert n. induction k as [|k IH]; intros n; [done|]. simpl.
  rewrite str_app_length, IH. simpl. lia.
Qed.

Lemma pad_digits k n : (0 <= n)%Z → str_forall is_digit (pad k n) = true.
Proof.
  revert n. induction k as [|k IH]; intros n Hn; [done|]. cbn [pad].
  rewrite str_forall_app, IH by (apply Z.div_pos; lia). simpl.
  pose proof (Z.mod_pos_bound n 10). by rewrite digit_is_digit by lia.
Qed.

Lemma pad_trim_pad k n :
  (0 < n < 10 ^ Z.of_nat k)%Z →
  ∃ j m, 1 ≤ j ≤ k ∧ pad_trim k n = pad j m ∧ (0 <= m < 10 ^ Z.of_nat j)%Z ∧
    (n = m * 10 ^ (Z.of_nat k - Z.of_nat j))%Z.
Proof.
  revert n. induction k as [|k IH]; intros n Hn; [simpl in Hn; lia|].
  pose proof Hn as Hn'. rewrite Nat2Z.inj_succ, Z.pow_succ_r in Hn' by lia.
  pose proof (Z.div_mod n 10). pose proof (Z.mod_pos_bound n 10).
  cbn [pad_trim]. destruct (Z.eqb_spec (n mod 10) 0).
  - destruct (IH (n / 10)%Z) as (j & m & Hj & -> & Hm & Hv); [lia|].
    exists j, m. split; [lia|]. split; [done|]. split; [done|].
    replace (Z.of_nat (S k) - Z.of_nat j)%Z with (Z.succ (Z.of_nat k - Z.of_nat j)) by lia.
    rewrite Z.pow_succ_r by lia. lia.
  - exists (S k), n. split; [lia|]. split; [done|]. split; [lia|].
    rewrite Z.sub_diag. lia.
Qed.

Lemma pad2 n : pad 2 n = str2 (digit ((n / 10) mod 10)) (digit (n mod 10)).
Proof. done. Qed.
Lemma pad4 n :
  pad 4 n = str4 (digit ((n / 10 / 10 / 10) mod 10)) (digit ((n / 10 / 10) mod 10))
                 (digit ((n / 10) mod 10)) (digit (n mod 10)).
Proof. done. Qed.

Lemma parse_uint_pad k n lo hi :
  (0 <= n < 10 ^ Z.of_nat k)%Z → (lo <= n <= hi)%Z → parse_uint (pad k n) lo hi = Some n.
Proof.
  intros Hn Hr. unfold parse_uint. rewrite pad_val by done. simpl.
  rewrite (proj2 (Z.leb_le _ _)), (proj2 (Z.leb_le _ _)) by lia. simpl. done.
Qed.

Lemma parse_frac_fmt n :
  (0 <= n < 1000000000)%Z →
  parse_frac ((if (n =? 0)%Z then "" else "." +:+ pad_trim 9 n) +:+ "Z") = (n, "Z").
Proof.
  intros Hn. destruct (Z.eqb_spec n 0) as [->|]; [done|].
  destruct (pad_trim_pad 9 n) as (j & m & Hj & -> & Hm & ->);
    [change (10 ^ Z.of_nat 9)%Z with 1000000000%Z; lia|].
  pose proof (pad_digits j m ltac:(lia)) as Hd. pose proof (pad_length j m) as Hl.
  rewrite !str_app_cons, str_app_nil_l.
  destruct (pad j m) as [|c s] eqn:E; [simpl in Hl; lia|].
  rewrite str_app_cons. cbn [parse_frac].
  pose proof Hd as Hd'. simpl in Hd'. apply andb_true_iff in Hd' as [-> _].
  rewrite <- str_app_cons, take_digits_app by done. cbn [take_digits].
  change (is_digit "Z") with false. cbn [fst snd]. rewrite str_app_nil_r, <- E.
  assert (str_take 9 (pad j m) = pad j m) as ->.
  { apply str_take_ge. rewrite pad_length. lia. }
  rewrite pad_val, pad_length by done. done.
Qed.

(** ** The round trip *)

Lemma parse_digits y m d h mi e r off ns :
  (0 <= y <= 9999)%Z → (1 <= m <= 12)%Z → (1 <= d <= days_in m y)%Z → (d <= 31)%Z →
  (0 <= h <= 23)%Z → (0 <= mi <= 59)%Z → (0 <= e <= 59)%Z →
  (∃ s, parse_frac r = (ns, s) ∧ parse_zone s = Some off) →
  parse_rfc3339 (pad 4 y +:+ "-" +:+ pad 2 m +:+ "-" +:+ pad 2 d +:+ "T" +:+
        pad 2 h +:+ ":" +:+ pad 2 mi +:+ ":" +:+ pad 2 e +:+ r)
  = Some (mkTime ((days_of_civil y m d - unix_epoch_days) * 86400 + h * 3600 + mi * 60 + e - off)
            ns off).
Proof.
  intros Hy Hm Hd Hd' Hh Hmi He (s & Hf & Hz).
  pose proof (parse_uint_pad 4 y 0 9999 ltac:(simpl; lia) Hy) as Py.
  pose proof (parse_uint_pad 2 m 1 12 ltac:(simpl; lia) Hm) as Pm.
  pose proof (parse_uint_pad 2 d 1 _ ltac:(simpl; lia) Hd) as Pd.
  pose proof (parse_uint_pad 2 h 0 23 ltac:(simpl; lia) Hh) as Ph.
  pose proof (parse_uint_pad 2 mi 0 59 ltac:(simpl; lia) Hmi) as Pmi.
  pose proof (parse_uint_pad 2 e 0 59 ltac:(simpl; lia) He) as Pe.
  rewrite pad2 in Pm, Pd, Ph, Pmi, Pe. rewrite pad4 in Py. rewrite !pad2, pad4.
  unfold str4, str2, str1 at 1 2 3 4 5 6. rewrite !str_app_cons, !str_app_nil_l.
  cbn [parse_rfc3339]. fold (str4 (digit ((y / 10 / 10 / 10) mod 10)) (digit ((y / 10 / 10) mod 10))
    (digit ((y / 10) mod 10)) (digit (y mod 10))).
  rewrite Py, Pm. simpl mbind. rewrite Pd. simpl mbind. rewrite Ph, Pmi, Pe. simpl.
  by rewrite Hf, Hz.
Qed.

Definition in_year_range (t : Time) : bool :=
  let '(y, _, _) := civil_of_days ((t_sec t + t_off t) / 86400 + unix_epoch_days) in
  (0 <=? y)%Z && (y <=? 9999)%Z.

Definition utc_ok (t : Time) : bool := time_ok t && (t_off t =? 0)%Z && in_year_range t.

(** Parsing the RFC 3339 form of a UTC instant gives the instant back, to the
    nanosecond. *)
Lemma parse_format_rfc3339 t :
  utc_ok t = true → ∃ s, format_rfc3339 t = Ok s ∧ parse_rfc3339 s = Some t.
Proof.
  unfold utc_ok, time_ok, in_year_range, format_rfc3339. destruct t as [sec ns off]. simpl.
  rewrite !andb_true_iff, bool_decide_eq_true, Z.eqb_eq. intros [[Hns ->] Hy].
  rewrite Z.add_0_r in *.
  destruct (civil_of_days _) as [[y m] d] eqn:E. rewrite Hy. simpl.
  apply andb_true_iff in Hy as [Hy1%Z.leb_le Hy2%Z.leb_le].
  apply civil_of_days_spec in E as (E & Hm & Hd & Hd').
  eexists. split; [done|].
  pose proof (Z.mod_pos_bound sec 86400 ltac:(lia)).
  pose proof (Z.div_mod sec 86400 ltac:(lia)).
  set (sod := (sec mod 86400)%Z) in *.
  pose proof (Z.div_mod sod 3600). pose proof (Z.mod_pos_bound sod 3600).
  pose proof (Z.div_mod sod 60). pose proof (Z.mod_pos_bound sod 60).
  pose proof (Z.div_mod (sod / 60) 60). pose proof (Z.mod_pos_bound (sod / 60) 60).
  rewrite (parse_digits y m d (sod / 3600) ((sod / 60) mod 60) (sod mod 60) _ 0 ns); try lia.
  - do 2 f_equal. rewrite E.
    replace ((sod / 60) / 60)%Z with (sod / 3600)%Z in * by (rewrite Z.div_div; [done|lia|lia]).
    lia.
  - eexists. split; [by apply parse_frac_fmt|done].
Qed.

(** The bytes of a formatted instant need no escaping in JSON. *)
Definition plain (c : ascii) : bool :=
  (32 <=? code c)%Z && (code c <? 128)%Z && negb (Ascii.eqb c "034") && negb (Ascii.eqb c "\").

Lemma digit_plain d : (0 <= d < 10)%Z → plain (digit d) = true.
Proof.
  intros Hd. pose proof (digit_code d Hd) as Hc. unfold plain. rewrite Hc.
  destruct (Ascii.eqb_spec (digit d) "034") as [E|_];
    [rewrite E in Hc; change (code "034") with 34%Z in Hc; lia|].
  destruct (Ascii.eqb_spec (digit d) "\") as [E|_];
    [rewrite E in Hc; change (code "\") with 92%Z in Hc; lia|]. simpl. lia.
Qed.

Lemma pad_plain k n : str_forall plain (pad k n) = true.
Proof.
  revert n. induction k as [|k IH]; intros n; [done|]. cbn [pad].
  rewrite str_forall_app, IH. simpl. pose proof (Z.mod_pos_bound n 10).
  by rewrite digit_plain by lia.
Qed.

Lemma pad_trim_plain k n : str_forall plain (pad_trim k n) = true.
Proof.
  revert n. induction k as [|k IH]; intros n; [done|]. cbn [pad_trim].
  case_match; [apply IH|apply pad_plain].
Qed.

Lemma format_plain t s : format_rfc3339 t = Ok s → str_forall plain s = true.
Proof.
  unfold format_rfc3339, fmt_zone. destruct (civil_of_days _) as [[y m] d].
  do 2 (case_match; [done|]). intros <-%(inj Ok).
  repeat first [ rewrite str_forall_app | rewrite pad_plain | rewrite pad_trim_plain
               | case_match | done | progress simpl ].
Qed.

#[export] Hint Resolve parse_format_rfc3339 format_plain : parcel.
