(* ===== verification/GoDuration.v ===== *)
(** * time.ParseDuration

    The parser behind every duration the environment configures, with its checks
    for overflow in 64 unsigned bits and its float64 arithmetic for fractions
    (binary64 of the Standard Library's specification of floating point). *)
From Stdlib Require Import SpecFloat.
From S2P Require Import Prelude GoErrors GoStrconv GoUtf8 GoTime.

(** ** float64 *)

Definition float64 : Type := spec_float.
Definition float_of (z : Z) : float64 := binary_normalize 53 1024 z 0 false.
Definition float_div : float64 → float64 → float64 := SFdiv 53 1024.
Definition float_mul : float64 → float64 → float64 := SFmul 53 1024.

(** [uint64(x)] for a finite [x] that is not negative: towards zero. *)
Definition float_trunc (x : float64) : Z :=
  match x with
  | S754_finite false m e => if (0 <=? e)%Z then Z.pos m * 2 ^ e else Z.pos m / 2 ^ (- e)
  | _ => 0
  end.

(** ** Parsing *)

(** The units; both letters for the micro sign are accepted. *)
Definition unitMap : list (string * Z) :=
  [("ns", Nanosecond); ("us", 1000%Z);
   (String (chr 194) (String (chr 181) "s"), 1000%Z); (String (chr 206) (String (chr 188) "s"), 1000%Z);
   ("ms", Millisecond); ("s", Second); ("m", Minute); ("h", Hour)].

Fixpoint assoc {A} (k : string) (l : list (string * A)) : option A :=
  match l with
  | [] => None
  | (k', a) :: l => if bool_decide (k = k') then Some a else assoc k l
  end.

(** [leadingInt]: [None] is an overflow. *)
Fixpoint leadingInt (x : Z) (s : string) : option (Z * string) :=
  match s with
  | EmptyString => Some (x, s)
  | String c r =>
      if is_digit c then
        if (2 ^ 63 / 10 <? x)%Z then None
        else
          let x := (x * 10 + (code c - 48))%Z in
          if (2 ^ 63 <? x)%Z then None else leadingInt x r
      else Some (x, s)
  end.

(** [leadingFraction]: the digits that fit, the power of ten they count, and the
    rest.  The scale is a float64 in the code, exact for these powers. *)
Fixpoint leadingFraction (x scale : Z) (overflow : bool) (s : string) : Z * Z * string :=
  match s with
  | EmptyString => (x, scale, s)
  | String c r =>
      if is_digit c then
        if overflow || ((2 ^ 63 - 1) / 10 <? x)%Z then leadingFraction x scale true r
        else
          let y := (x * 10 + (code c - 48))%Z in
          if (2 ^ 63 <? y)%Z then leadingFraction x scale true r
          else leadingFraction y (scale * 10) false r
      else (x, scale, s)
  end.

(** The unit: up to the next digit or period. *)
Fixpoint unit_text (s : string) : string * string :=
  match s with
  | EmptyString => ("", s)
  | String c r =>
      if Ascii.eqb c "." || is_digit c then ("", s)
      else let (u, r) := unit_text r in (String c u, r)
  end.

Definition invalid (text orig : string) : goerr := EOther ("time: " +:+ text +:+ "duration " +:+ Quote orig).

(** One number with its unit, added to [d] as a uint64. *)
Definition duration_part (orig : string) (d : Z) (s : string) : res (Z * string) :=
  let bad := Err (invalid "invalid " orig) in
  match s with
  | EmptyString => bad
  | String c _ =>
      if negb (Ascii.eqb c "." || is_digit c) then bad
      else
        match leadingInt 0 s with
        | None => bad
        | Some (v, s1) =>
            let pre := negb (String.length s1 =? String.length s)%nat in
            let '(f, scale, s2, post) :=
              match s1 with
              | String "." r =>
                  let '(f, scale, s2) := leadingFraction 0 1 false r in
                  (f, scale, s2, negb (String.length s2 =? String.length r)%nat)
              | _ => (0, 1, s1, false)%Z
              end in
            if negb (pre || post) then bad
            else
              match unit_text s2 with
              | (EmptyString, _) => Err (invalid "missing unit in " orig)
              | (u, s3) =>
                  match assoc u unitMap with
                  | None => Err (EOther ("time: unknown unit " +:+ Quote u +:+ " in duration " +:+ Quote orig))
                  | Some unit =>
                      if (2 ^ 63 / unit <? v)%Z then bad
                      else
                        let v := (v * unit)%Z in
                        let v := if (0 <? f)%Z
                                 then (v + float_trunc (float_mul (float_of f) (float_div (float_of unit) (float_of scale))))%Z
                                 else v in
                        if (2 ^ 63 <? v)%Z then bad
                        else
                          let d := ((d + v) mod 2 ^ 64)%Z in
                          if (2 ^ 63 <? d)%Z then bad else Ok (d, s3)
                  end
              end
        end
  end.

(** The loop; every part takes at least one byte. *)
Fixpoint duration_parts (fuel : nat) (orig : string) (d : Z) (s : string) : res Z :=
  match fuel with
  | O => Ok d
  | S fuel =>
      match s with
      | EmptyString => Ok d
      | _ =>
          '(d, s) ← duration_part orig d s;
          duration_parts fuel orig d s
      end
  end.

Definition ParseDuration (orig : string) : res Z :=
  let (neg, s) := match orig with
                  | String "-" r => (true, r)
                  | String "+" r => (false, r)
                  | _ => (false, orig)
                  end in
  if bool_decide (s = "0") then Ok 0%Z
  else if bool_decide (s = "") then Err (invalid "invalid " orig)
  else
    d ← duration_parts (String.length s) orig 0 s;
    if neg then Ok (- d)%Z
    else if (max_int64 <? d)%Z then Err (invalid "invalid " orig)
    else Ok d.

Example dur_1 : ParseDuration "1500ms" = Ok (1500 * Millisecond)%Z.
Proof. vm_compute. reflexivity. Qed.
Example dur_2 : ParseDuration "1h15m30.918s" = Ok (4530918 * Millisecond)%Z.
Proof. vm_compute. reflexivity. Qed.
Example dur_3 : ParseDuration "-.5h" = Ok (- 30 * Minute)%Z.
Proof. vm_compute. reflexivity. Qed.
Example dur_4 : ParseDuration "soon" = Err (invalid "invalid " "soon").
Proof. vm_compute. reflexivity. Qed.
Example dur_5 : ParseDuration "0.100000000000000000000h" = Ok (6 * Minute)%Z.
Proof. vm_compute. reflexivity. Qed.
Example dur_6 : ParseDuration "9223372036854775808ns" = Err (invalid "invalid " "9223372036854775808ns").
Proof. vm_compute. reflexivity. Qed.
Example dur_7 : ParseDuration "-9223372036854775808ns" = Ok (- 2 ^ 63)%Z.
Proof. vm_compute. reflexivity. Qed.

(** ** Printing *)

(** [fmtFrac]: the last [prec] digits of [v] as a fraction without trailing zeros,
    and what is left of [v]. *)
Fixpoint fmtFrac (prec : nat) (v : Z) (print : bool) (frac : string) : string * Z :=
  match prec with
  | O => ((if print then "." +:+ frac else frac), v)
  | S prec =>
      let print := print || negb (v mod 10 =? 0)%Z in
      fmtFrac prec (v / 10) print (if print then String (digit (v mod 10)) frac else frac)
  end.

Definition with_frac (prec : nat) (v : Z) (unit : string) : string :=
  let (frac, v) := fmtFrac prec v false "" in dec v +:+ frac +:+ unit.

(** [Duration.String]: below a second in the largest unit that gives a digit before
    the point, and else in hours, minutes and seconds. *)
Definition Duration_String (d : Z) : string :=
  let u := Z.abs d in
  let text :=
    if (u =? 0)%Z then "0s"
    else if (u <? 1000)%Z then with_frac 0 u "ns"
    else if (u <? Millisecond)%Z then with_frac 3 u (String (chr 194) (String (chr 181) "s"))
    else if (u <? Second)%Z then with_frac 6 u "ms"
    else
      let (frac, u) := fmtFrac 9 u false "" in
      let seconds := dec (u mod 60) +:+ frac +:+ "s" in
      let u := (u / 60)%Z in
      if (u =? 0)%Z then seconds
      else
        let minutes := dec (u mod 60) +:+ "m" +:+ seconds in
        let u := (u / 60)%Z in
        if (u =? 0)%Z then minutes else dec u +:+ "h" +:+ minutes in
  if (d <? 0)%Z then "-" +:+ text else text.

Example Duration_String_units :
  Duration_String <$> [0; 1; -1500; 1100000; 1000000000; 5400000000000; 3600000000000; -9223372036854775808]%Z =
  ["0s"; "1ns"; "-1.5" +:+ String (chr 194) (String (chr 181) "s"); "1.1ms"; "1s"; "1h30m0s"; "1h0m0s";
   "-2562047h47m16.854775808s"].
Proof. vm_compute. reflexivity. Qed.

(** ** Lemmas *)

Lemma digits_val_ge acc s v : (0 ≤ acc)%Z → digits_val acc s = Some v → (acc ≤ v)%Z.
Proof.
  revert acc. induction s as [|c s IH]; intros acc Ha; simpl; [intros [= <-]; lia|].
  destruct (is_digit c) eqn:Hc; [|done]. intros H. unfold is_digit, between in Hc.
  apply andb_true_iff in Hc as [H1%Z.leb_le H2%Z.leb_le]. apply IH in H; lia.
Qed.

Lemma leadingInt_digits x ds rest v :
  (0 ≤ x)%Z → digits_val x ds = Some v → (v ≤ 2 ^ 63)%Z →
  match rest with String c _ => is_digit c = false | _ => True end →
  leadingInt x (ds +:+ rest) = Some (v, rest).
Proof.
  revert x. induction ds as [|c ds IH]; intros x Hx Hv Hb Hr.
  - injection Hv as <-. rewrite str_app_nil_l. destruct rest as [|c r]; [done|]. simpl. by rewrite Hr.
  - rewrite str_app_cons. simpl in *. destruct (is_digit c) eqn:Hc; [|done].
    pose proof Hc as Hc'. unfold is_digit, between in Hc'.
    apply andb_true_iff in Hc' as [H1%Z.leb_le H2%Z.leb_le].
    pose proof (digits_val_ge (x * 10 + (code c - 48)) ds v ltac:(lia) Hv) as Hge.
    assert (2 ^ 63 / 10 <? x = false)%Z as ->.
    { apply Z.ltb_ge. apply Z.div_le_lower_bound; lia. }
    rewrite (proj2 (Z.ltb_ge (2 ^ 63) _)) by lia. apply IH; [lia|done..].
Qed.

Lemma unit_text_all u :
  str_forall (λ c, negb (Ascii.eqb c "." || is_digit c)) u = true → unit_text u = (u, "").
Proof.
  induction u as [|c u IH]; simpl; [done|]. intros [Hc%negb_true_iff Hu]%andb_true_iff.
  by rewrite Hc, (IH Hu).
Qed.

(** A whole number of one unit. *)
Lemma ParseDuration_unit n u unit :
  (0 ≤ n)%Z → (n * unit ≤ max_int64)%Z → (u, unit) ∈ unitMap → ParseDuration (Itoa n +:+ u) = Ok (n * unit)%Z.
Proof.
  intros Hn Hb Hu.
  assert ((0 < unit)%Z ∧ assoc u unitMap = Some unit ∧ u ≠ "" ∧
    str_forall (λ c, negb (Ascii.eqb c "." || is_digit c)) u = true) as (Hpos & Hassoc & Hne & Hchars).
  { unfold unitMap in Hu. repeat (apply elem_of_cons in Hu as [[= -> ->]|Hu]; [vm_compute; by split_and!|]).
    by apply not_elem_of_nil in Hu. }
  destruct (Itoa_natural n Hn) as [Hd Hdn]. pose proof (dec_val n Hn) as Hval.
  assert (Itoa n = dec n) as Edec by (unfold Itoa; by rewrite (proj2 (Z.ltb_ge n 0))).
  rewrite Edec in *. destruct (dec n) as [|c r] eqn:E; [done|]. clear Hdn.
  simpl in Hd. apply andb_true_iff in Hd as [Hc Hr].
  assert (n ≤ 2 ^ 63)%Z as Hnb by (unfold max_int64 in Hb; nia).
  assert (leadingInt 0 (String c r +:+ u) = Some (n, u)) as Elead.
  { apply leadingInt_digits; try done. destruct u as [|d u]; [done|]. simpl in Hchars.
    apply andb_true_iff in Hchars as [Hd%negb_true_iff _]. by apply orb_false_iff in Hd as [_ ?]. }
  unfold ParseDuration. rewrite str_app_cons in *.
  assert (match String c (r +:+ u) with
          | String "-" r0 => (true, r0)
          | String "+" r0 => (false, r0)
          | _ => (false, String c (r +:+ u))
          end = (false, String c (r +:+ u))) as ->.
  { clear -Hc. by destruct c as [[] [] [] [] [] [] [] []]. }
  rewrite !bool_decide_eq_false_2; [|done|].
  2:{ intros [= _ Hru]. destruct r; [|done]. by rewrite str_app_nil_l in Hru. }
  cbn [String.length duration_parts]. unfold duration_part. rewrite Hc, orb_true_r. cbn [negb].
  rewrite Elead.
  assert (∀ g : string → Z * Z * string * bool,
    match u with String "." r0 => g r0 | _ => (0%Z, 1%Z, u, false) end = (0%Z, 1%Z, u, false)) as Hnodot.
  { intros g. destruct u as [|e u']; [done|]. simpl in Hchars. apply andb_true_iff in Hchars as [He%negb_true_iff _].
    apply orb_false_iff in He as [He _]. destruct e as [[] [] [] [] [] [] [] []]; done. }
  rewrite Hnodot, (unit_text_all u Hchars). cbn [orb negb Z.ltb].
  assert (String.length u =? String.length (String c (r +:+ u)) = false) as ->.
  { apply Nat.eqb_neq. simpl. rewrite str_app_length. lia. }
  cbn [orb negb]. destruct u as [|e u']; [done|]. rewrite Hassoc.
  unfold max_int64 in *. rewrite (proj2 (Z.ltb_ge _ n)) by (apply Z.div_le_lower_bound; lia).
  rewrite (proj2 (Z.ltb_ge 0 0)) by lia. rewrite Z.add_0_l, Z.mod_small by nia.
  rewrite !(proj2 (Z.ltb_ge _ (n * unit))) by lia. cbn [mbind res_bind].
  assert (∀ fuel o d, duration_parts fuel o d "" = Ok d) as -> by by intros []. simpl.
  by rewrite (proj2 (Z.ltb_ge _ (n * unit))) by lia.
Qed.

(** A duration fits 64 bits. *)
Lemma duration_parts_range fuel orig d s d' :
  (0 ≤ d ≤ 2 ^ 63)%Z → duration_parts fuel orig d s = Ok d' → (0 ≤ d' ≤ 2 ^ 63)%Z.
Proof.
  revert d s. induction fuel as [|fuel IH]; intros d s Hd; cbn [duration_parts]; [by intros [= <-]|].
  destruct s as [|c s]; [by intros [= <-]|]. intros ([d1 s1] & H1 & H2)%res_bind_ok.
  eapply IH; [|exact H2]. clear H2. unfold duration_part in H1. repeat (case_match; try done).
  all: injection H1 as <- _; match goal with
    H : (2 ^ 63 <? ?x mod 2 ^ 64)%Z = false |- _ =>
      pose proof (Z.mod_pos_bound x (2 ^ 64) ltac:(lia)); apply Z.ltb_ge in H; lia
    end.
Qed.

Lemma ParseDuration_range s d : ParseDuration s = Ok d → int64_ok d = true.
Proof.
  unfold ParseDuration. destruct (match s with String "-" r => (true, r) | String "+" r => (false, r) | _ => (false, s) end)
    as [neg r]. case_bool_decide; [by intros [= <-]|]. case_bool_decide; [done|].
  intros (v & Hv%duration_parts_range & Hd)%res_bind_ok; [|lia]. apply int64_ok_iff.
  destruct neg; [injection Hd as <-; lia|]. unfold max_int64 in Hd.
  destruct (Z.ltb_spec 9223372036854775807 v); [done|]. injection Hd as <-. lia.
Qed.
