(* ===== verification/GoFloat.v ===== *)
(** * Reading floating-point numbers

    [strconv.ParseFloat] to 64 bits and [fmt.Sscanf] with the verb [%g]: decimal
    and hexadecimal numbers, their underscores and exponents, rounded once from
    the exact value (binary64 of the Standard Library's specification of floating
    point, as in GoDuration). *)
From Stdlib Require Import SpecFloat.
From S2P Require Import Prelude GoErrors GoStrconv GoStrings GoUtf8 GoDuration.

Definition float_add : float64 → float64 → float64 := SFadd 53 1024.
(** [x >= y], false when either is not a number. *)
Definition float_ge (x y : float64) : bool := SFleb y x.

(** ** Rounding an exact value *)

(** [m * 10^e] and [m * 2^e] with [m] not negative. *)
Definition float_frac (num den : Z) : float64 :=
  match num, den with
  | Zpos n, Zpos d => SFdiv 53 1024 (S754_finite false n 0) (S754_finite false d 0)
  | _, _ => S754_zero false
  end.
Definition scaled (base m e : Z) : float64 :=
  if (0 <=? e)%Z then float_of (m * base ^ e) else float_frac m (base ^ (- e)).

Definition signed (neg : bool) (x : float64) : float64 := if neg then SFopp x else x.

(** ** The syntax of numbers *)

Definition is_sign (c : ascii) : bool := Ascii.eqb c "+" || Ascii.eqb c "-".
Definition is_hex (c : ascii) : bool := match hex_val c with Some _ => true | None => false end.
Definition is_underscore (c : ascii) : bool := Ascii.eqb c "_".
Definition either (a b c : ascii) : bool := Ascii.eqb c a || Ascii.eqb c b.

Definition accept_sign (s : string) : bool * string :=
  match s with
  | String "-" r => (true, r)
  | String "+" r => (false, r)
  | _ => (false, s)
  end.

(** A prefix of a hexadecimal number, and what follows it. *)
Definition hex_prefix (s : string) : option string :=
  match s with String "0" (String x r) => if either "x" "X" x then Some r else None | _ => None end.

(** Underscores separate digits, or follow the base prefix. *)
Fixpoint underscores_ok (hex : bool) (before : ascii) (s : string) : bool :=
  match s with
  | EmptyString => negb (is_underscore before)
  | String c s =>
      if is_digit c || (hex && is_hex c) then underscores_ok hex "0" s
      else if is_underscore c then Ascii.eqb before "0" && underscores_ok hex c s
      else negb (is_underscore before) && underscores_ok hex "!" s
  end.
Definition underscoreOK (s : string) : bool :=
  let s := (accept_sign s).2 in
  match hex_prefix s with
  | Some r => underscores_ok true "0" r
  | None => underscores_ok false "^" s
  end.

Definition without_underscores (s : string) : string :=
  String.string_of_list_ascii (filter (λ c, is_underscore c = false) (String.list_ascii_of_string s)).

Definition digits_value (base : Z) (s : string) : Z :=
  foldl (λ acc c, acc * base + default 0 (hex_val c))%Z 0%Z (String.list_ascii_of_string s).

(** Exponents saturate: beyond it every number is zero or infinite. *)
Definition max_exponent : Z := 100000.

(** The digits before and after the point, the exponent if there is one, and
    nothing else. *)
Definition exponent (s : string) : option Z :=
  let (neg, s) := accept_sign s in
  let (d, r) := span is_digit s in
  if bool_decide (d = "") || negb (bool_decide (r = "")) then None
  else let e := Z.min max_exponent (digits_value 10 d) in Some (if neg then - e else e)%Z.

Definition number (hex : bool) (s : string) : option (Z * Z) :=
  let digit := if hex then is_hex else is_digit in
  let base := if hex then 16%Z else 10%Z in
  let (whole, s) := span digit s in
  let (frac, s) := match s with String "." r => span digit r | _ => ("", s) end in
  if bool_decide (whole +:+ frac = "") then None
  else
    let m := digits_value base (whole +:+ frac) in
    let shift := (- Z.of_nat (String.length frac) * (if hex then 4 else 1))%Z in
    match s with
    | EmptyString => if hex then None else Some (m, shift)
    | String c r =>
        if (if hex then either "p" "P" c else either "e" "E" c) then (λ e, (m, shift + e)%Z) <$> exponent r
        else None
    end.

Definition lower (s : string) : string :=
  String.string_of_list_ascii
    ((λ c, if between 65 90 c then chr (code c + 32) else c) <$> String.list_ascii_of_string s).

(** [strconv.ParseFloat(s, 64)] *)
Definition ParseFloat (s : string) : res float64 :=
  let (neg, t) := accept_sign s in
  if bool_decide (lower t = "inf") || bool_decide (lower t = "infinity") then Ok (S754_infinity neg)
  else if bool_decide (lower s = "nan") then Ok S754_nan
  else if str_forall (λ c, negb (is_underscore c)) s || underscoreOK s then
    let u := without_underscores t in
    let r := match hex_prefix u with
             | Some r => (λ p, scaled 2 p.1 p.2) <$> number true r
             | None => (λ p, scaled 10 p.1 p.2) <$> number false u
             end in
    match r with
    | None => Err ErrSyntax
    | Some (S754_infinity _) => Err ErrRange
    | Some x => Ok (signed neg x)
    end
  else Err ErrSyntax.

(** ** [fmt.Sscanf] *)

(** One character of a class, if it is next. *)
Definition accept (p : ascii → bool) (s : string) : string * string :=
  match s with
  | String c r => if p c then (str1 c, r) else ("", s)
  | EmptyString => ("", s)
  end.

(** Two accepted pieces one after the other; the second only if the first was
    there when [both]. *)
Definition then_ (both : bool) (f g : string → string * string) (s : string) : string * string :=
  let (a, r) := f s in
  if both && bool_decide (a = "") then (a, r) else let (b, r) := g r in (a +:+ b, r).

(** The longest text that could be a number; the caller sees if it is one. *)
Definition floatToken (s : string) : string :=
  let (nan, r) := then_ true (accept (either "n" "N")) (then_ true (accept (either "a" "A")) (accept (either "n" "N"))) s in
  if (String.length nan =? 3)%nat then nan
  else
    let (sign, r) := accept is_sign r in
    let start := nan +:+ sign in
    let (inf, r) := then_ true (accept (either "i" "I")) (then_ true (accept (either "n" "N")) (accept (either "f" "F"))) r in
    if (String.length inf =? 3)%nat then start +:+ inf
    else
      let (zero, r) := then_ true (accept (Ascii.eqb "0")) (accept (either "x" "X")) r in
      let hex := (String.length zero =? 2)%nat in
      let digit c := (if hex then is_hex c else is_digit c) || is_underscore c in
      let exp c := either "p" "P" c || (negb hex && either "e" "E" c) in
      let (whole, r) := span digit r in
      let (frac, r) := then_ true (accept (Ascii.eqb ".")) (span digit) r in
      let (e, r) := then_ true (accept exp)
                      (then_ false (accept is_sign) (span (λ c, is_digit c || is_underscore c))) r in
      start +:+ inf +:+ zero +:+ whole +:+ frac +:+ e.

(** [convertFloat]: an exponent of two after a decimal number is allowed too. *)
Definition convertFloat (s : string) : res float64 :=
  let (m, p) := span (λ c, negb (Ascii.eqb c "p")) s in
  if negb (bool_decide (p = "")) && str_forall (λ c, negb (either "x" "X" c)) s then
    f ← ParseFloat m;
    e ← Atoi (str_drop 1 p);
    Ok (SFldexp 53 1024 f e)
  else ParseFloat s.

(** [fmt.Sscanf(s, "%g", &n)] of a text without newlines. *)
Definition Sscanf_g (s : string) : res float64 :=
  match runes_bytes (drop_spaces (runes s)) with
  | EmptyString => Err (EOther "unexpected EOF")
  | t => convertFloat (floatToken t)
  end.

Example Sscanf_examples :
  (Sscanf_g <$> ["3"; " 1e+06 x"; "-0.5"; "0x1p4"; "12p1"; "1_0"; "NaN"; "0.1e1"]) =
  [Ok (float_of 3); Ok (float_of 1000000); Ok (signed true (float_frac 1 2)); Ok (float_of 16); Ok (float_of 24);
   Ok (float_of 10); Ok S754_nan; Ok (float_of 1)].
Proof. vm_compute. reflexivity. Qed.

Example Sscanf_errors : (is_ok ∘ Sscanf_g <$> [""; "x"; "1__0"; "."; "1e"; "1e999"; "0x1"]) = replicate 7 false.
Proof. vm_compute. reflexivity. Qed.

(** ** Printing

    The verb [%v] prints the shortest decimal that rounds to the number, the
    nearest one of that length. *)

(** A positive number as a fraction. *)
Definition as_fraction (m : positive) (e : Z) : Z * Z :=
  if (0 <=? e)%Z then (Zpos m * 2 ^ e, 1)%Z else (Zpos m, 2 ^ (- e))%Z.

(** [k] with [10^(k-1) <= num/den < 10^k]: an estimate from the logarithm in base
    two is at most one too small. *)
Definition decimal_point (num den : Z) : Z :=
  let k := ((Z.log2 num - Z.log2 den - 1) * 30103 / 100000)%Z in
  let reaches k := if (0 <=? k)%Z then (den * 10 ^ k <=? num)%Z else (den <=? num * 10 ^ (- k))%Z in
  if reaches (k + 1)%Z then (k + 2)%Z else if reaches k then (k + 1)%Z else k.

(** The number of [n] digits, as an integer and a power of ten, that reads back
    as [x = num/den], if there is one. *)
Definition decimal (x : float64) (num den dp n : Z) : option (Z * Z) :=
  let k := (dp - n)%Z in
  let (num, den) := if (0 <=? k)%Z then (num, den * 10 ^ k)%Z else (num * 10 ^ (- k), den)%Z in
  let lo := (num / den)%Z in
  let ok d := SFeqb (scaled 10 d k) x in
  let down := match (2 * (num - lo * den) ?= den)%Z with Lt => true | Eq => Z.even lo | Gt => false end in
  if ok lo && (down || negb (ok (lo + 1)%Z)) then Some (lo, k)
  else if ok (lo + 1)%Z then Some ((lo + 1)%Z, k) else None.

(** Seventeen digits are always enough. *)
Fixpoint shortest (fuel : nat) (x : float64) (num den dp n : Z) : option (Z * Z) :=
  match fuel with
  | O => None
  | S fuel => match decimal x num den dp n with Some r => Some r | None => shortest fuel x num den dp (n + 1) end
  end.

Definition zeros (n : Z) : string := String.string_of_list_ascii (replicate (Z.to_nat n) "0"%char).

(** From the digits and the position of the point; numbers with exponents below
    -4 and from 6 on are printed with an exponent. *)
Definition layout (ds : string) (dp : Z) : string :=
  let nd := Z.of_nat (String.length ds) in
  let x := (dp - 1)%Z in
  if (x <? -4)%Z || (6 <=? x)%Z then
    str_take 1 ds +:+ (if (nd =? 1)%Z then "" else "." +:+ str_drop 1 ds) +:+
    "e" +:+ (if (x <? 0)%Z then "-" else "+") +:+ (if (Z.abs x <? 10)%Z then "0" else "") +:+ Itoa (Z.abs x)
  else if (dp <=? 0)%Z then "0." +:+ zeros (- dp) +:+ ds
  else if (nd <=? dp)%Z then ds +:+ zeros (dp - nd)
  else str_take (Z.to_nat dp) ds +:+ "." +:+ str_drop (Z.to_nat dp) ds.

Definition Sprint_float (x : float64) : string :=
  match x with
  | S754_nan => "NaN"
  | S754_infinity s => if s then "-Inf" else "+Inf"
  | S754_zero s => if s then "-0" else "0"
  | S754_finite s m e =>
      let (num, den) := as_fraction m e in
      let dp := decimal_point num den in
      let '(d, k) := default (0, 0)%Z (shortest 17 (S754_finite false m e) num den dp 1) in
      let ds := dec d in
      (if s then "-" else "") +:+ layout (TrimRight "0" ds) (Z.of_nat (String.length ds) + k)
  end.

Example Sprint_examples :
  (Sprint_float ∘ from_res S754_nan ∘ ParseFloat <$>
     ["3"; "1e6"; "-0.5"; "0.1"; "123456789.25"; "1e21"; "2.5e-7"; "5e-324"; "1.7976931348623157e308"; "9007199254740993"; "0.30000000000000004"]) =
  ["3"; "1e+06"; "-0.5"; "0.1"; "1.2345678925e+08"; "1e+21"; "2.5e-07"; "5e-324"; "1.7976931348623157e+308";
   "9.007199254740992e+15"; "0.30000000000000004"].
Proof. vm_compute. reflexivity. Qed.
