(* ===== verification/FloatFacts.v ===== *)
(** * Whole numbers as floating-point text

    A whole number below 2^53 is a float64 exactly, and the shortest decimal that
    [%v] and Prometheus print for it, with an exponent from a million on, is read
    back by [fmt.Sscanf] as the same number. *)
From Stdlib Require Import SpecFloat.
From S2P Require Import Prelude GoErrors GoStrconv GoStrings GoUtf8 GoDuration GoFloat.
Local Open Scope Z_scope.

(** ** Exactness *)

Lemma digits2_log2 p : Zpos (digits2_pos p) = Z.log2 (Zpos p) + 1.
Proof.
  assert (digits2_pos p = Pos.size p) as -> by (induction p; cbn; congruence).
  destruct p; cbn; lia.
Qed.

Lemma iter_xO d p : Zpos (Pos.iter xO p d) = Zpos p * 2 ^ Zpos d.
Proof.
  induction d as [|d IH] using Pos.peano_ind; [cbn; lia|].
  rewrite Pos.iter_succ, Pos2Z.inj_xO, IH, Pos2Z.inj_succ, Z.pow_succ_r by lia. lia.
Qed.

(** A number of 53 binary digits with an exponent in range is not rounded. *)
Lemma round_exact m e :
  Z.log2 (Zpos m) = 52 → -1000 <= e <= 900 →
  binary_round_aux 53 1024 false (Zpos m) e loc_Exact = S754_finite false m e.
Proof.
  intros Hl He. unfold binary_round_aux, shr_fexp.
  assert (fexp 53 1024 (Zdigits2 (Zpos m) + e) - e = 0) as ->.
  { unfold Zdigits2. rewrite digits2_log2, Hl. unfold fexp, emin. lia. }
  cbn [shr shr_record_of_loc shr_m loc_of_shr_record round_nearest_even].
  assert (fexp 53 1024 (Zdigits2 (Zpos m) + e) - e = 0) as ->.
  { unfold Zdigits2. rewrite digits2_log2, Hl. unfold fexp, emin. lia. }
  cbn [shr shr_record_of_loc shr_m]. by rewrite (proj2 (Z.leb_le e (1024 - 53))) by lia.
Qed.

Lemma log2_below p : Zpos p < 2 ^ 53 → 0 <= Z.log2 (Zpos p) <= 52.
Proof.
  intros Hp. split; [apply Z.log2_nonneg|]. apply Z.lt_succ_r, Z.log2_lt_pow2; [lia|done].
Qed.

(** The number as a 53-bit fraction. *)
Lemma float_of_exact p :
  Zpos p < 2 ^ 53 → ∃ m e, float_of (Zpos p) = S754_finite false m e ∧
    e = Z.log2 (Zpos p) - 52 ∧ Zpos m = Zpos p * 2 ^ (- e).
Proof.
  intros Hp. pose proof (log2_below p Hp) as Hl. unfold float_of, binary_normalize, binary_round.
  rewrite digits2_log2. unfold shl_align.
  assert (fexp 53 1024 (Z.log2 (Zpos p) + 1 + 0) - 0 = Z.log2 (Zpos p) - 52) as -> by (unfold fexp, emin; lia).
  assert (fexp 53 1024 (Z.log2 (Zpos p) + 1 + 0) = Z.log2 (Zpos p) - 52) as -> by (unfold fexp, emin; lia).
  destruct (Z.log2 (Zpos p) - 52) as [|d|d] eqn:Ed; [|lia|].
  - exists p, 0. rewrite round_exact by lia. split; [done|]. cbn. lia.
  - exists (Pos.iter xO p d), (Zneg d). rewrite round_exact; [split; [done|]|..]; [|rewrite iter_xO|lia].
    + split; [done|]. apply iter_xO.
    + rewrite Z.log2_mul_pow2 by lia. lia.
Qed.

Lemma float_eq_finite y m e : SFeqb y (S754_finite false m e) = true → y = S754_finite false m e.
Proof.
  unfold SFeqb, SFcompare. destruct y as [| | |[] m' e']; try done; [by destruct s|].
  destruct (Z.compare_spec e' e) as [->|?|?]; [|done..].
  fold (Pos.compare m' m). by destruct (Pos.compare_spec m' m) as [->|?|?].
Qed.

Lemma SFeqb_refl m e : SFeqb (S754_finite false m e) (S754_finite false m e) = true.
Proof. unfold SFeqb, SFcompare. rewrite Z.compare_refl. fold (Pos.compare m m). by rewrite Pos.compare_refl. Qed.

(** ** The shortest decimal *)

Lemma decimal_point_range p e :
  Zpos p < 2 ^ 53 → 0 <= e → 1 <= decimal_point (Zpos p * 2 ^ e) (2 ^ e) <= 17.
Proof.
  intros Hp He. pose proof (log2_below p Hp) as Hl. unfold decimal_point.
  rewrite Z.log2_mul_pow2, Z.log2_pow2 by lia.
  replace (e + Z.log2 (Zpos p) - e - 1) with (Z.log2 (Zpos p) - 1) by lia.
  set (k := (Z.log2 (Zpos p) - 1) * 30103 / 100000).
  assert (-1 <= k <= 15) as Hk.
  { unfold k. split; [apply Z.div_le_lower_bound; lia|]. apply Z.lt_succ_r, Z.div_lt_upper_bound; lia. }
  clearbody k. assert (0 < 2 ^ e) by (apply Z.pow_pos_nonneg; lia).
  assert (2 ^ e <= Zpos p * 2 ^ e) as Hge by nia.
  destruct (Z.eq_dec k (-1)) as [->|Hn1]; [|destruct (Z.eq_dec k 0) as [->|Hn0]].
  - change (-1 + 1) with 0. change (0 <=? 0) with true. cbn match.
    rewrite Z.pow_0_r, Z.mul_1_r, (proj2 (Z.leb_le _ _) Hge). lia.
  - change (0 <=? 0) with true. cbn match. rewrite Z.pow_0_r, Z.mul_1_r, (proj2 (Z.leb_le _ _) Hge).
    repeat case_match; lia.
  - repeat case_match; lia.
Qed.

(** Where a decimal was found its digits are right, and a whole number has one of no
    more digits than itself. *)
Lemma decimal_ok x z den dp n d k :
  0 < z → 0 < den → n <= dp → decimal x (z * den) den dp n = Some (d, k) →
  k = dp - n ∧ 0 <= d <= z + 1 ∧ SFeqb (scaled 10 d k) x = true.
Proof.
  intros Hz Hd Hn. unfold decimal. rewrite (proj2 (Z.leb_le 0 (dp - n))) by lia. cbn match.
  assert (0 < 10 ^ (dp - n)) as Hp by (apply Z.pow_pos_nonneg; lia).
  assert (0 <= z * den / (den * 10 ^ (dp - n)) <= z) as Hlo.
  { rewrite <- Z.div_div, Z.div_mul by lia. split; [apply Z.div_pos; lia|]. apply Z.div_le_upper_bound; nia. }
  destruct (SFeqb (scaled 10 (z * den / (den * 10 ^ (dp - n))) (dp - n)) x && _) eqn:E1.
  - intros [= <- <-]. apply andb_true_iff in E1 as [? _]. split_and!; [done|lia..|done].
  - destruct (SFeqb (scaled 10 (z * den / (den * 10 ^ (dp - n)) + 1) (dp - n)) x) eqn:E2; [|done].
    intros [= <- <-]. split_and!; [done|lia..|done].
Qed.

Lemma decimal_whole z x den dp :
  0 < z → 0 < den → SFeqb (float_of z) x = true → decimal x (z * den) den dp dp = Some (z, 0).
Proof.
  intros Hz Hd Hx. unfold decimal. replace (dp - dp) with 0 by lia. change (0 <=? 0) with true. cbn match.
  rewrite Z.pow_0_r, Z.mul_1_r, Z.div_mul by lia. unfold scaled. change (0 <=? 0) with true. cbn match.
  rewrite Z.pow_0_r, Z.mul_1_r, Hx. replace (2 * (z * den - z * den)) with 0 by lia.
  by rewrite (proj2 (Z.compare_lt_iff 0 den) Hd).
Qed.

Lemma shortest_whole fuel x z den dp n :
  0 < z → 0 < den → SFeqb (float_of z) x = true → n <= dp < n + Z.of_nat fuel →
  ∃ d k, shortest fuel x (z * den) den dp n = Some (d, k) ∧ 0 <= k <= dp - n ∧ 0 <= d <= z + 1 ∧
    SFeqb (scaled 10 d k) x = true.
Proof.
  intros Hz Hd Hx. revert n. induction fuel as [|fuel IH]; intros n Hn; [lia|]. cbn [shortest].
  destruct (decimal x (z * den) den dp n) as [[d k]|] eqn:E.
  - apply decimal_ok in E as (-> & Hr & Hok); [|lia..]. exists d, (dp - n). split; [done|]. split; [lia|done].
  - destruct (Z.eq_dec n dp) as [->|Hne]; [by rewrite decimal_whole in E|].
    destruct (IH (n + 1)) as (d & k & E' & Hk & ?); [lia|]. exists d, k. split; [done|]. split; [lia|done].
Qed.

(** ** The text of a whole number *)

Notation ascii_list := String.list_ascii_of_string.

Lemma list_ascii_app s t : ascii_list (s +:+ t) = ascii_list s ++ ascii_list t.
Proof. induction s as [|c s IH]; [by rewrite str_app_nil_l|]. rewrite str_app_cons. cbn. by rewrite IH. Qed.

Definition value_from (acc : Z) (s : string) : Z :=
  foldl (λ acc c, acc * 10 + default 0 (hex_val c)) acc (ascii_list s).

Lemma value_from_app acc s t : value_from acc (s +:+ t) = value_from (value_from acc s) t.
Proof. unfold value_from. by rewrite list_ascii_app, foldl_app. Qed.

Lemma hex_val_digit c : is_digit c = true → hex_val c = Some (code c - 48).
Proof. destruct c as [[] [] [] [] [] [] [] []]; first [discriminate 1 | intros _; reflexivity]. Qed.

Lemma value_from_val acc s v : digits_val acc s = Some v → value_from acc s = v.
Proof.
  unfold value_from. revert acc. induction s as [|c s IH]; intros acc; cbn; [by intros [= ->]|].
  destruct (is_digit c) eqn:Hc; [|done]. intros H. rewrite (hex_val_digit c Hc). by apply IH.
Qed.

Lemma value_from_zeros acc k : value_from acc (bytes_of "0" k) = acc * 10 ^ Z.of_nat k.
Proof.
  revert acc. induction k as [|k IH]; intros acc; [cbn; lia|].
  change (value_from acc (bytes_of "0" (S k))) with (value_from (acc * 10 + 0) (bytes_of "0" k)).
  rewrite IH, Nat2Z.inj_succ, Z.pow_succ_r by lia. lia.
Qed.

Lemma digits_value_eq s : digits_value 10 s = value_from 0 s.
Proof. done. Qed.

Lemma zeros_bytes n : zeros n = bytes_of "0" (Z.to_nat n).
Proof. unfold zeros. induction (Z.to_nat n) as [|k IH]; [done|]. cbn. by rewrite <- IH. Qed.

Lemma bytes_of_length c k : String.length (bytes_of c k) = k.
Proof. induction k; cbn; congruence. Qed.

Lemma bytes_of_digits k : str_forall is_digit (bytes_of "0" k) = true.
Proof. by induction k. Qed.

(** A digit that can come first. *)
Definition first_digit (c : ascii) : bool := is_digit c && negb (Ascii.eqb c "0").

Ltac first_digit_cases c :=
  destruct c as [[] [] [] [] [] [] [] []]; first [discriminate | idtac].

(** The tail of a number: a fraction, an exponent. *)
Record num_text (t : string) (m e : Z) : Prop := mk_num_text {
  nt_token : floatToken t = t;
  nt_number : number false t = Some (m, e);
  nt_plain : str_forall (λ c, is_digit c || Ascii.eqb c "." || Ascii.eqb c "e" || Ascii.eqb c "+") t = true;
  nt_first : ∃ c r, t = String c r ∧ first_digit c = true
}.

Lemma plain_char c :
  is_digit c || Ascii.eqb c "." || Ascii.eqb c "e" || Ascii.eqb c "+" = true →
  Ascii.eqb c "p" = false ∧ is_underscore c = false ∧ Ascii.eqb c newline = false.
Proof. destruct c as [[] [] [] [] [] [] [] []]; first [discriminate 1 | by intros _]. Qed.

Lemma str_forall_weaken p q s : (∀ c, p c = true → q c = true) → str_forall p s = true → str_forall q s = true.
Proof.
  intros Hpq. induction s as [|c s IH]; [done|]. cbn. intros [Hc Hs]%andb_true_iff. by rewrite Hpq, IH.
Qed.

Lemma without_underscores_id s :
  str_forall (λ c, negb (is_underscore c)) s = true → without_underscores s = s.
Proof.
  unfold without_underscores. induction s as [|c s IH]; [done|]. cbn [str_forall ascii_list].
  intros [Hc Hs]%andb_true_iff. rewrite list.filter_cons_True by by apply negb_true_iff.
  cbn. by rewrite (IH Hs).
Qed.

Lemma convertFloat_text t m e x :
  num_text t m e → scaled 10 m e = x → (∃ m' e', x = S754_finite false m' e') → convertFloat t = Ok x.
Proof.
  intros [_ Hn Hp (c & r & -> & Hc)] Hx (m' & e' & ->). unfold convertFloat.
  assert (str_forall (λ c, negb (Ascii.eqb c "p")) (String c r) = true) as Hnp.
  { eapply str_forall_weaken; [|exact Hp]. intros d Hd. by rewrite (proj1 (plain_char d Hd)). }
  assert (str_forall (λ c, negb (is_underscore c)) (String c r) = true) as Hnu.
  { eapply str_forall_weaken; [|exact Hp]. intros d Hd. by destruct (plain_char d Hd) as (_ & -> & _). }
  pose proof (span_app _ (String c r) "" Hnp I) as Hs. rewrite str_app_nil_r in Hs. rewrite Hs. cbn match.
  unfold ParseFloat.
  assert (accept_sign (String c r) = (false, String c r)) as -> by (clear -Hc; first_digit_cases c; reflexivity).
  assert (bool_decide (lower (String c r) = "inf") || bool_decide (lower (String c r) = "infinity") = false) as ->
    by (clear -Hc; first_digit_cases c; reflexivity).
  assert (bool_decide (lower (String c r) = "nan") = false) as -> by (clear -Hc; first_digit_cases c; reflexivity).
  rewrite Hnu, without_underscores_id by done.
  assert (hex_prefix (String c r) = None) as -> by (clear -Hc; first_digit_cases c; reflexivity).
  cbn [orb]. rewrite Hn. cbn. by rewrite Hx.
Qed.

Lemma Sscanf_text t m e x :
  num_text t m e → scaled 10 m e = x → (∃ m' e', x = S754_finite false m' e') → Sscanf_g t = Ok x.
Proof.
  intros Ht Hx Hf. pose proof (convertFloat_text t m e x Ht Hx Hf) as H.
  destruct Ht as [Htok _ _ (c & r & -> & Hc)]. unfold Sscanf_g.
  assert (drop_spaces (runes (String c r)) = runes (String c r)) as ->.
  { clear -Hc. first_digit_cases c; reflexivity. }
  rewrite runes_bytes_runes, Htok. exact H.
Qed.

Lemma text_one_line t m e : num_text t m e → no_byte newline t = true.
Proof.
  intros [_ _ Hp _]. unfold no_byte. eapply str_forall_weaken; [|exact Hp]. intros c Hc.
  by destruct (plain_char c Hc) as (_ & _ & ->).
Qed.

Definition digit_ (c : ascii) : bool := is_digit c || is_underscore c.

Lemma floatToken_first c r :
  first_digit c = true →
  floatToken (String c r) =
    (let (whole, r) := span digit_ (String c r) in
     let (frac, r) := then_ true (accept (Ascii.eqb ".")) (span digit_) r in
     let (e, r) := then_ true (accept (λ c, either "p" "P" c || (negb false && either "e" "E" c)))
                     (then_ false (accept is_sign) (span digit_)) r in
     whole +:+ frac +:+ e).
Proof. intros Hc. first_digit_cases c; reflexivity. Qed.

Lemma digits_underscore s : str_forall is_digit s = true → str_forall digit_ s = true.
Proof. apply str_forall_weaken. intros c. unfold digit_. by intros ->. Qed.

Lemma digits_plain s :
  str_forall is_digit s = true →
  str_forall (λ c, is_digit c || Ascii.eqb c "." || Ascii.eqb c "e" || Ascii.eqb c "+") s = true.
Proof. apply str_forall_weaken. by intros c ->. Qed.

Lemma first_digit_is c : first_digit c = true → is_digit c = true.
Proof. unfold first_digit. by intros [? _]%andb_true_iff. Qed.

Lemma plain_text c s :
  first_digit c = true → str_forall is_digit s = true → num_text (String c s) (value_from 0 (String c s)) 0.
Proof.
  intros Hc Hs. assert (str_forall is_digit (String c s) = true) as Ht by (cbn; by rewrite first_digit_is, Hs).
  split; [| |by apply digits_plain|by exists c, s].
  - rewrite floatToken_first by done.
    pose proof (span_app digit_ (String c s) "" (digits_underscore _ Ht) I) as E. rewrite str_app_nil_r in E.
    rewrite E. exact (str_app_nil_r (String c s)).
  - unfold number. pose proof (span_app is_digit (String c s) "" Ht I) as E. rewrite str_app_nil_r in E.
    rewrite E. cbn match. by rewrite str_app_nil_r.
Qed.

(** [d.ddde+xx]; without a fraction there is no point. *)
Definition fraction (s : string) : string := match s with EmptyString => "" | _ => "." +:+ s end.

Lemma span_fraction p s r :
  str_forall p s = true → match r with String c _ => p c = false ∧ Ascii.eqb "." c = false | _ => True end →
  then_ true (accept (Ascii.eqb ".")) (span p) (fraction s +:+ r) = (fraction s, r).
Proof.
  intros Hs Hr. unfold then_. destruct s as [|c s].
  - cbn [fraction]. rewrite str_app_nil_l. destruct r as [|d r]; [done|]. cbn [accept]. by rewrite (proj2 Hr).
  - unfold fraction. rewrite <- str_app_assoc. change (accept (Ascii.eqb ".") ("." +:+ String c s +:+ r)) with (".", String c s +:+ r).
    cbn match. rewrite span_app by (done || by destruct r; [|apply Hr]). done.
Qed.

Lemma exponent_plus xs x :
  str_forall is_digit xs = true → xs ≠ "" → value_from 0 xs = x → x <= max_exponent →
  exponent ("+" +:+ xs) = Some x.
Proof.
  intros Hd Hn Hx Hm. unfold exponent. change (accept_sign ("+" +:+ xs)) with (false, xs). cbn match.
  pose proof (span_app is_digit xs "" Hd I) as E. rewrite str_app_nil_r in E. rewrite E.
  rewrite bool_decide_eq_false_2 by done. cbn. rewrite digits_value_eq, Hx. f_equal. lia.
Qed.

Lemma exp_text c s xs x :
  first_digit c = true → str_forall is_digit s = true → str_forall is_digit xs = true → xs ≠ "" →
  value_from 0 xs = x → x <= max_exponent →
  num_text (String c (fraction s +:+ "e+" +:+ xs)) (value_from 0 (String c s)) (x - Z.of_nat (String.length s)).
Proof.
  intros Hc Hs Hx Hn Hv Hm.
  assert (∀ p : ascii → bool, p c = true → p "e"%char = false → p "."%char = false →
    span p (String c (fraction s +:+ "e+" +:+ xs)) = (str1 c, fraction s +:+ "e+" +:+ xs)) as Hspan.
  { intros p H1 H2 H3. cbn [span]. rewrite H1. destruct s as [|d s].
    - change (fraction "" +:+ "e+" +:+ xs) with (String "e" ("+" +:+ xs)). cbn [span]. by rewrite H2.
    - change (fraction (String d s) +:+ "e+" +:+ xs) with (String "." (String d s +:+ "e+" +:+ xs)).
      cbn [span]. by rewrite H3. }
  split; [| | |by eexists _, _].
  - rewrite floatToken_first by done. rewrite Hspan by first [reflexivity|unfold digit_; by rewrite first_digit_is].
    rewrite span_fraction by (done || by apply digits_underscore).
    unfold then_ at 1. change (accept (λ c0, either "p" "P" c0 || (negb false && either "e" "E" c0)) ("e+" +:+ xs))
      with ("e", "+" +:+ xs). cbn match. unfold then_.
    change (accept is_sign ("+" +:+ xs)) with ("+", xs). cbn match.
    pose proof (span_app digit_ xs "" (digits_underscore _ Hx) I) as E. rewrite str_app_nil_r in E.
    cbn. by rewrite E.
  - unfold number. rewrite Hspan by first [reflexivity|by apply first_digit_is].
    assert (match fraction s +:+ "e+" +:+ xs with String "." r => span is_digit r | _ => ("", fraction s +:+ "e+" +:+ xs) end
      = (s, "e+" +:+ xs)) as ->.
    { destruct s as [|d s]; [done|]. unfold fraction. rewrite <- str_app_assoc.
      change ("." +:+ String d s +:+ "e+" +:+ xs) with (String "." (String d s +:+ "e+" +:+ xs)). cbn match.
      by rewrite span_app. }
    cbn match. change ("e+" +:+ xs) with (String "e" ("+" +:+ xs)). cbn match.
    change (either "e" "E" "e") with true. cbn match. rewrite (exponent_plus xs x) by done.
    cbn. f_equal. f_equal. lia.
  - cbn [str_forall]. rewrite (first_digit_is c Hc), !str_forall_app, (digits_plain xs) by done.
    pose proof (digits_plain s Hs) as Hp. destruct s as [|d s]; [done|].
    change (fraction (String d s)) with ("." +:+ String d s). by rewrite str_forall_app, Hp.
Qed.

(** The layout keeps the value, and its exponent is not negative. *)
Lemma layout_text c s k :
  first_digit c = true → str_forall is_digit s = true → 0 <= k →
  Z.of_nat (String.length (String c s)) + k <= max_exponent →
  ∃ m e, num_text (layout (String c s) (Z.of_nat (String.length (String c s)) + k)) m e ∧ 0 <= e ∧
    m * 10 ^ e = value_from 0 (String c s) * 10 ^ k.
Proof.
  intros Hc Hs Hk Hm. set (dp := Z.of_nat (String.length (String c s)) + k) in *.
  assert (1 <= dp) as Hdp by (unfold dp; cbn [String.length]; lia).
  unfold layout. rewrite (proj2 (Z.ltb_ge (dp - 1) (-4))) by lia. cbn [orb].
  destruct (Z.leb_spec 6 (dp - 1)) as [Hx|Hx].
  - exists (value_from 0 (String c s)), k. split; [|split; [done|lia]].
    rewrite (proj2 (Z.ltb_ge (dp - 1) 0)), Z.abs_eq by lia.
    destruct (Itoa_natural (dp - 1)) as [Hd Hne]; [lia|].
    set (xs := (if dp - 1 <? 10 then "0" else "") +:+ Itoa (dp - 1)).
    assert (value_from 0 xs = dp - 1) as Hv.
    { assert (value_from 0 (Itoa (dp - 1)) = dp - 1) as E.
      { apply value_from_val. unfold Itoa. rewrite (proj2 (Z.ltb_ge (dp - 1) 0)) by lia. apply dec_val. lia. }
      unfold xs. rewrite value_from_app. by destruct (dp - 1 <? 10). }
    replace k with (dp - 1 - Z.of_nat (String.length s)) by (unfold dp; cbn [String.length]; lia).
    assert (str_take 1 (String c s) +:+ (if Z.of_nat (String.length (String c s)) =? 1 then "" else "." +:+ str_drop 1 (String c s))
      +:+ "e" +:+ "+" +:+ xs = String c (fraction s +:+ "e+" +:+ xs)) as ->.
    { destruct s as [|d s]; [done|]. rewrite (proj2 (Z.eqb_neq _ 1)) by (cbn [String.length]; lia). done. }
    apply exp_text; [done|done| | |done|lia].
    + unfold xs. rewrite str_forall_app, Hd. by destruct (dp - 1 <? 10).
    + unfold xs. destruct (dp - 1 <? 10); [done|]. by rewrite str_app_nil_l.
  - rewrite (proj2 (Z.leb_gt dp 0)) by lia. rewrite (proj2 (Z.leb_le _ dp)) by (unfold dp; lia).
    exists (value_from 0 (String c s +:+ zeros k)), 0. split; [|split; [done|]].
    + replace (dp - Z.of_nat (String.length (String c s))) with k by (unfold dp; lia).
      rewrite str_app_cons. apply plain_text; [done|].
      by rewrite str_forall_app, Hs, zeros_bytes, bytes_of_digits.
    + rewrite value_from_app, zeros_bytes, value_from_zeros, Z2Nat.id by done. lia.
Qed.

Lemma trimmed_first c s z :
  first_digit c = true → str_forall is_digit s = true → TrimRight "0" (String c s) +:+ bytes_of "0" z = String c s →
  ∃ s', TrimRight "0" (String c s) = String c s' ∧ str_forall is_digit s' = true.
Proof.
  intros Hc Hs E. destruct (TrimRight "0" (String c s)) as [|d s'].
  - exfalso. rewrite str_app_nil_l in E. destruct z as [|z]; cbn in E; [done|]. injection E as <- _. done.
  - rewrite str_app_cons in E. injection E as -> E. exists s'. split; [done|].
    rewrite <- E, str_forall_app in Hs. by apply andb_true_iff in Hs as [? _].
Qed.

Lemma dec_first d : 0 < d → ∃ c s, dec d = String c s ∧ first_digit c = true ∧ str_forall is_digit s = true.
Proof.
  intros Hd. destruct (dec_shape d) as (x & ds & Hx & H0 & Hds & ->); [lia|]. exists (digit x), ds.
  split; [done|]. split; [|done]. unfold first_digit. rewrite digit_is_digit by done. cbn.
  destruct (Ascii.eqb_spec (digit x) "0") as [E|]; [|done]. exfalso.
  apply (f_equal code) in E. rewrite digit_code in E by done. change (code "0") with 48 in E.
  destruct H0 as [-> _]; lia.
Qed.

Lemma dec_length d : 0 <= d <= 2 ^ 53 → Z.of_nat (String.length (dec d)) <= 54.
Proof.
  intros Hd. unfold dec. pose proof (dec_digits_length (S (Z.to_nat (Z.log2 d))) d "") as H. cbn [String.length] in H.
  assert (Z.log2 d <= Z.log2 (2 ^ 53)) as Hl by (apply Z.log2_le_mono; lia).
  rewrite Z.log2_pow2 in Hl by lia. lia.
Qed.

(** The printed decimal is read back as the number it rounds to. *)
Lemma printed_text d k :
  0 < d <= 2 ^ 53 → 0 <= k <= 16 →
  ∃ m e, num_text (layout (TrimRight "0" (dec d)) (Z.of_nat (String.length (dec d)) + k)) m e ∧
    scaled 10 m e = scaled 10 d k.
Proof.
  intros Hd Hk. destruct (dec_first d) as (c & s & E & Hc & Hs); [lia|].
  pose proof (dec_length d ltac:(lia)) as Hl. pose proof (value_from_val 0 (dec d) d (dec_val d ltac:(lia))) as Hv.
  rewrite E in *. destruct (TrimRight_spec "0" (String c s)) as [z Ez]. symmetry in Ez.
  destruct (trimmed_first c s z Hc Hs Ez) as (s' & Et & Hs'). rewrite Et in *.
  assert (Z.of_nat (String.length (String c s)) = Z.of_nat (String.length (String c s')) + Z.of_nat z) as Elen.
  { rewrite <- Ez, str_app_length, bytes_of_length. lia. }
  rewrite Elen. rewrite <- Ez, value_from_app, value_from_zeros in Hv.
  replace (Z.of_nat (String.length (String c s')) + Z.of_nat z + k)
    with (Z.of_nat (String.length (String c s')) + (Z.of_nat z + k)) by lia.
  destruct (layout_text c s' (Z.of_nat z + k)) as (m & e & Hn & He & Hme); [done|done|lia|unfold max_exponent; lia|].
  exists m, e. split; [done|]. unfold scaled. rewrite (proj2 (Z.leb_le 0 e)), (proj2 (Z.leb_le 0 k)) by lia.
  f_equal. rewrite Hme, Z.pow_add_r by lia. rewrite <- Hv. lia.
Qed.

(** ** The round trip *)

Theorem whole_number_read n :
  0 <= n < 2 ^ 53 →
  Sscanf_g (Sprint_float (float_of n)) = Ok (float_of n) ∧ no_byte newline (Sprint_float (float_of n)) = true.
Proof.
  intros Hn. destruct n as [|p|p]; [vm_compute; by split| |lia].
  destruct (float_of_exact p ltac:(lia)) as (m & e & Ex & He & Hm). pose proof (log2_below p ltac:(lia)) as Hl.
  rewrite Ex. unfold Sprint_float.
  assert (as_fraction m e = (Zpos p * 2 ^ (- e), 2 ^ (- e))) as ->.
  { unfold as_fraction. destruct (Z.leb_spec 0 e) as [H|H]; [|by rewrite Hm].
    assert (e = 0) as E0 by lia. rewrite Hm, E0. change (2 ^ (- (0))) with 1. change (2 ^ 0) with 1. f_equal. lia. }
  pose proof (decimal_point_range p (- e) ltac:(lia) ltac:(lia)) as Hdp.
  assert (0 < 2 ^ (- e)) as Hpos by (apply Z.pow_pos_nonneg; lia).
  destruct (shortest_whole 17 (S754_finite false m e) (Zpos p) (2 ^ (- e))
    (decimal_point (Zpos p * 2 ^ (- e)) (2 ^ (- e))) 1) as (d & k & -> & Hk & Hd & Hok);
    [lia|done|rewrite Ex; apply SFeqb_refl|lia|].
  cbn [default]. apply float_eq_finite in Hok.
  assert (d ≠ 0) as Hd0.
  { intros ->. unfold scaled in Hok. rewrite (proj2 (Z.leb_le 0 k)), Z.mul_0_l in Hok by lia. done. }
  destruct (printed_text d k) as (m' & e' & Hn' & Es); [lia|lia|].
  cbn [id]. change (if false then "-" else "") with "". rewrite str_app_nil_l. split.
  - rewrite <- Hok. apply (Sscanf_text _ m' e'); [done|done|]. rewrite Hok. by eexists _, _.
  - by eapply text_one_line.
Qed.
