(* ===== verification/Domain.v ===== *)
(** * internal/domain

    The business types and rules every component shares: weights, money,
    identifiers, shipments, and the states of an outbox event and of a dispatch.
    The distinct string types for identifiers are [string] here; the enumerations
    are Go's [uint8] constants, whose zero value is neither state. *)
From S2P Require Import Prelude GoErrors GoStrconv GoUtf8 GoTime.

Definition MinWeightGrams : Z := 1.
Definition MaxWeightGrams : Z := 30000.

Definition ErrInvalidWeight : goerr :=
  ESentinel "domain.ErrInvalidWeight" "weight_grams must be between 1 and 30000".
Definition ErrNotFound : goerr := ESentinel "domain.ErrNotFound" "not found".

Definition ValidateWeight (weightGrams : Z) : option goerr :=
  if (weightGrams <? MinWeightGrams)%Z || (MaxWeightGrams <? weightGrams)%Z then
    Some (EWrap (Error ErrInvalidWeight +:+ ": got " +:+ Itoa weightGrams) [ErrInvalidWeight])
  else None.

(** An identifier from eight random bytes, which [crypto/rand] fills. *)
Definition newID (prefix b : string) : string := prefix +:+ "_" +:+ EncodeToString b.

Definition NewShipmentID : string → string := newID "shp".
Definition NewEventID : string → string := newID "evt".
Definition NewDispatchID : string → string := newID "dsp".
Definition NewCorrelationID : string → string := newID "req".

Record Money := mkMoney { AmountCents : Z; Currency : string }.

#[export] Instance Money_eq_dec : EqDecision Money.
Proof. solve_decision. Defined.

Definition ErrInvalidMoney : goerr := ESentinel "domain.ErrInvalidMoney" "invalid money".

Definition isCurrencyCode (s : string) : bool :=
  Nat.eqb (String.length s) 3 && str_forall is_upper s.

Definition ValidateMoney (m : Money) : option goerr :=
  if (AmountCents m <? 0)%Z then
    Some (EWrap (Error ErrInvalidMoney +:+ ": amount_cents " +:+ Itoa (AmountCents m)
                 +:+ " is negative") [ErrInvalidMoney])
  else if negb (isCurrencyCode (Currency m)) then
    Some (EWrap (Error ErrInvalidMoney +:+ ": currency " +:+ Quote (Currency m)
                 +:+ " is not a 3-letter uppercase code") [ErrInvalidMoney])
  else None.

Record Shipment := mkShipment {
  s_ID : string;
  s_WeightGrams : Z;
  s_Price : Money;
  s_CreatedAt : Time
}.

#[export] Instance Shipment_eq_dec : EqDecision Shipment.
Proof. solve_decision. Defined.

(** [OutboxStatus], [iota + 1]. *)
Definition OutboxPending : Z := 1.
Definition OutboxPublished : Z := 2.

(** [DispatchStatus], [iota + 1]. *)
Definition DispatchPending : Z := 1.
Definition DispatchDispatched : Z := 2.

Record Dispatch := mkDispatch {
  d_Status : Z;
  d_ID : string;
  d_EventID : string;
  d_DispatchedAt : Time
}.

#[export] Instance Dispatch_eq_dec : EqDecision Dispatch.
Proof. solve_decision. Defined.

(** [Dispatch{}]. *)
Definition zero_Dispatch : Dispatch := mkDispatch 0 "" "" zero_Time.

Record ShipmentView := mkView {
  v_Shipment : Shipment;
  v_Outbox : Z;
  v_Dispatch : Dispatch
}.

(** ** The rules as predicates *)

Definition valid_weight (w : Z) : Prop := (1 ≤ w ≤ 30000)%Z.

Definition valid_money (m : Money) : Prop :=
  (0 ≤ AmountCents m)%Z ∧
  ∃ a b c, Currency m = String a (String b (str1 c)) ∧
    (65 ≤ code a ≤ 90)%Z ∧ (65 ≤ code b ≤ 90)%Z ∧ (65 ≤ code c ≤ 90)%Z.

Lemma ValidateWeight_spec w :
  (valid_weight w ∧ ValidateWeight w = None) ∨
  (¬ valid_weight w ∧ ∃ e, ValidateWeight w = Some e ∧ Is e ErrInvalidWeight = true).
Proof.
  unfold ValidateWeight, valid_weight, MinWeightGrams, MaxWeightGrams.
  destruct (Z.ltb_spec w 1), (Z.ltb_spec 30000 w); simpl;
    first [ left; split; [lia|done] | right; split; [lia|by eexists] ].
Qed.

Lemma ValidateWeight_nil w : ValidateWeight w = None ↔ valid_weight w.
Proof. destruct (ValidateWeight_spec w) as [[? ->]|[? (e & -> & _)]]; naive_solver. Qed.

Lemma isCurrencyCode_spec s :
  isCurrencyCode s = true ↔
  ∃ a b c, s = String a (String b (str1 c)) ∧
    (65 ≤ code a ≤ 90)%Z ∧ (65 ≤ code b ≤ 90)%Z ∧ (65 ≤ code c ≤ 90)%Z.
Proof.
  unfold isCurrencyCode. split.
  - intros [Hl%Nat.eqb_eq Hf]%andb_true_iff.
    destruct s as [|a [|b [|c [|]]]]; try done. exists a, b, c. split; [done|].
    simpl in Hf. rewrite !andb_true_iff in Hf. unfold is_upper in Hf.
    rewrite !between_iff in Hf. naive_solver.
  - intros (a & b & c & -> & Ha & Hb & Hc). simpl. unfold is_upper.
    by rewrite !(proj2 (between_iff _ _ _)) by done.
Qed.

Lemma ValidateMoney_spec m :
  (valid_money m ∧ ValidateMoney m = None) ∨
  (¬ valid_money m ∧ ∃ e, ValidateMoney m = Some e ∧ Is e ErrInvalidMoney = true).
Proof.
  unfold ValidateMoney, valid_money. rewrite <- isCurrencyCode_spec.
  destruct (Z.ltb_spec (AmountCents m) 0).
  { right. split; [intros [? _]; lia|by eexists]. }
  destruct (isCurrencyCode (Currency m)); simpl.
  - by left.
  - right. split; [naive_solver|by eexists].
Qed.

Lemma ValidateMoney_nil m : ValidateMoney m = None ↔ valid_money m.
Proof. destruct (ValidateMoney_spec m) as [[? ->]|[? (e & -> & _)]]; naive_solver. Qed.

Lemma currency_ascii s : isCurrencyCode s = true → str_forall is_ascii s = true ∧ String.length s = 3.
Proof.
  intros (a & b & c & -> & Ha & Hb & Hc)%isCurrencyCode_spec. split; [|done].
  simpl. unfold is_ascii. rewrite !(proj2 (Z.ltb_lt _ _)) by lia. done.
Qed.

Lemma newID_inj prefix b c : newID prefix b = newID prefix c → b = c.
Proof. unfold newID. intros ?%str_app_inj_l%str_app_inj_l. by apply EncodeToString_inj. Qed.

Lemma newID_valid prefix b : str_forall is_ascii prefix = true → utf8_valid (newID prefix b) = true.
Proof.
  intros Hp. apply ascii_valid. unfold newID.
  by rewrite !str_forall_app, Hp, EncodeToString_ascii.
Qed.

Lemma newID_nonempty prefix b : newID prefix b ≠ "".
Proof. unfold newID. by destruct prefix. Qed.

#[export] Hint Resolve newID_nonempty newID_valid : parcel.
