(* ===== verification/Jsonb.v ===== *)
(** * jsonb columns

    What a value looks like after it was stored in a jsonb column and read back
    as text.  [json_same] relates two JSON values that differ only in the order
    of object members and in how strings are escaped; [Jsonb] is the promise of
    the database the program relies on.  Decoding a Go struct does not depend on
    the order of members, as long as no two keys name the same field. *)
From S2P Require Import Prelude GoErrors GoStrconv GoUtf8 Json JsonFacts GoTime.

Inductive json_same : json → json → Prop :=
  | same_null : json_same JNull JNull
  | same_bool b : json_same (JBool b) (JBool b)
  (** An integer in decimal form is printed as it is. *)
  | same_num l l' : (∀ z, l = Itoa z → l' = l) → json_same (JNum l) (JNum l')
  (** Plain ASCII is printed as it is. *)
  | same_str r r' : unquote r' = unquote r → (str_forall plain r = true → r' = r) →
      json_same (JStr r) (JStr r')
  | same_arr l l' : Forall2 json_same l l' → json_same (JArr l) (JArr l')
  | same_obj ms ms'' ms' : Forall2 (λ m m', unquote m'.1 = unquote m.1 ∧ json_same m.2 m'.2) ms ms'' →
      ms'' ≡ₚ ms' → json_same (JObj ms) (JObj ms').

(** No object of the value has two members of the same name. *)
Fixpoint json_nodup (v : json) : Prop :=
  match v with
  | JArr l => foldr (λ v P, json_nodup v ∧ P) True l
  | JObj ms => NoDup (unquote ∘ fst <$> ms) ∧ foldr (λ m P, json_nodup m.2 ∧ P) True ms
  | _ => True
  end.

(** [jsonb_text s] is the text of [s::jsonb], [None] when the server rejects
    [s]. *)
Class Jsonb := {
  jsonb_text : string → option string;
  jsonb_text_same s s' v :
    jsonb_text s = Some s' → json_parse s = Some v → json_nodup v →
    ∃ v', json_parse s' = Some v' ∧ json_same v v'
}.

(** ** Order of members *)

(** The name encoding/json looks a member up by. *)
Definition fold_key (m : string * json) : option string := fold_name <$> unquote m.1.

Lemma names_fold k f : names k f = bool_decide (fold_key (k, JNull) = Some (fold_name f)).
Proof.
  unfold names, fold_key. simpl. destruct (unquote k); simpl.
  - apply bool_decide_ext. split; congruence.
  - done.
Qed.

(** Two members of different names can be decoded in either order. *)
Definition commuting {A} (step : A → string → json → option A) : Prop :=
  ∀ w m1 m2, fold_key m1 ≠ fold_key m2 →
    (w' ← step w m1.1 m1.2; step w' m2.1 m2.2) = (w' ← step w m2.1 m2.2; step w' m1.1 m1.2).

Lemma dec_members_cons {A} (step : A → string → json → option A) a m ms :
  dec_members step a (m :: ms) = (a' ← step a m.1 m.2; dec_members step a' ms).
Proof.
  destruct m as [k v]. unfold dec_members. cbn. destruct (step a k v); [done|]. cbn.
  induction ms as [|[] ms IH]; cbn; [done|apply IH].
Qed.

Lemma dec_members_perm {A} (step : A → string → json → option A) ms ms' a :
  commuting step → NoDup (fold_key <$> ms) → ms ≡ₚ ms' →
  dec_members step a ms = dec_members step a ms'.
Proof.
  intros Hc Hnd Hp. revert a Hnd.
  induction Hp as [|m ms ms' Hp IH|m1 m2 ms|ms1 ms2 ms3 Hp1 IH1 Hp2 IH2]; intros a Hnd; [done| | |].
  - rewrite !dec_members_cons. destruct (step a m.1 m.2); [|done]. apply IH.
    by apply list.NoDup_cons in Hnd as [_ ?].
  - rewrite !dec_members_cons.
    assert (fold_key m2 ≠ fold_key m1) as Hne.
    { rewrite !fmap_cons in Hnd. apply list.NoDup_cons in Hnd as [Hnd _]. set_solver. }
    pose proof (Hc a m2 m1 Hne) as Hswap.
    assert (∀ m m' : string * json, (a' ← step a m.1 m.2; dec_members step a' (m' :: ms))
      = (a' ← (a' ← step a m.1 m.2; step a' m'.1 m'.2); dec_members step a' ms)) as Hass.
    { intros m m'. destruct (step a m.1 m.2); [apply dec_members_cons|done]. }
    by rewrite !Hass, Hswap.
  - rewrite IH1 by done. apply IH2. by rewrite <- Hp1.
Qed.

(** A stored object is decoded like the one that was written. *)
Lemma same_obj_keys (ms ms'' : list (string * json)) :
  Forall2 (λ m m', unquote m'.1 = unquote m.1 ∧ json_same m.2 m'.2) ms ms'' →
  fold_key <$> ms'' = fold_key <$> ms.
Proof.
  induction 1 as [|m m' ms ms' [Hk _] _ IH]; [done|]. rewrite !fmap_cons, IH.
  unfold fold_key. by rewrite Hk.
Qed.

Lemma same_obj_dec {A} (step : A → string → json → option A) ms v' a :
  commuting step → NoDup (fold_key <$> ms) → json_same (JObj ms) v' →
  ∃ ms' ms'', v' = JObj ms' ∧
    Forall2 (λ m m', unquote m'.1 = unquote m.1 ∧ json_same m.2 m'.2) ms ms'' ∧
    dec_members step a ms' = dec_members step a ms''.
Proof.
  intros Hc Hnd H. inversion H as [| | | | |? ms'' ms' Hf Hp]; subst.
  exists ms', ms''. split; [done|]. split; [done|]. symmetry.
  apply dec_members_perm; [done| |done]. by rewrite (same_obj_keys _ _ Hf).
Qed.

(** The database that keeps the text of valid JSON. *)
Definition text_jsonb (s : string) : option string :=
  if json_parse s then Some s else None.

Lemma json_same_refl v : json_same v v.
Proof.
  induction v as [|b|lit|raw|l Hl|ms Hms] using json_nested_ind; try (by constructor).
  - constructor. by induction Hl; constructor.
  - econstructor; [|done]. by induction Hms; constructor.
Qed.

#[export] Instance text_Jsonb : Jsonb.
Proof.
  refine {| jsonb_text := text_jsonb |}. intros s s' v Hs Hv _. unfold text_jsonb in Hs.
  rewrite Hv in Hs. injection Hs as <-. eauto using json_same_refl.
Defined.
