(* ===== verification/GoContext.v ===== *)
(** * Contexts and clocks

    [context.Context] as the program uses it: one value (the correlation ID) and
    the moment and cause of its end, if it ends.  The moment is part of the
    context, so a cancellation from outside is one the environment has chosen in
    advance.  [Clock] is the monotonic clock behind timers; a [select] whose two
    cases are ready picks either.  The file has internal/correlation too. *)
From S2P Require Import Prelude GoErrors GoUtf8 Domain.

Record Context := mkContext {
  ctx_id : option string;
  ctx_done : option (Z * goerr)
}.

Definition Background : Context := mkContext None None.

Class Clock (W : Type) := {
  now : W → Z;
  (** Blocks until the given time, at least. *)
  wait_until : Z → W → W;
  (** Which of two ready cases a [select] runs: [true] is the context's. *)
  pick_done : W → bool;
  wait_until_mono t w : (now w ≤ now (wait_until t w))%Z;
  wait_until_reached t w : (t ≤ now (wait_until t w))%Z
}.

Section context.
Context {W : Type} {IC : Clock W}.

(** [ctx.Err()]. *)
Definition ctx_Err (ctx : Context) (w : W) : option goerr :=
  match ctx_done ctx with
  | Some (t, e) => if (t <=? now w)%Z then Some e else None
  | None => None
  end.

(** [context.WithTimeout]. *)
Definition WithTimeout (ctx : Context) (d : Z) (w : W) : Context :=
  let deadline := (now w + d)%Z in
  mkContext (ctx_id ctx)
    (match ctx_done ctx with
     | Some (t, e) => if (t <=? deadline)%Z then Some (t, e) else Some (deadline, CtxDeadlineExceeded)
     | None => Some (deadline, CtxDeadlineExceeded)
     end).

(** [select { case <-ctx.Done(): return ctx.Err(); case <-timer.C: return nil }]
    with a timer of duration [d]. *)
Definition select_timer (ctx : Context) (d : Z) (w : W) : option goerr * W :=
  let fires := (now w + Z.max 0 d)%Z in
  match ctx_done ctx with
  | None => (None, wait_until fires w)
  | Some (t, e) =>
      let ends := Z.max (now w) t in
      if (ends <? fires)%Z || ((ends =? fires)%Z && pick_done w)
      then (Some e, wait_until ends w)
      else (None, wait_until fires w)
  end.

Lemma ctx_Err_mono ctx w w' e :
  (now w ≤ now w')%Z → ctx_Err ctx w = Some e → ctx_Err ctx w' = Some e.
Proof.
  unfold ctx_Err. destruct (ctx_done ctx) as [[t e']|]; [|done]. intros Hle.
  destruct (Z.leb_spec t (now w)), (Z.leb_spec t (now w')); try done; exfalso; lia.
Qed.

(** A timer that ran out took its time; one that was cut short did so because
    the context had ended. *)
Lemma select_timer_spec ctx d w r w' :
  select_timer ctx d w = (r, w') →
  match r with
  | None => (now w + Z.max 0 d ≤ now w')%Z
  | Some e => ctx_Err ctx w' = Some e
  end.
Proof.
  unfold select_timer, ctx_Err. pose proof (wait_until_reached (now w + Z.max 0 d) w).
  destruct (ctx_done ctx) as [[t e]|]; [|intros [= <- <-]; lia].
  pose proof (wait_until_reached (Z.max (now w) t) w) as Ht.
  pose proof (Z.le_max_r (now w) t).
  case_match; intros [= <- <-]; [|lia].
  by rewrite (proj2 (Z.leb_le _ _)) by (etrans; eassumption).
Qed.

Lemma WithTimeout_done ctx d w :
  ∃ t e, ctx_done (WithTimeout ctx d w) = Some (t, e) ∧ (t ≤ now w + d)%Z.
Proof.
  unfold WithTimeout. destruct (ctx_done ctx) as [[t e]|]; simpl.
  - destruct (Z.leb_spec t (now w + d)); eexists _, _; split; [done..|done|lia].
  - eexists _, _. split; [done|lia].
Qed.

End context.

(** A clock that is a number. *)
Definition ref_Clock : Clock Z.
Proof.
  refine {| now := λ w, w; wait_until := λ t w, Z.max t w; pick_done := λ _, true |}; lia.
Defined.

(** ** internal/correlation *)

Definition MetadataKey : string := "x-correlation-id".
Definition HTTPHeader : string := "X-Correlation-ID".

Definition WithID (ctx : Context) (id : string) : Context := mkContext (Some id) (ctx_done ctx).

Definition FromContext (ctx : Context) : string := default "" (ctx_id ctx).

(** [fromIncomingMetadata]: [None] is a call without metadata; keys are lower
    case. *)
Definition fromIncomingMetadata (md : option (gmap string (list string))) : string :=
  match md with
  | None => ""
  | Some md => match md !! MetadataKey with
               | Some (v :: _) => v
               | _ => ""
               end
  end.

(** [UnaryServerInterceptor]: the handler's context and the header echoed to the
    caller. *)
Definition UnaryServerInterceptor {A} (md : option (gmap string (list string))) (rnd : string)
    (ctx : Context) (handler : Context → A) : A * (string * string) :=
  let id := fromIncomingMetadata md in
  let id := if bool_decide (id = "") then NewCorrelationID rnd else id in
  (handler (WithID ctx id), (MetadataKey, id)).

(** Every request handler runs with a correlation ID that is not empty and
    is the one echoed to the caller: the first one the caller sent, or a fresh
    one when the caller sent none or an empty one. *)
Theorem correlation_id_present {A} md rnd ctx (handler : Context → A) :
  ∃ id, id ≠ "" ∧
    UnaryServerInterceptor md rnd ctx handler = (handler (WithID ctx id), (MetadataKey, id)) ∧
    FromContext (WithID ctx id) = id ∧
    (∀ m v vs, md = Some m → m !! MetadataKey = Some (v :: vs) → v ≠ "" → id = v).
Proof.
  unfold UnaryServerInterceptor. case_bool_decide as Hid.
  - exists (NewCorrelationID rnd). split; [apply newID_nonempty|]. split; [done|]. split; [done|].
    intros m v vs -> Hm Hv. exfalso. apply Hv. unfold fromIncomingMetadata in Hid. by rewrite Hm in Hid.
  - eexists. split; [exact Hid|]. split; [done|]. split; [done|].
    intros m v vs -> Hm Hv. unfold fromIncomingMetadata. by rewrite Hm.
Qed.
