(* ===== verification/GoSha256.v ===== *)
(** * Packages crypto/sha256 and encoding/hex

    [sha256.Sum256] after FIPS 180-4, on 32-bit words kept in [Z].  The tables of
    the standard are computed from their definition, the first bits of the
    fractional parts of square and cube roots of primes. *)
From S2P Require Import Prelude.

(** ** Words of 32 bits *)

Definition w32 (z : Z) : Z := Z.land z (Z.ones 32).
Definition add32 (x y : Z) : Z := w32 (x + y).
Definition shr (n x : Z) : Z := Z.shiftr x n.
Definition rotr (n x : Z) : Z := Z.lor (Z.shiftr x n) (w32 (Z.shiftl x (32 - n))).
Definition not32 (x : Z) : Z := Z.lxor x (Z.ones 32).

(** ** The tables *)

Definition is_prime (n : Z) : bool :=
  forallb (λ d, negb (n mod d =? 0)%Z) (seqZ 2 (n - 2)).
Definition primes : list Z := filter (λ n, is_prime n = true) (seqZ 2 310).

(** The integer cube root, bit by bit. *)
Fixpoint cube_root (bits : nat) (n r : Z) : Z :=
  match bits with
  | 0 => r
  | S i =>
      let r' := (r + 2 ^ Z.of_nat i)%Z in
      cube_root i n (if (r' * r' * r' <=? n)%Z then r' else r)
  end.

Definition initial_hash : list Z :=
  Eval vm_compute in (λ p, w32 (Z.sqrt (p * 2 ^ 64))) <$> take 8 primes.
Definition round_constants : list Z :=
  Eval vm_compute in (λ p, w32 (cube_root 36 (p * 2 ^ 96) 0)) <$> take 64 primes.

(** ** Padding *)

Definition bytes_of (s : string) : list Z := code <$> String.list_ascii_of_string s.
Definition string_of (l : list Z) : string := String.string_of_list_ascii (chr <$> l).

(** The lowest [8 * n] bits, the most significant byte first. *)
Fixpoint big_endian (n : nat) (z : Z) : list Z :=
  match n with
  | 0 => []
  | S n => Z.land (Z.shiftr z (8 * Z.of_nat n)) 255 :: big_endian n z
  end.

Definition from_big_endian (l : list Z) : Z := foldl (λ acc b, Z.lor (Z.shiftl acc 8) b) 0%Z l.

Definition padded (msg : list Z) : list Z :=
  let n := Z.of_nat (length msg) in
  msg ++ [128%Z] ++ replicate (Z.to_nat ((55 - n) mod 64)) 0%Z ++ big_endian 8 (8 * n).

Fixpoint groups {A} (fuel n : nat) (l : list A) : list (list A) :=
  match fuel, l with
  | S fuel, _ :: _ => take n l :: groups fuel n (drop n l)
  | _, _ => []
  end.

(** ** Compression *)

Definition small_sigma0 (x : Z) : Z := Z.lxor (Z.lxor (rotr 7 x) (rotr 18 x)) (shr 3 x).
Definition small_sigma1 (x : Z) : Z := Z.lxor (Z.lxor (rotr 17 x) (rotr 19 x)) (shr 10 x).
Definition big_sigma0 (x : Z) : Z := Z.lxor (Z.lxor (rotr 2 x) (rotr 13 x)) (rotr 22 x).
Definition big_sigma1 (x : Z) : Z := Z.lxor (Z.lxor (rotr 6 x) (rotr 11 x)) (rotr 25 x).
Definition choose (x y z : Z) : Z := Z.lxor (Z.land x y) (Z.land (not32 x) z).
Definition majority (x y z : Z) : Z := Z.lxor (Z.lxor (Z.land x y) (Z.land x z)) (Z.land y z).

(** The message schedule: the sixteen latest words, the oldest first, and one
    word per round. *)
Fixpoint schedule (rounds : nat) (w : list Z) : list Z :=
  match rounds, w with
  | S rounds, w0 :: rest =>
      let nth i := default 0%Z (w !! i) in
      let next := add32 (add32 (small_sigma1 (nth 14)) (nth 9)) (add32 (small_sigma0 (nth 1)) w0) in
      w0 :: schedule rounds (rest ++ [next])
  | _, _ => []
  end.

Record Vars := mkVars { va : Z; vb : Z; vc : Z; vd : Z; ve : Z; vf : Z; vg : Z; vh : Z }.

Definition round (v : Vars) (kw : Z * Z) : Vars :=
  let 'mkVars a b c d e f g h := v in
  let t1 := add32 (add32 (add32 h (big_sigma1 e)) (choose e f g)) (add32 kw.1 kw.2) in
  let t2 := add32 (big_sigma0 a) (majority a b c) in
  mkVars (add32 t1 t2) a b c (add32 d t1) e f g.

Definition vars_of (l : list Z) : Vars :=
  let nth i := default 0%Z (l !! i) in
  mkVars (nth 0) (nth 1) (nth 2) (nth 3) (nth 4) (nth 5) (nth 6) (nth 7).
Definition list_of_vars (v : Vars) : list Z := [va v; vb v; vc v; vd v; ve v; vf v; vg v; vh v].

Definition compress (h : list Z) (block : list Z) : list Z :=
  let w := schedule 64 (from_big_endian <$> groups 16 4 block) in
  zip_with add32 h (list_of_vars (foldl round (vars_of h) (zip round_constants w))).

Definition Sum256 (s : string) : string :=
  let p := padded (bytes_of s) in
  string_of (foldl compress initial_hash (groups (length p) 64 p) ≫= big_endian 4).

(** ** [hex.EncodeToString] *)

Definition hex_digit (d : Z) : ascii := chr (if (d <? 10)%Z then 48 + d else 87 + d).

Fixpoint hex_EncodeToString (s : string) : string :=
  match s with
  | EmptyString => ""
  | String c s =>
      String (hex_digit (Z.shiftr (code c) 4)) (String (hex_digit (Z.land (code c) 15)) (hex_EncodeToString s))
  end.

(** The digests of the standard's examples. *)
Example Sum256_abc :
  hex_EncodeToString (Sum256 "abc") = "ba7816bf8f01cfea414140de5dae2223b00361a396177a9cb410ff61f20015ad".
Proof. vm_compute. reflexivity. Qed.

Example Sum256_two_blocks :
  hex_EncodeToString (Sum256 "abcdbcdecdefdefgefghfghighijhijkijkljklmklmnlmnomnopnopq") =
  "248d6a61d20638b8e5c026930c3e6039a33ce45964ff2167f6ecedd419db06c1".
Proof. vm_compute. reflexivity. Qed.

(** ** Lengths *)

Lemma hex_length s : String.length (hex_EncodeToString s) = 2 * String.length s.
Proof. induction s as [|c s IH]; [done|]. cbn [hex_EncodeToString String.length]. lia. Qed.

(** The padded message is a whole number of blocks. *)
Lemma padded_length msg : (64 | Z.of_nat (length (padded msg)))%Z.
Proof.
  unfold padded. rewrite !length_app, length_replicate. simpl length.
  set (n := Z.of_nat (length msg)).
  replace (Z.of_nat (length msg + (1 + (Z.to_nat ((55 - n) mod 64) + 8))))%Z
    with (n + 9 + (55 - n) mod 64)%Z.
  - exists ((n + 9 + (55 - n) mod 64) / 64)%Z.
    pose proof (Z.div_mod (55 - n) 64 ltac:(lia)).
    replace (n + 9 + (55 - n) mod 64)%Z with ((1 - (55 - n) / 64) * 64)%Z by lia.
    by rewrite Z.div_mul.
  - pose proof (Z.mod_pos_bound (55 - n) 64). lia.
Qed.

Lemma compress_length h block : length h = 8 → length (compress h block) = 8.
Proof. intros Hh. unfold compress. rewrite length_zip_with, Hh. done. Qed.

Lemma string_of_length l : String.length (string_of l) = length l.
Proof. unfold string_of. induction l as [|x l IH]; [done|]. cbn. by rewrite <- IH. Qed.

Lemma Sum256_length s : String.length (Sum256 s) = 32.
Proof.
  unfold Sum256. rewrite string_of_length.
  assert (∀ l h, length h = 8 → length (foldl compress h l) = 8) as Hfold.
  { induction l as [|b l IH]; intros h Hh; [done|]. cbn. by apply IH, compress_length. }
  specialize (Hfold (groups (length (padded (bytes_of s))) 64 (padded (bytes_of s))) initial_hash eq_refl).
  revert Hfold. generalize (foldl compress initial_hash (groups (length (padded (bytes_of s))) 64 (padded (bytes_of s)))).
  intros h Hh. enough (∀ l : list Z, length (l ≫= big_endian 4) = 4 * length l) as -> by lia.
  induction l as [|x l IH]; [done|]. rewrite bind_cons, length_app, IH. cbn. lia.
Qed.
