(* ===== verification/GoFlag.v ===== *)
(** * Package flag

    [flag.Parse] on a command line whose flags are all boolean, with the error
    handling of [flag.CommandLine]: a command line that does not parse ends the
    process, with status 2, the message and the usage on the standard error, and
    -help with status 0 and the usage. *)
From S2P Require Import Prelude GoErrors GoStrings GoUtf8.

(** A flag: its name and the usage text, without back quotes. *)
Record BoolFlag := mkBoolFlag { fl_Name : string; fl_Usage : string }.

(** The flags in the order of their names, as [PrintDefaults] visits them; the usage
    of a flag of one letter is on the same line. *)
Definition PrintDefaults (flags : list BoolFlag) : string :=
  foldr (λ f out, "  -" +:+ fl_Name f
                  +:+ (if (String.length (fl_Name f) =? 1)%nat then str1 "009"
                       else str1 newline +:+ "    " +:+ str1 "009")
                  +:+ fl_Usage f +:+ str1 newline +:+ out) "" flags.

Definition Usage (program : string) (flags : list BoolFlag) : string :=
  "Usage of " +:+ program +:+ ":" +:+ str1 newline +:+ PrintDefaults flags.

(** [strconv.ParseBool]. *)
Definition ParseBool (s : string) : option bool :=
  if bool_decide (s ∈ ["1"; "t"; "T"; "true"; "TRUE"; "True"]) then Some true
  else if bool_decide (s ∈ ["0"; "f"; "F"; "false"; "FALSE"; "False"]) then Some false
  else None.

(** The name before the first = and the value after it; the name is not empty. *)
Fixpoint cut_value (s : string) : string * option string :=
  match s with
  | EmptyString => ("", None)
  | String c s =>
      if Ascii.eqb c "=" then ("", Some s)
      else let (name, value) := cut_value s in (String c name, value)
  end.

(** What one argument is: not a flag, the end of the flags, a flag with its value,
    the request for help, or an error. *)
Inductive Arg := ArgStop | ArgEnd | ArgSet (name : string) (v : bool) | ArgHelp | ArgBad (msg : string).

Definition parse_named (flags : list BoolFlag) (name : string) (value : option string) : Arg :=
  if bool_decide (name ∈ fl_Name <$> flags) then
    match value with
    | None => ArgSet name true
    | Some v =>
        match ParseBool v with
        | Some b => ArgSet name b
        | None => ArgBad ("invalid boolean value " +:+ Quote v +:+ " for -" +:+ name +:+ ": parse error")
        end
    end
  else if bool_decide (name = "help") || bool_decide (name = "h") then ArgHelp
  else ArgBad ("flag provided but not defined: -" +:+ name).

(** [FlagSet.parseOne]. *)
Definition parse_one (flags : list BoolFlag) (s : string) : Arg :=
  match s with
  | String "-" (String c rest) =>
      let minus := Ascii.eqb c "-" in
      if minus && bool_decide (rest = "") then ArgEnd
      else
        match (if minus then rest else String c rest) with
        | String c rest =>
            if Ascii.eqb c "-" || Ascii.eqb c "=" then ArgBad ("bad flag syntax: " +:+ s)
            else let (name, value) := cut_value rest in parse_named flags (String c name) value
        | EmptyString => ArgBad ("bad flag syntax: " +:+ s)
        end
  | _ => ArgStop
  end.

(** The values set so far, and the arguments left; or the status and what is printed
    when the process ends. *)
Fixpoint parse_args (program : string) (flags : list BoolFlag) (args : list string) (set : gmap string bool)
    : gmap string bool * list string + Z * string :=
  match args with
  | [] => inl (set, [])
  | s :: rest =>
      match parse_one flags s with
      | ArgStop => inl (set, s :: rest)
      | ArgEnd => inl (set, rest)
      | ArgSet name v => parse_args program flags rest (<[name := v]> set)
      | ArgHelp => inr (0%Z, Usage program flags)
      | ArgBad msg => inr (2%Z, msg +:+ str1 newline +:+ Usage program flags)
      end
  end.

Definition Parse (program : string) (flags : list BoolFlag) (args : list string) : gmap string bool * list string + Z * string :=
  parse_args program flags args ∅.

(** The value of a flag with a default. *)
Definition flag_value (name : string) (dflt : bool) (set : gmap string bool) : bool := default dflt (set !! name).

Example Parse_examples :
  let flags := [mkBoolFlag "check" "report only"] in
  let usage := "Usage of ports:" +:+ str1 newline +:+ "  -check" +:+ str1 newline +:+ "    " +:+ str1 "009" +:+ "report only"
               +:+ str1 newline in
  let parsed args := match Parse "ports" flags args with inl (set, rest) => inl (set !! "check", rest) | inr e => inr e end in
  parsed [] = inl (None, []) ∧
  parsed ["-check"; "x"] = inl (Some true, ["x"]) ∧
  parsed ["--check=0"; "--"; "-check"] = inl (Some false, ["-check"]) ∧
  parsed ["-check=no"] =
    inr (2%Z, "invalid boolean value " +:+ str1 "034" +:+ "no" +:+ str1 "034" +:+ " for -check: parse error" +:+ str1 newline +:+ usage) ∧
  parsed ["-h"] = inr (0%Z, usage) ∧
  parsed ["---check"] = inr (2%Z, "bad flag syntax: ---check" +:+ str1 newline +:+ usage).
Proof. vm_compute. by split_and!. Qed.
