(* ===== verification/GoPath.v ===== *)
(** * Package path/filepath, on Unix

    [Clean], [Join], [Base], [Dir] and [Rel].  The functions work on the text; the
    lemmas say what they are on paths made of proper names, as lists of names. *)
From S2P Require Import Prelude GoErrors GoStrings.

Definition slash : ascii := "/".
Definition rooted (p : string) : bool := match p with String c _ => Ascii.eqb c slash | _ => false end.

(** The elements between the slashes, empty ones and [.] dropped. *)
Definition elements (p : string) : list string :=
  filter (λ x, x ≠ "" ∧ x ≠ ".") (Split slash p).

(** The elements with every [..] taken back, the latest first: a [..] at the root
    is dropped, at the start of a relative path it stays. *)
Definition clean_step (is_rooted : bool) (out : list string) (x : string) : list string :=
  if bool_decide (x = "..") then
    match out with
    | [] => if is_rooted then [] else [x]
    | y :: rest => if bool_decide (y = "..") then x :: out else rest
    end
  else x :: out.

Definition clean_elements (p : string) : list string :=
  rev (foldl (clean_step (rooted p)) [] (elements p)).

Definition unparse (is_rooted : bool) (l : list string) : string :=
  if is_rooted then String slash (Join slash l)
  else match l with [] => "." | _ => Join slash l end.

Definition Clean (p : string) : string := unparse (rooted p) (clean_elements p).

(** [filepath.Join] of the elements that are not empty. *)
Definition path_Join (l : list string) : string :=
  match filter (λ x, x ≠ "") l with
  | [] => ""
  | l => Clean (Join slash l)
  end.

(** [filepath.Base]: the last element, trailing slashes aside. *)
Definition Base (p : string) : string :=
  if bool_decide (p = "") then "."
  else match TrimRight slash p with
       | EmptyString => "/"
       | p => after_last slash p
       end.

(** The text up to and with the last slash. *)
Fixpoint up_to_last (c : ascii) (s : string) : string :=
  match s with
  | EmptyString => ""
  | String d s =>
      match up_to_last c s with
      | EmptyString => if Ascii.eqb d c then str1 d else ""
      | t => String d t
      end
  end.

Definition Dir (p : string) : string := Clean (up_to_last slash p).

(** The common prefix of two lists, and what remains of each. *)
Fixpoint without_common (a b : list string) : list string * list string :=
  match a, b with
  | x :: a', y :: b' => if bool_decide (x = y) then without_common a' b' else (a, b)
  | _, _ => (a, b)
  end.

(** [filepath.Rel(base, targ)]. *)
Definition Rel (base targ : string) : res string :=
  let b := clean_elements base in
  let t := clean_elements targ in
  if bool_decide (Clean base = Clean targ) then Ok "."
  else if negb (Bool.eqb (rooted base) (rooted targ)) then
    Err (EOther ("Rel: can't make " +:+ targ +:+ " relative to " +:+ base))
  else
    let (b, t) := without_common b t in
    match b with
    | x :: _ =>
        if bool_decide (x = "..") then Err (EOther ("Rel: can't make " +:+ targ +:+ " relative to " +:+ base))
        else Ok (Join slash (((λ _, "..") <$> b) ++ t))
    | [] => Ok (Join slash t)
    end.

Example Clean_examples :
  (Clean <$> [""; "a//b/./c/"; "a/../../b"; "/../a/.."; "bin/../../x"; "./bin"]) =
  ["."; "a/b/c"; "../b"; "/"; "../x"; "bin"].
Proof. vm_compute. reflexivity. Qed.

Example Rel_examples :
  Rel "bin" "bin/protoc-1/bin/protoc" = Ok "protoc-1/bin/protoc" ∧ Rel "a/b" "a/c" = Ok "../c" ∧
  is_ok (Rel "../a" "b") = false.
Proof. vm_compute. repeat split. Qed.

(** ** Paths made of names *)

(** A name that is its own path. *)
Definition proper (x : string) : Prop := x ≠ "" ∧ x ≠ "." ∧ x ≠ ".." ∧ no_byte slash x = true.
#[export] Instance proper_dec x : Decision (proper x).
Proof. unfold proper. apply _. Defined.

Lemma Split_app_sep sep x s : Split sep (x +:+ String sep s) = Split sep x ++ Split sep s.
Proof.
  induction x as [|c x IH].
  - rewrite str_app_nil_l. simpl. by rewrite Ascii.eqb_refl.
  - rewrite str_app_cons. simpl. rewrite IH. destruct (Split_cons sep x) as (y & l & ->). simpl.
    by destruct (Ascii.eqb c sep).
Qed.

Lemma elements_app a b : elements (a +:+ String slash b) = elements a ++ elements b.
Proof. unfold elements. by rewrite Split_app_sep, list.filter_app. Qed.

Lemma elements_slash a : elements (String slash a) = elements a.
Proof. exact (elements_app "" a). Qed.

Lemma filter_proper (P : string → Prop) `{∀ x, Decision (P x)} l :
  Forall P l → filter P l = l.
Proof. induction 1 as [|x l Hx _ IH]; [done|]. by rewrite list.filter_cons_True, IH. Qed.

Lemma elements_Join l : Forall proper l → elements (Join slash l) = l.
Proof.
  intros Hl. destruct (decide (l = [])) as [->|Hn]; [done|].
  unfold elements. rewrite Split_Join; [|done|].
  - apply filter_proper. eapply Forall_impl; [|exact Hl]. by intros x (? & ? & _).
  - eapply Forall_impl; [|exact Hl]. by intros x (_ & _ & _ & ?).
Qed.

Lemma rooted_app a b : a ≠ "" → rooted (a +:+ b) = rooted a.
Proof. by destruct a. Qed.

Lemma proper_not_rooted x : proper x → rooted x = false.
Proof.
  intros (Hn & _ & _ & Hs). destruct x as [|c x]; [done|]. cbn in *.
  apply andb_true_iff in Hs as [Hc _]. by apply negb_true_iff in Hc.
Qed.

Lemma rooted_Join x l : x ≠ "" → rooted (Join slash (x :: l)) = rooted x.
Proof. intros Hx. destruct l as [|y l]; [done|]. cbn [Join]. by apply rooted_app. Qed.

Lemma rooted_unparse r l : Forall proper l → rooted (unparse r l) = r.
Proof.
  intros Hl. destruct r; [done|]. destruct Hl as [|x l Hx Hl]; [done|].
  unfold unparse. rewrite rooted_Join by apply Hx. by apply proper_not_rooted.
Qed.

Lemma elements_unparse r l : Forall proper l → elements (unparse r l) = l.
Proof.
  intros Hl. destruct r; unfold unparse.
  - rewrite elements_slash. by apply elements_Join.
  - destruct l as [|x l]; [done|]. by apply elements_Join.
Qed.

Lemma foldl_clean_proper r l out : Forall proper l → foldl (clean_step r) out l = rev l ++ out.
Proof.
  intros Hl. revert out. induction Hl as [|x l (_ & _ & Hx & _) _ IH]; intros out; [done|].
  cbn. rewrite IH. unfold clean_step. rewrite bool_decide_false by done. by rewrite <- app_assoc.
Qed.

Lemma clean_elements_proper p l : elements p = l → Forall proper l → clean_elements p = l.
Proof.
  intros Hp Hl. unfold clean_elements. rewrite Hp, foldl_clean_proper by done.
  by rewrite app_nil_r, rev_involutive.
Qed.

Lemma Clean_proper p r l : rooted p = r → elements p = l → Forall proper l → Clean p = unparse r l.
Proof. intros Hr Hp Hl. unfold Clean. by rewrite Hr, (clean_elements_proper p l). Qed.

Lemma Clean_unparse r l : Forall proper l → Clean (unparse r l) = unparse r l.
Proof. intros Hl. apply Clean_proper; [by apply rooted_unparse|by apply elements_unparse|done]. Qed.

Lemma unparse_nonempty r l : Forall proper l → unparse r l ≠ "".
Proof.
  intros Hl E. destruct r; [done|]. destruct Hl as [|x l (Hx & _)]; [done|].
  destruct x as [|c x]; [done|]. by destruct l.
Qed.

Lemma Join_nonempty x l : proper x → Join slash (x :: l) ≠ "".
Proof. intros (Hx & _) E. destruct x as [|c x]; [done|]. by destruct l. Qed.

(** Joining names to a text with the elements [l] appends them. *)
Lemma path_Join_names p l m : p ≠ "" → elements p = l → Forall proper l → Forall proper m → m ≠ [] →
  path_Join [p; Join slash m] = unparse (rooted p) (l ++ m).
Proof.
  intros Hp Hel Hl Hm Hn. destruct Hm as [|x m Hx Hm]; [done|]. unfold path_Join.
  rewrite !list.filter_cons_True, list.filter_nil by (done || by apply Join_nonempty).
  cbn [Join]. assert (Forall proper (x :: m)) by by constructor.
  change (match m with [] => x | _ => x +:+ String slash (Join slash m) end) with (Join slash (x :: m)).
  apply Clean_proper.
  - by apply rooted_app.
  - by rewrite elements_app, Hel, elements_Join by done.
  - by apply Forall_app.
Qed.

Lemma path_Join_name p l x : p ≠ "" → elements p = l → Forall proper l → proper x →
  path_Join [p; x] = unparse (rooted p) (l ++ [x]).
Proof. intros Hp Hel Hl Hx. apply (path_Join_names p l [x]); [done..|by apply Forall_singleton|done]. Qed.

Lemma path_Join_two p l x y : p ≠ "" → elements p = l → Forall proper l → proper x → proper y →
  path_Join [p; x; y] = unparse (rooted p) (l ++ [x; y]).
Proof.
  intros Hp Hel Hl Hx Hy. assert (Forall proper [x; y]) as Hm by (apply Forall_cons_2; [done|by apply Forall_singleton]).
  rewrite <- path_Join_names by done.
  unfold path_Join. rewrite !list.filter_cons_True, list.filter_nil by
    (done || apply (Join_nonempty x [y]) || apply Hx || apply Hy; done). done.
Qed.

Lemma Join_app l m : l ≠ [] → m ≠ [] → Join slash (l ++ m) = Join slash l +:+ String slash (Join slash m).
Proof.
  intros Hl Hm. induction l as [|x l IH]; [done|]. destruct l as [|y l].
  - cbn. by destruct m.
  - change (Join slash ((x :: y :: l) ++ m)) with (x +:+ String slash (Join slash ((y :: l) ++ m))).
    rewrite IH by done. change (Join slash (x :: y :: l)) with (x +:+ String slash (Join slash (y :: l))).
    by rewrite <- str_app_assoc.
Qed.

Lemma unparse_app r l m : l ≠ [] → m ≠ [] → unparse r (l ++ m) = unparse r l +:+ String slash (Join slash m).
Proof.
  intros Hl Hm. destruct r; unfold unparse.
  - by rewrite Join_app.
  - destruct l as [|x l]; [done|]. change ((x :: l) ++ m) with (x :: (l ++ m)).
    by rewrite <- (Join_app (x :: l) m).
Qed.

Lemma Join_snoc l x : l ≠ [] → Join slash (l ++ [x]) = Join slash l +:+ String slash x.
Proof. intros Hl. by rewrite Join_app. Qed.

(** The text of a path is a text up to its last name, which is empty or ends in a
    slash, and the name. *)
Lemma unparse_snoc r l x : Forall proper l → ∃ u,
  unparse r (l ++ [x]) = u +:+ x ∧ (u = "" ∨ ∃ v, u = v +:+ str1 slash) ∧ elements u = l ∧
  (u = "" → r = false) ∧ (u ≠ "" → rooted u = r).
Proof.
  intros Hl. destruct (decide (l = [])) as [->|Hn].
  - destruct r; [exists (str1 slash)|exists ""]; repeat split; try done; [right; by exists ""|by left].
  - pose proof Hl as Hl'. destruct Hl as [|y l Hy Hl]; [done|].
    assert (Join slash (y :: l) ≠ "") as Hj by by apply Join_nonempty.
    assert (elements (Join slash (y :: l) +:+ str1 slash) = y :: l) as Hel.
    { unfold str1. rewrite elements_app, elements_Join by done. by rewrite app_nil_r. }
    assert (rooted (Join slash (y :: l)) = false) as Hr.
    { rewrite rooted_Join by apply Hy. by apply proper_not_rooted. }
    destruct r.
    + exists (String slash (Join slash (y :: l) +:+ str1 slash)). split_and!; try done.
      * unfold unparse. rewrite Join_snoc by done. by rewrite str_app_cons, <- str_app_assoc.
      * right. by exists (String slash (Join slash (y :: l))).
    + exists (Join slash (y :: l) +:+ str1 slash). split_and!; try done.
      * change (unparse false ((y :: l) ++ [x])) with (Join slash ((y :: l) ++ [x])).
        rewrite Join_snoc by done. by rewrite <- str_app_assoc.
      * right. by exists (Join slash (y :: l)).
      * intros _. rewrite rooted_app by done. done.
Qed.

Lemma str_app_eq_nil s t : s +:+ t = "" → s = "" ∧ t = "".
Proof. by destruct s. Qed.

Lemma TrimRight_other c s x : x ≠ "" → no_byte c x = true → TrimRight c (s +:+ x) = s +:+ x.
Proof.
  intros Hx Hc. assert (TrimRight c x = x) as Ht.
  { clear s. induction x as [|d x IH]; [done|]. cbn in *. apply andb_true_iff in Hc as [Hd%negb_true_iff Hc].
    destruct x as [|e x]; [cbn; by rewrite Hd|]. by rewrite IH. }
  induction s as [|d s IH]; [done|]. rewrite str_app_cons. cbn [TrimRight]. rewrite IH.
  destruct (s +:+ x) as [|e t] eqn:E; [|done]. destruct s; [|done]. by destruct x.
Qed.

Lemma up_to_last_none c x : no_byte c x = true → up_to_last c x = "".
Proof.
  induction x as [|d x IH]; [done|]. cbn. intros [Hd%negb_true_iff Hx]%andb_true_iff. by rewrite IH, Hd.
Qed.

Lemma up_to_last_app c v x : no_byte c x = true → up_to_last c ((v +:+ str1 c) +:+ x) = v +:+ str1 c.
Proof.
  intros Hx. rewrite <- str_app_assoc. induction v as [|d v IH].
  - rewrite !str_app_nil_l. change (str1 c +:+ x) with (String c x). cbn.
    by rewrite up_to_last_none, Ascii.eqb_refl.
  - rewrite !str_app_cons. cbn [up_to_last]. rewrite IH. by destruct v.
Qed.

Lemma last_snoc_nonempty {A} (l m : list A) d : m ≠ [] → List.last (l ++ m) d = List.last m d.
Proof.
  intros Hm. induction l as [|x l IH]; [done|]. cbn. rewrite IH. by destruct (l ++ m) eqn:E; [apply app_eq_nil in E as []|].
Qed.

Lemma Base_unparse r l x : Forall proper l → proper x → Base (unparse r (l ++ [x])) = x.
Proof.
  intros Hl (Hx & _ & _ & Hs). destruct (unparse_snoc r l x Hl) as (u & -> & Hu & _).
  unfold Base. rewrite bool_decide_false by (by intros [_ ?]%str_app_eq_nil).
  rewrite TrimRight_other by done. destruct (u +:+ x) as [|c t] eqn:E; [by apply str_app_eq_nil in E as []|].
  rewrite <- E. unfold after_last. destruct Hu as [->|[v ->]].
  - rewrite str_app_nil_l, Split_single by done. done.
  - rewrite <- str_app_assoc. change (str1 slash +:+ x) with (String slash x).
    rewrite Split_app_sep, last_snoc_nonempty, Split_single; [done..|by rewrite Split_single].
Qed.

Lemma Dir_unparse r l x : Forall proper l → proper x → Dir (unparse r (l ++ [x])) = unparse r l.
Proof.
  intros Hl (_ & _ & _ & Hs). destruct (unparse_snoc r l x Hl) as (u & -> & Hu & Hel & Hr0 & Hr1).
  unfold Dir. assert (up_to_last slash (u +:+ x) = u) as ->.
  { destruct Hu as [->|[v ->]]; [rewrite str_app_nil_l; by apply up_to_last_none|by apply up_to_last_app]. }
  destruct (decide (u = "")) as [->|Hn].
  - rewrite (Hr0 eq_refl). by rewrite <- Hel.
  - by apply Clean_proper; [apply Hr1| |].
Qed.

Lemma without_common_app l m : without_common l (l ++ m) = ([], m).
Proof. induction l as [|x l IH]; [by destruct m|]. cbn. by rewrite bool_decide_true. Qed.

Lemma Rel_below p l m : elements p = l → Forall proper l → Forall proper m → m ≠ [] →
  Rel p (unparse (rooted p) (l ++ m)) = Ok (Join slash m).
Proof.
  intros Hel Hl Hm Hn. assert (Forall proper (l ++ m)) as Hlm by by apply Forall_app.
  unfold Rel. rewrite (Clean_proper p (rooted p) l), Clean_unparse, rooted_unparse by done.
  rewrite (clean_elements_proper p l Hel Hl), (clean_elements_proper _ _ (elements_unparse (rooted p) _ Hlm) Hlm).
  rewrite bool_decide_false, eqb_reflx, without_common_app; [done|].
  intros E%(f_equal elements). rewrite !elements_unparse in E by done.
  apply Hn. apply (app_inv_head l). by rewrite app_nil_r.
Qed.

(** *** What [Clean] leaves *)

Definition element (x : string) : Prop := x ≠ "" ∧ x ≠ "." ∧ no_byte slash x = true.

Lemma elements_element p : Forall element (elements p).
Proof.
  apply Forall_forall. intros x Hin. apply list_elem_of_In, list_elem_of_filter in Hin as [[Hx Hd] Hin].
  apply list_elem_of_In in Hin. by pose proof (proj1 (Forall_forall _ _) (Split_no_byte slash p) x Hin).
Qed.

(** The names after leading [..]s, the latest first. *)
Definition climbs (out : list string) : Prop := ∃ m k, out = m ++ replicate k ".." ∧ Forall proper m.

Lemma foldl_clean_climbs l out : Forall element l → climbs out → climbs (foldl (clean_step false) out l).
Proof.
  intros Hl. revert out. induction Hl as [|x l (Hx & Hd & Hs) _ IH]; intros out Hout; [done|].
  cbn. apply IH. destruct Hout as (m & k & -> & Hm). unfold clean_step. case_bool_decide as Hx2.
  - subst x. destruct Hm as [|y m (Hy0 & Hy1 & Hy & Hy3) Hm].
    + destruct k as [|k]; [by exists [], 1|]. cbn. by exists [], (S (S k)).
    + cbn. rewrite bool_decide_false by done. by exists m, k.
  - exists (x :: m), k. split; [done|]. by constructor.
Qed.

(** A cleaned path that starts with a name is made of names. *)
Lemma Clean_under x p rest : proper x → Clean p = x +:+ String slash rest →
  ∃ m, m ≠ [] ∧ Forall proper (x :: m) ∧ Clean p = Join slash (x :: m).
Proof.
  intros Hx E. unfold Clean in *. destruct (rooted p) eqn:Hr.
  { pose proof (proper_not_rooted x Hx) as Hnr. rewrite <- (rooted_app x (String slash rest)) in Hnr by apply Hx.
    by rewrite <- E in Hnr. }
  destruct (foldl_clean_climbs (elements p) [] (elements_element p)) as (m & k & Hout & Hm).
  { by exists [], 0. }
  assert (clean_elements p = replicate k ".." ++ rev m) as Hc.
  { unfold clean_elements. rewrite Hr, Hout, rev_app_distr. f_equal. rewrite rev_alt. apply reverse_replicate. }
  rewrite Hc in *. clear Hout Hc. assert (Forall proper (rev m)) as Hm' by by apply Forall_rev.
  generalize dependent (rev m). intros l E Hl. clear m Hm.
  destruct (decide (replicate k ".." ++ l = [])) as [E0|Hn].
  { rewrite E0 in E. destruct x as [|c [|d x]]; [by destruct Hx| |done]. by destruct Hx as (_ & ? & _). }
  assert (unparse false (replicate k ".." ++ l) = Join slash (replicate k ".." ++ l)) as Hun
    by by destruct (replicate k ".." ++ l).
  rewrite Hun in *. pose proof (f_equal (Split slash) E) as ES. rewrite Split_app in ES by apply Hx.
  rewrite Split_Join in ES; [|done|].
  2: { apply Forall_app. split; [by apply Forall_replicate|]. eapply Forall_impl; [|exact Hl]. by intros ? (_ & _ & _ & ?). }
  destruct k as [|k]; [|injection ES as <- _; by destruct Hx as (_ & _ & ? & _)].
  cbn in ES. rewrite ES in Hl. exists (Split slash rest). split_and!; [|done|by rewrite <- ES].
  by destruct (Split_cons slash rest) as (? & ? & ->).
Qed.

Lemma prefix_app s t : String.prefix s (s +:+ t) = true.
Proof. induction s as [|c s IH]; [by destruct t|]. rewrite str_app_cons. cbn. by destruct (ascii_dec c c). Qed.

Lemma prefix_spec s t : String.prefix s t = true → ∃ u, t = s +:+ u.
Proof.
  revert t. induction s as [|c s IH]; intros t; [by exists t|]. destruct t as [|d t]; [done|]. cbn.
  destruct (ascii_dec c d) as [->|]; [|done]. intros [u ->]%IH. by exists u.
Qed.
