(* ===== verification/GoOs.v ===== *)
(** * Package os: files on a disk that can fail and stop

    The file system is a map from physical paths to nodes.  A program is a
    function of the state of the machine ([IO]); every change of the disk is
    recorded, so that what a crash at any moment leaves behind is one of the file
    systems seen.  Each call first asks whether it fails.  [triple] is the logic
    of such programs: a precondition, what holds of every file system on the way,
    and a postcondition. *)
From S2P Require Import Prelude GoErrors GoStrconv GoStrings GoPath.

(** ** The file system *)

(** The names from the root. *)
Abbreviation path := (list string).

(** Permission bits are those asked for. *)
Inductive Node :=
  | NFile (data : string) (perm : Z)
  | NDir (perm : Z)
  | NLink (target : string).

#[export] Instance Node_eq_dec : EqDecision Node.
Proof. solve_decision. Defined.

Abbreviation FS :=
  (@gmap (list string) (@list.list_eq_dec string String.eq_dec) (@list_countable string String.eq_dec String.countable) Node).

Definition is_dir (n : option Node) : bool := match n with Some (NDir _) => true | _ => false end.
Definition is_link (n : option Node) : bool := match n with Some (NLink _) => true | _ => false end.

(** syscall errors; the first two are what [os.IsNotExist] and [os.IsExist] look for. *)
Definition ENOENT : goerr := ESentinel "fs.ErrNotExist" "no such file or directory".
Definition EEXIST : goerr := ESentinel "fs.ErrExist" "file exists".
Definition ENOTDIR : goerr := ESentinel "syscall.ENOTDIR" "not a directory".
Definition EISDIR : goerr := ESentinel "syscall.EISDIR" "is a directory".
Definition ENOTEMPTY : goerr := ESentinel "syscall.ENOTEMPTY" "directory not empty".
Definition ELOOP : goerr := ESentinel "syscall.ELOOP" "too many levels of symbolic links".
Definition EINVAL : goerr := ESentinel "syscall.EINVAL" "invalid argument".
Definition EBUSY : goerr := ESentinel "syscall.EBUSY" "device or resource busy".

Definition IsNotExist (e : goerr) : bool := Is e ENOENT.
Definition IsExist (e : goerr) : bool := Is e EEXIST.

(** The machine: the working directory, the order a directory is read in, and how
    much of the rest of a stream one read delivers. *)
Class Disk := {
  cwd : path;
  readdir : FS → path → list string;
  readdir_spec fs p x : x ∈ readdir fs p ↔ is_Some (fs !! (p ++ [x]));
  read_size : string → nat;
  read_size_pos s : 0 < read_size s
}.

(** The parent of a path. *)
Definition parent (p : path) : path := removelast p.

Section fs.
Context {ID : Disk}.

(** Following a path: [links] symbolic links may be met; the last name need not
    exist, and a link there is followed on demand. *)
Fixpoint walk (links : nat) (fs : FS) (follow : bool) : path → list string → res path :=
  fix go cur todo :=
    match todo with
    | [] => Ok cur
    | x :: todo =>
        if negb (is_dir (fs !! cur)) then Err ENOTDIR
        else if bool_decide (x = "..") then go (parent cur) todo
        else
          match fs !! (cur ++ [x]) with
          | Some (NLink target) =>
              if bool_decide (todo = []) && negb follow then Ok (cur ++ [x])
              else
                match links with
                | 0 => Err ELOOP
                | S links => walk links fs follow (if rooted target then [] else cur) (elements target ++ todo)
                end
          | Some _ => go (cur ++ [x]) todo
          | None => if bool_decide (todo = []) then Ok (cur ++ [x]) else Err ENOENT
          end
    end.

Definition max_links : nat := 40.
Definition start (p : string) : path := if rooted p then [] else cwd.

Definition locate (fs : FS) (follow : bool) (p : string) : res path :=
  if bool_decide (p = "") then Err ENOENT else walk max_links fs follow (start p) (elements p).

Definition node_at (fs : FS) (follow : bool) (p : string) : res (path * Node) :=
  l ← locate fs follow p;
  match fs !! l with Some n => Ok (l, n) | None => Err ENOENT end.

(** Moving the tree at [old] to [new], where nothing is. *)
Definition strip (p l : path) : option path :=
  if bool_decide (take (length p) l = p) then Some (drop (length p) l) else None.
Definition swap (old new l : path) : path :=
  match strip old l with
  | Some m => new ++ m
  | None => match strip new l with Some m => old ++ m | None => l end
  end.
Definition move (old new : path) (fs : FS) : FS := kmap (swap old new) (delete new fs).

End fs.

(** ** Programs *)

(** A call that fails, with how much of a write is done. *)
Record Fault := mkFault { f_err : goerr; f_done : nat }.

Record Os (W : Type) := mkOs {
  os_fs : FS;
  (** Every file system the disk held, the latest last. *)
  os_seen : list FS;
  (** For each coming call whether it fails; calls of [Stat] and [Lstat] apart. *)
  os_faults : list (option Fault);
  os_stat_faults : list (option goerr);
  os_random : list Z;
  os_out : list string;
  os_ext : W
}.
Arguments mkOs {W}.
Arguments os_fs {W}.
Arguments os_seen {W}.
Arguments os_faults {W}.
Arguments os_stat_faults {W}.
Arguments os_random {W}.
Arguments os_out {W}.
Arguments os_ext {W}.

Definition IO (W A : Type) : Type := Os W → res A * Os W.

#[export] Instance IO_ret {W} : MRet (IO W) := λ A a st, (Ok a, st).
#[export] Instance IO_bind {W} : MBind (IO W) := λ A B f m st,
  match m st with
  | (Ok a, st) => f a st
  | (Err e, st) => (Err e, st)
  end.

Section programs.
Context {W : Type} {ID : Disk}.

Definition io_lift {A} (r : res A) : IO W A := λ st, (r, st).
Definition io_fail {A} (e : goerr) : IO W A := λ st, (Err e, st).
(** The result as a value, for code that looks at the error. *)
Definition io_try {A} (m : IO W A) : IO W (res A) := λ st, let (r, st) := m st in (Ok r, st).
Definition io_map_err {A} (f : goerr → goerr) (m : IO W A) : IO W A := λ st, let (r, st) := m st in (map_err f r, st).
Definition io_ext {A} (f : W → res A * W) : IO W A := λ st,
  let (r, w) := f (os_ext st) in
  (r, mkOs (os_fs st) (os_seen st) (os_faults st) (os_stat_faults st) (os_random st) (os_out st) w).
(** [defer cleanup()], whose own error is dropped. *)
Definition io_defer {A} (cleanup : IO W ()) (m : IO W A) : IO W A := λ st,
  let (r, st) := m st in (r, (cleanup st).2).
Definition Printf (line : string) : IO W () := λ st,
  (Ok (), mkOs (os_fs st) (os_seen st) (os_faults st) (os_stat_faults st) (os_random st) (os_out st ++ [line]) (os_ext st)).

Definition set_fs (fs : FS) (st : Os W) : Os W :=
  mkOs fs (os_seen st ++ [fs]) (os_faults st) (os_stat_faults st) (os_random st) (os_out st) (os_ext st).
Definition next_fault (st : Os W) : option Fault * Os W :=
  match os_faults st with
  | [] => (None, st)
  | f :: rest => (f, mkOs (os_fs st) (os_seen st) rest (os_stat_faults st) (os_random st) (os_out st) (os_ext st))
  end.
Definition next_stat_fault (st : Os W) : option goerr * Os W :=
  match os_stat_faults st with
  | [] => (None, st)
  | f :: rest => (f, mkOs (os_fs st) (os_seen st) (os_faults st) rest (os_random st) (os_out st) (os_ext st))
  end.
Definition next_random : IO W Z := λ st,
  (Ok (default 0%Z (head (os_random st))),
   mkOs (os_fs st) (os_seen st) (os_faults st) (os_stat_faults st) (tail (os_random st)) (os_out st) (os_ext st)).

(** A call that changes the disk at once or not at all. *)
Definition syscall {A} (f : FS → res (A * FS)) : IO W A := λ st,
  match next_fault st with
  | (Some fault, st) => (Err (f_err fault), st)
  | (None, st) =>
      match f (os_fs st) with
      | Ok (a, fs) => (Ok a, set_fs fs st)
      | Err e => (Err e, st)
      end
  end.
(** A call that only looks. *)
Definition query {A} (f : FS → res A) : IO W A := λ st,
  match next_fault st with
  | (Some fault, st) => (Err (f_err fault), st)
  | (None, st) => (f (os_fs st), st)
  end.

Definition Stat (p : string) : IO W Node := λ st,
  match next_stat_fault st with
  | (Some e, st) => (Err e, st)
  | (None, st) => (snd <$> node_at (os_fs st) true p, st)
  end.
Definition Lstat (p : string) : IO W Node := λ st,
  match next_stat_fault st with
  | (Some e, st) => (Err e, st)
  | (None, st) => (snd <$> node_at (os_fs st) false p, st)
  end.

Definition Mkdir (p : string) (perm : Z) : IO W () := syscall (λ fs,
  l ← locate fs false p;
  match fs !! l with
  | Some _ => Err EEXIST
  | None => Ok ((), <[l := NDir perm]> fs)
  end).

(** [os.MkdirAll] on the elements of a path, the latest first. *)
Fixpoint mkdir_all (is_rooted : bool) (l : list string) (perm : Z) : IO W () :=
  let p := unparse is_rooted (rev l) in
  n ← io_try (Stat p);
  match n with
  | Ok (NDir _) => mret ()
  | Ok _ => io_fail ENOTDIR
  | Err _ =>
      _ ← match l with
          | [] => mret ()
          | _ :: l => if bool_decide (l = []) && negb is_rooted then mret () else mkdir_all is_rooted l perm
          end;
      r ← io_try (Mkdir p perm);
      match r with
      | Ok _ => mret ()
      | Err e =>
          n ← io_try (Lstat p);
          match n with Ok (NDir _) => mret () | _ => io_fail e end
      end
  end.
Definition MkdirAll (p : string) (perm : Z) : IO W () :=
  if bool_decide (p = "") then io_fail ENOENT else mkdir_all (rooted p) (rev (elements p)) perm.

Definition ends_with_slash (p : string) : bool :=
  match String.get (String.length p - 1) p with Some c => Ascii.eqb c slash | None => false end.

(** [os.MkdirTemp] with a pattern that has no [*]. *)
Fixpoint mkdir_temp (tries : nat) (dir prefix : string) : IO W string :=
  n ← next_random;
  let name := prefix +:+ Itoa (n mod 2 ^ 32) in
  r ← io_try (Mkdir name 448);
  match r with
  | Ok _ => mret name
  | Err e =>
      if IsExist e then
        match tries with
        | 0 => io_fail EEXIST
        | S tries => mkdir_temp tries dir prefix
        end
      else if IsNotExist e then
        d ← io_try (Stat dir);
        match d with
        | Err e' => if IsNotExist e' then io_fail e' else io_fail e
        | Ok _ => io_fail e
        end
      else io_fail e
  end.
Definition MkdirTemp (dir pattern : string) : IO W string :=
  mkdir_temp 9999 dir (if ends_with_slash dir then dir +:+ pattern else dir +:+ String slash pattern).

(** [unlink] and [rmdir] of a physical path. *)
Definition unlink (l : path) : IO W () := syscall (λ fs,
  match fs !! l with
  | None => Err ENOENT
  | Some (NDir _) => Err EISDIR
  | Some _ => Ok ((), delete l fs)
  end).
Definition rmdir (l : path) : IO W () := syscall (λ fs,
  match fs !! l with
  | None => Err ENOENT
  | Some (NDir _) =>
      if bool_decide (l = []) then Err EBUSY
      else match readdir fs l with [] => Ok ((), delete l fs) | _ => Err ENOTEMPTY end
  | Some _ => Err ENOTDIR
  end).

(** [os.Remove] *)
Definition Remove (p : string) : IO W () :=
  l ← query (λ fs, locate fs false p);
  r ← io_try (unlink l);
  match r with
  | Ok _ => mret ()
  | Err e =>
      r' ← io_try (rmdir l);
      match r' with
      | Ok _ => mret ()
      | Err e' => io_fail (if Is e' ENOTDIR then e else e')
      end
  end.

(** The entries of a directory one after the other, with the last error. *)
Fixpoint remove_each (rm : path → IO W ()) (l : path) (names : list string) (last : option goerr) : IO W (option goerr) :=
  match names with
  | [] => mret last
  | x :: names =>
      r ← io_try (rm (l ++ [x]));
      remove_each rm l names (match r with Ok _ => last | Err e => Some e end)
  end.

(** The recursion of [os.RemoveAll]; [depth] bounds that of the tree. *)
Fixpoint remove_tree (depth : nat) (l : path) : IO W () :=
  r ← io_try (unlink l);
  match r with
  | Ok _ => mret ()
  | Err e =>
      if IsNotExist e then mret ()
      else if negb (Is e EISDIR) then io_fail e
      else
        match depth with
        | 0 => io_fail e
        | S depth =>
            names ← query (λ fs, Ok (readdir fs l));
            failed ← remove_each (remove_tree depth) l names None;
            r ← io_try (rmdir l);
            match r with
            | Ok _ => mret ()
            | Err e => if IsNotExist e then mret () else io_fail (default e failed)
            end
        end
  end.

(** The length of the longest path. *)
Definition fs_depth (fs : FS) : nat := map_fold (λ p _ n, max (length p) n) 0 fs.

Definition ends_with_dot (p : string) : bool :=
  bool_decide (p = ".") || bool_decide (after_last slash p = ".").

Definition RemoveAll (p : string) : IO W () :=
  if bool_decide (p = "") then mret ()
  else if ends_with_dot p then io_fail EINVAL
  else
    r ← io_try (Remove p);
    match r with
    | Ok _ => mret ()
    | Err e =>
        if IsNotExist e then mret ()
        else
          l ← io_try (query (λ fs, l ← locate fs false p; Ok (l, fs_depth fs)));
          match l with
          | Err e => if IsNotExist e then mret () else io_fail e
          | Ok (l, depth) => remove_tree depth l
          end
    end.

Definition Chmod (p : string) (perm : Z) : IO W () := syscall (λ fs,
  '(l, n) ← node_at fs true p;
  Ok ((), <[l := match n with NFile d _ => NFile d perm | NDir _ => NDir perm | NLink t => NLink t end]> fs)).

(** [os.OpenFile] with [O_CREATE|O_TRUNC|O_WRONLY]: the file it opened. *)
Definition OpenFile (p : string) (perm : Z) : IO W path := syscall (λ fs,
  l ← locate fs true p;
  match fs !! l with
  | None => Ok (l, <[l := NFile "" perm]> fs)
  | Some (NFile _ perm) => Ok (l, <[l := NFile "" perm]> fs)
  | Some _ => Err EISDIR
  end).

Definition append (l : path) (data : string) (fs : FS) : FS :=
  match fs !! l with
  | Some (NFile d perm) => <[l := NFile (d +:+ data) perm]> fs
  | _ => fs
  end.
(** A write that fails may have written a part. *)
Definition Write (l : path) (data : string) : IO W () := λ st,
  match next_fault st with
  | (Some fault, st) => (Err (f_err fault), set_fs (append l (str_take (f_done fault) data) (os_fs st)) st)
  | (None, st) => (Ok (), set_fs (append l data (os_fs st)) st)
  end.
Definition Close (l : path) : IO W () := query (λ _, Ok ()).

Definition WriteFile (p data : string) (perm : Z) : IO W () :=
  l ← OpenFile p perm;
  r ← io_try (Write l data);
  r' ← io_try (Close l);
  io_lift (match r with Ok _ => r' | Err e => Err e end).

(** [io.Copy] into a file: one write per read. *)
Fixpoint copy_reads (fuel : nat) (l : path) (data : string) : IO W () :=
  match fuel with
  | 0 => mret ()
  | S fuel =>
      if bool_decide (data = "") then mret ()
      else
        let n := read_size data in
        _ ← Write l (str_take n data);
        copy_reads fuel l (str_drop n data)
  end.
Definition Copy (l : path) (src : Reader) : IO W () :=
  _ ← copy_reads (String.length (rd_data src)) l (rd_data src);
  match rd_err src with None => mret () | Some e => io_fail e end.

(** [os.Rename]: refused when a directory is there. *)
Definition Rename (old new : string) : IO W () :=
  n ← io_try (Lstat new);
  match n with
  | Ok (NDir _) => n ← Lstat old; io_fail EEXIST
  | _ =>
      syscall (λ fs,
        '(lo, n) ← node_at fs false old;
        ln ← locate fs false new;
        if bool_decide (lo = ln) then Ok ((), fs)
        else if bool_decide (take (length lo) ln = lo) then Err EINVAL
        else
          match n, fs !! ln with
          | NDir _, Some (NDir _) => match readdir fs ln with [] => Ok ((), move lo ln fs) | _ => Err ENOTEMPTY end
          | NDir _, Some _ => Err ENOTDIR
          | _, Some (NDir _) => Err EISDIR
          | _, _ => Ok ((), move lo ln fs)
          end)
  end.

Definition Symlink (target p : string) : IO W () := syscall (λ fs,
  l ← locate fs false p;
  match fs !! l with
  | Some _ => Err EEXIST
  | None => Ok ((), <[l := NLink target]> fs)
  end).

End programs.
