(* ===== verification/Crash.v ===== *)
(** * The logic of programs on a disk

    [triple P m I Q]: from a file system with [P] the program [m] only makes file
    systems with [I], whatever calls fail, and ends with [Q] of its result and the
    disk.  Then the shape of file systems ([wf]), where paths lead when no link is
    in the way, and what the calls of package os do. *)
From S2P Require Import Prelude GoErrors GoStrings GoPath GoOs.

Section triples.
Context {W : Type} {ID : Disk}.

Definition triple {A : Type} (P : FS → Prop) (m : IO W A) (I : FS → Prop) (Q : res A → FS → Prop) : Prop :=
  ∀ st, P (os_fs st) → ∃ new,
    os_seen (m st).2 = os_seen st ++ new ∧ Forall I new ∧ Q (m st).1 (os_fs (m st).2).

(** A program that keeps an invariant all the way. *)
Definition stable {A : Type} (J : FS → Prop) (m : IO W A) : Prop := triple J m J (λ _, J).

Lemma triple_conseq {A : Type} P P' (m : IO W A) (I I' : FS → Prop) (Q Q' : res A → FS → Prop) :
  triple P m I Q → (∀ fs, P' fs → P fs) → (∀ fs, I fs → I' fs) → (∀ r fs, Q r fs → Q' r fs) → triple P' m I' Q'.
Proof.
  intros Hm HP HI HQ st Hst. destruct (Hm st (HP _ Hst)) as (new & ? & Hnew & ?).
  exists new. split_and!; [done| |by apply HQ]. eapply Forall_impl; [|exact Hnew]. done.
Qed.

Lemma triple_pre {A : Type} (P P' : FS → Prop) (m : IO W A) I Q :
  (∀ fs, P' fs → P fs) → triple P m I Q → triple P' m I Q.
Proof. intros HP Hm st Hst. by apply Hm, HP. Qed.

(** From each file system of the precondition by itself. *)
Lemma triple_each {A : Type} (P : FS → Prop) (m : IO W A) I (Q : res A → FS → Prop) :
  (∀ fs0, P fs0 → triple (λ fs, fs = fs0) m I Q) → triple P m I Q.
Proof. intros Hm st HP. by apply (Hm (os_fs st)). Qed.

(** Where the precondition gives a fact about no file system. *)
Lemma triple_pure {A : Type} (H : Prop) P (m : IO W A) I Q :
  (∀ fs, P fs → H) → (H → triple P m I Q) → triple P m I Q.
Proof. intros HP Hm st Hst. by apply Hm; [eapply HP|]. Qed.

Lemma triple_exists {A X : Type} (P : X → FS → Prop) (m : IO W A) I Q :
  (∀ x, triple (P x) m I Q) → triple (λ fs, ∃ x, P x fs) m I Q.
Proof. intros Hm st [x HP]. by apply (Hm x). Qed.

Lemma triple_stay {A : Type} (P : FS → Prop) (m : IO W A) I (Q : res A → FS → Prop) :
  (∀ st, os_fs (m st).2 = os_fs st ∧ os_seen (m st).2 = os_seen st) →
  (∀ st, P (os_fs st) → Q (m st).1 (os_fs st)) → triple P m I Q.
Proof.
  intros Hst HQ st HP. destruct (Hst st) as [-> ->]. exists []. rewrite app_nil_r.
  split_and!; [done|constructor|by apply HQ].
Qed.

Lemma triple_ret {A : Type} (a : A) (P : FS → Prop) I (Q : res A → FS → Prop) :
  (∀ fs, P fs → Q (Ok a) fs) → triple P (mret a) I Q.
Proof. intros HQ. apply triple_stay; [done|]. intros st. apply HQ. Qed.

Lemma triple_fail {A : Type} e (P : FS → Prop) I (Q : res A → FS → Prop) :
  (∀ fs, P fs → Q (Err e) fs) → triple P (io_fail e) I Q.
Proof. intros HQ. apply triple_stay; [done|]. intros st. apply HQ. Qed.

Lemma triple_lift {A : Type} (r : res A) (P : FS → Prop) I (Q : res A → FS → Prop) :
  (∀ fs, P fs → Q r fs) → triple P (io_lift r) I Q.
Proof. intros HQ. apply triple_stay; [done|]. intros st. apply HQ. Qed.

Lemma triple_lift_bind {A B : Type} (r : res A) (k : A → IO W B) P I Q :
  match r with Ok a => triple P (k a) I Q | Err e => ∀ fs, P fs → Q (Err e) fs end →
  triple P (io_lift r ≫= k) I Q.
Proof. destruct r; [done|]. intros HQ. apply triple_stay; [done|]. intros st. apply HQ. Qed.

Lemma triple_ext {A : Type} (f : W → res A * W) (P : FS → Prop) I (Q : res A → FS → Prop) :
  (∀ r fs, P fs → Q r fs) → triple P (io_ext f) I Q.
Proof.
  intros HQ. apply triple_stay; intros st; unfold io_ext; destruct (f (os_ext st)); [done|apply HQ].
Qed.

Lemma triple_printf line (P : FS → Prop) I (Q : res () → FS → Prop) :
  (∀ fs, P fs → Q (Ok ()) fs) → triple P (Printf line) I Q.
Proof. intros HQ. apply triple_stay; [done|]. intros st. apply HQ. Qed.

Lemma triple_random (P : FS → Prop) I (Q : res Z → FS → Prop) :
  (∀ n fs, P fs → Q (Ok n) fs) → triple P next_random I Q.
Proof. intros HQ. apply triple_stay; [done|]. intros st. apply HQ. Qed.

Lemma triple_bind {A B : Type} P (m : IO W A) (k : A → IO W B) I (R : res A → FS → Prop) Q :
  triple P m I R → (∀ a, triple (R (Ok a)) (k a) I Q) → (∀ e fs, R (Err e) fs → Q (Err e) fs) →
  triple P (m ≫= k) I Q.
Proof.
  intros Hm Hk He st HP. destruct (Hm st HP) as (new & Hs & Hn & HR).
  unfold mbind, IO_bind. destruct (m st) as [[a|e] st1]; simpl in *.
  - destruct (Hk a st1 HR) as (new' & Hs' & Hn' & HQ). exists (new ++ new').
    rewrite Hs', Hs, app_assoc. split_and!; [done|by apply Forall_app|done].
  - exists new. split_and!; [done..|by apply He].
Qed.

Lemma triple_try {A : Type} P (m : IO W A) I (Q : res (res A) → FS → Prop) :
  triple P m I (λ r, Q (Ok r)) → triple P (io_try m) I Q.
Proof. intros Hm st HP. destruct (Hm st HP) as (new & ? & ? & ?). unfold io_try. destruct (m st). eauto. Qed.

(** The same with a postcondition to be found. *)
Lemma triple_tried {A : Type} P (m : IO W A) I Q :
  triple P m I Q → triple P (io_try m) I (λ r fs, match r with Ok r => Q r fs | Err _ => False end).
Proof. intros Hm. by apply (triple_try P m I (λ r fs, match r with Ok r => Q r fs | Err _ => False end)). Qed.

Lemma triple_map_err {A : Type} f P (m : IO W A) I (Q : res A → FS → Prop) :
  triple P m I (λ r, Q (map_err f r)) → triple P (io_map_err f m) I Q.
Proof. intros Hm st HP. destruct (Hm st HP) as (new & ? & ? & ?). unfold io_map_err. destruct (m st). eauto. Qed.

Lemma triple_defer {A : Type} P (m : IO W A) (cleanup : IO W ()) I (Q : res A → FS → Prop) :
  triple P m I Q → (∀ st, os_fs (cleanup st).2 = os_fs st ∧ os_seen (cleanup st).2 = os_seen st) →
  triple P (io_defer cleanup m) I Q.
Proof.
  intros Hm Hc st HP. destruct (Hm st HP) as (new & ? & ? & ?). unfold io_defer. destruct (m st) as [r st1]. simpl in *.
  destruct (Hc st1) as [-> ->]. eauto.
Qed.

Lemma next_fault_stays (st : Os W) f st' :
  next_fault st = (f, st') → os_fs st' = os_fs st ∧ os_seen st' = os_seen st.
Proof. unfold next_fault. destruct (os_faults st) as [|f' l]; by intros [= <- <-]. Qed.

Lemma triple_syscall {A : Type} (f : FS → res (A * FS)) (P : FS → Prop) I (Q : res A → FS → Prop) :
  (∀ e fs, P fs → Q (Err e) fs) → (∀ fs a fs', P fs → f fs = Ok (a, fs') → I fs' ∧ Q (Ok a) fs') →
  triple P (syscall f) I Q.
Proof.
  intros He Ho st HP. unfold syscall. destruct (next_fault st) as [fault st1] eqn:E.
  apply next_fault_stays in E as [E1 E2]. rewrite <- E1 in HP. destruct fault as [fault|].
  - exists []. rewrite app_nil_r. split_and!; [done|constructor|by apply He].
  - destruct (f (os_fs st1)) as [[a fs']|e] eqn:Ef; simpl.
    + destruct (Ho _ _ _ HP Ef). exists [fs']. rewrite E2. split_and!; [done|by repeat constructor|done].
    + exists []. rewrite app_nil_r. split_and!; [done|constructor|by apply He].
Qed.

Lemma triple_query {A : Type} (f : FS → res A) (P : FS → Prop) I (Q : res A → FS → Prop) :
  (∀ e fs, P fs → Q (Err e) fs) → (∀ fs a, P fs → f fs = Ok a → Q (Ok a) fs) → triple P (query f) I Q.
Proof.
  intros He Ho. apply triple_stay; intros st; unfold query; destruct (next_fault st) as [fault st1] eqn:E;
    apply next_fault_stays in E as [E1 E2].
  - destruct fault; by rewrite <- E1, <- E2.
  - rewrite <- E1. intros HP. destruct fault; simpl; [by apply He|]. destruct (f (os_fs st1)) eqn:Ef; auto.
Qed.

Lemma next_stat_fault_stays (st : Os W) f st' :
  next_stat_fault st = (f, st') → os_fs st' = os_fs st ∧ os_seen st' = os_seen st.
Proof. unfold next_stat_fault. destruct (os_stat_faults st) as [|f' l]; by intros [= <- <-]. Qed.

Definition stat (follow : bool) : string → IO W Node := if follow then Stat else Lstat.

Lemma triple_stat follow p (P : FS → Prop) I (Q : res Node → FS → Prop) :
  (∀ e fs, P fs → Q (Err e) fs) → (∀ fs l n, P fs → node_at fs follow p = Ok (l, n) → Q (Ok n) fs) →
  triple P (stat follow p) I Q.
Proof.
  intros He Ho. apply triple_stay; intros st; destruct follow; unfold stat, Stat, Lstat;
    destruct (next_stat_fault st) as [fault st1] eqn:E; apply next_stat_fault_stays in E as [E1 E2].
  1,2: destruct fault; by rewrite <- E1, <- E2.
  all: rewrite <- E1; intros HP; destruct fault; simpl; [by apply He|].
  all: destruct (node_at (os_fs st1) _ p) as [[l n]|e] eqn:Ef; simpl; eauto.
Qed.

Lemma triple_write l data (P : FS → Prop) I (Q : res () → FS → Prop) :
  (∀ fs e n, P fs → let fs' := append l (str_take n data) fs in I fs' ∧ Q (Err e) fs') →
  (∀ fs, P fs → let fs' := append l data fs in I fs' ∧ Q (Ok ()) fs') →
  triple P (Write l data) I Q.
Proof.
  intros He Ho st HP. unfold Write. destruct (next_fault st) as [fault st1] eqn:E.
  apply next_fault_stays in E as [E1 E2]. rewrite <- E1 in HP. destruct fault as [[e n]|]; simpl; rewrite E2.
  - destruct (He _ e n HP). eexists [_]. split_and!; [done|by repeat constructor|done].
  - destruct (Ho _ HP). eexists [_]. split_and!; [done|by repeat constructor|done].
Qed.

Lemma stable_weaken {A : Type} J (P : FS → Prop) (m : IO W A) (Q : res A → FS → Prop) :
  stable J m → (∀ fs, P fs → J fs) → (∀ r fs, J fs → Q r fs) → triple P m J Q.
Proof. intros Hm HP HQ. by eapply triple_conseq. Qed.
Lemma stable_bind {A B : Type} J (m : IO W A) (k : A → IO W B) : stable J m → (∀ a, stable J (k a)) → stable J (m ≫= k).
Proof. intros Hm Hk. eapply triple_bind; [exact Hm|exact Hk|done]. Qed.
Lemma stable_ret {A : Type} J (a : A) : stable J (mret a).
Proof. by apply triple_ret. Qed.
Lemma stable_fail {A : Type} J e : stable J (io_fail e : IO W A).
Proof. by apply triple_fail. Qed.
Lemma stable_try {A : Type} J (m : IO W A) : stable J m → stable J (io_try m).
Proof. intros Hm. by apply triple_try. Qed.
Lemma stable_syscall {A : Type} (f : FS → res (A * FS)) J :
  (∀ fs a fs', J fs → f fs = Ok (a, fs') → J fs') → stable J (syscall f).
Proof. intros Hf. apply triple_syscall; [done|]. intros. split; by eapply Hf. Qed.
Lemma stable_query {A : Type} (f : FS → res A) J : stable J (query f).
Proof. by apply triple_query. Qed.
Lemma stable_stat follow p J : stable J (stat follow p).
Proof. by apply triple_stat. Qed.
Lemma stable_random J : stable J next_random.
Proof. by apply triple_random. Qed.
Lemma stable_lift {A : Type} J (r : res A) : stable J (io_lift r).
Proof. by apply triple_lift. Qed.

End triples.
