(* ===== verification/OsFacts.v ===== *)
(** * What the calls of package os do

    File systems are trees ([wf]); where no symbolic link is in the way a path
    leads where its names say ([locate_clear]); and a triple for each call the
    installer makes, on the paths it makes it on. *)
From S2P Require Import Prelude GoErrors GoStrconv GoStrings GoPath GoOs Crash.

Section facts.
Context {W : Type} {ID : Disk}.
Implicit Types (fs : FS) (p q l : path).

(** Everything is in a directory, and the working directory exists. *)
Record wf fs : Prop := mk_wf {
  wf_root : is_dir (fs !! []) = true;
  wf_cwd : is_dir (fs !! cwd) = true;
  wf_parent p x : is_Some (fs !! (p ++ [x])) → is_dir (fs !! p) = true
}.

(** No symbolic link on the way to [p], nor there. *)
Definition nolink fs p : Prop := ∀ q, q `prefix_of` p → is_link (fs !! q) = false.

Lemma is_dir_some n : is_dir n = true ↔ ∃ perm, n = Some (NDir perm).
Proof. destruct n as [[]|]; naive_solver. Qed.

Lemma wf_prefix fs p q : wf fs → q ≠ [] → is_Some (fs !! (p ++ q)) → is_dir (fs !! p) = true.
Proof.
  intros Hwf. induction q as [|x q IH] using rev_ind; [done|]. intros _ Hs.
  rewrite app_assoc in Hs. apply (wf_parent fs Hwf) in Hs.
  destruct (decide (q = [])) as [->|Hq]; [by rewrite app_nil_r in Hs|].
  apply IH; [done|]. apply is_dir_some in Hs as [perm ->]. done.
Qed.

Lemma is_Some_proj_dir fs p m : wf fs → m ≠ [] → is_Some (fs !! (p ++ m)) → is_Some (fs !! p).
Proof. intros Hwf Hm Hs. apply (wf_prefix fs p m Hwf Hm), is_dir_some in Hs as [perm ->]. done. Qed.

Lemma wf_dir_prefix fs p q : wf fs → is_dir (fs !! (p ++ q)) = true → is_dir (fs !! p) = true.
Proof.
  intros Hwf Hd. destruct (decide (q = [])) as [->|Hq]; [by rewrite app_nil_r in Hd|].
  eapply wf_prefix; [done|exact Hq|]. apply is_dir_some in Hd as [perm ->]. done.
Qed.

Lemma wf_not_below fs p q : wf fs → is_dir (fs !! p) = false → q ≠ [] → fs !! (p ++ q) = None.
Proof.
  intros Hwf Hd Hq. apply eq_None_not_Some. intros Hs. by rewrite (wf_prefix fs p q) in Hd.
Qed.

(** A new node in a directory, or another content of a file. *)
Lemma wf_insert fs l n : wf fs → (l ≠ [] → is_dir (fs !! parent l) = true) →
  (is_dir (fs !! l) = true → is_dir (Some n) = true) → wf (<[l := n]> fs).
Proof.
  intros Hwf Hp Hn.
  assert (∀ q, is_dir (fs !! q) = true → is_dir (<[l := n]> fs !! q) = true) as Hdir.
  { intros q Hq. destruct (decide (q = l)) as [->|].
    - rewrite lookup_insert_eq. auto.
    - by rewrite lookup_insert_ne. }
  split; [apply Hdir, Hwf|apply Hdir, Hwf|]. intros p x Hs. apply Hdir.
  destruct (decide (p ++ [x] = l)) as [<-|Hne].
  - rewrite <- (removelast_last p x). apply Hp. by destruct p.
  - rewrite lookup_insert_ne in Hs by done. by apply (wf_parent fs Hwf) in Hs.
Qed.

(** Removing what has nothing in it and is not the working directory. *)
Lemma wf_delete fs l : wf fs → (∀ x, fs !! (l ++ [x]) = None) → l ≠ [] → l ≠ cwd → wf (delete l fs).
Proof.
  intros Hwf Hl H1 H2. split.
  - rewrite lookup_delete_ne by done. apply Hwf.
  - rewrite lookup_delete_ne by done. apply Hwf.
  - intros p x [n Hs]. apply lookup_delete_Some in Hs as [Hne Hs].
    destruct (decide (p = l)) as [->|]; [by rewrite Hl in Hs|].
    rewrite lookup_delete_ne by done. apply (wf_parent fs Hwf p x). by rewrite Hs.
Qed.

(** ** Following paths *)

(** A text that spells a path of names. *)
Record spells (p : string) (r : bool) l : Prop := mk_spells {
  sp_nonempty : p ≠ "";
  sp_rooted : rooted p = r;
  sp_elements : elements p = l;
  sp_proper : Forall proper l
}.

Lemma spells_unparse r l : Forall proper l → spells (unparse r l) r l.
Proof. intros Hl. split; [by apply unparse_nonempty|by apply rooted_unparse|by apply elements_unparse|done]. Qed.

Definition base (r : bool) : path := if r then [] else cwd.

Lemma wf_base fs r : wf fs → is_dir (fs !! base r) = true.
Proof. intros Hwf. destruct r; apply Hwf. Qed.

Lemma nolink_mono fs p q : nolink fs p → q `prefix_of` p → nolink fs q.
Proof. intros Hn Hq q' Hq'. apply Hn. by etrans. Qed.

(** The same, but for a link at [p] itself when links there are not followed. *)
Definition clear fs (follow : bool) p : Prop :=
  ∀ q, q `prefix_of` p → (follow = false → q ≠ p) → is_link (fs !! q) = false.

Lemma prefix_snoc p q x : q `prefix_of` p ++ [x] → q `prefix_of` p ∨ q = p ++ [x].
Proof.
  intros [k Hk]. destruct k as [|y k _] using rev_ind; [right; by rewrite app_nil_r in Hk|left].
  rewrite app_assoc in Hk. apply app_inj_tail in Hk as [-> _]. by exists k.
Qed.

Lemma snoc_ne p x : p ++ [x] ≠ [].
Proof. by destruct p. Qed.

Lemma nolink_clear fs follow p : nolink fs p → clear fs follow p.
Proof. intros Hn q Hq _. by apply Hn. Qed.
Lemma parent_clear fs p x : nolink fs p → clear fs false (p ++ [x]).
Proof. intros Hn q [Hq| ->]%prefix_snoc Hne; [by apply Hn|by destruct (Hne eq_refl)]. Qed.

(** One name of a path. *)
Lemma walk_cons links fs follow cur x l : proper x → clear fs follow (cur ++ x :: l) →
  walk links fs follow cur (x :: l) =
  if negb (is_dir (fs !! cur)) then Err ENOTDIR
  else match fs !! (cur ++ [x]) with
       | Some (NLink _) => Ok (cur ++ [x])
       | Some _ => walk links fs follow (cur ++ [x]) l
       | None => if bool_decide (l = []) then Ok (cur ++ [x]) else Err ENOENT
       end.
Proof.
  intros Hx Hn. specialize (Hn (cur ++ [x])).
  assert (fs !! (cur ++ [x]) = fs !! (cur ++ [x]) ∧
          (is_link (fs !! (cur ++ [x])) = false ∨ l = [] ∧ follow = false)) as [_ Hlink].
  { split; [done|]. destruct (decide (l = [] ∧ follow = false)) as [|Hne]; [by right|left].
    apply Hn; [exists l; by rewrite <- app_assoc|]. intros -> E. apply Hne. split; [|done].
    apply app_inv_head in E. by injection E. }
  destruct links; cbn; rewrite (bool_decide_false (x = "..")) by apply Hx;
    destruct (is_dir (fs !! cur)); cbn; try done; destruct (fs !! (cur ++ [x])) as [[]|]; try done;
    destruct Hlink as [|[-> ->]]; done.
Qed.

Lemma clear_cons fs follow cur x l : clear fs follow (cur ++ x :: l) → clear fs follow ((cur ++ [x]) ++ l).
Proof. by rewrite <- app_assoc. Qed.

(** A link is the end of a clear path. *)
Lemma clear_link fs follow cur x l t : clear fs follow (cur ++ x :: l) → fs !! (cur ++ [x]) = Some (NLink t) → l = [].
Proof.
  intros Hn Hx. destruct l as [|y l]; [done|]. specialize (Hn (cur ++ [x])). rewrite Hx in Hn.
  assert (true = false) as [=]. apply Hn; [exists (y :: l); by rewrite <- app_assoc|]. intros _ E.
  apply app_inv_head in E. by injection E.
Qed.

(** Where a path of names leads, and when. *)
Lemma walk_clear links fs follow cur l X :
  Forall proper l → clear fs follow (cur ++ l) → walk links fs follow cur l = Ok X →
  X = cur ++ l ∧ (l ≠ [] → is_dir (fs !! parent X) = true).
Proof.
  intros Hl. revert cur. induction Hl as [|x l Hx Hl IH]; intros cur Hn.
  { destruct links; intros [= <-]; by rewrite app_nil_r. }
  rewrite walk_cons by done. destruct (is_dir (fs !! cur)) eqn:Hcur; [cbn|done].
  destruct (fs !! (cur ++ [x])) as [n|] eqn:Hx'.
  - destruct (is_link (Some n)) eqn:El.
    + destruct n; [done..|]. assert (l = []) as -> by by eapply clear_link. intros [= <-].
      split; [done|]. intros _. unfold parent. by rewrite removelast_last.
    + intros Hw. assert (walk links fs follow (cur ++ [x]) l = Ok X) as Hw' by by destruct n.
      destruct (IH _ (clear_cons _ _ _ _ _ Hn) Hw') as [-> Hp]. rewrite <- app_assoc. split; [done|]. intros _.
      destruct (decide (l = [])) as [->|Hne].
      { change ([x] ++ []) with [x]. unfold parent. by rewrite removelast_last. }
      rewrite <- app_assoc in Hp. by apply Hp.
  - case_bool_decide as E; [|done]. subst l. intros [= <-]. split; [done|]. intros _.
    unfold parent. by rewrite removelast_last.
Qed.

Lemma walk_finds links fs follow cur l :
  wf fs → Forall proper l → clear fs follow (cur ++ l) → is_Some (fs !! (cur ++ l)) →
  walk links fs follow cur l = Ok (cur ++ l).
Proof.
  intros Hwf Hl. revert cur. induction Hl as [|x l Hx Hl IH]; intros cur Hn Hs.
  { destruct links; cbn; by rewrite app_nil_r. }
  assert (is_dir (fs !! cur) = true) as Hcur by by apply (wf_prefix fs cur (x :: l)).
  assert (is_Some (fs !! (cur ++ [x]))) as [n Hn'].
  { destruct (decide (l = [])) as [->|Hne]; [done|].
    assert (is_dir (fs !! (cur ++ [x])) = true) as [perm ->]%is_dir_some; [|done].
    apply (wf_prefix fs _ l Hwf Hne). by rewrite <- app_assoc. }
  rewrite walk_cons, Hcur, Hn' by done. cbn.
  assert (walk links fs follow (cur ++ [x]) l = Ok (cur ++ x :: l)) as Hw.
  { replace (cur ++ x :: l) with ((cur ++ [x]) ++ l) by by rewrite <- app_assoc.
    apply IH; [by apply clear_cons|by rewrite <- app_assoc]. }
  destruct n; try done. assert (l = []) as -> by by eapply clear_link. done.
Qed.

Lemma locate_clear fs follow (p : string) r l X : spells p r l → clear fs follow (base r ++ l) →
  locate fs follow p = Ok X → X = base r ++ l ∧ (l ≠ [] → is_dir (fs !! parent X) = true).
Proof.
  intros [Hp <- <- Hl] Hn. unfold locate. rewrite bool_decide_false by done. by apply walk_clear.
Qed.

Lemma locate_finds fs follow (p : string) r l : wf fs → spells p r l → clear fs follow (base r ++ l) →
  is_Some (fs !! (base r ++ l)) → locate fs follow p = Ok (base r ++ l).
Proof.
  intros Hwf [Hp <- <- Hl] Hn. unfold locate. rewrite bool_decide_false by done. by apply walk_finds.
Qed.

Lemma node_at_clear fs follow (p : string) r l X n : spells p r l → clear fs follow (base r ++ l) →
  node_at fs follow p = Ok (X, n) → X = base r ++ l ∧ fs !! (base r ++ l) = Some n.
Proof.
  intros Hsp Hn. unfold node_at. destruct (locate fs follow p) as [l'|] eqn:E; [|done]. cbn.
  destruct (locate_clear _ _ _ _ _ _ Hsp Hn E) as [-> _].
  destruct (fs !! (base r ++ l)) eqn:El; [|done]. by intros [= <- <-].
Qed.

Lemma node_at_finds fs follow (p : string) r l n : wf fs → spells p r l → clear fs follow (base r ++ l) →
  fs !! (base r ++ l) = Some n → node_at fs follow p = Ok (base r ++ l, n).
Proof.
  intros Hwf Hsp Hn Hl. unfold node_at. rewrite (locate_finds _ _ _ _ _ Hwf Hsp Hn) by by rewrite Hl.
  cbn. by rewrite Hl.
Qed.

(** A new node where nothing is. *)
Lemma wf_create fs follow (p : string) r l n : wf fs → spells p r l → clear fs follow (base r ++ l) →
  locate fs follow p = Ok (base r ++ l) → fs !! (base r ++ l) = None → wf (<[base r ++ l := n]> fs).
Proof.
  intros Hwf Hsp Hn Hl Hnone. apply wf_insert; [done| |by rewrite Hnone].
  intros _. destruct (locate_clear _ _ _ _ _ _ Hsp Hn Hl) as [_ Hp]. apply Hp. intros ->.
  rewrite app_nil_r in Hnone. pose proof (wf_base fs r Hwf) as Hd. by rewrite Hnone in Hd.
Qed.

(** ** Creating directories *)

(** [fs] is [fs0] with some missing directories on the way to [X] made. *)
Definition made (X : path) (fs0 fs : FS) : Prop := ∀ p,
  fs !! p = fs0 !! p ∨ (p `prefix_of` X ∧ fs0 !! p = None ∧ fs !! p = Some (NDir 493)).

Lemma made_refl X fs : made X fs fs.
Proof. by left. Qed.

Lemma made_insert X fs0 fs p : made X fs0 fs → p `prefix_of` X → fs !! p = None → made X fs0 (<[p := NDir 493]> fs).
Proof.
  intros Hm Hp Hn q. destruct (decide (q = p)) as [->|].
  - right. rewrite lookup_insert_eq. split_and!; [done| |done].
    destruct (Hm p) as [E|(_ & _ & E)]; by rewrite Hn in E.
  - rewrite lookup_insert_ne by done. apply Hm.
Qed.

Lemma made_links X fs0 fs p : made X fs0 fs → is_link (fs0 !! p) = false → is_link (fs !! p) = false.
Proof. intros Hm Hl. by destruct (Hm p) as [->|(_ & _ & ->)]. Qed.

Lemma made_nolink X fs0 fs p : made X fs0 fs → nolink fs0 p → nolink fs p.
Proof. intros Hm Hl q Hq. eapply made_links; [done|by apply Hl]. Qed.

Definition making (X : path) (fs0 fs : FS) : Prop := wf fs ∧ made X fs0 fs.

Lemma Mkdir_making X fs0 (p : string) r l : spells p r l → nolink fs0 X → base r ++ l `prefix_of` X →
  triple (making X fs0) (Mkdir p 493 : IO W ()) (making X fs0)
    (λ r' fs, making X fs0 fs ∧ (is_ok r' = true → is_dir (fs !! (base r ++ l)) = true)).
Proof.
  intros Hsp Hn Hpre. apply triple_syscall; [done|]. intros fs a fs' [Hwf Hm].
  assert (clear fs false (base r ++ l)) as Hl by (eapply nolink_clear, nolink_mono; [by eapply made_nolink|done]).
  destruct (locate fs false p) as [l'|] eqn:E; [cbn|done].
  destruct (locate_clear _ _ _ _ _ _ Hsp Hl E) as [-> _].
  destruct (fs !! (base r ++ l)) eqn:Hx; [done|]. intros [= <- <-].
  assert (making X fs0 (<[base r ++ l := NDir 493]> fs)) as H.
  { split; [by eapply wf_create|by apply made_insert]. }
  split; [done|split; [done|]]. by rewrite lookup_insert_eq.
Qed.

Lemma stat_making X fs0 follow (p : string) r l : spells p r l → nolink fs0 X → base r ++ l `prefix_of` X →
  triple (making X fs0) (io_try (stat follow p) : IO W _) (making X fs0)
    (λ n fs, making X fs0 fs ∧
       match n with Ok (Ok (NDir _)) => is_dir (fs !! (base r ++ l)) = true | _ => True end).
Proof.
  intros Hsp Hn Hpre. apply triple_try, triple_stat; [done|]. intros fs l' n Hm E. split; [done|].
  assert (clear fs follow (base r ++ l)) as Hl
    by (eapply nolink_clear, nolink_mono; [eapply made_nolink; [apply Hm|done]|done]).
  destruct (node_at_clear _ _ _ _ _ _ _ Hsp Hl E) as [_ ->]. by destruct n.
Qed.

Lemma mkdir_all_making X fs0 r l : Forall proper l → nolink fs0 X → base r ++ l `prefix_of` X →
  triple (making X fs0) (mkdir_all r (rev l) 493 : IO W ()) (making X fs0)
    (λ r' fs, making X fs0 fs ∧ (is_ok r' = true → is_dir (fs !! (base r ++ l)) = true)).
Proof.
  intros Hl Hn. remember (rev l) as m eqn:Em. revert l Em Hl.
  assert (∀ l, Forall proper l → base r ++ l `prefix_of` X →
    ∀ (above : IO W ()), triple (making X fs0) above (making X fs0) (λ _, making X fs0) →
    triple (making X fs0)
      (n ← io_try (Stat (unparse r l));
       match n with
       | Ok (NDir _) => mret ()
       | Ok _ => io_fail ENOTDIR
       | Err _ =>
           _ ← above;
           r' ← io_try (Mkdir (unparse r l) 493);
           match r' with
           | Ok _ => mret ()
           | Err e =>
               n ← io_try (Lstat (unparse r l));
               match n with Ok (NDir _) => mret () | _ => io_fail e end
           end
       end) (making X fs0)
      (λ r' fs, making X fs0 fs ∧ (is_ok r' = true → is_dir (fs !! (base r ++ l)) = true))) as Hstep.
  { intros l Hl Hpre above Habove. pose proof (spells_unparse r l Hl) as Hsp.
    eapply triple_bind; [by apply (stat_making X fs0 true)| |by intros ? ? [? _]].
    intros [[]|]; try (apply triple_fail; by intros ? [? _]); [apply triple_ret; naive_solver|].
    eapply triple_bind; [eapply triple_conseq; [exact Habove|by intros ? [? _]|done|]; intros ? ? H; exact H| |done].
    intros []. eapply triple_bind; [by apply triple_tried, (Mkdir_making X fs0)| |by intros ? ? []].
    intros [[]|e']; [apply triple_ret; naive_solver|].
    eapply triple_bind; [eapply triple_conseq; [by apply (stat_making X fs0 false)|by intros ? [? _]|done|]; intros ? ? H; exact H
      | |by intros ? ? [? _]].
    intros [[]|]; try (apply triple_fail; by intros ? [? _]). apply triple_ret. naive_solver. }
  induction m as [|x m IH]; intros l Em Hl Hpre.
  - destruct (rev l) eqn:E; [|done]. assert (l = []) as -> by (by rewrite <- (rev_involutive l), E).
    by apply (Hstep [] Hl Hpre (mret ())), triple_ret.
  - assert (l = rev m ++ [x]) as -> by (rewrite <- (rev_involutive l), <- Em; done).
    cbn [mkdir_all]. change (rev (x :: m)) with (rev m ++ [x]). apply Hstep; [done..|].
    apply Forall_app in Hl as [Hl _]. case_match; [by apply triple_ret|].
    eapply triple_conseq; [apply (IH (rev m))|done|done|by intros ? ? [? _]]; [by rewrite rev_involutive|done|].
    etrans; [|exact Hpre]. exists [x]. by rewrite app_assoc.
Qed.

Lemma MkdirAll_making fs0 (p : string) r l : spells p r l → nolink fs0 (base r ++ l) →
  triple (making (base r ++ l) fs0) (MkdirAll p 493 : IO W ()) (making (base r ++ l) fs0)
    (λ r' fs, making (base r ++ l) fs0 fs ∧ (is_ok r' = true → is_dir (fs !! (base r ++ l)) = true)).
Proof.
  intros [Hp <- <- Hl] Hn. unfold MkdirAll. rewrite bool_decide_false by done. by apply mkdir_all_making.
Qed.

(** ** Removing a tree *)

(** [fs] is [fs0] without some of what is at or below [V]. *)
Definition pruned (V : path) (fs0 fs : FS) : Prop := ∀ p,
  fs !! p = fs0 !! p ∨ (V `prefix_of` p ∧ fs !! p = None).
Definition removing (V : path) (fs0 fs : FS) : Prop := wf fs ∧ pruned V fs0 fs.

Lemma pruned_links V fs0 fs p : pruned V fs0 fs → is_link (fs0 !! p) = false → is_link (fs !! p) = false.
Proof. intros Hm Hl. by destruct (Hm p) as [->|(_ & ->)]. Qed.

Section remove.
Context (V : path) (fs0 : FS) (HV : V ≠ []) (Hcwd : ¬ V `prefix_of` cwd).

Lemma below_V l : V `prefix_of` l → l ≠ [] ∧ l ≠ cwd.
Proof. intros Hl. split; intros ->; [|done]. destruct Hl as [k Hk]. by destruct V. Qed.

Lemma removing_delete fs l : V `prefix_of` l → removing V fs0 fs → (∀ x, fs !! (l ++ [x]) = None) →
  removing V fs0 (delete l fs).
Proof.
  intros Hl [Hwf Hp] Hx. destruct (below_V l Hl). split; [by apply wf_delete|]. intros p.
  destruct (decide (p = l)) as [->|]; [right; by rewrite lookup_delete_eq|].
  rewrite lookup_delete_ne by done. apply Hp.
Qed.

Lemma unlink_keeps l : V `prefix_of` l → stable (removing V fs0) (unlink l : IO W ()).
Proof.
  intros Hl. apply stable_syscall. intros fs a fs' Hr. destruct (fs !! l) as [n|] eqn:E; [|done].
  assert (is_dir (fs !! l) = false → removing V fs0 (delete l fs)) as H.
  { intros Hd. apply removing_delete; [done..|]. intros x. apply wf_not_below; [apply Hr|done|done]. }
  destruct n; intros [= <- <-] || intros [=]; apply H; by rewrite E.
Qed.

Lemma rmdir_keeps l : V `prefix_of` l → stable (removing V fs0) (rmdir l : IO W ()).
Proof.
  intros Hl. apply stable_syscall. intros fs a fs' Hr. destruct (fs !! l) as [n|] eqn:E; [|done].
  destruct n; [done| |done]. case_bool_decide; [done|]. destruct (readdir fs l) eqn:Er; [|done].
  intros [= <- <-]. apply removing_delete; [done..|]. intros x. apply eq_None_not_Some. intros Hs.
  apply readdir_spec in Hs. by rewrite Er in Hs; apply elem_of_nil in Hs.
Qed.

Lemma remove_each_keeps (rm : path → IO W ()) l names last :
  (∀ x, stable (removing V fs0) (rm (l ++ [x]))) → stable (removing V fs0) (remove_each rm l names last).
Proof.
  intros Hrm. revert last. induction names as [|x names IH]; intros last; [apply stable_ret|].
  cbn [remove_each]. apply stable_bind; [by apply stable_try|]. intros r. apply IH.
Qed.

Lemma remove_tree_keeps depth l : V `prefix_of` l → stable (removing V fs0) (remove_tree depth l : IO W ()).
Proof.
  revert l. induction depth as [|depth IH]; intros l Hl; cbn [remove_tree];
    (apply stable_bind; [by apply stable_try, unlink_keeps|]); intros [|e]; try apply stable_ret;
    (destruct (IsNotExist e); [apply stable_ret|]); (destruct (negb (Is e EISDIR)); [apply stable_fail|]);
    [apply stable_fail|].
  apply stable_bind; [apply stable_query|]. intros names.
  apply stable_bind; [apply remove_each_keeps; intros x; by apply IH, prefix_app_r|]. intros failed.
  apply stable_bind; [by apply stable_try, rmdir_keeps|]. intros [|e']; [apply stable_ret|].
  case_match; [apply stable_ret|apply stable_fail].
Qed.

Context (p : string) (r : bool) (l : list string) (Hsp : spells p r l) (HVl : V = base r ++ l).
Context (Hlink : clear fs0 false V).

Lemma removing_clear fs : removing V fs0 fs → clear fs false (base r ++ l).
Proof. intros [_ Hp] q Hq Hne. rewrite <- HVl in *. eapply pruned_links; [done|by apply Hlink]. Qed.

(** Looking up [p] gives [V]. *)
Lemma locate_removing {A : Type} (f : FS → path → A) :
  triple (removing V fs0) (query (λ fs, l ← locate fs false p; Ok (l, f fs l)) : IO W _) (removing V fs0)
    (λ r fs, removing V fs0 fs ∧ match r with Ok (l, _) => l = V | Err _ => True end).
Proof.
  apply triple_query; [done|]. intros fs [l' x] Hr E. split; [done|].
  destruct (locate fs false p) as [l''|] eqn:El; [|done]. injection E as <- <-.
  destruct (locate_clear _ _ _ _ _ _ Hsp (removing_clear fs Hr) El) as [-> _]. done.
Qed.

Lemma Remove_keeps : stable (removing V fs0) (Remove p : IO W ()).
Proof.
  eapply (triple_bind _ _ _ _ (λ r fs, removing V fs0 fs ∧ match r with Ok l => l = V | Err _ => True end)).
  - apply triple_query; [done|]. intros fs l' Hr El. split; [done|].
    by destruct (locate_clear _ _ _ _ _ _ Hsp (removing_clear fs Hr) El) as [-> _].
  - intros l'. apply (triple_pure (l' = V)); [naive_solver|]. intros ->.
    apply stable_weaken; [|by intros ? [? _]|done].
    apply stable_bind; [by apply stable_try, unlink_keeps|]. intros [|e]; [apply stable_ret|].
    apply stable_bind; [by apply stable_try, rmdir_keeps|]. intros [|e']; [apply stable_ret|apply stable_fail].
  - naive_solver.
Qed.

Lemma RemoveAll_keeps : stable (removing V fs0) (RemoveAll p : IO W ()).
Proof.
  unfold RemoveAll. case_bool_decide; [apply stable_ret|]. destruct (ends_with_dot p); [apply stable_fail|].
  apply stable_bind; [by apply stable_try, Remove_keeps|]. intros [|e]; [apply stable_ret|].
  destruct (IsNotExist e); [apply stable_ret|].
  eapply triple_bind; [apply triple_tried, (locate_removing (λ fs _, fs_depth fs))| |by intros ? ? []].
  intros [[l' depth]|e'].
  - apply (triple_pure (l' = V)); [naive_solver|]. intros ->.
    apply stable_weaken; [by apply (remove_tree_keeps depth V)|by intros ? [? _]|done].
  - apply stable_weaken; [|by intros ? [? _]|done]. destruct (IsNotExist e'); [apply stable_ret|apply stable_fail].
Qed.

End remove.

(** ** A directory of our own *)

(** [T] is a directory, made where [fs1] had nothing, everything outside it is as
    in [fs1], and there are no links in it. *)
Record filling (T : path) (fs1 fs : FS) : Prop := mk_filling {
  fi_wf : wf fs;
  fi_dir : is_dir (fs !! T) = true;
  fi_outside p : ¬ T `prefix_of` p → fs !! p = fs1 !! p;
  fi_links m : is_link (fs !! (T ++ m)) = false
}.

(** What is in it. *)
Definition holds (T : path) (t fs : FS) : Prop := ∀ m, fs !! (T ++ m) = t !! m.

Lemma filling_nolink T fs1 fs m : nolink fs1 T → filling T fs1 fs → nolink fs (T ++ m).
Proof.
  intros Hn Hf q [k Hk]. destruct (decide (T `prefix_of` q)) as [[k' ->]|Hq]; [apply Hf|].
  rewrite (fi_outside _ _ _ Hf) by done. apply Hn.
  destruct (prefix_weak_total q T (T ++ m)) as [|]; [by exists k|by exists m|done|done].
Qed.

(** A node written in it. *)
Lemma filling_insert T fs1 fs m n : filling T fs1 fs → (m ≠ [] → is_dir (fs !! parent (T ++ m)) = true) →
  (is_dir (fs !! (T ++ m)) = true → is_dir (Some n) = true) → is_link (Some n) = false →
  filling T fs1 (<[T ++ m := n]> fs).
Proof.
  intros Hf Hp Hn Hl. split.
  - apply wf_insert; [apply Hf| |done]. intros Hne. destruct (decide (m = [])) as [->|]; [|auto].
    rewrite app_nil_r in *. pose proof (fi_dir _ _ _ Hf) as [perm Hd]%is_dir_some.
    destruct (exists_last Hne) as (p & x & ->). unfold parent. rewrite removelast_last.
    apply (wf_parent _ (fi_wf _ _ _ Hf) p x). by rewrite Hd.
  - destruct (decide (T ++ m = T)) as [E|].
    + rewrite E in *. rewrite lookup_insert_eq. apply Hn, Hf.
    + rewrite lookup_insert_ne by done. apply Hf.
  - intros p Hp'. rewrite lookup_insert_ne; [by apply Hf|]. intros <-. apply Hp'. by exists m.
  - intros k. destruct (decide (T ++ m = T ++ k)) as [->|].
    + by rewrite lookup_insert_eq.
    + rewrite lookup_insert_ne by done. apply Hf.
Qed.

Lemma holds_insert T t fs m n : holds T t fs → holds T (<[m := n]> t) (<[T ++ m := n]> fs).
Proof.
  intros Hh k. destruct (decide (k = m)) as [->|].
  - by rewrite !lookup_insert_eq.
  - rewrite !lookup_insert_ne; [apply Hh|done|]. intros E. by apply app_inv_head in E.
Qed.

(** The directories on the way to [m], made where missing. *)
Definition prefixes (m : path) : list path := (λ k, take k m) <$> seq 0 (S (length m)).
Definition mkdirs (m : path) (t : FS) : FS := t ∪ list_to_map ((λ p, (p, NDir 493)) <$> prefixes m).

Lemma elem_of_prefixes p m : p ∈ prefixes m ↔ p `prefix_of` m.
Proof.
  unfold prefixes. rewrite list_elem_of_fmap. split.
  - intros (k & -> & _). exists (drop k m). by rewrite take_drop.
  - intros [k ->]. exists (length p). split; [by rewrite take_app_length|].
    apply elem_of_seq. rewrite length_app. lia.
Qed.

Lemma lookup_mkdirs m t p :
  mkdirs m t !! p = match t !! p with Some n => Some n | None => if decide (p `prefix_of` m) then Some (NDir 493) else None end.
Proof.
  unfold mkdirs. destruct (t !! p) as [n|] eqn:E; [by apply lookup_union_Some_l|].
  rewrite lookup_union_r by done. destruct (decide (p `prefix_of` m)) as [Hp|Hp].
  - apply elem_of_list_to_map_1'.
    + intros n [q [[= -> <-] _]]%list_elem_of_fmap. done.
    + apply list_elem_of_fmap. exists p. split; [done|]. by apply elem_of_prefixes.
  - apply not_elem_of_list_to_map_1. intros Hin. apply Hp. apply elem_of_prefixes.
    apply list_elem_of_fmap in Hin as ([q n] & -> & Hin). by apply list_elem_of_fmap in Hin as (q' & [= -> _] & ?).
Qed.

Lemma Close_stays l P I : triple P (io_try (Close l) : IO W _) I (λ _, P).
Proof. by apply triple_try, triple_query. Qed.

Section own.
Context (T : path) (fs1 : FS) (Hout : nolink fs1 T).

(** The directory is ours and holds [t]. *)
Definition owns (t fs : FS) : Prop := filling T fs1 fs ∧ holds T t fs.

Lemma owns_clear t fs follow m : owns t fs → clear fs follow (T ++ m).
Proof. intros [Hf _]. by eapply nolink_clear, filling_nolink. Qed.

Lemma owns_insert t fs m n : owns t fs → (m ≠ [] → is_dir (fs !! parent (T ++ m)) = true) →
  (is_dir (fs !! (T ++ m)) = true → is_dir (Some n) = true) → is_link (Some n) = false →
  owns (<[m := n]> t) (<[T ++ m := n]> fs).
Proof. intros [Hf Hh] ? ? ?. split; [by apply filling_insert|by apply holds_insert]. Qed.

(** Another content where something is. *)
Lemma owns_update t fs m n n' : owns t fs → t !! m = Some n → (is_dir (Some n) = true → is_dir (Some n') = true) →
  is_link (Some n') = false → owns (<[m := n']> t) (<[T ++ m := n']> fs).
Proof.
  intros [Hf Hh] Hm Hd Hl. apply owns_insert; [done| |by rewrite (Hh m), Hm|done]. intros Hne.
  destruct (exists_last Hne) as (p & x & ->). unfold parent. rewrite app_assoc, removelast_last.
  apply (wf_parent _ (fi_wf _ _ _ Hf) _ x). by rewrite <- app_assoc, (Hh (p ++ [x])), Hm.
Qed.

Lemma making_filling fs0 fs m : filling T fs1 fs0 → making (T ++ m) fs0 fs → filling T fs1 fs.
Proof.
  intros Hf [Hwf Hm]. pose proof (fi_dir _ _ _ Hf) as HT.
  assert (∀ p, is_dir (fs0 !! p) = true → fs !! p = fs0 !! p) as Hsame.
  { intros p [perm Hp]%is_dir_some. destruct (Hm p) as [|(_ & E & _)]; [done|by rewrite E in Hp]. }
  split; [done|by rewrite Hsame| |].
  - intros p Hp. rewrite <- (fi_outside _ _ _ Hf p Hp). destruct (Hm p) as [|(Hpre & E & _)]; [done|].
    apply Hsame. destruct (prefix_weak_total p T (T ++ m)) as [[k ->]|]; [done|by exists m| |done].
    by eapply wf_dir_prefix; [apply Hf|].
  - intros k. eapply made_links; [done|apply Hf].
Qed.

Lemma making_holds t fs0 fs m : owns t fs0 → making (T ++ m) fs0 fs → is_dir (fs !! (T ++ m)) = true →
  holds T (mkdirs m t) fs.
Proof.
  intros [Hf Hh] [Hwf Hm] Hd k. rewrite lookup_mkdirs, <- (Hh k).
  destruct (fs0 !! (T ++ k)) as [n|] eqn:E.
  - destruct (Hm (T ++ k)) as [->|(_ & E' & _)]; [done|by rewrite E in E'].
  - destruct (decide (k `prefix_of` m)) as [[k' ->]|Hk].
    + destruct (Hm (T ++ k)) as [E'|(_ & _ & ->)]; [|done]. rewrite app_assoc in Hd.
      pose proof (wf_dir_prefix _ _ _ Hwf Hd) as Hd'. by rewrite E', E in Hd'.
    + destruct (Hm (T ++ k)) as [->|(Hp & _)]; [done|]. by apply prefix_app_inv in Hp.
Qed.

Lemma MkdirAll_owns t (p : string) r l m : spells p r l → base r ++ l = T ++ m →
  triple (owns t) (MkdirAll p 493 : IO W ()) (filling T fs1)
    (λ r' fs, filling T fs1 fs ∧ (is_ok r' = true → owns (mkdirs m t) fs ∧ is_dir (fs !! (T ++ m)) = true)).
Proof.
  intros Hsp HX. apply triple_each. intros fs0 Ho.
  eapply triple_conseq; [apply (MkdirAll_making fs0 p r l Hsp)| | |]; rewrite ?HX.
  - eapply filling_nolink; [done|apply Ho].
  - intros fs ->. split; [apply Ho|apply made_refl].
  - intros fs Hm. eapply making_filling; [apply Ho|done].
  - intros r' fs [Hm Hd]. assert (filling T fs1 fs) by (eapply making_filling; [apply Ho|done]).
    split; [done|]. intros Hr. split; [split; [done|by eapply making_holds, Hd]|by apply Hd].
Qed.

(** An opened file is empty, and keeps the permissions of one that was there. *)
Definition opened (m : path) (perm : Z) (t : FS) : Node :=
  NFile "" (match t !! m with Some (NFile _ p) => p | _ => perm end).

Lemma OpenFile_owns t (p : string) perm r l m : spells p r l → base r ++ l = T ++ m →
  triple (owns t) (OpenFile p perm : IO W path) (filling T fs1)
    (λ r' fs, filling T fs1 fs ∧
       match r' with Ok l' => l' = T ++ m ∧ owns (<[m := opened m perm t]> t) fs | Err _ => True end).
Proof.
  intros Hsp HX. apply triple_syscall; [intros ? ? [? _]; by split|]. intros fs l' fs' Ho.
  destruct (locate fs true p) as [l''|] eqn:E; [cbn|done].
  assert (clear fs true (base r ++ l)) as Hc by (rewrite HX; by eapply owns_clear).
  destruct (locate_clear _ _ _ _ _ _ Hsp Hc E) as [-> Hp]. rewrite HX in *. unfold opened. destruct Ho as [Hf Hh].
  rewrite <- (Hh m). destruct (fs !! (T ++ m)) as [n|] eqn:En.
  - destruct n as [d perm'|perm'|tg]; [|done..]. intros [= <- <-].
    assert (owns (<[m := NFile "" perm']> t) (<[T ++ m := NFile "" perm']> fs)) as Ho'
      by (eapply owns_update; [by split|by rewrite <- (Hh m)|done|done]).
    split; [apply Ho'|]. split; [apply Ho'|done].
  - intros [= <- <-].
    assert (owns (<[m := NFile "" perm]> t) (<[T ++ m := NFile "" perm]> fs)) as Ho'.
    { apply owns_insert; [by split| |by rewrite En|done]. intros _. apply Hp. intros ->.
      rewrite app_nil_r in HX. pose proof (wf_base fs r (fi_wf _ _ _ Hf)) as Hd. by rewrite HX, En in Hd. }
    split; [apply Ho'|]. split; [apply Ho'|done].
Qed.

Lemma append_owns t fs m data : owns t fs → owns (append m data t) (append (T ++ m) data fs).
Proof.
  intros Ho. unfold append. rewrite (proj2 Ho m). destruct (t !! m) as [[]|] eqn:E; try done.
  by eapply owns_update.
Qed.

Lemma Write_owns t m data :
  triple (owns t) (Write (T ++ m) data : IO W ()) (filling T fs1)
    (λ r fs, filling T fs1 fs ∧ (is_ok r = true → owns (append m data t) fs)).
Proof.
  apply triple_write.
  - intros fs e n Ho. assert (filling T fs1 (append (T ++ m) (str_take n data) fs)) by eapply append_owns, Ho. done.
  - intros fs Ho. pose proof (append_owns t fs m data Ho) as Ho'. cbn. split; [apply Ho'|]. split; [apply Ho'|done].
Qed.

Lemma str_take_drop n s : str_take n s +:+ str_drop n s = s.
Proof.
  revert s. induction n as [|n IH]; intros s; [done|]. destruct s as [|c s]; [done|].
  cbn [str_take str_drop]. by rewrite str_app_cons, IH.
Qed.

Lemma str_drop_length n s : String.length (str_drop n s) = String.length s - n.
Proof.
  revert s. induction n as [|n IH]; intros s; [cbn; lia|]. destruct s as [|c s]; [done|]. cbn. apply IH.
Qed.

Lemma append_append m d d' t : is_Some (t !! m) → append m d' (append m d t) = append m (d +:+ d') t.
Proof.
  intros [n Hn]. unfold append. rewrite Hn. destruct n; rewrite ?Hn; try done.
  by rewrite lookup_insert_eq, insert_insert_eq, str_app_assoc.
Qed.

Lemma append_some m d t k : is_Some (t !! k) → is_Some (append m d t !! k).
Proof.
  intros Hk. unfold append. destruct (t !! m) as [[]|]; try done.
  destruct (decide (k = m)) as [->|]; [by rewrite lookup_insert_eq|by rewrite lookup_insert_ne].
Qed.

Lemma append_nil m t : append m "" t = t.
Proof. unfold append. destruct (t !! m) as [[]|] eqn:E; try done. rewrite str_app_nil_r. by apply insert_id. Qed.

Lemma copy_reads_owns fuel t m data : String.length data ≤ fuel → is_Some (t !! m) →
  triple (owns t) (copy_reads fuel (T ++ m) data : IO W ()) (filling T fs1)
    (λ r fs, filling T fs1 fs ∧ (is_ok r = true → owns (append m data t) fs)).
Proof.
  revert t data. induction fuel as [|fuel IH]; intros t data Hlen Hm; cbn [copy_reads].
  { apply triple_ret. intros fs Ho. split; [apply Ho|]. destruct data; [by rewrite append_nil|cbn in Hlen; lia]. }
  case_bool_decide as Hd.
  { subst data. apply triple_ret. intros fs Ho. split; [apply Ho|]. by rewrite append_nil. }
  eapply triple_bind; [apply Write_owns| |naive_solver].
  intros []. pose proof (read_size_pos data) as Hpos. eapply triple_conseq; [apply IH| |done|].
  - rewrite str_drop_length. destruct data; cbn in *; [done|lia].
  - by apply append_some, Hm.
  - intros fs [_ Ho]. by apply Ho.
  - intros r fs [Hf Ho]. split; [done|]. rewrite append_append, str_take_drop in Ho by done. done.
Qed.

Lemma Copy_owns t m src : is_Some (t !! m) →
  triple (owns t) (Copy (T ++ m) src : IO W ()) (filling T fs1)
    (λ r fs, filling T fs1 fs ∧ (is_ok r = true → rd_err src = None ∧ owns (append m (rd_data src) t) fs)).
Proof.
  intros Hm. eapply triple_bind; [by apply copy_reads_owns| |naive_solver].
  intros []. destruct (rd_err src); [apply triple_fail|apply triple_ret]; naive_solver.
Qed.

Definition chmod_node (perm : Z) (n : Node) : Node :=
  match n with NFile d _ => NFile d perm | NDir _ => NDir perm | NLink t => NLink t end.

Lemma Chmod_owns t (p : string) perm r l m : spells p r l → base r ++ l = T ++ m →
  triple (owns t) (Chmod p perm : IO W ()) (filling T fs1)
    (λ r' fs, filling T fs1 fs ∧
       (is_ok r' = true → ∃ n, t !! m = Some n ∧ owns (<[m := chmod_node perm n]> t) fs)).
Proof.
  intros Hsp HX. apply triple_syscall; [intros ? ? [? _]; by split|]. intros fs a fs' Ho.
  destruct (node_at fs true p) as [[l' n]|] eqn:E; [cbn|done].
  assert (clear fs true (base r ++ l)) as Hc by (rewrite HX; by eapply owns_clear).
  destruct (node_at_clear _ _ _ _ _ _ _ Hsp Hc E) as [-> Hn]. rewrite HX in *. intros [= <- <-].
  assert (t !! m = Some n) as Hm by by rewrite <- (proj2 Ho m).
  assert (is_link (Some n) = false) as Hl by (rewrite <- Hn; apply Ho).
  assert (owns (<[m := chmod_node perm n]> t) (<[T ++ m := chmod_node perm n]> fs)) as Ho'
    by (eapply owns_update; [done..|by destruct n|by destruct n]).
  split; [apply Ho'|]. split; [apply Ho'|]. eauto.
Qed.

Lemma WriteFile_owns t (p : string) data perm r l m : spells p r l → base r ++ l = T ++ m →
  triple (owns t) (WriteFile p data perm : IO W ()) (filling T fs1)
    (λ r' fs, filling T fs1 fs ∧
       (is_ok r' = true → owns (append m data (<[m := opened m perm t]> t)) fs)).
Proof.
  intros Hsp HX. eapply triple_bind; [by eapply OpenFile_owns| |intros ? ? [? _]; by split].
  intros l'. apply (triple_pure (l' = T ++ m)); [naive_solver|]. intros ->.
  eapply triple_bind.
  - apply triple_tried. eapply triple_conseq; [apply (Write_owns (<[m := opened m perm t]> t) m data)|naive_solver|done|].
    intros r1 fs H. exact H.
  - intros r1. eapply triple_bind; [apply Close_stays| |naive_solver].
    intros r2. apply triple_lift. intros fs [Hf Ho]. split; [done|]. destruct r1; [intros _; by apply Ho|done].
  - by intros ? ? [].
Qed.

End own.

(** ** A fresh directory beside others *)

Lemma str_get_snoc u c : String.get (String.length u) (u +:+ str1 c) = Some c.
Proof. induction u as [|d u IH]; [done|]. rewrite str_app_cons. apply IH. Qed.

Lemma ends_with_slash_spec (p : string) : p ≠ "" → ends_with_slash p = true → ∃ u, p = u +:+ str1 slash.
Proof.
  intros Hp. destruct (str_snoc p Hp) as (u & c & ->). unfold ends_with_slash.
  rewrite str_app_length. replace (String.length u + String.length (str1 c) - 1) with (String.length u) by (cbn; lia).
  rewrite str_get_snoc. destruct (Ascii.eqb_spec c slash) as [->|]; [|done]. intros _. by exists u.
Qed.

(** A name for a directory below [dir]. *)
Definition below (dir name : string) : string :=
  if ends_with_slash dir then dir +:+ name else dir +:+ String slash name.

Lemma below_app dir a b : below dir (a +:+ b) = below dir a +:+ b.
Proof. unfold below. case_match; by rewrite ?str_app_assoc, <- ?str_app_assoc, ?str_app_cons. Qed.

Lemma spells_below dir r l x : spells dir r l → proper x → spells (below dir x) r (l ++ [x]).
Proof.
  intros [Hn Hr Hel Hl] Hx. assert (elements x = [x]) as Hex.
  { apply (elements_Join [x]). by apply Forall_singleton. }
  assert (elements (below dir x) = l ++ [x]) as He.
  { unfold below. destruct (ends_with_slash dir) eqn:E; [|by rewrite elements_app, Hel, Hex].
    destruct (ends_with_slash_spec dir Hn E) as [u ->]. rewrite <- str_app_assoc.
    change (str1 slash +:+ x) with (String slash x). rewrite elements_app, Hex. f_equal.
    unfold str1 in Hel. rewrite elements_app in Hel. by rewrite app_nil_r in Hel. }
  split; [| |done|by apply Forall_app; split; [|apply Forall_singleton]].
  - unfold below. case_match; by intros [? _]%str_app_eq_nil.
  - unfold below. case_match; by rewrite rooted_app.
Qed.

(** A directory that is new. *)
Record fresh (D : path) (fs1 : FS) (x : string) (fs : FS) : Prop := mk_fresh {
  fr_none : fs1 !! (D ++ [x]) = None;
  fr_wf : wf fs;
  fr_fs : fs = <[D ++ [x] := NDir 448]> fs1
}.

Definition digits (s : string) : Prop := ∃ n, (0 ≤ n)%Z ∧ s = Itoa n.

Section temp.
Context (dir : string) (r : bool) (l : list string) (fs1 : FS) (pattern : string).
Context (Hsp : spells dir r l) (Hwf : wf fs1) (Hn : nolink fs1 (base r ++ l)).
Context (Hpat : ∀ s, digits s → proper (pattern +:+ s)).

Let seen (fs : FS) : Prop := ∃ s, digits s ∧ fresh (base r ++ l) fs1 (pattern +:+ s) fs.
Let made_temp (r' : res string) (fs : FS) : Prop :=
  match r' with
  | Ok tmp => ∃ s, digits s ∧ tmp = below dir (pattern +:+ s) ∧ fresh (base r ++ l) fs1 (pattern +:+ s) fs
  | Err _ => fs = fs1
  end.

Lemma Mkdir_fresh x : proper x →
  triple (λ fs, fs = fs1) (Mkdir (below dir x) 448 : IO W ()) (fresh (base r ++ l) fs1 x)
    (λ r' fs, match r' with Ok _ => fresh (base r ++ l) fs1 x fs | Err _ => fs = fs1 end).
Proof.
  intros Hx. pose proof (spells_below _ _ _ _ Hsp Hx) as Hsp'.
  apply triple_syscall; [done|]. intros fs [] fs' ->. destruct (locate fs1 false _) as [l'|] eqn:E; [cbn|done].
  assert (clear fs1 false (base r ++ l ++ [x])) as Hc by (rewrite app_assoc; by apply parent_clear).
  destruct (locate_clear _ _ _ _ _ _ Hsp' Hc E) as [-> _].
  destruct (fs1 !! (base r ++ l ++ [x])) eqn:Ex; [done|]. intros [= <-].
  assert (wf (<[base r ++ l ++ [x] := NDir 448]> fs1)) as Hwf' by by eapply wf_create.
  rewrite app_assoc in *. done.
Qed.

Lemma fail_temp e : triple (λ fs, fs = fs1) (io_fail e : IO W string) seen made_temp.
Proof. by apply triple_fail. Qed.

Lemma attempt_temp (retry : IO W string) : triple (λ fs, fs = fs1) retry seen made_temp →
  triple (λ fs, fs = fs1)
    (n ← next_random;
     r ← io_try (Mkdir (below dir pattern +:+ Itoa (n mod 2 ^ 32)) 448);
     match r with
     | Ok _ => mret (below dir pattern +:+ Itoa (n mod 2 ^ 32))
     | Err e =>
         if IsExist e then retry
         else if IsNotExist e then
           d ← io_try (Stat dir);
           match d with
           | Err e' => if IsNotExist e' then io_fail e' else io_fail e
           | Ok _ => io_fail e
           end
         else io_fail e
     end) seen made_temp.
Proof.
  intros Hretry. eapply triple_bind; [by apply (triple_random _ _ (λ _ fs, fs = fs1))| |done]. intros n.
  set (s := Itoa (n mod 2 ^ 32)). rewrite <- below_app.
  assert (digits s) as Hs by (exists (n mod 2 ^ 32)%Z; split; [by apply Z.mod_pos_bound|done]).
  eapply triple_bind.
  - apply triple_tried. eapply triple_conseq; [apply (Mkdir_fresh (pattern +:+ s)), Hpat, Hs|done| |].
    + intros fs Hfs. by exists s.
    + intros r' fs H. exact H.
  - intros [u|e]; [apply triple_ret; intros fs Hfs; by exists s|].
    destruct (IsExist e); [done|]. destruct (IsNotExist e); [|apply fail_temp].
    eapply triple_bind; [apply triple_tried, (triple_stat true _ _ _ (λ _ fs, fs = fs1)); done| |by intros ? ? []].
    intros [|e']; [apply fail_temp|]. case_match; apply fail_temp.
  - by intros ? ? [].
Qed.

Lemma mkdir_temp_fresh tries : triple (λ fs, fs = fs1) (mkdir_temp tries dir (below dir pattern) : IO W string) seen made_temp.
Proof. induction tries as [|tries IH]; apply attempt_temp; [apply fail_temp|done]. Qed.

Lemma MkdirTemp_fresh :
  triple (λ fs, fs = fs1) (MkdirTemp dir pattern : IO W string)
    (λ fs, ∃ s, digits s ∧ fresh (base r ++ l) fs1 (pattern +:+ s) fs)
    (λ r' fs, match r' with
              | Ok tmp => ∃ s, digits s ∧ tmp = below dir (pattern +:+ s) ∧ fresh (base r ++ l) fs1 (pattern +:+ s) fs
              | Err _ => fs = fs1
              end).
Proof. apply (mkdir_temp_fresh 9999). Qed.

End temp.

(** A fresh directory is ours, and empty. *)
Lemma fresh_owns D fs1 x fs : wf fs1 → fresh D fs1 x fs → owns (D ++ [x]) fs1 {[ [] := NDir 448 ]} fs.
Proof.
  intros Hwf [Hn Hwf' ->].
  assert (∀ m, <[D ++ [x] := NDir 448]> fs1 !! ((D ++ [x]) ++ m) = ({[ [] := NDir 448 ]} : FS) !! m) as Hm.
  { intros m. destruct (decide (m = [])) as [->|Hne].
    - by rewrite app_nil_r, lookup_insert_eq, lookup_singleton_eq.
    - rewrite lookup_singleton_ne by done. rewrite lookup_insert_ne.
      + apply wf_not_below; [done|by rewrite Hn|done].
      + intros E. apply Hne. apply (app_inv_head (D ++ [x])). by rewrite app_nil_r. }
  split; [split|done]; [done|by rewrite lookup_insert_eq| |].
  - intros p Hp. rewrite lookup_insert_ne; [done|]. intros <-. by apply Hp.
  - intros m. rewrite Hm. destruct (decide (m = [])) as [->|]; [by rewrite lookup_singleton_eq|].
    by rewrite lookup_singleton_ne.
Qed.

(** ** Moving a tree *)

Lemma strip_spec p l : match strip p l with Some m => l = p ++ m | None => ¬ p `prefix_of` l end.
Proof.
  unfold strip. case_bool_decide as E.
  - transitivity (take (length p) l ++ drop (length p) l); [by rewrite take_drop|by rewrite E].
  - intros [m ->]. apply E. by rewrite take_app_length.
Qed.

Lemma strip_app p m : strip p (p ++ m) = Some m.
Proof. unfold strip. rewrite take_app_length, bool_decide_true by done. by rewrite drop_app_length. Qed.

Lemma strip_none p l : ¬ p `prefix_of` l → strip p l = None.
Proof. intros Hp. pose proof (strip_spec p l). destruct (strip p l) as [m|]; [|done]. subst. by destruct Hp; exists m. Qed.

Section move.
Context (D : path) (x y : string) (Hxy : x ≠ y).
Notation T := (D ++ [x]).
Notation V := (D ++ [y]).

Lemma siblings m m' : T ++ m ≠ V ++ m'.
Proof. rewrite <- !app_assoc. intros E%app_inv_head. by injection E. Qed.

Lemma not_below_T m : ¬ T `prefix_of` V ++ m.
Proof. intros [k Hk]. by destruct (siblings k m). Qed.
Lemma not_below_V m : ¬ V `prefix_of` T ++ m.
Proof. intros [k Hk]. by destruct (siblings m k). Qed.

Lemma swap_T m : swap T V (T ++ m) = V ++ m.
Proof. unfold swap. by rewrite strip_app. Qed.
Lemma swap_V m : swap T V (V ++ m) = T ++ m.
Proof. unfold swap. by rewrite strip_none, strip_app by apply not_below_T. Qed.
Lemma swap_other p : ¬ T `prefix_of` p → ¬ V `prefix_of` p → swap T V p = p.
Proof. intros Ht Hv. unfold swap. by rewrite !strip_none. Qed.

Lemma swap_swap p : swap T V (swap T V p) = p.
Proof.
  destruct (decide (T `prefix_of` p)) as [[m ->]|Ht]; [by rewrite swap_T, swap_V|].
  destruct (decide (V `prefix_of` p)) as [[m ->]|Hv]; [by rewrite swap_V, swap_T|].
  rewrite (swap_other p) by done. by apply swap_other.
Qed.

#[local] Instance swap_inj : Inj (=) (=) (swap T V).
Proof. intros p q E. by rewrite <- (swap_swap p), E, swap_swap. Qed.

Lemma lookup_move fs p : move T V fs !! p = delete V fs !! swap T V p.
Proof. unfold move. rewrite <- (swap_swap p) at 1. apply lookup_kmap. apply _. Qed.

(** The tree [t] has moved from [T] to [V]. *)
Record landed (fs1 t fs : FS) : Prop := mk_landed {
  la_wf : wf fs;
  la_holds : holds V t fs;
  la_links m : is_link (fs !! (V ++ m)) = false;
  la_gone m : fs !! (T ++ m) = None;
  la_outside p : ¬ T `prefix_of` p → ¬ V `prefix_of` p → fs !! p = fs1 !! p
}.

Context (Hcwd : ∀ z, ¬ D ++ [z] `prefix_of` cwd).

Lemma move_landed fs1 t fs : owns T fs1 t fs → (∀ m, m ≠ [] → fs !! (V ++ m) = None) → landed fs1 t (move T V fs).
Proof.
  intros [Hf Hh] HV. pose proof (fi_wf _ _ _ Hf) as Hwf.
  assert (∀ m, move T V fs !! (V ++ m) = t !! m) as HmV.
  { intros m. rewrite lookup_move, swap_V, lookup_delete_ne; [apply Hh|]. intros E.
    apply (siblings m []). by rewrite app_nil_r. }
  assert (∀ m, move T V fs !! (T ++ m) = None) as HmT.
  { intros m. rewrite lookup_move, swap_T. destruct (decide (m = [])) as [->|Hm].
    - rewrite app_nil_r. apply lookup_delete_eq.
    - rewrite lookup_delete_ne; [by apply HV|]. intros E. apply Hm. apply (app_inv_head V). by rewrite app_nil_r. }
  assert (∀ p, ¬ T `prefix_of` p → ¬ V `prefix_of` p → move T V fs !! p = fs !! p) as Hmo.
  { intros p Ht Hv. rewrite lookup_move, swap_other, lookup_delete_ne; [done| |done|done].
    intros <-. by apply Hv. }
  split; [split|done| |done|].
  - rewrite Hmo; [apply Hwf|..]; intros [k Hk]; by destruct D.
  - rewrite Hmo; [apply Hwf|apply Hcwd..].
  - intros p z Hs. destruct (decide (T `prefix_of` p ++ [z])) as [[k Hk]|Ht].
    { rewrite Hk, HmT in Hs. by destruct Hs. }
    assert (¬ T `prefix_of` p) as Ht' by (intros Hp; apply Ht; by apply prefix_app_r).
    destruct (decide (V `prefix_of` p)) as [[k ->]|Hv].
    + rewrite <- app_assoc in Hs. rewrite HmV in Hs. rewrite HmV.
      rewrite <- (Hh k). apply (wf_parent _ Hwf _ z). by rewrite <- app_assoc, (Hh (k ++ [z])).
    + rewrite Hmo by done. destruct (decide (V `prefix_of` p ++ [z])) as [[k Hk]|Hv'].
      * destruct k as [|k0 k _] using rev_ind.
        -- rewrite app_nil_r in Hk. apply app_inj_tail in Hk as [-> _].
           apply (wf_dir_prefix fs D [x] Hwf). apply Hf.
        -- rewrite app_assoc in Hk. apply app_inj_tail in Hk as [-> _]. destruct Hv. by exists k.
      * rewrite Hmo in Hs by done. by apply (wf_parent _ Hwf p z).
  - intros m. rewrite HmV, <- (Hh m). apply Hf.
  - intros p Ht Hv. rewrite Hmo by done. by apply (fi_outside _ _ _ Hf).
Qed.

Lemma Rename_landed fs1 t (old new : string) r lo ln : nolink fs1 T → nolink fs1 V →
  spells old r lo → base r ++ lo = T → spells new r ln → base r ++ ln = V →
  triple (owns T fs1 t) (Rename old new : IO W ()) (landed fs1 t)
    (λ r' fs, match r' with Ok _ => landed fs1 t fs | Err _ => owns T fs1 t fs end).
Proof.
  intros HnT HnV Hold HT Hnew HV. unfold Rename.
  assert (∀ fs, owns T fs1 t fs → clear fs false V) as Hclear.
  { intros fs [Hf _]. apply nolink_clear. intros q Hq. rewrite (fi_outside _ _ _ Hf); [by apply HnV|].
    intros Ht. apply (not_below_T []). rewrite app_nil_r. by etrans. }
  assert (triple (owns T fs1 t) (syscall (λ fs,
    '(lo, n) ← node_at fs false old;
    ln ← locate fs false new;
    if bool_decide (lo = ln) then Ok ((), fs)
    else if bool_decide (take (length lo) ln = lo) then Err EINVAL
    else
      match n, fs !! ln with
      | NDir _, Some (NDir _) => match readdir fs ln with [] => Ok ((), move lo ln fs) | _ => Err ENOTEMPTY end
      | NDir _, Some _ => Err ENOTDIR
      | _, Some (NDir _) => Err EISDIR
      | _, _ => Ok ((), move lo ln fs)
      end) : IO W ()) (landed fs1 t)
    (λ r' fs, match r' with Ok _ => landed fs1 t fs | Err _ => owns T fs1 t fs end)) as Hsys.
  { apply triple_syscall; [done|]. intros fs [] fs' Ho. pose proof Ho as [Hf Hh].
    destruct (node_at fs false old) as [[l' n]|] eqn:E; [cbn|done].
    assert (clear fs false (base r ++ lo)) as HcT.
    { rewrite HT. rewrite <- (app_nil_r T). by apply (owns_clear T fs1 HnT t). }
    destruct (node_at_clear _ _ _ _ _ _ _ Hold HcT E) as [-> Hn]. rewrite HT in *.
    destruct (locate fs false new) as [l'|] eqn:E'; [cbn|done].
    assert (clear fs false (base r ++ ln)) as HcV by (rewrite HV; by apply Hclear).
    destruct (locate_clear _ _ _ _ _ _ Hnew HcV E') as [-> _]. rewrite HV in *.
    rewrite bool_decide_false by (intros E1; apply (siblings [] []); by rewrite !app_nil_r).
    case_bool_decide; [done|]. pose proof (fi_dir _ _ _ Hf) as Hd. rewrite Hn in Hd. destruct n; [done| |done].
    destruct (fs !! V) as [[]|] eqn:EV; [done| |done|].
    - destruct (readdir fs V) eqn:Er; [|done]. intros [= <-].
      assert (landed fs1 t (move T V fs)); [|done]. apply move_landed; [done|]. intros m Hm.
      destruct m as [|z m]; [done|]. replace (V ++ z :: m) with ((V ++ [z]) ++ m) by by rewrite <- app_assoc.
      assert (fs !! (V ++ [z]) = None) as Hz.
      { apply eq_None_not_Some. intros Hs. apply readdir_spec in Hs. rewrite Er in Hs. by apply elem_of_nil in Hs. }
      destruct m as [|z' m]; [by rewrite app_nil_r|]. apply wf_not_below; [apply Hf|by rewrite Hz|done].
    - intros [= <-]. assert (landed fs1 t (move T V fs)); [|done]. apply move_landed; [done|]. intros m Hm.
      apply wf_not_below; [apply Hf|by rewrite EV|done]. }
  eapply triple_bind; [apply triple_tried, (triple_stat false _ _ _ (λ _, owns T fs1 t)); done| |by intros ? ? []].
  intros [[]|]; try exact Hsys.
  eapply triple_bind; [by apply (triple_stat false _ _ _ (λ _, owns T fs1 t))| |done].
  intros n. by apply triple_fail.
Qed.

End move.

(** ** Removing ends

    When no call fails, [RemoveAll] succeeds, the depth it is given is enough, and
    nothing is left. *)
Definition without l fs fs' : Prop := ∀ p, fs' !! p = if decide (l `prefix_of` p) then None else fs !! p.
Definition gone l (st st' : Os W) : Prop :=
  os_faults st' = [] ∧ wf (os_fs st') ∧ without l (os_fs st) (os_fs st').
Definition shallow (depth : nat) l fs : Prop := ∀ p, is_Some (fs !! (l ++ p)) → length p < depth.
Definition outside l : Prop := l ≠ [] ∧ ¬ l `prefix_of` cwd.

Lemma outside_snoc l x : outside l → outside (l ++ [x]).
Proof. intros [Hn Hc]. split; [apply snoc_ne|]. intros Hp. apply Hc. by eapply prefix_app_l. Qed.

Lemma syscall_calm {A : Type} (f : FS → res (A * FS)) (st : Os W) : os_faults st = [] →
  syscall f st = match f (os_fs st) with Ok (a, fs) => (Ok a, set_fs fs st) | Err e => (Err e, st) end.
Proof. intros H. unfold syscall, next_fault. by rewrite H. Qed.

Lemma query_calm {A : Type} (f : FS → res A) (st : Os W) : os_faults st = [] → query f st = (f (os_fs st), st).
Proof. intros H. unfold query, next_fault. by rewrite H. Qed.

Lemma without_delete l fs : (∀ m, m ≠ [] → fs !! (l ++ m) = None) → without l fs (delete l fs).
Proof.
  intros Hn p. case_decide as Hp.
  - destruct Hp as [k ->]. destruct (decide (k = [])) as [->|Hk]; [by rewrite app_nil_r, lookup_delete_eq|].
    rewrite lookup_delete_ne; [by apply Hn|]. intros E. apply Hk. apply (app_inv_head l). by rewrite app_nil_r.
  - apply lookup_delete_ne. by intros ->.
Qed.

Lemma gone_delete l (st : Os W) : outside l → os_faults st = [] → wf (os_fs st) →
  (∀ m, m ≠ [] → os_fs st !! (l ++ m) = None) → gone l st (set_fs (delete l (os_fs st)) st).
Proof.
  intros [Hne Hc] Hf Hwf Hn. split; [done|split; [|by apply without_delete]]. apply wf_delete; try done.
  - intros x. by apply Hn.
  - intros ->. by apply Hc.
Qed.

Lemma unlink_calm l (st : Os W) : outside l → os_faults st = [] → wf (os_fs st) →
  match unlink l st with
  | (Ok _, st') => gone l st st'
  | (Err e, st') => st' = st ∧ ((e = ENOENT ∧ gone l st st) ∨ (e = EISDIR ∧ is_dir (os_fs st !! l) = true))
  end.
Proof.
  intros Ho Hf Hwf. unfold unlink. rewrite syscall_calm by done.
  assert (∀ m, is_dir (os_fs st !! l) = false → m ≠ [] → os_fs st !! (l ++ m) = None) as Hb.
  { intros m Hd Hm. by apply wf_not_below. }
  destruct (os_fs st !! l) as [[]|] eqn:E.
  - apply gone_delete; [done..|]. intros m. by apply Hb.
  - split; [done|]. by right.
  - apply gone_delete; [done..|]. intros m. by apply Hb.
  - split; [done|]. left. split; [done|]. split; [done|split; [done|]]. intros p. case_decide as Hp; [|done]. destruct Hp as [k ->].
    destruct (decide (k = [])) as [->|Hk]; [by rewrite app_nil_r|by apply Hb].
Qed.

(** The entries [names] are gone, and what was below them. *)
Definition emptied l (names : list string) (st st' : Os W) : Prop :=
  os_faults st' = [] ∧ wf (os_fs st') ∧
  ∀ p, os_fs st' !! p = if decide (Exists (λ x, l ++ [x] `prefix_of` p) names) then None else os_fs st !! p.

Lemma shallow_child depth l x fs : shallow (S depth) l fs → shallow depth (l ++ [x]) fs.
Proof. intros Hs p Hp. rewrite <- app_assoc in Hp. specialize (Hs _ Hp). cbn in Hs. lia. Qed.

Lemma remove_each_emptied depth l names last (st : Os W) :
  (∀ x st, os_faults st = [] → wf (os_fs st) → shallow depth (l ++ [x]) (os_fs st) →
     ∃ st', remove_tree depth (l ++ [x]) st = (Ok (), st') ∧ gone (l ++ [x]) st st') →
  os_faults st = [] → wf (os_fs st) → shallow (S depth) l (os_fs st) →
  ∃ st', remove_each (remove_tree depth) l names last st = (Ok last, st') ∧ emptied l names st st'.
Proof.
  intros Hrm. revert st. induction names as [|x names IH]; intros st Hf Hwf Hs.
  { exists st. split; [done|]. split; [done|split; [done|]]. intros p. rewrite decide_False; [done|]. by intros H%Exists_nil. }
  destruct (Hrm x st Hf Hwf (shallow_child _ _ _ _ Hs)) as (st1 & E1 & Hf1 & Hwf1 & H1).
  destruct (IH st1 Hf1 Hwf1) as (st2 & E2 & Hf2 & Hwf2 & H2).
  { intros p [n Hp]. rewrite H1 in Hp. case_decide; [done|]. apply Hs. by exists n. }
  exists st2. split.
  - cbn [remove_each]. unfold mbind at 1, IO_bind at 1, io_try at 1. by rewrite E1.
  - split; [done|split; [done|]]. intros p. rewrite H2, H1. destruct (decide (l ++ [x] `prefix_of` p)) as [Hp|Hp].
    + rewrite (decide_True (P := Exists _ (x :: names))) by by left. by case_decide.
    + case_decide as Hn; case_decide as Hxn; try done; [by destruct Hxn; right|].
      by inversion Hxn.
Qed.

Lemma remove_tree_gone depth l (st : Os W) : outside l → os_faults st = [] → wf (os_fs st) →
  shallow depth l (os_fs st) → ∃ st', remove_tree depth l st = (Ok (), st') ∧ gone l st st'.
Proof.
  revert l st. induction depth as [|depth IH]; intros l st Ho Hf Hwf Hs;
    pose proof (unlink_calm l st Ho Hf Hwf) as Hu; cbn [remove_tree];
    unfold mbind at 1, IO_bind at 1, io_try at 1; destruct (unlink l st) as [[u|e] st1];
    try (exists st1; by destruct u); destruct Hu as [-> [[-> Hg]|[-> Hd]]]; try by exists st.
  { exfalso. apply is_dir_some in Hd as [perm Hd]. specialize (Hs []). rewrite app_nil_r, Hd in Hs.
    specialize (Hs ltac:(done)). cbn in Hs. lia. }
  change (IsNotExist EISDIR) with false. change (Is EISDIR EISDIR) with true. cbn [negb].
  unfold mbind at 1, IO_bind at 1. rewrite query_calm by done.
  destruct (remove_each_emptied depth l (readdir (os_fs st) l) None st) as (st1 & E1 & Hf1 & Hwf1 & H1); [|done..|].
  { intros x st1 Hf1 Hwf1 Hs1. apply IH; [by apply outside_snoc|done..]. }
  unfold mbind at 1, IO_bind at 1. rewrite E1.
  assert (∀ m, m ≠ [] → os_fs st1 !! (l ++ m) = None) as Hb.
  { intros [|x m] Hm; [done|]. rewrite H1. case_decide as Hx; [done|]. apply eq_None_not_Some. intros Hsome. apply Hx.
    assert (is_Some (os_fs st !! (l ++ [x]))) as Hx'.
    { destruct m as [|y m]; [done|]. apply (is_Some_proj_dir (os_fs st) (l ++ [x]) (y :: m)); [done|done|].
      by rewrite <- app_assoc. }
    apply readdir_spec in Hx'. apply Exists_exists. exists x. split; [by apply list_elem_of_In|].
    exists m. by rewrite <- app_assoc. }
  assert (is_dir (os_fs st1 !! l) = true) as Hd1.
  { rewrite H1, decide_False; [done|]. intros (x & _ & [k Hk])%Exists_exists.
    apply (f_equal length) in Hk. rewrite !length_app in Hk. cbn in Hk. lia. }
  unfold mbind at 1, IO_bind at 1, io_try at 1, rmdir. rewrite syscall_calm by done.
  apply is_dir_some in Hd1 as [perm Hd1]. rewrite Hd1, bool_decide_false by apply Ho.
  destruct (readdir (os_fs st1) l) as [|x names] eqn:Er.
  - exists (set_fs (delete l (os_fs st1)) st1). split; [done|].
    destruct (gone_delete l st1 Ho Hf1 Hwf1 Hb) as (? & ? & Hw). split; [done|split; [done|]].
    intros p. rewrite Hw. case_decide as Hp; [done|]. rewrite H1, decide_False; [done|].
    intros (x & _ & Hx)%Exists_exists. apply Hp. by eapply prefix_app_l.
  - exfalso. assert (x ∈ readdir (os_fs st1) l) as Hx by (rewrite Er; by left). apply readdir_spec in Hx.
    rewrite Hb in Hx by done. by destruct Hx.
Qed.

Lemma fs_depth_spec fs p : is_Some (fs !! p) → length p ≤ fs_depth fs.
Proof.
  unfold fs_depth. revert p. apply (map_fold_weak_ind (λ n fs, ∀ p, is_Some (fs !! p) → length p ≤ n)).
  - intros p [n Hn]. by rewrite lookup_empty in Hn.
  - intros q n fs' d Hq IH p Hp. destruct (decide (p = q)) as [->|Hne]; [lia|].
    rewrite lookup_insert_ne in Hp by done. specialize (IH p Hp). lia.
Qed.

Lemma shallow_depth l fs : l ≠ [] → shallow (fs_depth fs) l fs.
Proof.
  intros Hl p Hp. pose proof (fs_depth_spec fs _ Hp) as H. rewrite length_app in H.
  destruct l; [done|]. cbn in H. lia.
Qed.

Lemma gone_nothing l (st : Os W) : os_faults st = [] → wf (os_fs st) → os_fs st !! l = None → gone l st st.
Proof.
  intros Hf Hwf Hn. split; [done|split; [done|]]. intros p. case_decide as Hp; [|done]. destruct Hp as [k ->].
  destruct (decide (k = [])) as [->|Hk]; [by rewrite app_nil_r|]. by apply wf_not_below; rewrite ?Hn.
Qed.

Lemma rmdir_calm l (st : Os W) : outside l → os_faults st = [] → wf (os_fs st) → is_dir (os_fs st !! l) = true →
  match rmdir l st with
  | (Ok _, st') => gone l st st'
  | (Err e, st') => st' = st ∧ e = ENOTEMPTY
  end.
Proof.
  intros Ho Hf Hwf [perm Hd]%is_dir_some. unfold rmdir. rewrite syscall_calm, Hd, bool_decide_false by (apply Ho || done).
  destruct (readdir (os_fs st) l) eqn:Er; [|done]. apply gone_delete; [done..|]. intros [|x m] Hm; [done|].
  replace (l ++ x :: m) with ((l ++ [x]) ++ m) by by rewrite <- app_assoc.
  assert (os_fs st !! (l ++ [x]) = None) as Hx.
  { apply eq_None_not_Some. intros Hs. apply readdir_spec in Hs. rewrite Er in Hs. by apply elem_of_nil in Hs. }
  destruct (decide (m = [])) as [->|]; [by rewrite app_nil_r|]. by apply wf_not_below; rewrite ?Hx.
Qed.

(** [RemoveAll] ends: without failures it succeeds, and nothing is left. *)
Lemma RemoveAll_gone r l x (st : Os W) : Forall proper (l ++ [x]) → outside (base r ++ l ++ [x]) →
  os_faults st = [] → wf (os_fs st) → clear (os_fs st) false (base r ++ l ++ [x]) →
  is_Some (os_fs st !! (base r ++ l ++ [x])) →
  ∃ st', RemoveAll (unparse r (l ++ [x])) st = (Ok (), st') ∧ gone (base r ++ l ++ [x]) st st'.
Proof.
  intros Hl Ho Hf Hwf Hc Hs. pose proof (spells_unparse r _ Hl) as Hsp. set (p := unparse r (l ++ [x])) in *.
  pose proof (locate_finds _ false _ _ _ Hwf Hsp Hc Hs) as Hloc.
  assert (proper x) as Hx by (apply Forall_app in Hl as [_ Hx]; by inversion Hx).
  assert (ends_with_dot p = false) as Hdot.
  { unfold ends_with_dot. apply Forall_app in Hl as [Hl _]. pose proof (Base_unparse r l x Hl Hx) as HB.
    unfold Base in HB. fold p in HB. destruct (unparse_snoc r l x Hl) as (u & Hu & Hend & _). fold p in Hu.
    assert (after_last slash p = x) as ->.
    { rewrite Hu. unfold after_last. destruct Hx as (Hx0 & _ & _ & Hxs). destruct Hend as [->|[v ->]].
      - by rewrite str_app_nil_l, Split_single.
      - rewrite <- str_app_assoc. change (str1 slash +:+ x) with (String slash x).
        rewrite Split_app_sep, last_snoc_nonempty, Split_single; [done..|by rewrite Split_single]. }
    rewrite !bool_decide_false; [done|apply Hx|]. intros E. pose proof (sp_elements _ _ _ Hsp) as Hel.
    rewrite E in Hel. by destruct l. }
  unfold RemoveAll. rewrite bool_decide_false, Hdot by apply Hsp.
  unfold Remove. unfold mbind at 1, IO_bind at 1, io_try at 1. unfold mbind at 1, IO_bind at 1.
  rewrite query_calm, Hloc by done. cbv iota beta. set (L := base r ++ l ++ [x]) in *.
  pose proof (unlink_calm L st Ho Hf Hwf) as Hu. unfold mbind at 1, IO_bind at 1, io_try at 1.
  destruct (unlink L st) as [[u|e] st1]; [by exists st1|].
  destruct Hu as [-> [[-> Hg]|[-> Hd]]].
  { exfalso. destruct Hg as (_ & _ & Hw). specialize (Hw L). rewrite decide_True in Hw by done. destruct Hs as [n Hn].
    by rewrite Hn in Hw. }
  pose proof (rmdir_calm L st Ho Hf Hwf Hd) as Hr. unfold mbind at 1, IO_bind at 1, io_try at 1.
  destruct (rmdir L st) as [[u|e] st1]; [by exists st1|]. destruct Hr as [-> ->].
  change (Is ENOTEMPTY ENOTDIR) with false. cbv iota. change (io_fail ENOTEMPTY st) with (@Err () ENOTEMPTY, st).
  cbv iota beta. change (IsNotExist ENOTEMPTY) with false. cbv iota.
  unfold mbind at 1, IO_bind at 1, io_try at 1. rewrite query_calm, Hloc by done. cbn [mbind res_bind].
  apply remove_tree_gone; [done..|]. apply shallow_depth, Ho.
Qed.

End facts.
