(* ===== verification/Observability.v ===== *)
(** * internal/observability

    The structured logger that tags every line with the correlation ID of its
    context, on a model of log/slog, and the management HTTP server with its
    liveness and readiness endpoints.  A line of the log is its level, its
    message and its attributes with the groups they are in; the JSON text around
    them, the timestamp, and the Prometheus registry are not modelled. *)
From S2P Require Import Prelude GoErrors GoStrconv GoStrings GoTime GoContext.

(** ** log/slog *)

Definition LevelDebug : Z := -4.
Definition LevelInfo : Z := 0.
Definition LevelWarn : Z := 4.
Definition LevelError : Z := 8.

Record Attr := mkAttr { a_Key : string; a_Value : string }.
Record LogEntry := mkLogEntry { le_level : Z; le_msg : string; le_attrs : list Attr }.

(** [slog.Handler]. *)
Class SlogHandler (H W : Type) := {
  slog_Enabled : Context → Z → H → bool;
  slog_Handle : Context → LogEntry → H → W → option goerr * W;
  slog_WithAttrs : list Attr → H → H;
  slog_WithGroup : string → H → H
}.

(** A line written: each attribute with the groups it is in. *)
Record Line := mkLine { ln_level : Z; ln_msg : string; ln_attrs : list (list string * Attr) }.

(** The [io.Writer] behind a handler. *)
Class LogWriter (W : Type) := { write_line : Line → W → option goerr * W }.

(** [slog.JSONHandler]: attributes given early go into the groups open then. *)
Record JSONHandler := mkJSONHandler {
  jh_level : Z;
  jh_attrs : list (list string * Attr);
  jh_groups : list string
}.

Definition NewJSONHandler (level : Z) : JSONHandler := mkJSONHandler level [] [].

#[export] Instance JSONHandler_SlogHandler {W} {IW : LogWriter W} : SlogHandler JSONHandler W := {|
  slog_Enabled := λ _ level h, (jh_level h <=? level)%Z;
  slog_Handle := λ _ e h w,
    write_line (mkLine (le_level e) (le_msg e) (jh_attrs h ++ (pair (jh_groups h) <$> le_attrs e))) w;
  slog_WithAttrs := λ attrs h,
    mkJSONHandler (jh_level h) (jh_attrs h ++ (pair (jh_groups h) <$> attrs)) (jh_groups h);
  slog_WithGroup := λ name h, mkJSONHandler (jh_level h) (jh_attrs h) (jh_groups h ++ [name])
|}.

(** [slog.Logger], a handler behind it. *)
Section logger.
Context {H W : Type} {IH : SlogHandler H W}.

Definition logger_With (attrs : list Attr) (l : H) : H :=
  match attrs with [] => l | _ => slog_WithAttrs (W := W) attrs l end.
Definition logger_WithGroup (name : string) (l : H) : H :=
  if bool_decide (name = "") then l else slog_WithGroup (W := W) name l.

(** [InfoContext] and its like: the handler's error is dropped. *)
Definition logger_Log (ctx : Context) (level : Z) (msg : string) (attrs : list Attr) (l : H) (w : W) : W :=
  if slog_Enabled (W := W) ctx level l then (slog_Handle ctx (mkLogEntry level msg attrs) l w).2 else w.

End logger.

(** ** The correlation handler *)

Definition LogKey : string := "correlation_id".

Record correlationHandler (H : Type) := mkcorrelationHandler { ch_Handler : H }.
Arguments mkcorrelationHandler {H} _.
Arguments ch_Handler {H} _.

Section correlation_handler.
Context {H W : Type} {IH : SlogHandler H W}.

Definition correlation_Handle (ctx : Context) (e : LogEntry) (h : correlationHandler H) (w : W)
    : option goerr * W :=
  let id := FromContext ctx in
  let e := if bool_decide (id ≠ "") then mkLogEntry (le_level e) (le_msg e) (le_attrs e ++ [mkAttr LogKey id])
           else e in
  slog_Handle ctx e (ch_Handler h) w.

Definition correlation_WithAttrs (attrs : list Attr) (h : correlationHandler H) : correlationHandler H :=
  mkcorrelationHandler (slog_WithAttrs (W := W) attrs (ch_Handler h)).

Definition correlation_WithGroup (name : string) (h : correlationHandler H) : correlationHandler H :=
  mkcorrelationHandler (slog_WithGroup (W := W) name (ch_Handler h)).

(** [Enabled] is the embedded handler's. *)
#[export] Instance correlationHandler_SlogHandler : SlogHandler (correlationHandler H) W := {|
  slog_Enabled := λ ctx level h, slog_Enabled (W := W) ctx level (ch_Handler h);
  slog_Handle := correlation_Handle;
  slog_WithAttrs := correlation_WithAttrs;
  slog_WithGroup := correlation_WithGroup
|}.

End correlation_handler.

Section new_logger.
Context {W : Type} {IW : LogWriter W}.

Definition Logger : Type := correlationHandler JSONHandler.

Definition NewLogger (service : string) (level : Z) : Logger :=
  logger_With (W := W) [mkAttr "service" service] (mkcorrelationHandler (NewJSONHandler level)).

(** The loggers code derives from one another. *)
Inductive Derivation := DWith (attrs : list Attr) | DWithGroup (name : string).

Definition derive (l : Logger) (d : Derivation) : Logger :=
  match d with
  | DWith attrs => logger_With (W := W) attrs l
  | DWithGroup name => logger_WithGroup (W := W) name l
  end.

(** What the derivations alone say: the open groups, and the attributes so far. *)
Definition derived_groups (ds : list Derivation) : list string :=
  filter (λ name, name ≠ "") (omap (λ d, match d with DWithGroup name => Some name | DWith _ => None end) ds).

Fixpoint derived_attrs (groups : list string) (ds : list Derivation) : list (list string * Attr) :=
  match ds with
  | [] => []
  | DWith attrs :: ds => (pair groups <$> attrs) ++ derived_attrs groups ds
  | DWithGroup name :: ds =>
      derived_attrs (if bool_decide (name = "") then groups else groups ++ [name]) ds
  end.

Lemma derive_handler ds l :
  foldl derive l ds = mkcorrelationHandler
    (mkJSONHandler (jh_level (ch_Handler l))
       (jh_attrs (ch_Handler l) ++ derived_attrs (jh_groups (ch_Handler l)) ds)
       (jh_groups (ch_Handler l) ++ derived_groups ds)).
Proof.
  revert l. induction ds as [|[attrs|name] ds IH]; intros [[level pre groups]].
  - cbn. by rewrite !app_nil_r.
  - cbn [foldl derived_attrs]. rewrite IH. unfold derived_groups. cbn [omap list_omap].
    destruct attrs as [|a attrs]; [by cbn|]. cbn. by rewrite <- app_assoc.
  - cbn [foldl derived_attrs]. rewrite IH. unfold derived_groups. cbn [omap list_omap].
    unfold derive, logger_WithGroup. case_bool_decide as Hn.
    + by rewrite filter_cons_False by naive_solver.
    + rewrite filter_cons_True by done. cbn. by rewrite <- app_assoc.
Qed.

(** Every line of a service names the service and its request: through any
    derivation of loggers with attributes and groups, a line at or above the
    level carries the service outside all groups, the attributes of the
    derivations and its own in their groups, and the correlation ID exactly when
    the context has one that is not empty, as its last attribute; a line below
    the level is not written. *)
Theorem log_lines_carry_correlation service level ds ctx lvl msg attrs (w : W) :
  let logger := foldl derive (NewLogger service level) ds in
  let groups := derived_groups ds in
  logger_Log ctx lvl msg attrs logger w =
    if (lvl <? level)%Z then w
    else (write_line (mkLine lvl msg
            (([], mkAttr "service" service) :: derived_attrs [] ds ++ (pair groups <$> attrs) ++
             match ctx_id ctx with
             | Some id => if bool_decide (id = "") then [] else [(groups, mkAttr LogKey id)]
             | None => []
             end)) w).2.
Proof.
  cbn zeta. rewrite derive_handler. cbn [NewLogger logger_With ch_Handler jh_level jh_attrs jh_groups].
  unfold logger_Log. cbn -[derived_groups derived_attrs]. rewrite Z.leb_antisym.
  destruct (lvl <? level)%Z; [done|]. cbn [negb]. unfold correlation_Handle, FromContext. do 2 f_equal.
  destruct (ctx_id ctx) as [id|]; cbn -[derived_groups derived_attrs].
  - destruct (decide (id = "")) as [->|Hid].
    + rewrite !bool_decide_eq_false_2, bool_decide_eq_true_2 by naive_solver.
      cbn -[derived_groups derived_attrs]. by rewrite app_nil_r.
    + rewrite (bool_decide_eq_true_2 (_ ≠ _)), bool_decide_eq_false_2 by done.
      cbn -[derived_groups derived_attrs]. by rewrite fmap_app.
  - rewrite bool_decide_eq_false_2 by naive_solver. cbn -[derived_groups derived_attrs]. by rewrite app_nil_r.
Qed.

End new_logger.

(** ** The management server *)

Record Response := mkResponse { rs_code : Z; rs_content_type : string; rs_body : string }.

Definition StatusOK : Z := 200.
Definition StatusNotFound : Z := 404.
Definition StatusMethodNotAllowed : Z := 405.
Definition StatusServiceUnavailable : Z := 503.

Definition text_plain : string := "text/plain".
Definition nl : string := str1 newline.

Definition readyTimeout : Z := 2 * Second.
Definition readHeaderTimeout : Z := 5 * Second.

(** The context of a request: the server's base, ended earlier when the client
    goes away. *)
Definition request_context (base : Context) (client_gone : option Z) : Context :=
  match client_gone with
  | None => base
  | Some t =>
      mkContext (ctx_id base)
        (match ctx_done base with
         | Some (t', e) => if (t' <=? t)%Z then Some (t', e) else Some (t, CtxCanceled)
         | None => Some (t, CtxCanceled)
         end)
  end.

Record Request := mkRequest { rq_method : string; rq_path : string; rq_gone : option Z }.

Section management.
Context {S : Type} {IC : Clock S}.

Definition ReadinessCheck : Type := Context → S → option goerr * S.

Definition healthz : Response := mkResponse StatusOK text_plain ("ok" +:+ nl).

Definition readyz (ready : ReadinessCheck) (ctx : Context) (s : S) : Response * S :=
  let ctx := WithTimeout ctx readyTimeout s in
  match ready ctx s with
  | (Some err, s) =>
      (mkResponse StatusServiceUnavailable text_plain ("not ready: " +:+ Error err +:+ nl), s)
  | (None, s) => (mkResponse StatusOK text_plain ("ready" +:+ nl), s)
  end.

(** [http.Server] as the code sets it up; [metrics] is [promhttp.HandlerFor]. *)
Record ManagementServer := mkManagementServer {
  ms_Addr : string;
  ms_ReadHeaderTimeout : Z;
  ms_base : Context;
  ms_ready : ReadinessCheck;
  ms_metrics : S → Response * S
}.

Definition NewManagementServer (base : Context) (addr : string) (ready : ReadinessCheck)
    (metrics : S → Response * S) : ManagementServer :=
  mkManagementServer addr readHeaderTimeout base ready metrics.

(** [http.ServeMux] for a path in canonical form: a GET pattern also matches HEAD. *)
Definition serve (srv : ManagementServer) (rq : Request) (s : S) : Response * S :=
  let ctx := request_context (ms_base srv) (rq_gone rq) in
  if bool_decide (rq_path rq ∈ ["/healthz"; "/readyz"; "/metrics"]) then
    if bool_decide (rq_method rq ∈ ["GET"; "HEAD"]) then
      if bool_decide (rq_path rq = "/healthz") then (healthz, s)
      else if bool_decide (rq_path rq = "/readyz") then readyz (ms_ready srv) ctx s
      else ms_metrics srv s
    else (mkResponse StatusMethodNotAllowed "text/plain; charset=utf-8" ("Method Not Allowed" +:+ nl), s)
  else (mkResponse StatusNotFound "text/plain; charset=utf-8" ("404 page not found" +:+ nl), s).

Lemma request_context_done base gone t e :
  ctx_done base = Some (t, e) → ∃ t' e', ctx_done (request_context base gone) = Some (t', e') ∧ (t' ≤ t)%Z.
Proof.
  intros Hb. unfold request_context. destruct gone as [g|]; cbn; rewrite Hb; [|by eexists _, _].
  destruct (Z.leb_spec t g); eexists _, _; split; done || lia.
Qed.

Lemma WithTimeout_parent (ctx : Context) d (s : S) t e :
  ctx_done ctx = Some (t, e) → ∃ t' e', ctx_done (WithTimeout ctx d s) = Some (t', e') ∧ (t' ≤ t)%Z.
Proof.
  intros Hc. unfold WithTimeout. cbn. rewrite Hc. destruct (Z.leb_spec t (now s + d)); eexists _, _; split; done || lia.
Qed.

(** Readiness tells the truth within two seconds: asked for the readiness
    page the server runs the check once, under a context that ends two seconds
    later at the latest, with the client and with the process, and answers 200
    exactly when the check returned no error, and otherwise 503 with the error's
    text; liveness is answered without running the check, and so is every other
    path or method. *)
Theorem readyz_reports base addr ready metrics rq (s : S) :
  let srv := NewManagementServer base addr ready metrics in
  let (rs, s') := serve srv rq s in
  (rq_path rq = "/readyz" → rq_method rq ∈ ["GET"; "HEAD"] →
   ∃ ctx t e, ctx_done ctx = Some (t, e) ∧ (t ≤ now s + 2 * Second)%Z ∧
     (∀ tb eb, ctx_done base = Some (tb, eb) → (t ≤ tb)%Z) ∧
     (∀ tg, rq_gone rq = Some tg → (t ≤ tg)%Z) ∧
     s' = (ready ctx s).2 ∧
     match (ready ctx s).1 with
     | None => rs = mkResponse 200 "text/plain" ("ready" +:+ nl)
     | Some err => rs = mkResponse 503 "text/plain" ("not ready: " +:+ Error err +:+ nl)
     end) ∧
  (rq_path rq = "/healthz" → rq_method rq ∈ ["GET"; "HEAD"] → rs = mkResponse 200 "text/plain" ("ok" +:+ nl) ∧ s' = s) ∧
  (rq_method rq ∉ ["GET"; "HEAD"] → (400 ≤ rs_code rs < 500)%Z ∧ s' = s).
Proof.
  cbn zeta. destruct (serve _ rq s) as [rs s'] eqn:E. unfold serve in E.
  cbn [NewManagementServer ms_base ms_ready ms_metrics] in E. split; [|split].
  - intros Hp Hm. rewrite Hp in E. rewrite (bool_decide_eq_true_2 (_ ∈ ["GET"; "HEAD"])) in E by done. cbn in E.
    unfold readyz in E. set (rctx := request_context base (rq_gone rq)) in *.
    set (ctx := WithTimeout rctx readyTimeout s) in *.
    destruct (WithTimeout_done rctx readyTimeout s) as (t & e & Hd & Ht).
    exists ctx, t, e. split; [exact Hd|]. split; [exact Ht|]. split; [|split].
    + intros tb eb Hb. destruct (request_context_done base (rq_gone rq) tb eb Hb) as (t1 & e1 & H1 & Hle).
      destruct (WithTimeout_parent rctx readyTimeout s t1 e1 H1) as (t2 & e2 & H2 & Hle2).
      fold ctx in H2, Hd. rewrite Hd in H2. injection H2 as -> ->. lia.
    + intros tg Hg. assert (∃ t1 e1, ctx_done rctx = Some (t1, e1) ∧ (t1 ≤ tg)%Z) as (t1 & e1 & H1 & Hle).
      { unfold rctx, request_context. rewrite Hg. cbn. destruct (ctx_done base) as [[tb eb]|]; [|by eexists _, _].
        destruct (Z.leb_spec tb tg); eexists _, _; split; done || lia. }
      destruct (WithTimeout_parent rctx readyTimeout s t1 e1 H1) as (t2 & e2 & H2 & Hle2).
      fold ctx in H2, Hd. rewrite Hd in H2. injection H2 as -> ->. lia.
    + destruct (ready ctx s) as [[err|] s1]; injection E as <- <-; by split.
  - intros Hp Hm. rewrite Hp in E. rewrite (bool_decide_eq_true_2 (_ ∈ ["GET"; "HEAD"])) in E by done. cbn in E.
    by injection E as <- <-.
  - intros Hm. rewrite (bool_decide_eq_false_2 (_ ∈ ["GET"; "HEAD"])) in E by done.
    case_bool_decide; injection E as <- <-; by split.
Qed.

End management.
Arguments ManagementServer : clear implicits.
Arguments ReadinessCheck : clear implicits.

(** ** Examples *)

Section examples.
#[local] Existing Instance ref_Clock.

(** A writer that keeps the lines. *)
#[local] Instance ex_writer : LogWriter (list Line) := {| write_line := λ l w, (None, w ++ [l]) |}.

Example ex_line :
  let logger := foldl (derive (W := list Line)) (NewLogger (W := list Line) "relay" LevelInfo)
                  [DWith [mkAttr "a" "1"]; DWithGroup "g"] in
  logger_Log (WithID Background "req_1") LevelInfo "hello" [mkAttr "b" "2"] logger [] =
    [mkLine 0 "hello" [([], mkAttr "service" "relay"); ([], mkAttr "a" "1"); (["g"], mkAttr "b" "2");
                       (["g"], mkAttr "correlation_id" "req_1")]].
Proof. vm_compute. reflexivity. Qed.

Definition ex_check (ctx : Context) (w : Z) : option goerr * Z := (Some (EOther "database unavailable"), (w + 1)%Z).

Example ex_readyz :
  (serve (NewManagementServer Background ":8080" ex_check (λ w, (healthz, w))) (mkRequest "GET" "/readyz" None) 0%Z).1 =
    mkResponse 503 "text/plain" ("not ready: database unavailable" +:+ nl).
Proof. vm_compute. reflexivity. Qed.

End examples.
