(* ===== verification/Events.v ===== *)
(** * internal/events

    The shipment.created.v1 payload: building it, encoding it with
    [json.Marshal], and decoding it through the all-pointers [wireEvent] with
    the checks of [Decode] in their order.  An encoded event decodes to itself,
    also after Postgres has normalised its text as jsonb; every payload either
    decodes to a valid event or is classified as malformed or unsupported. *)
From S2P Require Import Prelude GoErrors GoStrconv GoUtf8 Json JsonFacts GoTime Domain Jsonb.

Definition Topic : string := "shipment.created.v1".
Definition TypeShipmentCreated : string := "shipment.created".
Definition SchemaVersion : Z := 1.

Definition HeaderCorrelationID : string := "correlation_id".
Definition HeaderEventType : string := "event_type".
Definition HeaderSchemaVersion : string := "schema_version".

Definition ErrMalformed : goerr := ESentinel "events.ErrMalformed" "malformed event".
Definition ErrUnsupported : goerr := ESentinel "events.ErrUnsupported" "unsupported event".

Record ShipmentCreatedData := mkData {
  ed_WeightGrams : Z;
  ed_AmountCents : Z;
  ed_Currency : string
}.

Record ShipmentCreated := mkEvent {
  e_EventID : string;
  e_EventType : string;
  e_SchemaVersion : Z;
  e_ShipmentID : string;
  e_OccurredAt : Time;
  e_CorrelationID : string;
  e_Data : ShipmentCreatedData
}.

#[export] Instance ShipmentCreatedData_eq_dec : EqDecision ShipmentCreatedData.
Proof. solve_decision. Defined.
#[export] Instance ShipmentCreated_eq_dec : EqDecision ShipmentCreated.
Proof. solve_decision. Defined.

(** [rnd] is the randomness of the new event's identifier. *)
Definition NewShipmentCreated (rnd : string) (s : Shipment) (correlationID : string) : ShipmentCreated :=
  {| e_EventID := NewEventID rnd;
     e_EventType := TypeShipmentCreated;
     e_SchemaVersion := SchemaVersion;
     e_ShipmentID := s_ID s;
     e_OccurredAt := UTC (s_CreatedAt s);
     e_CorrelationID := correlationID;
     e_Data := {| ed_WeightGrams := s_WeightGrams s;
                  ed_AmountCents := AmountCents (s_Price s);
                  ed_Currency := Currency (s_Price s) |} |}.

(** ** Encoding *)

Definition jstring (s : string) : json := JStr (escape s).
Definition jint (z : Z) : json := JNum (Itoa z).

Definition data_json (d : ShipmentCreatedData) : json :=
  JObj [("weight_grams", jint (ed_WeightGrams d));
        ("amount_cents", jint (ed_AmountCents d));
        ("currency", jstring (ed_Currency d))].

(** The fields in the order of the struct; the only one that can fail is the
    time. *)
Definition event_json (e : ShipmentCreated) : res json :=
  at_ ← format_rfc3339 (e_OccurredAt e);
  Ok (JObj [("event_id", jstring (e_EventID e));
            ("event_type", jstring (e_EventType e));
            ("schema_version", jint (e_SchemaVersion e));
            ("shipment_id", jstring (e_ShipmentID e));
            ("occurred_at", JStr at_);
            ("correlation_id", jstring (e_CorrelationID e));
            ("data", data_json (e_Data e))]).

Definition Encode (e : ShipmentCreated) : res string := json_print <$> event_json e.

(** ** Decoding *)

Record wireData := mkWireData {
  wd_WeightGrams : option Z;
  wd_AmountCents : option Z;
  wd_Currency : option string
}.

Record wireEvent := mkWire {
  w_EventID : option string;
  w_EventType : option string;
  w_SchemaVersion : option Z;
  w_ShipmentID : option string;
  w_OccurredAt : option Time;
  w_CorrelationID : option string;
  w_Data : option wireData
}.

Definition zero_wireData : wireData := mkWireData None None None.
Definition zero_wireEvent : wireEvent := mkWire None None None None None None None.

(** [time.Time]'s [UnmarshalJSON] sees the raw literal. *)
Definition dec_time (v : json) : option (option Time) :=
  match v with
  | JNull => Some None
  | JStr raw => Some <$> parse_rfc3339 raw
  | _ => None
  end.

(** One member of the inner object, stored in the field its key names. *)
Definition wireData_step (w : wireData) (k : string) (v : json) : option wireData :=
  let 'mkWireData wg ac cu := w in
  if names k "weight_grams" then (λ x, mkWireData x ac cu) <$> dec_int 32 v
  else if names k "amount_cents" then (λ x, mkWireData wg x cu) <$> dec_int 64 v
  else if names k "currency" then (λ x, mkWireData wg ac x) <$> dec_string v
  else Some w.

(** A second [data] member decodes into the struct the first one allocated. *)
Definition dec_data (cur : option wireData) (v : json) : option (option wireData) :=
  match v with
  | JNull => Some None
  | JObj ms => Some <$> dec_members wireData_step (default zero_wireData cur) ms
  | _ => None
  end.

Definition wireEvent_step (w : wireEvent) (k : string) (v : json) : option wireEvent :=
  let 'mkWire ei et sv si oa ci da := w in
  if names k "event_id" then (λ x, mkWire x et sv si oa ci da) <$> dec_string v
  else if names k "event_type" then (λ x, mkWire ei x sv si oa ci da) <$> dec_string v
  else if names k "schema_version" then (λ x, mkWire ei et x si oa ci da) <$> dec_int 64 v
  else if names k "shipment_id" then (λ x, mkWire ei et sv x oa ci da) <$> dec_string v
  else if names k "occurred_at" then (λ x, mkWire ei et sv si x ci da) <$> dec_time v
  else if names k "correlation_id" then (λ x, mkWire ei et sv si oa x da) <$> dec_string v
  else if names k "data" then (λ x, mkWire ei et sv si oa ci x) <$> dec_data da v
  else Some w.

(** [json.Unmarshal(payload, &w)]; a top-level [null] leaves [w] as it was. *)
Definition Unmarshal_wire (payload : string) : option wireEvent :=
  v ← json_parse payload;
  match v with
  | JNull => Some zero_wireEvent
  | JObj ms => dec_members wireEvent_step zero_wireEvent ms
  | _ => None
  end.

Definition missing (field : string) : goerr :=
  EWrap (Error ErrMalformed +:+ ": missing " +:+ field) [ErrMalformed].

(** [fmt.Errorf("%w<text>", err)] with nothing else wrapped. *)
Definition unsupported (text : string) : goerr :=
  EWrap (Error ErrUnsupported +:+ text) [ErrUnsupported].

(** The message of [fmt.Errorf("%w: <part>%w", ErrMalformed, err)]. *)
Definition malformed (part : string) (err : goerr) : goerr :=
  EWrap (Error ErrMalformed +:+ ": " +:+ part +:+ Error err) [ErrMalformed; err].

(** A pointer field that has to be set. *)
Definition require {A} (field : string) (p : option A) : res A :=
  match p with Some a => Ok a | None => Err (missing field) end.

(** A pointer to a string that has to be set and not empty. *)
Definition require_id (field : string) (p : option string) : res string :=
  match p with
  | Some s => if bool_decide (s = "") then Err (missing field) else Ok s
  | None => Err (missing field)
  end.

(** [Decode] after [json.Unmarshal]. *)
Definition Decode_wire (w : wireEvent) : res ShipmentCreated :=
  eventType ← require "event_type" (w_EventType w);
  _ ← (if bool_decide (eventType = TypeShipmentCreated) then Ok ()
       else Err (unsupported (": event_type " +:+ Quote eventType)));
  schemaVersion ← require "schema_version" (w_SchemaVersion w);
  _ ← (if bool_decide (schemaVersion = SchemaVersion) then Ok ()
       else Err (unsupported (": schema_version " +:+ Itoa schemaVersion)));
  eventID ← require_id "event_id" (w_EventID w);
  shipmentID ← require_id "shipment_id" (w_ShipmentID w);
  occurredAt ← require "occurred_at" (w_OccurredAt w);
  correlationID ← require "correlation_id" (w_CorrelationID w);
  data ← require "data" (w_Data w);
  weight ← require "data.weight_grams" (wd_WeightGrams data);
  amount ← require "data.amount_cents" (wd_AmountCents data);
  currency ← require "data.currency" (wd_Currency data);
  _ ← map_err (malformed "data.weight_grams: ") (check (ValidateWeight weight));
  let money := mkMoney amount currency in
  _ ← map_err (malformed "data: ") (check (ValidateMoney money));
  Ok {| e_EventID := eventID;
        e_EventType := eventType;
        e_SchemaVersion := schemaVersion;
        e_ShipmentID := shipmentID;
        e_OccurredAt := occurredAt;
        e_CorrelationID := correlationID;
        e_Data := {| ed_WeightGrams := weight;
                     ed_AmountCents := AmountCents money;
                     ed_Currency := Currency money |} |}.

Definition Decode (payload : string) : res ShipmentCreated :=
  match Unmarshal_wire payload with
  | None => Err (malformed "" (EOther "json: cannot unmarshal"))
  | Some w => Decode_wire w
  end.

(** ** What is a valid event *)

Definition event_valid (e : ShipmentCreated) : Prop :=
  e_EventType e = TypeShipmentCreated ∧ e_SchemaVersion e = SchemaVersion ∧
  e_EventID e ≠ "" ∧ e_ShipmentID e ≠ "" ∧
  valid_weight (ed_WeightGrams (e_Data e)) ∧
  valid_money (mkMoney (ed_AmountCents (e_Data e)) (ed_Currency (e_Data e))).

(** What [json.Marshal] can represent without loss: UTF-8 strings, a 64-bit
    amount and a UTC time of a four-digit year. *)
Definition event_encodable (e : ShipmentCreated) : Prop :=
  utf8_valid (e_EventID e) = true ∧ utf8_valid (e_ShipmentID e) = true ∧
  utf8_valid (e_CorrelationID e) = true ∧ int64_ok (ed_AmountCents (e_Data e)) = true ∧
  utc_ok (e_OccurredAt e) = true.

(** ** Lemmas *)

Ltac names_conflict :=
  match goal with
  | H1 : names ?k _ = true, H2 : names ?k _ = true |- _ =>
      exfalso; rewrite names_fold in H1, H2;
      apply bool_decide_eq_true in H1, H2; rewrite H1 in H2; discriminate H2
  | H1 : names ?k ?f = true, H2 : names ?k' ?f = true, H : _ ≠ _ |- _ =>
      exfalso; apply H; rewrite names_fold in H1, H2;
      apply bool_decide_eq_true in H1, H2; unfold fold_key in *; simpl in *; congruence
  end.

Ltac commute_tests E1 E2 :=
  cbn [mbind option_bind]; rewrite ?E1, ?E2;
  repeat (match goal with |- context [fmap _ ?d] => destruct d eqn:? end;
          cbn [mbind option_bind fmap option_fmap option_map]; rewrite ?E1, ?E2);
  congruence.

Ltac names_cases k :=
  repeat (match goal with |- (names k ?f = true ∧ _) ∨ _ => destruct (names k f) end;
          [left; split; reflexivity|right]).

(** A key names at most one field, and its step sets that field only. *)
Lemma wireData_step_cases k :
  (names k "weight_grams" = true ∧ ∀ wg ac cu v, wireData_step (mkWireData wg ac cu) k v =
     (λ x, mkWireData x ac cu) <$> dec_int 32 v) ∨
  (names k "amount_cents" = true ∧ ∀ wg ac cu v, wireData_step (mkWireData wg ac cu) k v =
     (λ x, mkWireData wg x cu) <$> dec_int 64 v) ∨
  (names k "currency" = true ∧ ∀ wg ac cu v, wireData_step (mkWireData wg ac cu) k v =
     (λ x, mkWireData wg ac x) <$> dec_string v) ∨
  (∀ w v, wireData_step w k v = Some w).
Proof.
  unfold wireData_step. names_cases k. by intros [].
Qed.

Lemma wireData_commuting : commuting wireData_step.
Proof.
  intros [wg ac cu] [k1 v1] [k2 v2] Hne. cbn [fst snd].
  destruct (wireData_step_cases k1) as [[N1 E1]|[[N1 E1]|[[N1 E1]|E1]]],
    (wireData_step_cases k2) as [[N2 E2]|[[N2 E2]|[[N2 E2]|E2]]];
    try names_conflict; rewrite ?E1, ?E2;
  commute_tests E1 E2.
Qed.

Lemma wireEvent_step_cases k :
  (names k "event_id" = true ∧ ∀ ei et sv si oa ci da v,
     wireEvent_step (mkWire ei et sv si oa ci da) k v =
     (λ x, mkWire x et sv si oa ci da) <$> dec_string v) ∨
  (names k "event_type" = true ∧ ∀ ei et sv si oa ci da v,
     wireEvent_step (mkWire ei et sv si oa ci da) k v =
     (λ x, mkWire ei x sv si oa ci da) <$> dec_string v) ∨
  (names k "schema_version" = true ∧ ∀ ei et sv si oa ci da v,
     wireEvent_step (mkWire ei et sv si oa ci da) k v =
     (λ x, mkWire ei et x si oa ci da) <$> dec_int 64 v) ∨
  (names k "shipment_id" = true ∧ ∀ ei et sv si oa ci da v,
     wireEvent_step (mkWire ei et sv si oa ci da) k v =
     (λ x, mkWire ei et sv x oa ci da) <$> dec_string v) ∨
  (names k "occurred_at" = true ∧ ∀ ei et sv si oa ci da v,
     wireEvent_step (mkWire ei et sv si oa ci da) k v =
     (λ x, mkWire ei et sv si x ci da) <$> dec_time v) ∨
  (names k "correlation_id" = true ∧ ∀ ei et sv si oa ci da v,
     wireEvent_step (mkWire ei et sv si oa ci da) k v =
     (λ x, mkWire ei et sv si oa x da) <$> dec_string v) ∨
  (names k "data" = true ∧ ∀ ei et sv si oa ci da v,
     wireEvent_step (mkWire ei et sv si oa ci da) k v =
     (λ x, mkWire ei et sv si oa ci x) <$> dec_data da v) ∨
  (∀ w v, wireEvent_step w k v = Some w).
Proof.
  unfold wireEvent_step. names_cases k. by intros [].
Qed.

Lemma wireEvent_commuting : commuting wireEvent_step.
Proof.
  intros [ei et sv si oa ci da] [k1 v1] [k2 v2] Hne. cbn [fst snd].
  destruct (wireEvent_step_cases k1)
    as [[N1 E1]|[[N1 E1]|[[N1 E1]|[[N1 E1]|[[N1 E1]|[[N1 E1]|[[N1 E1]|E1]]]]]]],
    (wireEvent_step_cases k2)
    as [[N2 E2]|[[N2 E2]|[[N2 E2]|[[N2 E2]|[[N2 E2]|[[N2 E2]|[[N2 E2]|E2]]]]]]];
    try names_conflict; rewrite ?E1, ?E2;
  commute_tests E1 E2.
Qed.

(** Stored strings and integers decode to what was written. *)
Lemma dec_string_same s v :
  utf8_valid s = true → json_same (jstring s) v → dec_string v = Some (Some s).
Proof.
  intros Hs H. inversion H as [| | |r r' Hu _| |]; subst. simpl.
  by rewrite Hu, unquote_escape.
Qed.

Lemma dec_int_same w z v :
  in_range w z = true → int64_ok z = true → json_same (jint z) v → dec_int w v = Some (Some z).
Proof.
  intros Hz Hz' H. inversion H as [| |l l' Hl| | |]; subst. rewrite (Hl z eq_refl). simpl.
  by rewrite ParseInt_Itoa, Hz.
Qed.

Lemma dec_time_same t s v :
  utc_ok t = true → format_rfc3339 t = Ok s → json_same (JStr s) v → dec_time v = Some (Some t).
Proof.
  intros Ht Hs H. inversion H as [| | |r r' _ Hp| |]; subst.
  destruct (parse_format_rfc3339 t Ht) as (s' & Hs' & Hps).
  rewrite Hs in Hs'. injection Hs' as <-.
  rewrite Hp by eauto with parcel. cbn [dec_time]. by rewrite Hps.
Qed.

(** A member whose key is (an escape of) a field name. *)
Lemma names_same k k' f : unquote k' = unquote k → names k' f = names k f.
Proof. unfold names. by intros ->. Qed.

(** Evaluates the decoding of members that are the same as written ones. *)
Ltac decode_members :=
  repeat match goal with
  | H : Forall2 _ (_ :: _) _ |- _ =>
      inversion H as [|? [? ?] ? ? [? ?] ?]; clear H; subst; cbn [fst snd] in *
  | H : Forall2 _ [] _ |- _ => inversion H; clear H; subst
  end;
  repeat match goal with
  | |- context [dec_members _ _ (_ :: _)] => rewrite dec_members_cons; cbn [fst snd]
  | |- context [wireData_step (mkWireData ?a ?b ?c) ?k ?v] =>
      let t := eval cbv beta iota delta [wireData_step] in (wireData_step (mkWireData a b c) k v) in
      change (wireData_step (mkWireData a b c) k v) with t
  | |- context [wireEvent_step (mkWire ?a ?b ?c ?d ?e ?f ?g) ?k ?v] =>
      let t := eval cbv beta iota delta [wireEvent_step] in (wireEvent_step (mkWire a b c d e f g) k v) in
      change (wireEvent_step (mkWire a b c d e f g) k v) with t
  | H : unquote ?k' = unquote ?k |- context [names ?k' ?f] =>
      rewrite (names_same k k' f H);
      let b := eval vm_compute in (names k f) in change (names k f) with b; cbv match
  | H : json_same (jint ?z) ?v |- context [dec_int ?w ?v] =>
      rewrite (dec_int_same w z v) by first [eassumption | done]
  | H : json_same (jstring ?s) ?v |- context [dec_string ?v] =>
      rewrite (dec_string_same s v) by first [eassumption | done]
  | |- _ => progress cbn [fmap option_fmap option_map mbind option_bind]
  end.

Lemma data_same_dec d v cur :
  in_range 32 (ed_WeightGrams d) = true → int64_ok (ed_AmountCents d) = true →
  utf8_valid (ed_Currency d) = true → json_same (data_json d) v →
  dec_data cur v =
    Some (Some (mkWireData (Some (ed_WeightGrams d)) (Some (ed_AmountCents d)) (Some (ed_Currency d)))).
Proof.
  intros Hw Ha Hc H.
  apply (same_obj_dec wireData_step _ _ (default zero_wireData cur)) in H
    as (ms' & ms'' & -> & Hf & E);
    [|apply wireData_commuting|apply (bool_decide_unpack _); by vm_compute].
  cbn [dec_data]. rewrite E.
  assert (int64_ok (ed_WeightGrams d) = true) by (apply int64_ok_iff; apply int32_ok_iff in Hw; lia).
  destruct (default zero_wireData cur) as [wg ac cu]. decode_members. done.
Qed.

(** The tree of an encoded event. *)
Definition event_tree (e : ShipmentCreated) (at_ : string) : json :=
  JObj [("event_id", jstring (e_EventID e));
        ("event_type", jstring (e_EventType e));
        ("schema_version", jint (e_SchemaVersion e));
        ("shipment_id", jstring (e_ShipmentID e));
        ("occurred_at", JStr at_);
        ("correlation_id", jstring (e_CorrelationID e));
        ("data", data_json (e_Data e))].

Lemma Encode_tree e s :
  Encode e = Ok s → ∃ at_, format_rfc3339 (e_OccurredAt e) = Ok at_ ∧ s = json_print (event_tree e at_).
Proof.
  unfold Encode, event_json. destruct (format_rfc3339 _) as [at_|] eqn:E; [|done].
  intros H%(inj Ok). by exists at_.
Qed.

Lemma wf_plain s : str_forall plain s = true → wf_raw s.
Proof.
  intros Hs r. induction s as [|c s IH]; [done|]. simpl in Hs.
  apply andb_true_iff in Hs as [Hc Hs]. unfold plain in Hc.
  rewrite !andb_true_iff, !negb_true_iff in Hc. destruct Hc as [[[H1 _] H2] H3].
  rewrite str_app_cons. cbn [scan_str].
  change (Ascii.eqb c quote = false) in H2. change (Ascii.eqb c backslash = false) in H3.
  rewrite H2, H3.
  rewrite (proj2 (Z.ltb_ge _ _)) by (apply Z.leb_le; done). by rewrite IH.
Qed.

Lemma event_tree_wf e at_ :
  event_valid e → event_encodable e → format_rfc3339 (e_OccurredAt e) = Ok at_ →
  json_wf (event_tree e at_).
Proof.
  intros (Ht & _ & _ & _ & _ & _ & Hc%isCurrencyCode_spec) (H1 & H2 & H3 & _) Hat.
  apply currency_ascii in Hc as [Hc%ascii_valid _]. simpl in Hc.
  pose proof wf_lit_Itoa. pose proof wf_raw_escape.
  assert (utf8_valid (e_EventType e) = true) by (rewrite Ht; done).
  assert (∀ s, bool_decide (str_forall plain s = true) = true → wf_raw s).
  { intros s Hs%bool_decide_eq_true. by apply wf_plain. }
  simpl. split_and!; eauto using wf_plain, format_plain.
Qed.

Lemma Encode_ok e : event_encodable e → ∃ s, Encode e = Ok s.
Proof.
  intros (_ & _ & _ & _ & Ht). destruct (parse_format_rfc3339 _ Ht) as (at_ & Hat & _).
  unfold Encode, event_json. rewrite Hat. by eexists.
Qed.

(** A tree that is the same as an encoded event decodes to the event. *)
Lemma event_same_dec e at_ v :
  event_valid e → event_encodable e → format_rfc3339 (e_OccurredAt e) = Ok at_ →
  json_same (event_tree e at_) v →
  ∃ ms, v = JObj ms ∧ Decode_wire <$> dec_members wireEvent_step zero_wireEvent ms = Some (Ok e).
Proof.
  intros (Ht & Hv & Hei & Hsi & Hw & Hm) (H1 & H2 & H3 & H4 & H5) Hat H.
  apply (same_obj_dec wireEvent_step _ _ zero_wireEvent) in H as (ms' & ms'' & -> & Hf & E);
    [|apply wireEvent_commuting|apply (bool_decide_unpack _); by vm_compute].
  exists ms'. split; [done|]. rewrite E.
  pose proof Hm as [_ Hc%isCurrencyCode_spec]. apply currency_ascii in Hc as [Hc%ascii_valid _].
  assert (utf8_valid (e_EventType e) = true) by (rewrite Ht; done).
  assert (int64_ok (e_SchemaVersion e) = true) by (rewrite Hv; done).
  assert (in_range 32 (ed_WeightGrams (e_Data e)) = true).
  { apply int32_ok_iff. destruct Hw. lia. }
  unfold zero_wireEvent. decode_members.
  erewrite dec_time_same by eassumption. decode_members.
  erewrite data_same_dec by (simpl in *; eassumption). cbn. f_equal.
  destruct e as [ei et sv si oa ci [wg ac cu]]. simpl in *. subst et sv. unfold Decode_wire. cbn.
  apply ValidateWeight_nil in Hw. apply ValidateMoney_nil in Hm.
  rewrite !bool_decide_eq_false_2 by done. cbn. rewrite Hw. cbn. rewrite Hm. done.
Qed.

Lemma event_tree_nodup e at_ : json_nodup (event_tree e at_).
Proof.
  split; [apply (bool_decide_unpack _); by vm_compute|].
  do 6 (split; [exact I|]). split; [|exact I].
  split; [apply (bool_decide_unpack _); by vm_compute|].
  do 3 (split; [exact I|]). exact I.
Qed.

(** What a consumer decodes from the payload column of an event that was stored
    in it. *)
Lemma decode_stored `{!Jsonb} e s s' :
  event_valid e → event_encodable e → Encode e = Ok s → jsonb_text s = Some s' →
  Decode s' = Ok e.
Proof.
  intros Hv He (at_ & Hat & ->)%Encode_tree Hs.
  destruct (jsonb_text_same _ _ (event_tree e at_) Hs) as (v' & Hp & Hsame).
  - apply json_parse_print; [by apply event_tree_wf|done].
  - apply event_tree_nodup.
  - destruct (event_same_dec _ _ _ Hv He Hat Hsame) as (ms & -> & Hd).
    unfold Decode, Unmarshal_wire. rewrite Hp. cbn.
    destruct (dec_members _ _ _) as [w|]; simplify_eq/=; done.
Qed.

(** ** Ranges of decoded numbers *)

Definition opt_range (w : Z) (o : option Z) : Prop := ∀ z, o = Some z → in_range w z = true.
Definition wireData_ok (d : wireData) : Prop :=
  opt_range 32 (wd_WeightGrams d) ∧ opt_range 64 (wd_AmountCents d).
Definition wireEvent_ok (w : wireEvent) : Prop :=
  opt_range 64 (w_SchemaVersion w) ∧ ∀ d, w_Data w = Some d → wireData_ok d.

Lemma dec_int_range w v o : dec_int w v = Some o → opt_range w o.
Proof.
  intros H z ->. destruct v; simpl in H; try done.
  destruct (ParseInt lit); [|done]. destruct (in_range w a) eqn:E; by simplify_eq.
Qed.

(** An invariant of the target struct that every member keeps. *)
Lemma dec_members_inv {A} (P : A → Prop) step a ms b :
  (∀ a k v a', P a → step a k v = Some a' → P a') →
  P a → dec_members step a ms = Some b → P b.
Proof.
  intros Hs. revert a. induction ms as [|m ms IH]; intros a Ha.
  - intros H. injection H as <-. done.
  - rewrite dec_members_cons. destruct (step a m.1 m.2) eqn:E; [|done]. eauto.
Qed.

Lemma wireData_step_ok d k v d' : wireData_ok d → wireData_step d k v = Some d' → wireData_ok d'.
Proof.
  intros [H1 H2] H. destruct d as [wg ac cu].
  destruct (wireData_step_cases k) as [[_ E]|[[_ E]|[[_ E]|E]]]; rewrite E in H;
    try (apply fmap_Some in H as (x & Hx & ->)); simplify_eq/=; split; simpl in *;
    eauto using dec_int_range.
Qed.

Lemma wireEvent_step_ok w k v w' : wireEvent_ok w → wireEvent_step w k v = Some w' → wireEvent_ok w'.
Proof.
  intros [H1 H2] H. destruct w as [ei et sv si oa ci da].
  destruct (wireEvent_step_cases k)
    as [[_ E]|[[_ E]|[[_ E]|[[_ E]|[[_ E]|[[_ E]|[[_ E]|E]]]]]]]; rewrite E in H;
    try (apply fmap_Some in H as (x & Hx & ->)); simplify_eq/=; split; simpl in *;
    eauto using dec_int_range.
  intros d ->. unfold dec_data in Hx. destruct v; try done.
  destruct (dec_members _ _ _) eqn:Ed; simplify_eq/=.
  eapply (dec_members_inv wireData_ok) in Ed; [done|apply wireData_step_ok|].
  destruct da; simpl; [eauto|done].
Qed.

Lemma Unmarshal_wire_ok p w : Unmarshal_wire p = Some w → wireEvent_ok w.
Proof.
  unfold Unmarshal_wire. intros (v & _ & H)%bind_Some.
  destruct v; try done; [by simplify_eq|].
  by eapply (dec_members_inv wireEvent_ok) in H; [|apply wireEvent_step_ok|].
Qed.

(** ** The checks of [Decode] *)

(** A payload of another type or version, whatever its other fields hold. *)
Definition wire_unsupported (w : wireEvent) : Prop :=
  (∃ t, w_EventType w = Some t ∧ t ≠ TypeShipmentCreated) ∨
  (w_EventType w = Some TypeShipmentCreated ∧
   ∃ v, w_SchemaVersion w = Some v ∧ v ≠ SchemaVersion).

Lemma Is_malformed_missing f :
  Is (missing f) ErrMalformed = true ∧ Is (missing f) ErrUnsupported = false.
Proof. done. Qed.

Lemma Is_malformed_wrap part e :
  Is e ErrUnsupported = false →
  Is (malformed part e) ErrMalformed = true ∧ Is (malformed part e) ErrUnsupported = false.
Proof.
  intros H. split; [done|].
  change (Is ErrMalformed ErrUnsupported || (Is e ErrUnsupported || false) = false).
  by rewrite H.
Qed.

Definition is_malformed (e : goerr) : Prop := Is e ErrMalformed = true ∧ Is e ErrUnsupported = false.
Definition is_unsupported (e : goerr) : Prop := Is e ErrMalformed = false ∧ Is e ErrUnsupported = true.

Lemma require_cases {A} f (p : option A) :
  (∃ a, p = Some a ∧ require f p = Ok a) ∨ (∃ e, require f p = Err e ∧ is_malformed e).
Proof. destruct p; [left; by eexists|right; by eexists]. Qed.

Lemma require_id_cases f p :
  (∃ a, p = Some a ∧ a ≠ "" ∧ require_id f p = Ok a) ∨ (∃ e, require_id f p = Err e ∧ is_malformed e).
Proof.
  destruct p as [s|]; simpl; [|right; by eexists].
  destruct (bool_decide_reflect (s = "")); [right; by eexists|left; by eexists].
Qed.

Lemma Decode_wire_spec w :
  match Decode_wire w with
  | Ok e => event_valid e ∧ ¬ wire_unsupported w ∧
      (wireEvent_ok w → int64_ok (ed_AmountCents (e_Data e)) = true)
  | Err e => (wire_unsupported w ∧ is_unsupported e) ∨ (¬ wire_unsupported w ∧ is_malformed e)
  end.
Proof.
  unfold Decode_wire, wire_unsupported.
  destruct (w_EventType w) as [t|]; cbn;
    [|right; split; [intros [(? & ? & _)|[? _]]|]; done].
  destruct (bool_decide_reflect (t = TypeShipmentCreated)) as [->|Hne]; cbn;
    [|left; split; [left; eauto|done]].
  destruct (w_SchemaVersion w) as [v|]; cbn;
    [|right; split; [intros [(? & [= <-] & ?)|[_ (? & ? & _)]]|]; done].
  destruct (bool_decide_reflect (v = SchemaVersion)) as [->|Hne]; cbn;
    [|left; split; [right; eauto|done]].
  assert (∀ P Q : Prop, Q → P ∨ Q) as Hr by tauto.
  assert (¬ ((∃ t, Some TypeShipmentCreated = Some t ∧ t ≠ TypeShipmentCreated) ∨
    Some TypeShipmentCreated = Some TypeShipmentCreated ∧
    (∃ v, Some SchemaVersion = Some v ∧ v ≠ SchemaVersion))) as Hns.
  { intros [(? & [= <-] & ?)|[_ (? & [= <-] & ?)]]; done. }
  destruct (require_id_cases "event_id" (w_EventID w)) as [(ei & Eei & Hei & ->)|(? & -> & ?)];
    cbn; [|by apply Hr].
  destruct (require_id_cases "shipment_id" (w_ShipmentID w)) as [(si & Esi & Hsi & ->)|(? & -> & ?)];
    cbn; [|by apply Hr].
  destruct (require_cases "occurred_at" (w_OccurredAt w)) as [(oa & _ & ->)|(? & -> & ?)];
    cbn; [|by apply Hr].
  destruct (require_cases "correlation_id" (w_CorrelationID w)) as [(ci & _ & ->)|(? & -> & ?)];
    cbn; [|by apply Hr].
  destruct (require_cases "data" (w_Data w)) as [(da & Eda & ->)|(? & -> & ?)];
    cbn; [|by apply Hr].
  destruct (require_cases "data.weight_grams" (wd_WeightGrams da)) as [(wg & _ & ->)|(? & -> & ?)];
    cbn; [|by apply Hr].
  destruct (require_cases "data.amount_cents" (wd_AmountCents da)) as [(ac & Eac & ->)|(? & -> & ?)];
    cbn; [|by apply Hr].
  destruct (require_cases "data.currency" (wd_Currency da)) as [(cu & _ & ->)|(? & -> & ?)];
    cbn; [|by apply Hr].
  destruct (ValidateWeight_spec wg) as [[Hw ->]|(_ & e & Ew & _)]; cbn.
  2:{ rewrite Ew. cbn. apply Hr. split; [done|]. apply Is_malformed_wrap.
      unfold ValidateWeight in Ew. case_match; by simplify_eq. }
  destruct (ValidateMoney_spec (mkMoney ac cu)) as [[Hm ->]|(_ & e & Em & _)]; cbn.
  2:{ rewrite Em. cbn. apply Hr. split; [done|]. apply Is_malformed_wrap.
      unfold ValidateMoney in Em. repeat case_match; by simplify_eq. }
  split; [done|]. split; [done|]. intros [_ Hd]. by apply (Hd da).
Qed.

(** ** Properties *)

(** C15: an event the service builds is decoded by the consumer to exactly the
    same event, whatever text the jsonb column gives back for it: encoding, the
    database's reordering of members and re-escaping of strings, and decoding
    with its validation compose to the identity. *)
Theorem Decode_stored_event `{!Jsonb} rnd s correlationID payload stored :
  s_ID s ≠ "" → utf8_valid (s_ID s) = true → utf8_valid correlationID = true →
  valid_weight (s_WeightGrams s) → valid_money (s_Price s) →
  int64_ok (AmountCents (s_Price s)) = true → utc_ok (UTC (s_CreatedAt s)) = true →
  Encode (NewShipmentCreated rnd s correlationID) = Ok payload →
  jsonb_text payload = Some stored →
  Decode stored = Ok (NewShipmentCreated rnd s correlationID).
Proof.
  intros Hid Hv Hc Hw Hm Ha Ht He Hs. eapply decode_stored; [| |done|done].
  - do 2 (split; [done|]). split; [apply newID_nonempty|]. do 2 (split; [done|]).
    revert Hm. cbn. by destruct (s_Price s).
  - split; [by apply newID_valid|]. do 3 (split; [done|]). done.
Qed.

Lemma Decode_stored_event_witness :
  ∃ payload, Decode payload = Ok (NewShipmentCreated "12345678"
    (mkShipment "shp_1" 1500 (mkMoney 700 "EUR") (mkTime 1700000000 123456000 3600)) "req_1").
Proof.
  eexists. eapply (@Decode_stored_event text_Jsonb "12345678"
    (mkShipment "shp_1" 1500 (mkMoney 700 "EUR") (mkTime 1700000000 123456000 3600)) "req_1");
    [discriminate | reflexivity | reflexivity | split; discriminate | | reflexivity
    | vm_compute; reflexivity | vm_compute; reflexivity | vm_compute; reflexivity].
  split; [discriminate|]. exists "E"%char, "U"%char, "R"%char.
  vm_compute. intuition discriminate.
Defined.


(** A payload of a future version whose weight has become a string, and one
    whose weight is missing. *)
Definition future_payload (data : string) : string :=
  json_print (JObj [("event_type", jstring TypeShipmentCreated); ("schema_version", jint 2);
                    ("data", JObj [("weight_grams", JStr data)])]).

(** A future schema that changes the type of a field is reported as
    malformed, not as unsupported: the whole payload is unmarshalled into the v1
    types before the version is looked at. *)
Theorem future_type_change_malformed :
  ∃ e, Decode (future_payload "1500") = Err e ∧ is_malformed e.
Proof. eexists. split; [vm_compute; reflexivity|by vm_compute]. Qed.
