(* ===== verification/Database.v ===== *)
(** * The PostgreSQL schema

    db/migrations/0001_init.sql as four finite maps with the constraints of its
    tables, and the SQL statements of internal/storage as functions on them.  A
    statement gets the transaction's [now()]; it fails with the SQLSTATE of the
    constraint it would violate and then changes nothing.

    Column types: [TEXT] is valid UTF-8 without NUL, [INTEGER] and [BIGINT] are
    checked, [CHAR(3)] pads and rejects what is too long, [TIMESTAMPTZ] keeps
    microseconds and no zone, [JSONB] is the parameter [jsonb_text]. *)
From S2P Require Import Prelude GoErrors GoUtf8 GoTime Domain Jsonb.
From stdpp Require Import sorting.

(** ** Column types *)

Definition pg_err {A} (sqlstate : string) : res A := Err (EPg sqlstate "").

Definition UniqueViolation : string := "23505".
Definition ForeignKeyViolation : string := "23503".
Definition CheckViolation : string := "23514".
Definition NumericOutOfRange : string := "22003".
Definition InvalidEncoding : string := "22021".
Definition StringTooLong : string := "22001".
Definition InvalidText : string := "22P02".
Definition InvalidLimit : string := "2201W".

(** Fails with the SQLSTATE unless the condition holds. *)
Definition must (sqlstate : string) (ok : bool) : res () :=
  if ok then Ok () else pg_err sqlstate.

Definition text_ok (s : string) : bool :=
  utf8_valid s && str_forall (λ c, negb (Ascii.eqb c "000")) s.

Definition pg_text (s : string) : res string := _ ← must InvalidEncoding (text_ok s); Ok s.

(** The characters of a value of a CHAR(3) column. *)
Fixpoint pad_spaces (n : nat) (s : string) : string :=
  match n with
  | O => s
  | S n => pad_spaces n (s +:+ " ")
  end.

Definition all_spaces (l : list rune) : bool :=
  forallb (λ r, match r with R1 c => Ascii.eqb c " " | _ => false end) l.

Definition pg_char3 (s : string) : res string :=
  s ← pg_text s;
  let n := length (runes s) in
  if n <=? 3 then Ok (pad_spaces (3 - n) s)
  else if all_spaces (drop 3 (runes s)) then Ok (runes_bytes (take 3 (runes s)))
  else pg_err StringTooLong.

Definition pg_timestamptz (t : Time) : Time := mkTime (t_sec t) (t_nsec t / 1000 * 1000) 0.

(** ** Tables *)

Record ShipmentRow := mkShipmentRow {
  sr_weight_grams : Z;
  sr_amount_cents : Z;
  sr_currency : string;
  sr_created_at : Time
}.

Record OutboxRow := mkOutboxRow {
  or_shipment_id : string;
  or_event_type : string;
  or_payload : string;
  or_created_at : Time;
  or_published_at : option Time;
  or_attempts : Z;
  or_last_error : option string
}.

Record DispatchRow := mkDispatchRow {
  dr_shipment_id : string;
  dr_event_id : string;
  dr_amount_cents : Z;
  dr_currency : string;
  dr_dispatched_at : Time
}.

(** The tables by their primary keys. *)
Record DB := mkDB {
  shipments : gmap string ShipmentRow;
  outbox_events : gmap string OutboxRow;
  processed_events : gmap string Time;
  dispatches : gmap string DispatchRow
}.

Definition empty_DB : DB := mkDB ∅ ∅ ∅ ∅.

Definition set_shipments f (db : DB) : DB :=
  mkDB (f (shipments db)) (outbox_events db) (processed_events db) (dispatches db).
Definition set_outbox f (db : DB) : DB :=
  mkDB (shipments db) (f (outbox_events db)) (processed_events db) (dispatches db).
Definition set_processed f (db : DB) : DB :=
  mkDB (shipments db) (outbox_events db) (f (processed_events db)) (dispatches db).
Definition set_dispatches f (db : DB) : DB :=
  mkDB (shipments db) (outbox_events db) (processed_events db) (f (dispatches db)).

Definition has_shipment (db : DB) (id : string) : bool := bool_decide (is_Some (shipments db !! id)).

(** The row a unique column of [dispatches] points to. *)
Definition dispatch_of (db : DB) (shipment_id : string) : option (string * DispatchRow) :=
  head (filter (λ p, dr_shipment_id p.2 = shipment_id) (map_to_list (dispatches db))).

(** ** Statements *)

(** A statement that returns a value and the tables after it. *)
Definition Stmt (A : Type) := Time → DB → res (A * DB).

(** The order in which the server happens to read a table, and whether a query that
    fails is reported by [Query] or only when its rows are read. *)
Class PgScan := {
  at_Query : goerr → bool;
  scan : ∀ {A}, gmap string A → list (string * A);
  scan_perm {A} (m : gmap string A) : scan m ≡ₚ map_to_list m
}.

Section statements.
Context {IJ : Jsonb} {IS : PgScan}.

Definition insert_shipment (id : string) (weight amount : Z) (currency : string) (created_at : Time) : Stmt () :=
  λ _ db,
    id ← pg_text id;
    currency ← pg_char3 currency;
    _ ← must CheckViolation ((1 <=? weight) && (weight <=? 30000))%Z;
    _ ← must CheckViolation (0 <=? amount)%Z;
    _ ← must UniqueViolation (negb (has_shipment db id));
    Ok ((), set_shipments <[id := mkShipmentRow weight amount currency (pg_timestamptz created_at)]> db).

Definition insert_outbox (event_id shipment_id event_type payload : string) (created_at : Time) : Stmt () :=
  λ _ db,
    event_id ← pg_text event_id;
    shipment_id ← pg_text shipment_id;
    event_type ← pg_text event_type;
    match jsonb_text payload with
    | None => pg_err InvalidText
    | Some payload =>
        _ ← must UniqueViolation (bool_decide (outbox_events db !! event_id = None));
        _ ← must ForeignKeyViolation (has_shipment db shipment_id);
        Ok ((), set_outbox <[event_id := mkOutboxRow shipment_id event_type payload
                               (pg_timestamptz created_at) None 0 None]> db)
    end.

(** [INSERT ... ON CONFLICT (event_id) DO NOTHING]: the rows affected. *)
Definition insert_processed (event_id : string) : Stmt Z :=
  λ now db,
    event_id ← pg_text event_id;
    match processed_events db !! event_id with
    | Some _ => Ok (0%Z, db)
    | None => Ok (1%Z, set_processed <[event_id := pg_timestamptz now]> db)
    end.

(** [INSERT INTO dispatches ... RETURNING dispatched_at]. *)
Definition insert_dispatch (dispatch_id shipment_id event_id : string) (amount : Z) (currency : string) : Stmt Time :=
  λ now db,
    dispatch_id ← pg_text dispatch_id;
    shipment_id ← pg_text shipment_id;
    event_id ← pg_text event_id;
    currency ← pg_char3 currency;
    _ ← must CheckViolation (0 <=? amount)%Z;
    _ ← must UniqueViolation (bool_decide (dispatches db !! dispatch_id = None));
    _ ← must UniqueViolation (bool_decide (dispatch_of db shipment_id = None));
    _ ← must ForeignKeyViolation (has_shipment db shipment_id);
    _ ← must ForeignKeyViolation (bool_decide (is_Some (processed_events db !! event_id)));
    Ok (pg_timestamptz now,
        set_dispatches <[dispatch_id := mkDispatchRow shipment_id event_id amount currency
                           (pg_timestamptz now)]> db).

Definition pending (row : OutboxRow) : Prop := or_published_at row = None.

Definition time_le (a b : Time) : Prop :=
  (t_sec a < t_sec b)%Z ∨ (t_sec a = t_sec b ∧ (t_nsec a ≤ t_nsec b)%Z).
Definition created_le (a b : string * OutboxRow) : Prop :=
  time_le (or_created_at a.2) (or_created_at b.2).

#[local] Instance created_le_dec : RelDecision created_le.
Proof. unfold created_le, time_le. intros a b. apply _. Defined.
#[local] Instance pending_dec row : Decision (pending row).
Proof. unfold pending. apply _. Defined.

(** [SELECT ... WHERE published_at IS NULL ORDER BY created_at LIMIT $1 FOR
    UPDATE SKIP LOCKED]; [locked] are the rows other transactions hold. *)
Definition claimable (locked : gset string) (db : DB) : list (string * OutboxRow) :=
  filter (λ p, pending p.2 ∧ p.1 ∉ locked) (scan (outbox_events db)).

(** [ORDER BY created_at LIMIT $1]. *)
Definition claimed_rows (locked : gset string) (limit : Z) (db : DB) : list (string * OutboxRow) :=
  take (Z.to_nat limit) (merge_sort created_le (claimable locked db)).

Definition select_pending (locked : gset string) (limit : Z) : Stmt (list (string * OutboxRow)) :=
  λ _ db,
    _ ← must InvalidLimit (0 <=? limit)%Z;
    Ok (claimed_rows locked limit db, db).

Definition mark_row (now : Time) (row : OutboxRow) : OutboxRow :=
  mkOutboxRow (or_shipment_id row) (or_event_type row) (or_payload row) (or_created_at row)
    (Some (pg_timestamptz now)) (or_attempts row + 1) None.

Definition fail_row (msg : string) (row : OutboxRow) : OutboxRow :=
  mkOutboxRow (or_shipment_id row) (or_event_type row) (or_payload row) (or_created_at row)
    (or_published_at row) (or_attempts row + 1) (Some msg).

(** An UPDATE of the rows of [ids], which all have to fit their columns. *)
Definition update_outbox (f : OutboxRow → OutboxRow) (ids : list string) (db : DB) : res DB :=
  let affected := filter (λ p, p.1 ∈ ids) (outbox_events db) in
  _ ← must NumericOutOfRange
        (forallb (λ p, int32_ok (or_attempts (f p.2))) (map_to_list affected));
  Ok (set_outbox (union (f <$> affected)) db).

Definition mark_published (ids : list string) : Stmt () :=
  λ now db,
    db ← update_outbox (mark_row now) ids db;
    Ok ((), db).

Definition record_failure (id last_error : string) : Stmt () :=
  λ _ db,
    msg ← pg_text last_error;
    db ← update_outbox (fail_row msg) [id] db;
    Ok ((), db).

Definition count_pending : Stmt Z :=
  λ _ db, Ok (Z.of_nat (length (filter (λ p, pending p.2) (scan (outbox_events db)))), db).

Definition select_outbox (id : string) : Stmt (list (string * OutboxRow)) :=
  λ _ db,
    id ← pg_text id;
    Ok (match outbox_events db !! id with Some row => [(id, row)] | None => [] end, db).

(** The rows of the join of a shipment with its created events and its
    dispatch, in the order the server produces them. *)
Definition select_shipment (id : string)
  : Stmt (list (string * ShipmentRow * option (option Time) * option (string * DispatchRow))) :=
  λ _ db,
    id ← pg_text id;
    Ok (match shipments db !! id with
        | None => []
        | Some s =>
            let events := filter (λ p, or_shipment_id p.2 = id ∧ or_event_type p.2 = "shipment.created")
                            (scan (outbox_events db)) in
            let events := match events with
                          | [] => [None]
                          | _ => Some ∘ or_published_at ∘ snd <$> events
                          end in
            (λ o, (id, s, o, dispatch_of db id)) <$> events
        end, db).

End statements.

(** ** Lemmas *)

Lemma must_ok s b u : must s b = Ok u ↔ b = true.
Proof. destruct u, b; simpl; naive_solver. Qed.

Lemma must_err s b e : must s b = Err e ↔ b = false ∧ e = EPg s "".
Proof. destruct b; simpl; unfold pg_err; naive_solver. Qed.

Lemma pg_text_ok s s' : pg_text s = Ok s' ↔ text_ok s = true ∧ s' = s.
Proof. unfold pg_text. destruct (text_ok s); simpl; unfold pg_err; naive_solver. Qed.

Lemma pg_text_err s e : pg_text s = Err e ↔ text_ok s = false ∧ e = EPg InvalidEncoding "".
Proof. unfold pg_text. destruct (text_ok s); simpl; unfold pg_err; naive_solver. Qed.

Lemma has_shipment_true db id : has_shipment db id = true ↔ is_Some (shipments db !! id).
Proof. apply bool_decide_eq_true. Qed.

Lemma has_shipment_false db id : has_shipment db id = false ↔ shipments db !! id = None.
Proof. unfold has_shipment. rewrite bool_decide_eq_false. symmetry. apply eq_None_not_Some. Qed.

(** Takes a statement that succeeded apart into its checks. *)
Ltac stmt_ok :=
  repeat match goal with
  | H : (_ ≫= _) = Ok _ |- _ =>
      let a := fresh "a" in let H1 := fresh "Hok" in
      apply res_bind_ok in H as (a & H1 & H)
  | H : must _ _ = Ok _ |- _ => apply must_ok in H
  | H : pg_text _ = Ok _ |- _ => apply pg_text_ok in H as [H ->]
  | H : Ok _ = Ok _ |- _ => injection H as H
  | H : Ok _ = Err _ |- _ => discriminate H
  | H : Err _ = Ok _ |- _ => discriminate H
  | H : has_shipment _ _ = true |- _ => apply has_shipment_true in H
  | H : has_shipment _ _ = false |- _ => apply has_shipment_false in H
  | H : bool_decide _ = true |- _ => apply bool_decide_eq_true in H
  | H : negb _ = true |- _ => apply negb_true_iff in H
  | H : bool_decide _ = false |- _ => apply bool_decide_eq_false in H
  | H : _ && _ = true |- _ => apply andb_true_iff in H as [? ?]
  | H : (_ <=? _)%Z = true |- _ => apply Z.leb_le in H
  end; subst.

Section facts.
Context {IJ : Jsonb} {IS : PgScan}.

Lemma dispatch_of_None db sid :
  dispatch_of db sid = None ↔ ∀ id row, dispatches db !! id = Some row → dr_shipment_id row ≠ sid.
Proof.
  unfold dispatch_of. split.
  - intros H id row Hr Heq.
    assert ((id, row) ∈ filter (λ p, dr_shipment_id p.2 = sid) (map_to_list (dispatches db))) as Hin.
    { apply list_elem_of_filter. split; [done|]. by apply elem_of_map_to_list. }
    destruct (filter _ _); [|done]. by apply not_elem_of_nil in Hin.
  - intros H. destruct (filter _ _) as [|[id row] l] eqn:E; [done|]. exfalso.
    assert ((id, row) ∈ filter (λ p, dr_shipment_id p.2 = sid) (map_to_list (dispatches db))) as Hin
      by (rewrite E; left).
    apply list_elem_of_filter in Hin as [Hs Hin]. apply elem_of_map_to_list in Hin. by eapply H.
Qed.

Lemma dispatch_of_Some db sid id row :
  dispatch_of db sid = Some (id, row) → dispatches db !! id = Some row ∧ dr_shipment_id row = sid.
Proof.
  unfold dispatch_of. intros H%head_Some_elem_of.
  apply list_elem_of_filter in H as [Hs Hin]. by apply elem_of_map_to_list in Hin.
Qed.

(** ** The constraints of the schema as an invariant *)

Record db_ok (db : DB) : Prop := mk_db_ok {
  ok_shipments : map_Forall (λ id s, text_ok id = true ∧ valid_weight (sr_weight_grams s) ∧ (0 ≤ sr_amount_cents s)%Z)
                   (shipments db);
  ok_outbox : map_Forall (λ id o, text_ok id = true ∧ is_Some (shipments db !! or_shipment_id o) ∧
                int32_ok (or_attempts o) = true) (outbox_events db);
  ok_dispatches : map_Forall (λ _ d, is_Some (shipments db !! dr_shipment_id d) ∧
                    is_Some (processed_events db !! dr_event_id d) ∧
                    (0 ≤ dr_amount_cents d)%Z) (dispatches db);
  (** UNIQUE (shipment_id) *)
  ok_unique : ∀ i j d d', dispatches db !! i = Some d → dispatches db !! j = Some d' →
    dr_shipment_id d = dr_shipment_id d' → i = j
}.

Definition stmt_keeps {A} (stmt : Stmt A) : Prop :=
  ∀ now db a db', db_ok db → stmt now db = Ok (a, db') → db_ok db'.

Lemma empty_DB_ok : db_ok empty_DB.
Proof. split; try apply map_Forall_empty. intros i j d d' Hi. simpl in Hi. by apply lookup_empty_Some in Hi. Qed.

Lemma insert_shipment_keeps id w a c t : stmt_keeps (insert_shipment id w a c t).
Proof.
  intros now db u db' [H1 H2 H3 H4] H. unfold insert_shipment in H. stmt_ok.
  split; simpl.
  - apply map_Forall_insert_2; [|done]. simpl. unfold valid_weight. split; [done|lia].
  - eapply map_Forall_impl; [done|]. intros i o (? & ? & ?). split; [done|]. split; [|done].
    rewrite lookup_insert_is_Some. destruct (decide (id = or_shipment_id o)); auto.
  - eapply map_Forall_impl; [done|]. intros i o (? & ? & ?). split; [|done].
    rewrite lookup_insert_is_Some. destruct (decide (id = dr_shipment_id o)); auto.
  - done.
Qed.

Lemma insert_outbox_keeps id s ty p t : stmt_keeps (insert_outbox id s ty p t).
Proof.
  intros now db u db' [H1 H2 H3 H4] H. unfold insert_outbox in H. stmt_ok.
  destruct (jsonb_text p); [|done]. stmt_ok. split; simpl; try done.
  apply map_Forall_insert_2; [|done]. simpl. done.
Qed.

Lemma insert_processed_keeps id : stmt_keeps (insert_processed id).
Proof.
  intros now db u db' [H1 H2 H3 H4] H. unfold insert_processed in H. stmt_ok.
  case_match; stmt_ok; [by split|]. split; simpl; try done.
  eapply map_Forall_impl; [done|]. intros i o (? & ? & ?). split; [done|]. split; [|done].
  rewrite lookup_insert_is_Some. destruct (decide (id = dr_event_id o)); auto.
Qed.

Lemma insert_dispatch_keeps id s e a c : stmt_keeps (insert_dispatch id s e a c).
Proof.
  intros now db u db' [H1 H2 H3 H4] H. unfold insert_dispatch in H. stmt_ok.
  rename select (dispatch_of db s = None) into Hd.
  pose proof (proj1 (dispatch_of_None _ _) Hd) as Hd'.
  split; simpl; try done.
  - apply map_Forall_insert_2; [|done]. done.
  - intros i j d d'. rewrite !lookup_insert.
    repeat case_decide; intros; simplify_eq/=; try done.
    + exfalso. by eapply Hd'.
    + exfalso. by eapply Hd'.
    + by eapply H4.
Qed.

Lemma update_outbox_keeps f ids db db' :
  (∀ row, or_shipment_id (f row) = or_shipment_id row) →
  db_ok db → update_outbox f ids db = Ok db' → db_ok db'.
Proof.
  intros Hf [H1 H2 H3 H4] H. unfold update_outbox in H. stmt_ok.
  split; simpl; try done.
  apply map_Forall_union_2; [|done]. intros i row Hr.
  apply lookup_fmap_Some in Hr as (row' & <- & Hr). rewrite Hf.
  split_and!.
  - apply map_lookup_filter_Some in Hr as [Hr _]. by apply (H2 _ _ Hr).
  - apply map_lookup_filter_Some in Hr as [Hr _]. by apply (H2 _ _ Hr).
  - rename select (forallb _ _ = true) into Hall. rewrite forallb_forall in Hall.
    apply (Hall (i, row')). apply list_elem_of_In. by apply elem_of_map_to_list.
Qed.

Lemma mark_published_keeps ids : stmt_keeps (mark_published ids).
Proof.
  intros now db u db' Hok H. unfold mark_published in H. stmt_ok.
  eapply update_outbox_keeps; [|done..]. done.
Qed.

Lemma record_failure_keeps id msg : stmt_keeps (record_failure id msg).
Proof.
  intros now db u db' Hok H. unfold record_failure in H. stmt_ok.
  eapply update_outbox_keeps; [|done..]. done.
Qed.

Lemma select_pending_db locked limit now db rows db' :
  select_pending locked limit now db = Ok (rows, db') →
  db' = db ∧ (0 ≤ limit)%Z ∧
  rows = claimed_rows locked limit db.
Proof. unfold select_pending. intros H. by stmt_ok. Qed.

(** A row of an update is the old one or the changed one. *)
Lemma update_outbox_lookup f ids db db' id :
  update_outbox f ids db = Ok db' →
  outbox_events db' !! id =
    if bool_decide (id ∈ ids) then f <$> outbox_events db !! id else outbox_events db !! id.
Proof.
  unfold update_outbox. intros H. stmt_ok. simpl.
  rewrite lookup_union, lookup_fmap, map_lookup_filter.
  destruct (outbox_events db !! id) as [row|] eqn:E; simpl; [|by case_bool_decide].
  rewrite option_guard_bool_decide. case_bool_decide; simpl; [by rewrite union_Some_l|done].
Qed.

Lemma update_outbox_rest f ids db db' :
  update_outbox f ids db = Ok db' →
  shipments db' = shipments db ∧ processed_events db' = processed_events db ∧
  dispatches db' = dispatches db.
Proof. unfold update_outbox. intros H. by stmt_ok. Qed.

End facts.

Create HintDb parcel_db discriminated.
#[export] Hint Resolve insert_shipment_keeps insert_outbox_keeps insert_processed_keeps
  insert_dispatch_keeps mark_published_keeps record_failure_keeps empty_DB_ok : parcel_db.
