(* ===== verification/Storage.v ===== *)
(** * internal/storage/store.go

    The Store: each operation is the transaction of the source, statement by
    statement.  pgx and the server behind it are interfaces: [Pool] runs a
    transaction body and promises only what [pgx.BeginFunc] documents, namely
    that the body's effects on the tables happen entirely or not at all, that an
    error of the body rolls back, and that an error of the commit leaves open
    which of the two happened.  Every statement of a body may fail. *)
From S2P Require Import Prelude GoErrors GoUtf8 GoTime Domain Jsonb GoContext Database.
From stdpp Require Import sorting.

Definition ErrDispatchConflict : goerr :=
  ESentinel "storage.ErrDispatchConflict" "shipment already dispatched by another event".
Definition ErrUnavailable : goerr := ESentinel "storage.ErrUnavailable" "database unavailable".
Definition ErrNoRows : goerr := ESentinel "pgx.ErrNoRows" "no rows in result set".

(** The sentinels the program itself declares; an error made by a library does
    not contain them. *)
Definition is_app_sentinel (e : goerr) : bool :=
  match e with
  | ESentinel n _ =>
      negb (bool_decide (n ∈ ["context.Canceled"; "context.DeadlineExceeded"; "pgx.ErrNoRows"]))
  | _ => false
  end.
Definition foreign (e : goerr) : bool := negb (tree_any is_app_sentinel e).

(** [pgconn.SafeToRetry]. *)
Class Pgconn := { SafeToRetry : goerr → bool }.

Definition classify `{!Pgconn} (e : goerr) : goerr :=
  if Is e CtxCanceled || Is e CtxDeadlineExceeded then e
  else if As_ConnectError e || As_netError e || SafeToRetry e then
    EWrap (Error ErrUnavailable +:+ ": " +:+ Error e) [ErrUnavailable; e]
  else e.

Definition isUniqueViolation (e : goerr) : bool := bool_decide (As_PgError e = Some UniqueViolation).

(** A statement or a transaction that fails for a reason outside the tables
    (a lost connection, a cancelled context, a deadlock) reports neither an error
    of the program nor a unique violation. *)
Definition fault_ok (e : goerr) : bool := foreign e && negb (isUniqueViolation e).
Definition faults_ok (fs : list (option goerr)) : Prop :=
  Forall (λ f, ∀ e, f = Some e → fault_ok e = true) fs.

(** ** Transactions *)

(** The program's state: the tables, and everything else in the world. *)
Record St (W : Type) := mkSt { st_ext : W; st_db : DB }.
Arguments mkSt {W} _ _.
Arguments st_ext {W} _.
Arguments st_db {W} _.

(** Time passes outside the tables. *)
#[export] Instance St_Clock {W} {IC : Clock W} : Clock (St W).
Proof.
  refine {| now := λ st, now (st_ext st);
            wait_until := λ t st, mkSt (wait_until t (st_ext st)) (st_db st);
            pick_done := λ st, pick_done (st_ext st) |};
    intros; [apply wait_until_mono|apply wait_until_reached].
Defined.

(** An open transaction: [now()], the rows other transactions hold locked, what
    happens to the next statements ([Some e] is a failure before any effect),
    the world and the transaction's tables. *)
Record tx (W : Type) := mkTx {
  tx_now : Time;
  tx_locked : gset string;
  tx_faults : list (option goerr);
  tx_ext : W;
  tx_db : DB
}.
Arguments mkTx {W} _ _ _ _ _.
Arguments tx_now {W} _.
Arguments tx_locked {W} _.
Arguments tx_faults {W} _.
Arguments tx_ext {W} _.
Arguments tx_db {W} _.

Definition TX (W A : Type) : Type := tx W → res A * tx W.

Section tx_monad.
Context {W : Type}.

Definition tx_ret {A} (a : A) : TX W A := λ t, (Ok a, t).
Definition tx_fail {A} (e : goerr) : TX W A := λ t, (Err e, t).
Definition tx_bind {A B} (m : TX W A) (f : A → TX W B) : TX W B := λ t,
  match m t with
  | (Ok a, t) => f a t
  | (Err e, t) => (Err e, t)
  end.
(** [if err != nil { return f(err) }]. *)
Definition tx_map_err {A} (f : goerr → goerr) (m : TX W A) : TX W A := λ t,
  let (r, t) := m t in (map_err f r, t).
(** The result of a statement, its error included, as a value. *)
Definition tx_try {A} (m : TX W A) : TX W (res A) := λ t, let (r, t) := m t in (Ok r, t).

(** Something outside the database. *)
Definition tx_do {A} (f : W → A * W) : TX W A := λ t,
  let (a, w) := f (tx_ext t) in
  (Ok a, mkTx (tx_now t) (tx_locked t) (tx_faults t) w (tx_db t)).

(** [tx.Exec], [tx.Query]: one statement. *)
Definition exec {A} (stmt : Stmt A) : TX W A := λ t,
  let rest := tail (tx_faults t) in
  let t' db := mkTx (tx_now t) (tx_locked t) rest (tx_ext t) db in
  match tx_faults t with
  | Some e :: _ => (Err e, t' (tx_db t))
  | _ =>
      match stmt (tx_now t) (tx_db t) with
      | Ok (a, db) => (Ok a, t' db)
      | Err e => (Err e, t' (tx_db t))
      end
  end.

End tx_monad.

Notation "x <-- m ;; k" := (tx_bind m (λ x, k))
  (at level 100, m at next level, right associativity, only parsing).
Notation "m ;;; k" := (tx_bind m (λ _, k)) (at level 100, right associativity, only parsing).

(** What running a transaction can do to the state. *)
Inductive begin_outcome {W A} (body : TX W A) (st : St W) : res A * St W → Prop :=
  | begin_failed e :
      fault_ok e = true → begin_outcome body st (Err e, st)
  | body_failed now locked faults e t :
      faults_ok faults →
      body (mkTx now locked faults (st_ext st) (st_db st)) = (Err e, t) →
      begin_outcome body st (Err e, mkSt (tx_ext t) (st_db st))
  | committed now locked faults a t :
      faults_ok faults →
      body (mkTx now locked faults (st_ext st) (st_db st)) = (Ok a, t) →
      begin_outcome body st (Ok a, mkSt (tx_ext t) (tx_db t))
  | commit_failed now locked faults a t applied e :
      faults_ok faults → fault_ok e = true →
      body (mkTx now locked faults (st_ext st) (st_db st)) = (Ok a, t) →
      begin_outcome body st (Err e, mkSt (tx_ext t) (if applied : bool then tx_db t else st_db st)).

(** What running one query outside a transaction can do; [pgx.ErrNoRows] is what
    [GetShipment] and [GetOutboxEvent] make of an answer without rows, not an
    error of the query. *)
Inductive query_outcome {W A} (stmt : Stmt A) (st : St W) : res A * St W → Prop :=
  | query_failed e :
      foreign e = true → Is e ErrNoRows = false → query_outcome stmt st (Err e, st)
  | query_ran now :
      query_outcome stmt st
        (match stmt now (st_db st) with
         | Ok (a, db) => (Ok a, mkSt (st_ext st) db)
         | Err e => (Err e, st)
         end).

(** [*pgxpool.Pool] with [pgx.BeginFunc]. *)
Class Pool (W : Type) := {
  BeginFunc {A} : TX W A → St W → res A * St W;
  BeginFunc_law {A} (body : TX W A) st : begin_outcome body st (BeginFunc body st);
  Query {A} : Stmt A → St W → res A * St W;
  Query_law {A} (stmt : Stmt A) st : query_outcome stmt st (Query stmt st)
}.

(** [crypto/rand]: eight bytes. *)
Class Rand (W : Type) := { rand8 : W → string * W }.

(** ** The Store *)

Record OutboxEvent := mkOutboxEvent {
  oe_EventID : string;
  oe_ShipmentID : string;
  oe_EventType : string;
  oe_Payload : string;
  oe_CreatedAt : Time;
  oe_Attempts : Z
}.

Record PublishResult := mkPublishResult {
  pr_Published : list string;
  pr_Failed : string;
  pr_Err : option goerr
}.
Definition zero_PublishResult : PublishResult := mkPublishResult [] "" None.

Definition PublishFunc (W : Type) : Type := list OutboxEvent → W → PublishResult * W.

Record DispatchRequest := mkDispatchRequest {
  rq_EventID : string;
  rq_ShipmentID : string;
  rq_AmountCents : Z;
  rq_Currency : string
}.

Record shipmentRow := mkshipmentRow {
  r_shipmentID : string;
  r_weightGrams : Z;
  r_amountCents : Z;
  r_currency : string;
  r_createdAt : Time;
  r_publishedAt : option Time;
  r_dispatch : option (string * string * Time)
}.

Definition view (r : shipmentRow) : ShipmentView :=
  {| v_Shipment := mkShipment (r_shipmentID r) (r_weightGrams r)
                     (mkMoney (r_amountCents r) (r_currency r)) (r_createdAt r);
     v_Outbox := match r_publishedAt r with Some _ => OutboxPublished | None => OutboxPending end;
     v_Dispatch := match r_dispatch r with
                   | Some (id, event_id, at_) => mkDispatch DispatchDispatched id event_id at_
                   | None => mkDispatch DispatchPending "" "" zero_Time
                   end |}.

(** [row.Scan] of a row of the join; a row of no event or no dispatch has NULLs
    there. *)
Definition scan_shipment
    (p : string * ShipmentRow * option (option Time) * option (string * DispatchRow)) : shipmentRow :=
  let '(id, s, o, d) := p in
  mkshipmentRow id (sr_weight_grams s) (sr_amount_cents s) (sr_currency s) (sr_created_at s)
    (default None o)
    ((λ p, (p.1, dr_event_id p.2, dr_dispatched_at p.2)) <$> d).

Definition scanOutboxEvent (p : string * OutboxRow) : OutboxEvent :=
  mkOutboxEvent p.1 (or_shipment_id p.2) (or_event_type p.2) (or_payload p.2)
    (or_created_at p.2) (or_attempts p.2).

Section store.
Context {IJ : Jsonb} {IS : PgScan} {IP : Pgconn} {W : Type} {IPool : Pool W} {IR : Rand W}.

(** Running an operation and classifying its error. *)
Definition classified {A} (p : res A * St W) : res A * St W := (map_err classify p.1, p.2).

Definition create_tx (shipment : Shipment) (evt : OutboxEvent) : TX W () :=
  tx_map_err (wrapf "insert shipment: ")
    (exec (insert_shipment (s_ID shipment) (s_WeightGrams shipment) (AmountCents (s_Price shipment))
             (Currency (s_Price shipment)) (s_CreatedAt shipment)));;;
  tx_map_err (wrapf "insert outbox event: ")
    (exec (insert_outbox (oe_EventID evt) (oe_ShipmentID evt) (oe_EventType evt) (oe_Payload evt)
             (s_CreatedAt shipment))).

Definition CreateShipment (shipment : Shipment) (evt : OutboxEvent) (st : St W) : res () * St W :=
  classified (BeginFunc (create_tx shipment evt) st).

(** [QueryRow(...).Scan(...)]: the first row, or [pgx.ErrNoRows]. *)
Definition GetShipment (id : string) (st : St W) : res ShipmentView * St W :=
  match Query (select_shipment id) st with
  | (Ok [], st) => (Err (wrapf ("shipment " +:+ id +:+ ": ") ErrNotFound), st)
  | (Ok (row :: _), st) => (Ok (view (scan_shipment row)), st)
  | (Err e, st) =>
      if Is e ErrNoRows then (Err (wrapf ("shipment " +:+ id +:+ ": ") ErrNotFound), st)
      else (Err (wrapf "query shipment: " (classify e)), st)
  end.

(** The error of [tx.Query] or that of [pgx.CollectRows]. *)
Definition claim_err (e : goerr) : goerr :=
  wrapf (if at_Query e then "select pending: " else "scan pending: ") e.

Definition claimPending (limit : Z) : TX W (list OutboxEvent) := λ t,
  (rows <-- tx_map_err claim_err (exec (select_pending (tx_locked t) limit));;
   tx_ret (scanOutboxEvent <$> rows)) t.

(** [if len(result.Published) > 0]. *)
Definition mark_tx (result : PublishResult) : TX W () :=
  match pr_Published result with
  | [] => tx_ret ()
  | ids => tx_map_err (wrapf "mark published: ") (exec (mark_published ids))
  end.

(** [if result.Failed != ""]. *)
Definition fail_tx (result : PublishResult) : TX W () :=
  if bool_decide (pr_Failed result = "") then tx_ret ()
  else tx_map_err (wrapf "record publish failure: ")
         (exec (record_failure (pr_Failed result) (from_option Error "" (pr_Err result)))).

Definition process_tx (limit : Z) (publish : PublishFunc W) : TX W PublishResult :=
  batch <-- claimPending limit;;
  match batch with
  | [] => tx_ret zero_PublishResult
  | _ =>
      result <-- tx_do (publish batch);;
      mark_tx result;;;
      fail_tx result;;;
      tx_ret result
  end.

Definition ProcessPending (limit : Z) (publish : PublishFunc W) (st : St W) : res PublishResult * St W :=
  classified (BeginFunc (process_tx limit publish) st).

Definition CountPending (st : St W) : res Z * St W := classified (Query count_pending st).

Definition GetOutboxEvent (id : string) (st : St W) : res OutboxEvent * St W :=
  match Query (select_outbox id) st with
  | (Ok [], st) => (Err (wrapf ("outbox event " +:+ id +:+ ": ") ErrNotFound), st)
  | (Ok (row :: _), st) => (Ok (scanOutboxEvent row), st)
  | (Err e, st) =>
      if Is e ErrNoRows then (Err (wrapf ("outbox event " +:+ id +:+ ": ") ErrNotFound), st)
      else (Err (classify e), st)
  end.

Definition record_tx (req : DispatchRequest) : TX W (Dispatch * bool) :=
  rows <-- tx_map_err (wrapf "insert processed_event: ") (exec (insert_processed (rq_EventID req)));;
  if bool_decide (rows = 0%Z) then tx_ret (zero_Dispatch, true)
  else
    rnd <-- tx_do rand8;;
    let id := NewDispatchID rnd in
    r <-- tx_try (exec (insert_dispatch id (rq_ShipmentID req) (rq_EventID req)
                          (rq_AmountCents req) (rq_Currency req)));;
    match r with
    | Ok at_ => tx_ret (mkDispatch DispatchDispatched id (rq_EventID req) at_, false)
    | Err e =>
        if isUniqueViolation e then
          tx_fail (EWrap (Error ErrDispatchConflict +:+ ": shipment " +:+ rq_ShipmentID req
                          +:+ ", event " +:+ rq_EventID req) [ErrDispatchConflict])
        else tx_fail (wrapf "insert dispatch: " e)
    end.

Definition RecordDispatch (req : DispatchRequest) (st : St W) : res (Dispatch * bool) * St W :=
  classified (BeginFunc (record_tx req) st).

End store.

(** ** Lemmas *)

Lemma tree_any_impl (p q : goerr → bool) e :
  (∀ x, q x = true → p x = true) → tree_any p e = false → tree_any q e = false.
Proof.
  intros Hpq. revert e. fix IH 1. intros e H.
  assert (q e = false) as Hq.
  { destruct (q e) eqn:E; [|done]. apply Hpq in E. destruct e; simpl in H; by rewrite E in H. }
  assert (∀ l, existsb (tree_any p) l = false → existsb (tree_any q) l = false) as Hl.
  { induction l as [|x l IHl]; [done|]. simpl. intros [Hx Hr]%orb_false_iff.
    by rewrite (IH x Hx), (IHl Hr). }
  destruct e; simpl in *; rewrite Hq; simpl; try done;
    apply orb_false_iff in H as [_ H]; by apply Hl.
Qed.

(** An error of a library is none of the program's. *)
Lemma foreign_Is e n m :
  foreign e = true → is_app_sentinel (ESentinel n m) = true → Is e (ESentinel n m) = false.
Proof.
  unfold foreign, Is. rewrite negb_true_iff. intros He Hs. eapply tree_any_impl; [|done].
  intros [] Hx; simpl in *; try done. apply bool_decide_eq_true in Hx. by subst.
Qed.

Lemma Is_pg s m t : Is (EPg s m) t = false.
Proof. by destruct t. Qed.

Lemma Is_wrapf_any prefix e t : Is (wrapf prefix e) t = Is e t.
Proof. destruct t; unfold Is; simpl; by rewrite orb_false_r. Qed.

Lemma Is_classify `{!Pgconn} e n m :
  n ≠ "storage.ErrUnavailable" → Is (classify e) (ESentinel n m) = Is e (ESentinel n m).
Proof.
  intros Hn. unfold classify.
  destruct (Is e CtxCanceled || Is e CtxDeadlineExceeded); [done|].
  destruct (As_ConnectError e || As_netError e || SafeToRetry e); [|done].
  rewrite Is_wrap. cbn [existsb]. rewrite orb_false_r.
  change (bool_decide (n = "storage.ErrUnavailable") || false || Is e (ESentinel n m) = Is e (ESentinel n m)).
  by rewrite bool_decide_eq_false_2.
Qed.

Lemma fault_ok_foreign e : fault_ok e = true → foreign e = true.
Proof. unfold fault_ok. by intros [? _]%andb_true_iff. Qed.

Lemma fault_ok_wrapf prefix e : fault_ok (wrapf prefix e) = fault_ok e.
Proof.
  unfold fault_ok, foreign, isUniqueViolation, wrapf. cbn. rewrite orb_false_r. by destruct (As_PgError e).
Qed.

(** The statement of the transaction did its work, or failed without any. *)
Lemma exec_cases {W A} (stmt : Stmt A) (t : tx W) :
  ∃ fs, (faults_ok (tx_faults t) → faults_ok fs) ∧
    ((∃ e, exec stmt t = (Err e, mkTx (tx_now t) (tx_locked t) fs (tx_ext t) (tx_db t)) ∧
       (Some e ∈ tx_faults t ∨ stmt (tx_now t) (tx_db t) = Err e)) ∨
     (∃ a db, exec stmt t = (Ok a, mkTx (tx_now t) (tx_locked t) fs (tx_ext t) db) ∧
       stmt (tx_now t) (tx_db t) = Ok (a, db))).
Proof.
  exists (tail (tx_faults t)). split.
  { unfold faults_ok. destruct (tx_faults t); [done|]. by intros [_ ?]%Forall_cons. }
  unfold exec.
  destruct (stmt _ _) as [[a db]|e] eqn:E; destruct (tx_faults t) as [|[f|] l];
    first [ left; eexists; split; [reflexivity|]; first [ by right | by left; left ]
          | right; eexists _, _; by split ].
Qed.

Lemma faults_ok_elem fs e :
  faults_ok fs → Some e ∈ fs → foreign e = true ∧ isUniqueViolation e = false.
Proof.
  unfold faults_ok, fault_ok. rewrite Forall_forall. intros H He.
  specialize (H _ He e eq_refl). by apply andb_true_iff in H as [? ?%negb_true_iff].
Qed.

(** Statements report constraint violations and nothing else. *)
Definition pg_only {A} (stmt : Stmt A) : Prop :=
  ∀ now db e, stmt now db = Err e → ∃ s m, e = EPg s m.

Lemma must_pg s b e : must s b = Err e → ∃ s m, e = EPg s m.
Proof. rewrite must_err. intros [_ ->]. by eexists _, _. Qed.

Ltac pg_only_tac :=
  repeat match goal with
  | H : (_ ≫= _) = Err _ |- _ => apply res_bind_err in H as [H|(? & ? & H)]
  | H : must _ _ = Err _ |- _ => by apply must_pg in H
  | H : pg_text _ = Err _ |- _ => apply pg_text_err in H as [_ ->]; by eexists _, _
  | H : pg_err _ = Err _ |- _ => injection H as <-; by eexists _, _
  | H : Ok _ = Err _ |- _ => discriminate H
  | H : match ?x with _ => _ end = Err _ |- _ => destruct x
  end.

Lemma pg_char3_err s e :
  pg_char3 s = Err e → e = EPg InvalidEncoding "" ∨ e = EPg StringTooLong "".
Proof.
  unfold pg_char3. intros [[_ ->]%pg_text_err|(s' & _ & H)]%res_bind_err; [by left|].
  do 2 (case_match; [done|]). injection H as <-. by right.
Qed.

Section facts.
Context {IJ : Jsonb} {IS : PgScan}.

Lemma insert_processed_pg id : pg_only (insert_processed id).
Proof. intros now db e H. unfold insert_processed in H. pg_only_tac. Qed.
Lemma insert_dispatch_pg a b c d f : pg_only (insert_dispatch a b c d f).
Proof.
  intros now db e H. unfold insert_dispatch in H. pg_only_tac. apply pg_char3_err in H as [->| ->]; by eexists _, _.
Qed.

(** *** RecordDispatch *)

(** The rows a recorded dispatch leaves behind. *)
Definition recorded (req : DispatchRequest) (d : Dispatch) (db db' : DB) : Prop :=
  processed_events db !! rq_EventID req = None ∧
  dispatch_of db (rq_ShipmentID req) = None ∧
  dispatches db !! d_ID d = None ∧
  d_Status d = DispatchDispatched ∧ d_EventID d = rq_EventID req ∧
  ∃ currency, pg_char3 (rq_Currency req) = Ok currency ∧
    db' = set_dispatches <[d_ID d := mkDispatchRow (rq_ShipmentID req) (rq_EventID req)
                             (rq_AmountCents req) currency (d_DispatchedAt d)]>
            (set_processed <[rq_EventID req := d_DispatchedAt d]> db).

(** Another dispatch, of the shipment or under the identifier just drawn, is in
    the way. *)
Definition in_conflict (req : DispatchRequest) (db : DB) : Prop :=
  processed_events db !! rq_EventID req = None ∧
  (dispatch_of db (rq_ShipmentID req) ≠ None ∨ ∃ rnd, is_Some (dispatches db !! NewDispatchID rnd)).

Lemma insert_processed_ok id now db rows db' :
  insert_processed id now db = Ok (rows, db') →
  (rows = 0%Z ∧ is_Some (processed_events db !! id) ∧ db' = db) ∨
  (rows = 1%Z ∧ processed_events db !! id = None ∧
   db' = set_processed <[id := pg_timestamptz now]> db).
Proof.
  unfold insert_processed. intros H. stmt_ok.
  destruct (processed_events db !! id) eqn:E; stmt_ok; [left|right]; by eauto.
Qed.

Lemma insert_dispatch_ok did sid eid a c now db at_ db' :
  insert_dispatch did sid eid a c now db = Ok (at_, db') →
  dispatches db !! did = None ∧ dispatch_of db sid = None ∧ at_ = pg_timestamptz now ∧
  ∃ currency, pg_char3 c = Ok currency ∧
    db' = set_dispatches <[did := mkDispatchRow sid eid a currency at_]> db.
Proof. unfold insert_dispatch. intros H. stmt_ok. by eauto 8. Qed.

Lemma insert_dispatch_unique did sid eid a c now db e :
  insert_dispatch did sid eid a c now db = Err e → isUniqueViolation e = true →
  is_Some (dispatches db !! did) ∨ dispatch_of db sid ≠ None.
Proof.
  unfold insert_dispatch. intros H He.
  destruct (dispatches db !! did) eqn:E1; [left; by eauto|].
  destruct (dispatch_of db sid) eqn:E2; [by right|].
  exfalso. revert He.
  repeat match goal with
  | H : (_ ≫= _) = Err _ |- _ => apply res_bind_err in H as [H|(? & ? & H)]
  | H : must _ _ = Err _ |- _ => apply must_err in H as [? ->]; by try case_bool_decide
  | H : pg_text _ = Err _ |- _ => apply pg_text_err in H as [_ ->]; done
  | H : pg_char3 _ = Err _ |- _ => apply pg_char3_err in H as [->| ->]; done
  | H : pg_text _ = Ok _ |- _ => apply pg_text_ok in H as [_ ->]
  | H : Ok _ = Err _ |- _ => discriminate H
  end; rewrite ?E1, ?E2 in *; by case_bool_decide.
Qed.

(** What one run of the transaction body returns, and what it leaves in its
    tables. *)
Lemma record_tx_spec {W} `{!Rand W} req (t : tx W) r t' :
  faults_ok (tx_faults t) → record_tx req t = (r, t') →
  match r with
  | Ok (d, true) => d = zero_Dispatch ∧ is_Some (processed_events (tx_db t) !! rq_EventID req) ∧
      tx_db t' = tx_db t
  | Ok (d, false) => recorded req d (tx_db t) (tx_db t')
  | Err e => Is e ErrDispatchConflict = true → in_conflict req (tx_db t)
  end.
Proof.
  intros Hf. unfold record_tx, tx_bind, tx_map_err.
  destruct (exec_cases (insert_processed (rq_EventID req)) t)
    as (fs & Hfs & [(e & E & He)|(rows & db & E & Hs)]); rewrite E; cbn.
  { intros [= <- <-]. unfold ErrDispatchConflict. rewrite Is_wrapf_any.
    destruct He as [He|(? & ? & ->)%insert_processed_pg]; [|done].
    destruct (faults_ok_elem _ _ Hf He) as [Hfe _]. by rewrite foreign_Is. }
  clear E. specialize (Hfs Hf).
  apply insert_processed_ok in Hs as [(-> & Hp & ->)|(-> & Hp & ->)].
  { rewrite bool_decide_eq_true_2 by done. intros [= <- <-]. done. }
  rewrite bool_decide_eq_false_2 by done. unfold tx_do. cbn.
  destruct (rand8 (tx_ext t)) as [rnd w]. unfold tx_try. cbn.
  match goal with |- context [exec ?s ?t0] => destruct (exec_cases s t0)
    as (fs' & _ & [(e & E & He)|(at_ & db & E & Hs)]); rewrite E; clear E; cbn end.
  - destruct (isUniqueViolation e) eqn:Hu; intros [= <- <-] Hc.
    + split; [done|]. destruct He as [He|He].
      { destruct (faults_ok_elem _ _ Hfs He) as [_ ?]. congruence. }
      apply insert_dispatch_unique in He; [|done]. simpl in He.
      destruct He; [right; by eexists|by left].
    + exfalso. revert Hc. unfold ErrDispatchConflict. rewrite Is_wrapf_any.
      destruct He as [He|(? & ? & ->)%insert_dispatch_pg]; [|done].
      destruct (faults_ok_elem _ _ Hfs He) as [Hfe _]. by rewrite foreign_Is.
  - apply insert_dispatch_ok in Hs as (Hd & Hn & Hat & c & Hc & ->).
    simpl in Hat. subst at_. intros [= <- <-]. split_and!; try done. by exists c.
Qed.

(** The state after a transaction, and the body's run it comes from. *)
Lemma BeginFunc_cases {W A} `{!Pool W} (body : TX W A) st r st' :
  BeginFunc body st = (r, st') →
  (∃ e, r = Err e ∧ st' = st ∧ fault_ok e = true) ∨
  ∃ now locked faults r' t, faults_ok faults ∧
    body (mkTx now locked faults (st_ext st) (st_db st)) = (r', t) ∧
    st_ext st' = tx_ext t ∧
    ((∃ e, r' = Err e ∧ r = Err e ∧ st_db st' = st_db st) ∨
     (∃ a, r' = Ok a ∧ r = Ok a ∧ st_db st' = tx_db t) ∨
     (∃ a e, r' = Ok a ∧ r = Err e ∧ fault_ok e = true ∧
        (st_db st' = tx_db t ∨ st_db st' = st_db st))).
Proof.
  intros E. pose proof (BeginFunc_law body st) as H. rewrite E in H.
  inversion H as [e He|now locked fs e t Hf Hb|now locked fs a t Hf Hb|now locked fs a t [] e Hf He Hb];
    subst; [left; by eauto| | | |]; right; eexists _, _, _, _, _;
    (split; [exact Hf|split; [exact Hb|split; [done|]]]); [left|right; left|right; right..];
    [by eexists|by eexists|eexists _, _; split_and!; auto..].
Qed.

Lemma Query_cases {W A} `{!Pool W} (stmt : Stmt A) st r st' :
  Query stmt st = (r, st') →
  (∃ e, r = Err e ∧ st' = st ∧
     ((foreign e = true ∧ Is e ErrNoRows = false) ∨ ∃ now, stmt now (st_db st) = Err e)) ∨
  (∃ now a, r = Ok a ∧ stmt now (st_db st) = Ok (a, st_db st') ∧ st_ext st' = st_ext st).
Proof.
  intros E. pose proof (Query_law stmt st) as H. rewrite E in H.
  inversion H as [e He|now Hq]; subst; [left; by eauto 6|].
  destruct (stmt now (st_db st)) as [[a db]|e] eqn:Es; simplify_eq; [right|left]; eauto 8.
Qed.

Lemma recorded_ok req d db db' :
  recorded req d db db' →
  processed_events db' !! rq_EventID req = Some (d_DispatchedAt d) ∧
  is_Some (dispatch_of db' (rq_ShipmentID req)).
Proof.
  intros (Hp & Hn & Hd & _ & _ & c & Hc & ->). simpl. split; [by rewrite lookup_insert_eq|].
  apply not_eq_None_Some. rewrite dispatch_of_None. intros H.
  eapply (H (d_ID d)); [apply lookup_insert_eq|done].
Qed.

End facts.

Section store_facts.
Context {IJ : Jsonb} {IS : PgScan} {IP : Pgconn} {W : Type} {IPool : Pool W} {IR : Rand W}.
Implicit Types (st : St W) (db : DB).

Lemma classified_eq {A} (p : res A * St W) r st' :
  classified p = (r, st') → ∃ r0, p = (r0, st') ∧ r = map_err classify r0.
Proof. destruct p as [r0 st0]. intros [= <- <-]. eauto. Qed.

Lemma classify_conflict e : Is (classify e) ErrDispatchConflict = Is e ErrDispatchConflict.
Proof. by apply Is_classify. Qed.

Lemma foreign_conflict e : foreign e = true → Is e ErrDispatchConflict = false.
Proof. intros. by apply foreign_Is. Qed.

Lemma RecordDispatch_cases req st r st' :
  RecordDispatch req st = (r, st') →
  match r with
  | Ok (d, true) => d = zero_Dispatch ∧ is_Some (processed_events (st_db st) !! rq_EventID req) ∧
      st_db st' = st_db st
  | Ok (d, false) => recorded req d (st_db st) (st_db st')
  | Err e =>
      (st_db st' = st_db st ∨ ∃ d, recorded req d (st_db st) (st_db st')) ∧
      (Is e ErrDispatchConflict = true →
         in_conflict req (st_db st) ∧ st_db st' = st_db st)
  end.
Proof.
  intros (r0 & E & ->)%classified_eq.
  apply BeginFunc_cases in E as [(e & -> & -> & He)|(now & locked & fs & r' & t & Hf & Hb & _ & Hc)].
  { cbn. rewrite classify_conflict, foreign_conflict by by apply fault_ok_foreign. split; [by left|done]. }
  apply record_tx_spec in Hb; [|done]. simpl in Hb.
  destruct Hc as [(e & -> & -> & Hdb)|[(a & -> & -> & Hdb)|(a & e & -> & -> & He & Hdb)]]; cbn.
  - rewrite classify_conflict. eauto.
  - rewrite Hdb. done.
  - rewrite classify_conflict, foreign_conflict by by apply fault_ok_foreign. split; [|done].
    destruct a as [d []].
    + destruct Hb as (_ & _ & Hb). left. destruct Hdb; congruence.
    + destruct Hdb as [->|?]; [right; eauto|by left].
Qed.

(** An event that was recorded is recognised, unless a statement fails for a
    reason outside the tables. *)
Lemma record_tx_again req (t t' : tx W) r :
  faults_ok (tx_faults t) → text_ok (rq_EventID req) = true →
  is_Some (processed_events (tx_db t) !! rq_EventID req) → record_tx req t = (r, t') →
  tx_db t' = tx_db t ∧
  ((∃ d, r = Ok (d, true)) ∨ ∃ e, r = Err e ∧ fault_ok e = true ∧ tx_faults t ≠ []).
Proof.
  intros Hf Ht Hp. unfold record_tx, tx_bind, tx_map_err.
  destruct (exec_cases (insert_processed (rq_EventID req)) t)
    as (fs & _ & [(e & E & He)|(rows & db & E & Hs)]); rewrite E; cbn.
  - intros [= <- <-]. split; [done|]. right. eexists. split; [done|]. rewrite fault_ok_wrapf.
    destruct He as [He|He].
    + unfold faults_ok in Hf. rewrite Forall_forall in Hf. split; [by apply (Hf _ He)|].
      intros Hn. rewrite Hn in He. by apply not_elem_of_nil in He.
    + exfalso. revert He. unfold insert_processed, pg_text. rewrite Ht. cbn. by destruct Hp as [? ->].
  - apply insert_processed_ok in Hs as [(-> & _ & ->)|(_ & Hn & _)]; [|destruct Hp; congruence].
    rewrite bool_decide_eq_true_2 by done. intros [= <- <-]. split; [done|]. left. by eexists.
Qed.

Lemma record_tx_text req (t t' : tx W) a :
  record_tx req t = (Ok a, t') → text_ok (rq_EventID req) = true.
Proof.
  unfold record_tx, tx_bind, tx_map_err.
  destruct (exec_cases (insert_processed (rq_EventID req)) t)
    as (fs & _ & [(e & -> & _)|(rows & db & _ & Hs)]); cbn; [done|intros _].
  unfold insert_processed in Hs. by stmt_ok.
Qed.

Lemma RecordDispatch_text req st a st' :
  RecordDispatch req st = (Ok a, st') → text_ok (rq_EventID req) = true.
Proof.
  intros ([a'|] & E & [=])%classified_eq.
  apply BeginFunc_cases in E as [(? & [=] & _)|(now & locked & fs & r' & t & _ & Hb & _ & Hc)].
  destruct Hc as [(? & _ & [=] & _)|[(? & -> & _)|(? & ? & _ & [=] & _)]]. by eapply record_tx_text.
Qed.

(** *** CreateShipment *)

Definition shipment_row (s : Shipment) (currency : string) : ShipmentRow :=
  mkShipmentRow (s_WeightGrams s) (AmountCents (s_Price s)) currency (pg_timestamptz (s_CreatedAt s)).

Definition outbox_row (s : Shipment) (evt : OutboxEvent) (payload : string) : OutboxRow :=
  mkOutboxRow (oe_ShipmentID evt) (oe_EventType evt) payload (pg_timestamptz (s_CreatedAt s)) None 0 None.

(** Both rows, and nothing but them. *)
Definition created (s : Shipment) (evt : OutboxEvent) db db' : Prop :=
  shipments db !! s_ID s = None ∧ outbox_events db !! oe_EventID evt = None ∧
  valid_weight (s_WeightGrams s) ∧ (0 ≤ AmountCents (s_Price s))%Z ∧
  ∃ currency payload,
    pg_char3 (Currency (s_Price s)) = Ok currency ∧ jsonb_text (oe_Payload evt) = Some payload ∧
    db' = set_outbox <[oe_EventID evt := outbox_row s evt payload]>
            (set_shipments <[s_ID s := shipment_row s currency]> db).

Lemma create_tx_spec s evt (t t' : tx W) :
  create_tx s evt t = (Ok (), t') → created s evt (tx_db t) (tx_db t').
Proof.
  unfold create_tx, tx_bind, tx_map_err.
  match goal with |- context [exec ?q t] => destruct (exec_cases q t)
    as (fs & _ & [(e & -> & _)|([] & db & -> & Hs)]); cbn; [done|] end.
  match goal with |- context [exec ?q ?t0] => destruct (exec_cases q t0)
    as (fs' & _ & [(e & -> & _)|([] & db' & -> & Hs')]); cbn; [done|] end.
  simpl in Hs'. intros [= <-]. simpl.
  unfold insert_shipment in Hs. unfold insert_outbox in Hs'. stmt_ok.
  destruct (jsonb_text (oe_Payload evt)) as [p|] eqn:Ep; [|done]. stmt_ok. simpl in *.
  unfold created, valid_weight. split_and!; try done; try lia. eauto.
Qed.

Lemma CreateShipment_cases s evt st r st' :
  CreateShipment s evt st = (r, st') →
  match r with
  | Ok _ => created s evt (st_db st) (st_db st')
  | Err e => st_db st' = st_db st ∨ created s evt (st_db st) (st_db st')
  end.
Proof.
  intros (r0 & E & ->)%classified_eq.
  apply BeginFunc_cases in E as [(e & -> & -> & He)|(now & locked & fs & r' & t & Hf & Hb & _ & Hc)];
    [by left|].
  destruct Hc as [(e & -> & -> & Hdb)|[(a & -> & -> & Hdb)|(a & e & -> & -> & He & Hdb)]]; cbn.
  - by left.
  - destruct a. apply create_tx_spec in Hb. by rewrite Hdb.
  - destruct a. apply create_tx_spec in Hb. destruct Hdb as [->| ->]; auto.
Qed.

(** *** ProcessPending *)

(** What the transaction does to the row of one event. *)
Definition settle (now : Time) (result : PublishResult) (id : string) (row : OutboxRow) : OutboxRow :=
  let row := if bool_decide (id ∈ pr_Published result) then mark_row now row else row in
  if bool_decide (pr_Failed result ≠ "" ∧ id = pr_Failed result)
  then fail_row (from_option Error "" (pr_Err result)) row else row.

Lemma settle_same now result id row :
  or_payload (settle now result id row) = or_payload row ∧
  or_shipment_id (settle now result id row) = or_shipment_id row ∧
  or_event_type (settle now result id row) = or_event_type row ∧
  or_created_at (settle now result id row) = or_created_at row.
Proof. unfold settle. by repeat case_bool_decide. Qed.

(** The attempts and the error of an outbox row fit together. *)
Definition counted (o : OutboxRow) : Prop :=
  (0 ≤ or_attempts o)%Z ∧
  match or_published_at o with
  | Some _ => (0 < or_attempts o)%Z ∧ or_last_error o = None
  | None => or_attempts o = 0%Z ↔ or_last_error o = None
  end.

Lemma settle_counted now result id o :
  counted o → (pr_Failed result ≠ "" → id = pr_Failed result → pending o) →
  (pr_Failed result ≠ "" → pr_Failed result ∉ pr_Published result) →
  counted (settle now result id o).
Proof.
  unfold counted, settle, pending. intros Hc Hp Hf.
  case_bool_decide as H1; case_bool_decide as H2; cbn; [|..|done].
  - destruct H1 as [H1 ->]. by destruct (Hf H1).
  - destruct H1 as [H1 H1']. rewrite (Hp H1 H1'). split; [lia|]. split; [lia|done].
  - split; [lia|]. split; [lia|done].
Qed.

Lemma claimPending_ok limit (t t' : tx W) batch :
  claimPending limit t = (Ok batch, t') →
  tx_db t' = tx_db t ∧ tx_ext t' = tx_ext t ∧ tx_now t' = tx_now t ∧
  batch = scanOutboxEvent <$> claimed_rows (tx_locked t) limit (tx_db t).
Proof.
  unfold claimPending, tx_bind, tx_map_err.
  match goal with |- context [exec ?q t] => destruct (exec_cases q t)
    as (fs & _ & [(e & -> & _)|(rows & db & -> & Hs)]); cbn; [done|] end.
  apply select_pending_db in Hs as (-> & _ & ->). by intros [= <- <-].
Qed.

Lemma claimPending_same limit (t t' : tx W) r :
  claimPending limit t = (r, t') →
  tx_db t' = tx_db t ∧ tx_ext t' = tx_ext t ∧ tx_now t' = tx_now t ∧ tx_locked t' = tx_locked t ∧
  match r with
  | Ok batch => (0 ≤ limit)%Z ∧ batch = scanOutboxEvent <$> claimed_rows (tx_locked t) limit (tx_db t)
  | Err e => ∃ e0, e = claim_err e0 ∧
      (Some e0 ∈ tx_faults t ∨ (limit < 0)%Z ∧ e0 = EPg InvalidLimit "")
  end.
Proof.
  unfold claimPending, tx_bind, tx_map_err.
  match goal with |- context [exec ?q t] => destruct (exec_cases q t)
    as (fs & _ & [(e & -> & He)|(rows & db & -> & Hs)]); cbn end.
  - intros [= <- <-]. split_and!; try done. exists e. split; [done|].
    destruct He as [He|He]; [by left|right]. unfold select_pending in He.
    apply res_bind_err in He as [[Hl ->]%must_err|(? & _ & [=])]. split; [lia|done].
  - apply select_pending_db in Hs as (-> & Hl & ->). intros [= <- <-]. done.
Qed.

Lemma claimPending_ext limit (t t' : tx W) r :
  claimPending limit t = (r, t') → tx_ext t' = tx_ext t.
Proof.
  unfold claimPending, tx_bind, tx_map_err.
  match goal with |- context [exec ?q t] => destruct (exec_cases q t)
    as (fs & _ & [(e & -> & _)|(rows & db & -> & Hs)]); cbn; by intros [= _ <-] end.
Qed.

Definition mark_step (now : Time) (result : PublishResult) (id : string) (row : OutboxRow) : OutboxRow :=
  if bool_decide (id ∈ pr_Published result) then mark_row now row else row.
Definition fail_step (result : PublishResult) (id : string) (row : OutboxRow) : OutboxRow :=
  if bool_decide (pr_Failed result ≠ "" ∧ id = pr_Failed result)
  then fail_row (from_option Error "" (pr_Err result)) row else row.

(** A transition of the outbox, row by row. *)
Definition outbox_step (f : string → OutboxRow → OutboxRow) db db' : Prop :=
  shipments db' = shipments db ∧ processed_events db' = processed_events db ∧
  dispatches db' = dispatches db ∧
  ∀ id, outbox_events db' !! id = f id <$> outbox_events db !! id.

Lemma outbox_step_refl f db : (∀ id row, f id row = row) → outbox_step f db db.
Proof.
  intros Hf. split_and!; try done. intros id. destruct (_ !! id); simpl; by rewrite ?Hf.
Qed.

Lemma update_outbox_step f g ids db db' :
  update_outbox g ids db = Ok db' →
  (∀ id row, f id row = if bool_decide (id ∈ ids) then g row else row) →
  outbox_step f db db'.
Proof.
  intros H Hf. destruct (update_outbox_rest _ _ _ _ H) as (? & ? & ?). split_and!; try done.
  intros id. rewrite (update_outbox_lookup _ _ _ _ _ H).
  destruct (outbox_events db !! id) as [row|]; simpl; [rewrite Hf|]; by case_bool_decide.
Qed.

Lemma mark_tx_ok result (t t' : tx W) u :
  mark_tx result t = (Ok u, t') →
  tx_ext t' = tx_ext t ∧ tx_now t' = tx_now t ∧
  outbox_step (mark_step (tx_now t) result) (tx_db t) (tx_db t').
Proof.
  unfold mark_tx, tx_map_err, mark_step. destruct (pr_Published result) as [|id ids] eqn:E.
  { intros [= _ <-]. split_and!; try done. apply outbox_step_refl. intros.
    rewrite bool_decide_eq_false_2; [done|]. by apply not_elem_of_nil. }
  destruct (exec_cases (mark_published (id :: ids)) t)
    as (fs & _ & [(e & -> & _)|([] & db & -> & Hs)]); cbn; intros [= _ <-].
  split_and!; try done. unfold mark_published in Hs. stmt_ok.
  eapply update_outbox_step; [done|]. done.
Qed.

Lemma fail_tx_ok result (t t' : tx W) u :
  fail_tx result t = (Ok u, t') →
  tx_ext t' = tx_ext t ∧ tx_now t' = tx_now t ∧
  outbox_step (fail_step result) (tx_db t) (tx_db t').
Proof.
  unfold fail_tx, tx_map_err, fail_step. case_bool_decide as Hr.
  { intros [= _ <-]. split_and!; try done. apply outbox_step_refl. intros.
    rewrite bool_decide_eq_false_2; [done|]. naive_solver. }
  destruct (exec_cases (record_failure (pr_Failed result) (from_option Error "" (pr_Err result))) t)
    as (fs & _ & [(e & -> & _)|([] & db & -> & Hs)]); cbn; intros [= _ <-].
  split_and!; try done. unfold record_failure in Hs. stmt_ok.
  eapply update_outbox_step; [done|]. intros. apply (f_equal (λ b : bool, if b then _ else _)).
  apply bool_decide_ext. rewrite list_elem_of_singleton. naive_solver.
Qed.

Lemma outbox_step_trans f g db1 db2 db3 :
  outbox_step f db1 db2 → outbox_step g db2 db3 → outbox_step (λ id, g id ∘ f id) db1 db3.
Proof.
  intros (Ha & Ha' & Ha'' & Hf) (Hb & Hb' & Hb'' & Hg). split_and!; try congruence.
  intros id. rewrite Hg, Hf. by destruct (outbox_events db1 !! id).
Qed.

Lemma process_tx_ok limit publish (t t' : tx W) result :
  process_tx limit publish t = (Ok result, t') →
  let batch := scanOutboxEvent <$> claimed_rows (tx_locked t) limit (tx_db t) in
  (batch = [] ∧ result = zero_PublishResult ∧ tx_db t' = tx_db t ∧ tx_ext t' = tx_ext t) ∨
  (batch ≠ [] ∧ publish batch (tx_ext t) = (result, tx_ext t') ∧
   outbox_step (settle (tx_now t) result) (tx_db t) (tx_db t')).
Proof.
  unfold process_tx. unfold tx_bind at 1.
  destruct (claimPending limit t) as [[batch|e] t1] eqn:Ec; [|done].
  apply claimPending_ok in Ec as (Hdb & Hext & Hnow & <-).
  destruct batch as [|b batch]; [intros [= <- <-]; by left|].
  intros Ht. right. split; [done|]. revert Ht.
  unfold tx_do, tx_bind. rewrite Hext.
  destruct (publish (b :: batch) (tx_ext t)) as [res w] eqn:Ep.
  destruct (mark_tx res _) as [[u|e] t3] eqn:Em; [|done].
  apply mark_tx_ok in Em as (E1 & E2 & Hm). simpl in *.
  destruct (fail_tx res t3) as [[u'|e] t4] eqn:Ef; [|done].
  apply fail_tx_ok in Ef as (E3 & E4 & Hf).
  intros [= -> <-]. rewrite E3, E1. split; [done|].
  rewrite Hdb, Hnow in Hm. exact (outbox_step_trans _ _ _ _ _ Hm Hf).
Qed.

Lemma ProcessPending_cases limit publish st r st' :
  ProcessPending limit publish st = (r, st') →
  ∃ now locked,
    let batch := scanOutboxEvent <$> claimed_rows locked limit (st_db st) in
    match r with
    | Ok result =>
        (batch = [] ∧ result = zero_PublishResult ∧ st' = st) ∨
        (batch ≠ [] ∧ publish batch (st_ext st) = (result, st_ext st') ∧
         outbox_step (settle now result) (st_db st) (st_db st'))
    | Err e =>
        st_db st' = st_db st ∨
        (batch ≠ [] ∧ ∃ result, publish batch (st_ext st) = (result, st_ext st') ∧
         outbox_step (settle now result) (st_db st) (st_db st'))
    end.
Proof.
  intros (r0 & E & ->)%classified_eq.
  apply BeginFunc_cases in E as [(e & -> & -> & He)|(now & locked & fs & r' & t & Hf & Hb & Hx & Hc)].
  { exists zero_Time, ∅. by left. }
  exists now, locked.
  destruct Hc as [(e & -> & -> & Hdb)|[(a & -> & -> & Hdb)|(a & e & -> & -> & He & Hdb)]]; cbn zeta.
  - by left.
  - apply process_tx_ok in Hb as [(Hn & -> & H1 & H2)|(Hn & H1 & H2)]; simpl in *.
    + left. destruct st, st'. simpl in *. by subst.
    + right. by rewrite Hx, Hdb.
  - destruct Hdb as [Hdb|Hdb]; [|by left].
    apply process_tx_ok in Hb as [(Hn & -> & H1 & H2)|(Hn & H1 & H2)]; simpl in *.
    + left. congruence.
    + right. split; [done|]. exists a. by rewrite Hx, Hdb.
Qed.

(** *** Reading an event *)

Lemma GetOutboxEvent_cases id st r st' :
  GetOutboxEvent id st = (r, st') →
  st_db st' = st_db st ∧ st_ext st' = st_ext st ∧
  match r with
  | Ok evt => ∃ row, outbox_events (st_db st) !! id = Some row ∧ evt = scanOutboxEvent (id, row)
  | Err _ => True
  end.
Proof.
  unfold GetOutboxEvent. destruct (Query (select_outbox id) st) as [rows st1] eqn:E.
  apply Query_cases in E as [(e & -> & -> & _)|(nw & a & -> & Hs & Hx)].
  - destruct (Is e ErrNoRows); by intros [= <- <-].
  - unfold select_outbox in Hs. stmt_ok. destruct (outbox_events (st_db st) !! id) as [row|] eqn:Er; stmt_ok;
      intros [= <- <-]; [split_and!; [done..|by exists row]|done].
Qed.

(** *** Every transaction keeps the constraints of the schema *)

Definition tx_keeps {A} (m : TX W A) : Prop :=
  ∀ t r t', db_ok (tx_db t) → m t = (r, t') → db_ok (tx_db t').

Lemma keeps_ret {A} (a : A) : tx_keeps (tx_ret a).
Proof. intros t r t' H [= _ <-]. done. Qed.
Lemma keeps_fail {A} e : tx_keeps (@tx_fail W A e).
Proof. intros t r t' H [= _ <-]. done. Qed.
Lemma keeps_bind {A B} (m : TX W A) (f : A → TX W B) :
  tx_keeps m → (∀ a, tx_keeps (f a)) → tx_keeps (tx_bind m f).
Proof.
  intros Hm Hf t r t' H. unfold tx_bind. destruct (m t) as [[a|e] t1] eqn:E; intros E'.
  - eapply Hf; [|done]. by eapply Hm.
  - injection E' as _ <-. by eapply Hm.
Qed.
Lemma keeps_map_err {A} f (m : TX W A) : tx_keeps m → tx_keeps (tx_map_err f m).
Proof.
  intros Hm t r t' H. unfold tx_map_err. destruct (m t) eqn:E. intros [= _ <-]. by eapply Hm.
Qed.
Lemma keeps_try {A} (m : TX W A) : tx_keeps m → tx_keeps (tx_try m).
Proof.
  intros Hm t r t' H. unfold tx_try. destruct (m t) eqn:E. intros [= _ <-]. by eapply Hm.
Qed.
Lemma keeps_do {A} (f : W → A * W) : tx_keeps (tx_do f).
Proof. intros t r t' H. unfold tx_do. destruct (f _). by intros [= _ <-]. Qed.
Lemma keeps_exec {A} (stmt : Stmt A) : stmt_keeps stmt → tx_keeps (exec stmt).
Proof.
  intros Hs t r t' H E. destruct (exec_cases stmt t)
    as (fs & _ & [(e & E' & _)|(a & db & E' & Hr)]); rewrite E' in E; injection E as _ <-; simpl.
  - done.
  - by eapply Hs.
Qed.
Lemma select_pending_keeps locked limit : stmt_keeps (select_pending locked limit).
Proof. intros now db a db' H (-> & _)%select_pending_db. done. Qed.

Lemma claimPending_keeps limit : tx_keeps (claimPending limit).
Proof.
  intros t r t' H E. revert E. unfold claimPending.
  apply (keeps_bind (tx_map_err _ (exec _)) (λ rows, tx_ret _)); [|intros; apply keeps_ret|done].
  apply keeps_map_err, keeps_exec, select_pending_keeps.
Qed.

Create HintDb parcel_keeps discriminated.
Hint Resolve keeps_ret keeps_fail keeps_bind keeps_map_err keeps_try keeps_do keeps_exec
  claimPending_keeps : parcel_keeps.

Lemma create_tx_keeps s evt : tx_keeps (create_tx s evt).
Proof. unfold create_tx. eauto 8 with parcel_keeps parcel_db. Qed.

Lemma record_tx_keeps req : tx_keeps (record_tx req).
Proof.
  unfold record_tx. apply keeps_bind; [by eauto with parcel_keeps parcel_db|].
  intros rows. case_bool_decide; [apply keeps_ret|].
  apply keeps_bind; [apply keeps_do|]. intros rnd.
  apply keeps_bind; [by eauto with parcel_keeps parcel_db|].
  intros [at_|e]; [apply keeps_ret|]. case_match; apply keeps_fail.
Qed.

Lemma process_tx_keeps limit publish : tx_keeps (process_tx limit publish).
Proof.
  unfold process_tx. apply keeps_bind; [apply claimPending_keeps|]. intros [|b batch]; [apply keeps_ret|].
  apply keeps_bind; [apply keeps_do|]. intros result.
  apply keeps_bind; [|intros _; apply keeps_bind; [|intros _; apply keeps_ret]].
  - unfold mark_tx. destruct (pr_Published result); eauto with parcel_keeps parcel_db.
  - unfold fail_tx. case_bool_decide; eauto with parcel_keeps parcel_db.
Qed.

Lemma BeginFunc_keeps {A} (body : TX W A) st :
  tx_keeps body → db_ok (st_db st) → db_ok (st_db (BeginFunc body st).2).
Proof.
  intros Hk Hok. destruct (BeginFunc body st) as [r st'] eqn:E.
  apply BeginFunc_cases in E as [(e & -> & -> & He)|(now & locked & fs & r' & t & Hf & Hb & _ & Hc)];
    [done|]. simpl.
  assert (db_ok (tx_db t)) by (eapply Hk; [|done]; done).
  destruct Hc as [(e & _ & _ & ->)|[(a & _ & _ & ->)|(a & e & _ & _ & _ & [->| ->])]]; done.
Qed.

Lemma RecordDispatch_keeps req st : db_ok (st_db st) → db_ok (st_db (RecordDispatch req st).2).
Proof. apply BeginFunc_keeps, record_tx_keeps. Qed.
Lemma CreateShipment_keeps s evt st : db_ok (st_db st) → db_ok (st_db (CreateShipment s evt st).2).
Proof. apply BeginFunc_keeps, create_tx_keeps. Qed.
Lemma ProcessPending_keeps limit publish st :
  db_ok (st_db st) → db_ok (st_db (ProcessPending limit publish st).2).
Proof. apply BeginFunc_keeps, process_tx_keeps. Qed.

(** *** The tables agree with each other *)

(** What the Store's transactions maintain between the tables, beyond what the
    schema checks of each statement: a shipment has exactly one outbox event,
    written at the same time, a processed event exactly one dispatch, recorded
    at the same time, and an outbox row counts its attempts: published rows had one
    and keep no error, pending rows have an error exactly when one was made. *)
Record consistent db : Prop := mk_consistent {
  cs_schema : db_ok db;
  cs_event : ∀ sid s, shipments db !! sid = Some s →
    ∃ id o, outbox_events db !! id = Some o ∧ or_shipment_id o = sid ∧ or_created_at o = sr_created_at s;
  cs_one_event : ∀ i j o o', outbox_events db !! i = Some o → outbox_events db !! j = Some o' →
    or_shipment_id o = or_shipment_id o' → i = j;
  cs_dispatch : ∀ ev at_, processed_events db !! ev = Some at_ →
    ∃ id d, dispatches db !! id = Some d ∧ dr_event_id d = ev ∧ dr_dispatched_at d = at_;
  cs_one_dispatch : ∀ i j d d', dispatches db !! i = Some d → dispatches db !! j = Some d' →
    dr_event_id d = dr_event_id d' → i = j;
  cs_row : map_Forall (λ _ o, counted o) (outbox_events db)
}.

Lemma empty_DB_consistent : consistent empty_DB.
Proof.
  split; [apply empty_DB_ok|..]; cbn;
    [intros ? ? H|intros ? ? ? ? H|intros ? ? H|intros ? ? ? ? H|intros ? ? H]; by rewrite lookup_empty in H.
Qed.

Lemma created_consistent s evt db db' :
  oe_ShipmentID evt = s_ID s → created s evt db db' → db_ok db' → consistent db → consistent db'.
Proof.
  intros Hid (Hs & Ho & _ & _ & currency & p & _ & _ & ->) Hok [H0 H1 H2 H3 H4 H5].
  assert (∀ i o, outbox_events db !! i = Some o → or_shipment_id o ≠ s_ID s) as Hnew.
  { intros i o Hi Heq. destruct (ok_outbox _ H0 _ _ Hi) as (_ & [x Hx] & _). congruence. }
  split; cbn in *; [done|..|done|done|].
  - intros sid sr. rewrite lookup_insert. case_decide as Hd.
    + intros [= <-]. eexists _, _. split; [apply lookup_insert_eq|]. by subst.
    + intros (i & o & Hi & ?)%H1. exists i, o. split; [|done]. rewrite lookup_insert_ne; [done|congruence].
  - intros i j o o'. rewrite !lookup_insert. repeat case_decide; intros; simplify_eq/=; [done|..|by eapply H2].
    + exfalso. eapply Hnew; [done|congruence].
    + exfalso. eapply Hnew; [done|congruence].
  - apply map_Forall_insert_2; [|done]. done.
Qed.

Lemma recorded_consistent req d db db' :
  recorded req d db db' → db_ok db' → consistent db → consistent db'.
Proof.
  intros (Hp & _ & Hd & _ & _ & c & _ & ->) Hok [H0 H1 H2 H3 H4 H5].
  assert (∀ i r, dispatches db !! i = Some r → dr_event_id r ≠ rq_EventID req) as Hnew.
  { intros i r Hi Heq. destruct (ok_dispatches _ H0 _ _ Hi) as (_ & [x Hx] & _). congruence. }
  split; cbn in *; [done..| | |done].
  - intros ev at_. rewrite lookup_insert. case_decide as He.
    + intros [= <-]. eexists _, _. split; [apply lookup_insert_eq|]. by subst.
    + intros (i & r & Hi & ?)%H3. exists i, r. split; [|done]. rewrite lookup_insert_ne; [done|congruence].
  - intros i j r r'. rewrite !lookup_insert. repeat case_decide; intros; simplify_eq/=; [done|..|by eapply H4].
    + exfalso. by eapply Hnew.
    + exfalso. by eapply Hnew.
Qed.

(** An honest publisher reports as failed an event still pending, and not also as
    published. *)
Lemma settled_consistent now result db db' :
  outbox_step (settle now result) db db' → db_ok db' →
  (∀ o, pr_Failed result ≠ "" → outbox_events db !! pr_Failed result = Some o → pending o) →
  (pr_Failed result ≠ "" → pr_Failed result ∉ pr_Published result) →
  consistent db → consistent db'.
Proof.
  intros (Es & Ep & Ed & Ho) Hok Hpub Hfail [H0 H1 H2 H3 H4 H5].
  split; [done|..]; rewrite ?Es, ?Ep, ?Ed; [| |done|done|].
  - intros sid s (i & o & Hi & Hsid & Hat)%H1. exists i. eexists. rewrite Ho, Hi. split; [done|].
    destruct (settle_same now result i o) as (_ & -> & _ & ->). done.
  - intros i j o o' Hi Hj. rewrite Ho in Hi, Hj.
    apply fmap_Some in Hi as (r & Hi & ->). apply fmap_Some in Hj as (r' & Hj & ->).
    destruct (settle_same now result i r) as (_ & -> & _).
    destruct (settle_same now result j r') as (_ & -> & _). by apply H2.
  - intros id o' Hi. rewrite Ho in Hi. apply fmap_Some in Hi as (o & Hi & ->).
    apply settle_counted; [by apply (H5 _ _ Hi)|intros Hn ->; by apply (Hpub _ Hn)|done].
Qed.

(** *** The claimed batch *)

Lemma created_le_total (a b : string * OutboxRow) : created_le a b ∨ created_le b a.
Proof. unfold created_le, time_le. lia. Qed.
#[local] Instance created_le_trans : Transitive created_le.
Proof. intros a b c. unfold created_le, time_le. lia. Qed.
#[local] Instance created_le_Total : Total created_le.
Proof. intros a b. apply created_le_total. Qed.

Lemma claimed_rows_perm locked limit db :
  ∃ rest, claimed_rows locked limit db ++ rest ≡ₚ claimable locked db ∧
    StronglySorted created_le (claimed_rows locked limit db ++ rest) ∧
    (rest ≠ [] → length (claimed_rows locked limit db) = Z.to_nat limit).
Proof.
  unfold claimed_rows. set (l := merge_sort _ _). exists (drop (Z.to_nat limit) l).
  rewrite take_drop. split; [apply merge_sort_Permutation|].
  split; [apply (StronglySorted_merge_sort _)|].
  intros Hr. rewrite length_take. assert (¬ length l ≤ Z.to_nat limit); [|lia].
  intros ?. by apply Hr, drop_ge.
Qed.

Lemma claimable_elem locked db id row :
  (id, row) ∈ claimable locked db ↔
  outbox_events db !! id = Some row ∧ pending row ∧ id ∉ locked.
Proof.
  unfold claimable. rewrite list_elem_of_filter, scan_perm, elem_of_map_to_list. naive_solver.
Qed.

Lemma claimable_NoDup locked db : NoDup (claimable locked db).*1.
Proof.
  unfold claimable. eapply sublist_NoDup; [|apply fmap_sublist, sublist_filter].
  rewrite scan_perm. apply NoDup_fst_map_to_list.
Qed.

(** What the batch has and what it leaves out. *)
Lemma claimed_facts locked limit db :
  let rows := claimed_rows locked limit db in
  NoDup rows.*1 ∧ length rows ≤ Z.to_nat limit ∧ StronglySorted created_le rows ∧
  (∀ id row, (id, row) ∈ rows → outbox_events db !! id = Some row ∧ pending row ∧ id ∉ locked) ∧
  (∀ id row, outbox_events db !! id = Some row → pending row → id ∉ locked →
     (id, row) ∈ rows ∨
     (length rows = Z.to_nat limit ∧ ∀ p, p ∈ rows → created_le p (id, row))).
Proof.
  cbn zeta. destruct (claimed_rows_perm locked limit db) as (rest & Hp & Hs & Hfull).
  assert (NoDup ((claimed_rows locked limit db ++ rest).*1)) as Hnd
    by (rewrite Hp; apply claimable_NoDup).
  rewrite fmap_app in Hnd. apply list.NoDup_app in Hnd as (Hnd & _ & _).
  apply StronglySorted_app in Hs as (Hb & Hs & _).
  split; [done|]. split; [unfold claimed_rows; rewrite length_take; lia|]. split; [done|]. split.
  - intros id row Hin. apply claimable_elem. rewrite <- Hp. apply elem_of_app. by left.
  - intros id row H1 H2 H3.
    assert ((id, row) ∈ claimed_rows locked limit db ++ rest) as [Hin|Hin]%elem_of_app;
      [rewrite Hp; by apply claimable_elem|by left|right].
    split; [apply Hfull; by destruct rest; [apply not_elem_of_nil in Hin|]|].
    intros p Hpin. by apply Hb.
Qed.

Lemma claimed_ids locked limit db :
  oe_EventID <$> (scanOutboxEvent <$> claimed_rows locked limit db) = (claimed_rows locked limit db).*1.
Proof. by rewrite <- list_fmap_compose. Qed.

Lemma StronglySorted_fmap {A B} (R : B → B → Prop) (f : A → B) l :
  StronglySorted (λ a b, R (f a) (f b)) l → StronglySorted R (f <$> l).
Proof.
  induction 1 as [|a l _ IH Ha]; cbn; [constructor|]. constructor; [done|]. by apply Forall_fmap.
Qed.

End store_facts.

Section read_back.
Context {IJ : Jsonb} {IS : PgScan} {IP : Pgconn} {W : Type} {IPool : Pool W} {IR : Rand W}.
Implicit Types (st : St W) (db : DB).

(** *** Reading a created shipment back *)

Lemma upper_not_nul c : is_upper c = true → is_ascii c && negb (Ascii.eqb c "000") = true.
Proof. by destruct c as [[] [] [] [] [] [] [] []]. Qed.

Lemma upper_text_ok s : str_forall is_upper s = true → text_ok s = true ∧ length (runes s) = String.length s.
Proof.
  intros Hs. unfold text_ok.
  assert (str_forall (λ c, is_ascii c && negb (Ascii.eqb c "000")) s = true) as Ha.
  { induction s as [|c s IH]; [done|]. cbn [str_forall] in *.
    apply andb_true_iff in Hs as [Hc Hs]. by rewrite upper_not_nul, IH. }
  assert (str_forall is_ascii s = true ∧ str_forall (λ c, negb (Ascii.eqb c "000")) s = true) as [H1 ->].
  { clear Hs. induction s as [|c s IH]; [done|]. cbn [str_forall] in *.
    rewrite !andb_true_iff in Ha. destruct Ha as [[-> ->] Ha]. by destruct (IH Ha) as [-> ->]. }
  rewrite ascii_valid by done. split; [done|]. clear Ha Hs.
  induction s as [|c s IH]; [done|]. cbn [str_forall runes] in *.
  apply andb_true_iff in H1 as [-> H1]. cbn [length String.length]. by rewrite IH.
Qed.

Lemma currency_char3 c : isCurrencyCode c = true → pg_char3 c = Ok c.
Proof.
  unfold isCurrencyCode. intros [Hl%Nat.eqb_eq Hf]%andb_true_iff.
  destruct (upper_text_ok c Hf) as [Ht Hn]. unfold pg_char3, pg_text. rewrite Ht. cbn.
  by rewrite Hn, Hl.
Qed.

Lemma filter_none {A} (P : A → Prop) `{!∀ x, Decision (P x)} l :
  (∀ x, x ∈ l → ¬ P x) → filter P l = [].
Proof.
  induction l as [|x l IH]; intros Hno; [done|].
  rewrite filter_cons_False by (apply Hno; left). apply IH. intros y Hy. apply Hno. by right.
Qed.

(** The join of a shipment that was just created has one row: its event, not
    published, and no dispatch. *)
Lemma select_created s evt db db' payload currency now :
  db_ok db → shipments db !! s_ID s = None → outbox_events db !! oe_EventID evt = None →
  oe_ShipmentID evt = s_ID s → oe_EventType evt = "shipment.created" → text_ok (s_ID s) = true →
  db' = set_outbox <[oe_EventID evt := outbox_row s evt payload]>
          (set_shipments <[s_ID s := shipment_row s currency]> db) →
  select_shipment (s_ID s) now db' =
    Ok ([(s_ID s, shipment_row s currency, Some None, None)], db').
Proof.
  intros [_ Hout Hdis _] Hs Ho Hsid Hty Htxt ->. unfold select_shipment, pg_text. rewrite Htxt. cbn.
  rewrite lookup_insert_eq.
  assert (filter (λ p, or_shipment_id p.2 = s_ID s ∧ or_event_type p.2 = "shipment.created")
    (scan (<[oe_EventID evt := outbox_row s evt payload]> (outbox_events db)))
    = [(oe_EventID evt, outbox_row s evt payload)]) as ->.
  { apply Permutation_singleton_r. rewrite scan_perm, map_to_list_insert by done.
    rewrite filter_cons_True by done. constructor.
    rewrite filter_none; [done|]. intros [id row] Hin%elem_of_map_to_list [Hid _].
    simpl in Hid. destruct (Hout _ _ Hin) as (_ & [x Hx] & _). congruence. }
  cbn. do 4 f_equal. apply dispatch_of_None. cbn. intros id row Hr Hid.
  destruct (Hdis _ _ Hr) as [[x Hx] _]. congruence.
Qed.

(** The values of a shipment and its event fit their columns, and neither
    identifier is taken. *)
Definition storable (s : Shipment) (evt : OutboxEvent) db : Prop :=
  valid_weight (s_WeightGrams s) ∧ (0 ≤ AmountCents (s_Price s))%Z ∧
  text_ok (s_ID s) = true ∧ isCurrencyCode (Currency (s_Price s)) = true ∧
  text_ok (oe_EventID evt) = true ∧ oe_ShipmentID evt = s_ID s ∧ text_ok (oe_EventType evt) = true ∧
  is_Some (jsonb_text (oe_Payload evt)) ∧
  shipments db !! s_ID s = None ∧ outbox_events db !! oe_EventID evt = None.

Lemma create_tx_runs s evt (t : tx W) :
  storable s evt (tx_db t) → tx_faults t = [] → ∃ t', create_tx s evt t = (Ok (), t').
Proof.
  intros (Hw & Ha & Hi & Hc & He & Hs & Hy & [p Hp] & Hn & Ho) Hf.
  unfold create_tx, tx_bind, tx_map_err, exec. rewrite Hf. cbn [tail].
  unfold insert_shipment, pg_text. rewrite Hi, (currency_char3 _ Hc). cbn.
  unfold valid_weight in Hw.
  rewrite (proj2 (Z.leb_le 1 (s_WeightGrams s))), (proj2 (Z.leb_le (s_WeightGrams s) 30000)),
    (proj2 (Z.leb_le 0 (AmountCents (s_Price s)))) by lia.
  rewrite (proj2 (has_shipment_false _ _) Hn). cbn.
  unfold insert_outbox, pg_text. rewrite He, Hs, Hi, Hy, Hp. cbn.
  rewrite bool_decide_eq_true_2 by done. cbn.
  rewrite (proj2 (has_shipment_true _ _)); [by eexists|cbn; by rewrite lookup_insert_eq].
Qed.

End read_back.

(** ** Reference instances

    A database that never fails and whose clock stands still, randomness that is
    always the same, and a scan in key order: what the examples run on. *)
Definition ref_PgScan : PgScan.
Proof. refine {| at_Query := λ _, true; scan := λ A m, map_to_list m |}. done. Defined.

Definition ref_Pgconn : Pgconn := {| SafeToRetry := λ _, false |}.

Definition ref_Rand (W : Type) : Rand W := {| rand8 := λ w, ("01234567", w) |}.

Definition ref_begin {W A} (now : Time) (body : TX W A) (st : St W) : res A * St W :=
  match body (mkTx now ∅ [] (st_ext st) (st_db st)) with
  | (Ok a, t) => (Ok a, mkSt (tx_ext t) (tx_db t))
  | (Err e, t) => (Err e, mkSt (tx_ext t) (st_db st))
  end.

Definition ref_query {W A} (now : Time) (stmt : Stmt A) (st : St W) : res A * St W :=
  match stmt now (st_db st) with
  | Ok (a, db) => (Ok a, mkSt (st_ext st) db)
  | Err e => (Err e, st)
  end.

(** A transaction, or a query, that the database runs without failing. *)
Definition works {W A} `{!Pool W} (body : TX W A) (st : St W) : Prop :=
  ∃ now, BeginFunc body st = ref_begin now body st.
Definition answers {W A} `{!Pool W} (stmt : Stmt A) (st : St W) : Prop :=
  ∃ now, Query stmt st = ref_query now stmt st.

Definition ref_Pool (W : Type) (now : Time) : Pool W.
Proof.
  refine {| BeginFunc A := @ref_begin W A now; Query A := @ref_query W A now |}.
  - intros A body st. unfold ref_begin. destruct (body _) as [[a|e] t] eqn:E.
    + eapply committed; [|exact E]. by constructor.
    + eapply body_failed; [|exact E]. by constructor.
  - intros A stmt st. apply (query_ran stmt st now).
Defined.

(** The reference database never fails. *)
Lemma ref_works {W A} at_ (body : TX W A) st : @works W A (ref_Pool W at_) body st.
Proof. by exists at_. Qed.
Lemma ref_answers {W A} at_ (stmt : Stmt A) st : @answers W A (ref_Pool W at_) stmt st.
Proof. by exists at_. Qed.

(** ** Properties *)

Section store_claims.
Context {IJ : Jsonb} {IS : PgScan} {IP : Pgconn} {W : Type} {IPool : Pool W} {IR : Rand W}.
Implicit Types (st : St W).

(** C11: recording a dispatch happens entirely or not at all, whatever fails on
    the way.  A new dispatch is reported only when both rows were added, for an
    event not seen before and a shipment without a dispatch; a duplicate only
    when the event had been processed, and nothing changed; the conflict error
    only when another dispatch is in the way, and nothing changed.  After any
    other error the tables are unchanged or hold exactly the two rows. *)
Theorem RecordDispatch_all_or_nothing req st :
  let (r, st') := RecordDispatch req st in
  match r with
  | Ok (_, true) => is_Some (processed_events (st_db st) !! rq_EventID req) ∧ st_db st' = st_db st
  | Ok (d, false) => recorded req d (st_db st) (st_db st')
  | Err e =>
      (st_db st' = st_db st ∨ ∃ d, recorded req d (st_db st) (st_db st')) ∧
      (Is e ErrDispatchConflict = true → in_conflict req (st_db st) ∧ st_db st' = st_db st)
  end.
Proof.
  destruct (RecordDispatch req st) as [r st'] eqn:E. apply RecordDispatch_cases in E.
  destruct r as [[d []]|e]; [by destruct E|done..].
Qed.

(** C17: recording is idempotent: once an event has been recorded or recognised,
    recording it again, later and in any state that still knows the event,
    changes nothing.  When the database does not fail it reports a duplicate; an
    error can only be one from outside the tables, a lost connection or an ended
    context say, and never a unique violation or a conflict. *)
Theorem RecordDispatch_idempotent req st d dup st1 st2 r st3 :
  RecordDispatch req st = (Ok (d, dup), st1) →
  processed_events (st_db st1) ⊆ processed_events (st_db st2) →
  RecordDispatch req st2 = (r, st3) →
  st_db st3 = st_db st2 ∧
  ((∃ d', r = Ok (d', true)) ∨
   (∃ e, r = Err (classify e) ∧ fault_ok e = true ∧ ¬ works (record_tx req) st2)).
Proof.
  intros E Hsub (r0 & E2 & ->)%classified_eq. pose proof (RecordDispatch_text _ _ _ _ E) as Ht.
  assert (is_Some (processed_events (st_db st2) !! rq_EventID req)) as Hp.
  { apply RecordDispatch_cases in E. destruct dup.
    - destruct E as (_ & [t E] & E1). exists t. eapply lookup_weaken; [|done]. congruence.
    - apply recorded_ok in E as [E1 _]. eexists. by eapply lookup_weaken. }
  assert (works (record_tx req) st2 → ∃ d', r0 = Ok (d', true)) as Hw.
  { intros [now Hnow]. unfold ref_begin in Hnow. rewrite E2 in Hnow.
    destruct (record_tx req _) as [r' t'] eqn:Eb.
    assert (faults_ok []) as Hf by constructor.
    destruct (record_tx_again _ (mkTx now ∅ [] _ _) _ _ Hf Ht Hp Eb) as [_ [[d' ->]|(e & -> & _ & [])]]; [|done].
    injection Hnow as -> _. by eexists. }
  apply BeginFunc_cases in E2 as [(e & -> & -> & He)|(now & locked & fs & r' & t & Hf & Hb & _ & Hc)].
  { split; [done|]. right. exists e. split; [done|]. split; [done|]. by intros [? [=]]%Hw. }
  apply record_tx_again in Hb as [Hdb Hr]; [|done..]. simpl in Hdb.
  destruct Hc as [(e & -> & -> & Hst)|[(a & -> & -> & Hst)|(a & e & -> & -> & He & Hst)]].
  - split; [done|]. right. destruct Hr as [[d' [=]]|(e' & [= <-] & Hfe & _)]. exists e.
    split; [done|]. split; [done|]. by intros [? [=]]%Hw.
  - split; [congruence|]. left. destruct Hr as [[d' [= ->]]|(? & [=] & _)]. by exists d'.
  - split; [destruct Hst; congruence|]. right. exists e. split; [done|]. split; [done|].
    by intros [? [=]]%Hw.
Qed.

(** Creating a shipment writes the shipment and its outbox event together or
    not at all; when it reports success both are there, the event is pending
    with no attempts, and its payload is what the jsonb column keeps. *)
Theorem CreateShipment_atomic s evt st :
  let (r, st') := CreateShipment s evt st in
  match r with
  | Ok _ => created s evt (st_db st) (st_db st')
  | Err e => st_db st' = st_db st ∨ created s evt (st_db st) (st_db st')
  end.
Proof. destruct (CreateShipment s evt st) as [r st'] eqn:E. by apply CreateShipment_cases in E. Qed.

(** C20: processing the outbox hands the publisher exactly the claimed batch, once,
    and on success changes each row as the publisher reported it: acknowledged
    events get [published_at] and lose their error, the failed one gets its
    error, both count an attempt, and every other row and table is unchanged.
    With nothing to claim nothing happens at all; after an error the tables are
    unchanged or, when only the answer of the commit was lost, changed in
    exactly that way. *)
Theorem ProcessPending_marks_acknowledged limit publish st :
  let (r, st') := ProcessPending limit publish st in
  ∃ now locked,
    let batch := scanOutboxEvent <$> claimed_rows locked limit (st_db st) in
    match r with
    | Ok result =>
        (batch = [] ∧ result = zero_PublishResult ∧ st' = st) ∨
        (batch ≠ [] ∧ publish batch (st_ext st) = (result, st_ext st') ∧
         outbox_step (settle now result) (st_db st) (st_db st'))
    | Err e =>
        st_db st' = st_db st ∨
        (batch ≠ [] ∧ ∃ result, publish batch (st_ext st) = (result, st_ext st') ∧
         outbox_step (settle now result) (st_db st) (st_db st'))
    end.
Proof.
  destruct (ProcessPending limit publish st) as [r st'] eqn:E.
  by apply ProcessPending_cases in E.
Qed.

(** C23: claiming reads and changes nothing else.  The batch it returns has no
    event twice and at most [limit] of them, each a pending row that no other
    transaction holds with that row's columns, oldest first; a pending row that
    nobody holds is left out only when the batch is full, and then no event of
    the batch is younger.  It fails only on a negative limit or when the
    statement fails. *)
Theorem claimed_batch_oldest_first limit (t : tx W) :
  let (r, t') := claimPending limit t in
  tx_db t' = tx_db t ∧ tx_ext t' = tx_ext t ∧ tx_locked t' = tx_locked t ∧
  match r with
  | Ok batch =>
      (0 ≤ limit)%Z ∧ NoDup (oe_EventID <$> batch) ∧ (Z.of_nat (length batch) ≤ limit)%Z ∧
      StronglySorted (λ a b, time_le (oe_CreatedAt a) (oe_CreatedAt b)) batch ∧
      (∀ evt, evt ∈ batch → oe_EventID evt ∉ tx_locked t ∧
         ∃ row, outbox_events (tx_db t) !! oe_EventID evt = Some row ∧ pending row ∧
           evt = scanOutboxEvent (oe_EventID evt, row)) ∧
      (∀ id row, outbox_events (tx_db t) !! id = Some row → pending row → id ∉ tx_locked t →
         id ∈ oe_EventID <$> batch ∨
         (Z.of_nat (length batch) = limit ∧
          ∀ evt, evt ∈ batch → time_le (oe_CreatedAt evt) (or_created_at row)))
  | Err e => ∃ e0, e = claim_err e0 ∧
      (Some e0 ∈ tx_faults t ∨ (limit < 0)%Z ∧ e0 = EPg InvalidLimit "")
  end.
Proof.
  destruct (claimPending limit t) as [r t'] eqn:E.
  apply claimPending_same in E as (Hdb & Hx & _ & Hl & E). split_and!; [done..|].
  destruct r as [batch|e]; [|done]. destruct E as [H0 ->]. split; [done|].
  destruct (claimed_facts (tx_locked t) limit (tx_db t)) as (Hnd & Hlen & Hs & Hin & Hout).
  rewrite claimed_ids, length_fmap. split; [done|]. split; [lia|]. split; [|split].
  - apply StronglySorted_fmap. exact Hs.
  - intros evt ([id row] & -> & (Hr & Hp & Hk)%Hin)%list_elem_of_fmap. split; [done|]. by exists row.
  - intros id row Hr Hp Hk. destruct (Hout id row Hr Hp Hk) as [Hi|[Hf Ho]].
    + left. apply list_elem_of_fmap. by exists (id, row).
    + right. split; [lia|]. intros evt (p & -> & Hp')%list_elem_of_fmap. destruct p. by apply (Ho _ Hp').
Qed.

(** C24: a valid shipment is created and read back.  On a database that does not
    fail, a new shipment whose values fit their columns is created, and
    reading it right afterwards gives the shipment that was stored, to the
    microsecond, with its event pending and no dispatch.  Whatever else fails, a
    read that follows a reported creation gives that same view or the error of a
    query that could not be run, never that the shipment does not exist. *)
Theorem CreateShipment_read_back s evt st :
  db_ok (st_db st) → text_ok (s_ID s) = true → isCurrencyCode (Currency (s_Price s)) = true →
  oe_ShipmentID evt = s_ID s → oe_EventType evt = "shipment.created" →
  let v := mkView (mkShipment (s_ID s) (s_WeightGrams s) (s_Price s) (pg_timestamptz (s_CreatedAt s)))
             OutboxPending (mkDispatch DispatchPending "" "" zero_Time) in
  (∀ st', CreateShipment s evt st = (Ok (), st') →
     (answers (select_shipment (s_ID s)) st' → (GetShipment (s_ID s) st').1 = Ok v) ∧
     ((GetShipment (s_ID s) st').1 = Ok v ∨
      ∃ e, (GetShipment (s_ID s) st').1 = Err (wrapf "query shipment: " (classify e)) ∧
        foreign e = true ∧ Is (wrapf "query shipment: " (classify e)) ErrNotFound = false)) ∧
  (storable s evt (st_db st) → works (create_tx s evt) st →
     ∃ st', CreateShipment s evt st = (Ok (), st')).
Proof.
  intros Hok Ht Hc Hid Hty v. split.
  - intros st' Hcr%CreateShipment_cases.
    destruct Hcr as (H1 & H2 & _ & _ & currency & payload & Hcur & _ & Hdb).
    rewrite currency_char3 in Hcur by done. apply (inj Ok) in Hcur as <-.
    assert (view (scan_shipment (s_ID s, shipment_row s (Currency (s_Price s)), Some None, None)) = v) as Hv
      by by destruct s as [? ? [] ?].
    unfold GetShipment. split.
    + intros [now Hq]. rewrite Hq. unfold ref_query.
      rewrite (select_created _ _ _ _ _ _ now Hok H1 H2 Hid Hty Ht Hdb). exact (f_equal Ok Hv).
    + destruct (Query _ st') as [q st1] eqn:Eq. apply Query_cases in Eq as [(e & -> & _ & He)|H].
      * destruct He as [[Hf Hn]|[now He]];
          [|by rewrite (select_created _ _ _ _ _ _ now Hok H1 H2 Hid Hty Ht Hdb) in He].
        right. exists e. rewrite Hn. split; [done|]. split; [done|].
        rewrite Is_wrapf_any. unfold ErrNotFound. rewrite Is_classify by done. by apply foreign_Is.
      * destruct H as (now & rows & -> & Hq & _).
        rewrite (select_created _ _ _ _ _ _ now Hok H1 H2 Hid Hty Ht Hdb) in Hq.
        injection Hq as <- _. left. exact (f_equal Ok Hv).
  - intros Hst [now Hw]. unfold CreateShipment, ref_begin in *. rewrite Hw.
    destruct (create_tx_runs s evt (mkTx now ∅ [] (st_ext st) (st_db st))) as [t' ->]; [done..|].
    by eexists.
Qed.

End store_claims.

(** ** Examples *)

Section examples.
#[local] Existing Instances ref_PgScan ref_Pgconn.
#[local] Instance ex_pool : Pool () := ref_Pool () (mkTime 1700000100 0 0).
#[local] Instance ex_rand : Rand () := ref_Rand ().

Definition ex_shipment : Shipment :=
  mkShipment "shp_1" 1500 (mkMoney 700 "EUR") (mkTime 1700000000 123456789 0).
Definition ex_event : OutboxEvent :=
  mkOutboxEvent "evt_1" "shp_1" "shipment.created" "{}" (mkTime 1700000000 123456789 0) 0.
Definition ex_request : DispatchRequest := mkDispatchRequest "evt_1" "shp_1" 700 "EUR".
Definition ex_st0 : St () := mkSt () empty_DB.
Definition ex_st1 : St () := (CreateShipment ex_shipment ex_event ex_st0).2.
Definition ex_st2 : St () := (RecordDispatch ex_request ex_st1).2.

Lemma ex_created : CreateShipment ex_shipment ex_event ex_st0 = (Ok (), ex_st1).
Proof. vm_compute. reflexivity. Qed.

Lemma ex_recorded : ∃ d, RecordDispatch ex_request ex_st1 = (Ok (d, false), ex_st2).
Proof. eexists. vm_compute. reflexivity. Qed.

Lemma RecordDispatch_idempotent_witness :
  let (r, st3) := RecordDispatch ex_request ex_st2 in
  st_db st3 = st_db ex_st2 ∧ ∃ d, r = Ok (d, true).
Proof.
  destruct ex_recorded as [d E].
  destruct (RecordDispatch ex_request ex_st2) as [r st3] eqn:E2.
  assert (processed_events (st_db ex_st2) ⊆ processed_events (st_db ex_st2)) as Hs by done.
  destruct (RecordDispatch_idempotent ex_request ex_st1 d false ex_st2 ex_st2 r st3 E Hs E2) as [H1 [H2|(e & _ & _ & Hn)]].
  - by split.
  - exfalso. apply Hn, ref_works.
Defined.

Lemma CreateShipment_read_back_witness :
  (GetShipment "shp_1" (CreateShipment ex_shipment ex_event ex_st0).2).1 =
    Ok (mkView (mkShipment "shp_1" 1500 (mkMoney 700 "EUR") (mkTime 1700000000 123456000 0))
          OutboxPending (mkDispatch DispatchPending "" "" zero_Time)).
Proof.
  destruct (CreateShipment_read_back ex_shipment ex_event ex_st0 empty_DB_ok
              eq_refl eq_refl eq_refl eq_refl) as [Hread Hcreate].
  destruct Hcreate as [st' E].
  - unfold storable. split_and!; try done; cbn; unfold valid_weight; lia.
  - apply ref_works.
  - destruct (Hread st' E) as [H _]. rewrite E. apply H, ref_answers.
Defined.

(** A duplicate is reported with the zero [Dispatch], whose status is not
    [DispatchPending]: the doc comment of [RecordDispatch] promises that status
    for a duplicate. *)
Theorem duplicate_status_not_pending :
  ∃ st' d, RecordDispatch ex_request ex_st2 = (Ok (d, true), st') ∧
    d_Status d ≠ DispatchPending ∧ d_Status d ≠ DispatchDispatched.
Proof. eexists _, _. split; [vm_compute; reflexivity|]. by vm_compute. Qed.

End examples.
