(* ===== verification/Migrate.v ===== *)
(** * internal/storage/migrate.go

    The migrator: every embedded SQL file is applied once, in lexical order, each
    in a transaction together with the row that records it.  What a script does
    to the schema is the parameter [apply]; scripts leave [schema_migrations]
    alone.  Every statement may fail before or after it took effect.  One
    migrator runs at a time here; Migrators has several at once. *)
From S2P Require Import Prelude GoErrors GoStrings GoUtf8 GoTime Domain Jsonb Database.

(** A statement runs, fails without an effect, or takes effect although the
    client gets an error (a connection lost on the way back). *)
Inductive fault := Runs | Fails (e : goerr) | LateFails (e : goerr).

(** ** The embedded files *)

Definition path_Base : string → string := after_last "/".

(** [fs.Glob(db.Migrations, "migrations/*.sql")], for a name in the file system. *)
Definition glob_matches (name : string) : bool :=
  match Split "/" name with
  | [dir; file] =>
      bool_decide (dir = "migrations") && (4 <=? String.length file)
      && bool_decide (str_drop (String.length file - 4) file = ".sql")
  | _ => false
  end.

Definition migration_names (files : gmap string string) : list string :=
  sort_Strings (filter (λ name, glob_matches name = true) (map_to_list files).*1).

Section migrate.
Context {S : Type} (apply : string → S → res S).

(** The database: [schema_migrations] once it exists, everything else, and the
    advisory lock. *)
Record MigDB := mkMigDB {
  mg_versions : option (gmap string Time);
  mg_schema : S;
  mg_locked : bool
}.

(** The connection of the migrator, with the versions it logged as applied. *)
Record Conn := mkConn { cn_now : Time; cn_faults : list fault; cn_db : MigDB; cn_log : list string }.

Definition M (A : Type) : Type := Conn → res A * Conn.

#[export] Instance M_ret : MRet M := λ A a c, (Ok a, c).
#[export] Instance M_bind : MBind M := λ A B f m c,
  match m c with
  | (Ok a, c) => f a c
  | (Err e, c) => (Err e, c)
  end.

Definition wrapM {A} (prefix : string) (m : M A) : M A := λ c, let (r, c) := m c in (map_err (wrapf prefix) r, c).

Definition set_db (db : MigDB) (c : Conn) : Conn := mkConn (cn_now c) (cn_faults c) db (cn_log c).
Definition next_fault (c : Conn) : fault * Conn :=
  match cn_faults c with
  | [] => (Runs, c)
  | f :: fs => (f, mkConn (cn_now c) fs (cn_db c) (cn_log c))
  end.

(** One statement. *)
Definition stmt {A} (f : Time → MigDB → res (A * MigDB)) : M A := λ c,
  let (fault, c) := next_fault c in
  match fault with
  | Fails e => (Err e, c)
  | LateFails e =>
      (Err e, match f (cn_now c) (cn_db c) with Ok (_, db) => set_db db c | Err _ => c end)
  | Runs =>
      match f (cn_now c) (cn_db c) with
      | Ok (a, db) => (Ok a, set_db db c)
      | Err e => (Err e, c)
      end
  end.

(** [conn.Begin], the body, and [tx.Commit]; an error of the body rolls back. *)
Definition in_tx (commit_prefix : string) (body : M ()) : M () := λ c,
  match stmt (λ _ db, Ok ((), db)) c with
  | (Err e, c) => (Err e, c)
  | (Ok _, c) =>
      let before := cn_db c in
      match body c with
      | (Err e, c) => (Err e, set_db before c)
      | (Ok _, c) =>
          let (fault, c) := next_fault c in
          match fault with
          | Runs => (Ok (), c)
          | Fails e => (Err (wrapf commit_prefix e), set_db before c)
          | LateFails e => (Err (wrapf commit_prefix e), c)
          end
      end
  end.

Definition UndefinedTable : string := "42P01".

Definition pg_lock : Time → MigDB → res (() * MigDB) := λ _ db,
  Ok ((), mkMigDB (mg_versions db) (mg_schema db) true).
Definition pg_unlock : Time → MigDB → res (() * MigDB) := λ _ db,
  Ok ((), mkMigDB (mg_versions db) (mg_schema db) false).

Definition create_table : Time → MigDB → res (() * MigDB) := λ _ db,
  Ok ((), mkMigDB (Some (default ∅ (mg_versions db))) (mg_schema db) (mg_locked db)).

Definition select_applied (version : string) : Time → MigDB → res (bool * MigDB) := λ _ db,
  version ← pg_text version;
  match mg_versions db with
  | None => pg_err UndefinedTable
  | Some vs => Ok (bool_decide (is_Some (vs !! version)), db)
  end.

Definition run_script (sql : string) : Time → MigDB → res (() * MigDB) := λ _ db,
  schema ← apply sql (mg_schema db);
  Ok ((), mkMigDB (mg_versions db) schema (mg_locked db)).

Definition insert_version (version : string) : Time → MigDB → res (() * MigDB) := λ now db,
  version ← pg_text version;
  match mg_versions db with
  | None => pg_err UndefinedTable
  | Some vs =>
      _ ← must UniqueViolation (bool_decide (vs !! version = None));
      Ok ((), mkMigDB (Some (<[version := pg_timestamptz now]> vs)) (mg_schema db) (mg_locked db))
  end.

(** The log line of an applied migration. *)
Definition log_applied (version : string) : M () := λ c,
  (Ok (), mkConn (cn_now c) (cn_faults c) (cn_db c) (cn_log c ++ [version])).

(** The loop over the files. *)
Fixpoint migrate_names (files : gmap string string) (names : list string) : M () :=
  match names with
  | [] => mret ()
  | name :: names =>
      let version := path_Base name in
      applied ← wrapM ("check " +:+ version +:+ ": ") (stmt (select_applied version));
      if (applied : bool) then migrate_names files names
      else
        _ ← in_tx ("commit " +:+ version +:+ ": ")
              (_ ← wrapM ("apply " +:+ version +:+ ": ") (stmt (run_script (default "" (files !! name))));
               wrapM ("record " +:+ version +:+ ": ") (stmt (insert_version version)));
        _ ← log_applied version;
        migrate_names files names
  end.

(** The deferred unlock: its failure is a line in the log. *)
Definition unlock (c : Conn) : Conn := (stmt pg_unlock c).2.

Definition Migrate (files : gmap string string) : M () := λ c,
  match wrapM "acquire connection: " (stmt (λ _ db, Ok ((), db))) c with
  | (Err e, c) => (Err e, c)
  | (Ok _, c) =>
      match wrapM "acquire migration lock: " (stmt pg_lock) c with
      | (Err e, c) => (Err e, c)
      | (Ok _, c) =>
          let (r, c) :=
            (_ ← wrapM "create schema_migrations: " (stmt create_table);
             migrate_names files (migration_names files)) c in
          (r, unlock c)
      end
  end.

End migrate.
Arguments MigDB : clear implicits.
Arguments Conn : clear implicits.

(** ** Lemmas *)

(** *** Names *)

Lemma glob_matches_spec name :
  glob_matches name = true → name = "migrations/" +:+ path_Base name.
Proof.
  unfold glob_matches, path_Base, after_last. pose proof (Join_Split "/" name) as Hj.
  destruct (Split "/" name) as [|dir [|file [|? ?]]]; try done.
  intros [[Hd _]%andb_true_iff _]%andb_true_iff. apply bool_decide_eq_true in Hd as ->.
  rewrite <- Hj. done.
Qed.

Lemma migration_names_elem files name :
  name ∈ migration_names files ↔ is_Some (files !! name) ∧ glob_matches name = true.
Proof.
  unfold migration_names. rewrite sort_Strings_perm, list_elem_of_filter, list_elem_of_fmap.
  split.
  - intros [Hg ([n s] & -> & H%elem_of_map_to_list)]. split; [by exists s|done].
  - intros [[s Hs] Hg]. split; [done|]. exists (name, s). by rewrite elem_of_map_to_list.
Qed.

(** The versions of the files are all different. *)
Lemma versions_NoDup files : NoDup (path_Base <$> migration_names files).
Proof.
  apply NoDup_fmap_2_strong.
  - intros x y [_ Hx]%migration_names_elem [_ Hy]%migration_names_elem E.
    by rewrite (glob_matches_spec x Hx), (glob_matches_spec y Hy), E.
  - unfold migration_names. rewrite sort_Strings_perm.
    apply list.NoDup_filter, NoDup_fst_map_to_list.
Qed.

Section migrate_facts.
Context {S : Type} (apply : string → S → res S) (files : gmap string string) (S0 : S).
Implicit Types (c : Conn S) (db : MigDB S).

(** The scripts of some files, one after the other. *)
Fixpoint run_scripts (names : list string) (s : S) : res S :=
  match names with
  | [] => Ok s
  | name :: names => apply (default "" (files !! name)) s ≫= run_scripts names
  end.

Lemma run_scripts_app l l' s : run_scripts (l ++ l') s = run_scripts l s ≫= run_scripts l'.
Proof. revert s. induction l as [|x l IH]; intros s; [done|]. simpl. by destruct (apply _ s) as [s'|]; simpl. Qed.

(** The database after exactly the files [done]. *)
Definition at_prefix (done : list string) db : Prop :=
  (∃ vs, mg_versions db = Some vs ∧ dom vs = list_to_set (path_Base <$> done)) ∧
  run_scripts done S0 = Ok (mg_schema db).

(** A database the migrator can have left: some of the files, the first ones in
    order, were applied and recorded. *)
Definition prefix_ok db : Prop :=
  ∃ done rest, migration_names files = done ++ rest ∧
    (at_prefix done db ∨ done = [] ∧ mg_versions db = None ∧ mg_schema db = S0).

Lemma prefix_ok_spec db : prefix_ok db →
  ∃ done rest, migration_names files = done ++ rest ∧ NoDup (path_Base <$> done) ∧
    run_scripts done S0 = Ok (mg_schema db) ∧
    dom (default ∅ (mg_versions db)) = list_to_set (path_Base <$> done).
Proof.
  intros (done & rest & Hn & Hdb). exists done, rest. split; [done|]. split.
  { pose proof (versions_NoDup files) as Hnd. rewrite Hn, fmap_app in Hnd. by apply list.NoDup_app in Hnd as [? _]. }
  destruct Hdb as [((vs & Hvs & Hdom) & Hr)|(-> & Hv & Hs)].
  - split; [done|]. by rewrite Hvs.
  - rewrite Hv, Hs. split; [done|]. apply dom_empty_L.
Qed.

Lemma stmt_cases {A} (f : Time → MigDB S → res (A * MigDB S)) c r c' :
  stmt f c = (r, c') →
  match r with
  | Ok a => ∃ db, f (cn_now c) (cn_db c) = Ok (a, db) ∧ cn_db c' = db
  | Err _ => cn_db c' = cn_db c ∨ ∃ a db, f (cn_now c) (cn_db c) = Ok (a, db) ∧ cn_db c' = db
  end.
Proof.
  unfold stmt, next_fault. destruct (cn_faults c) as [|[|e|e] fs]; cbn;
    destruct (f (cn_now c) (cn_db c)) as [[a db]|e'] eqn:E; intros [= <- <-]; cbn; eauto.
Qed.

Lemma wrapM_cases {A} prefix (m : M (S := S) A) c r c' :
  wrapM prefix m c = (r, c') → ∃ r0, m c = (r0, c') ∧ r = map_err (wrapf prefix) r0.
Proof. unfold wrapM. destruct (m c) as [r0 c0]. intros [= <- <-]. by exists r0. Qed.

Lemma next_fault_db c f c' : next_fault c = (f, c') → cn_db c' = cn_db c.
Proof. unfold next_fault. destruct (cn_faults c); by intros [= <- <-]. Qed.

(** The two statements of a file, once both succeeded. *)
Lemma record_one name done db db1 db2 now now' :
  at_prefix done db → run_script apply (default "" (files !! name)) now db = Ok ((), db1) →
  insert_version (path_Base name) now' db1 = Ok ((), db2) → at_prefix (done ++ [name]) db2.
Proof.
  intros ((vs & Hvs & Hdom) & Hrun) (s & Hs & [= <-])%res_bind_ok Hins.
  unfold insert_version in Hins. cbn in Hins. rewrite Hvs in Hins. stmt_ok. split.
  - eexists. split; [reflexivity|]. rewrite dom_insert_L, Hdom, fmap_app, list_to_set_app_L. set_solver.
  - rewrite run_scripts_app, Hrun. simpl. by rewrite Hs.
Qed.

(** Applying and recording one more file happens entirely or not at all. *)
Lemma apply_one name done c r c' prefix1 prefix2 prefix3 :
  path_Base name ∉ path_Base <$> done → at_prefix done (cn_db c) →
  in_tx prefix1
    (_ ← wrapM prefix2 (stmt (run_script apply (default "" (files !! name))));
     wrapM prefix3 (stmt (insert_version (path_Base name)))) c = (r, c') →
  at_prefix (done ++ [name]) (cn_db c') ∨ (at_prefix done (cn_db c') ∧ r ≠ Ok ()).
Proof.
  intros Hni Hat. unfold in_tx.
  destruct (stmt (λ _ db, Ok ((), db)) c) as [[u|e] c1] eqn:Eb; apply stmt_cases in Eb.
  2:{ intros [= <- <-]. right. split; [|done]. destruct Eb as [->|(a & db & [= <- <-] & ->)]; done. }
  destruct Eb as (db & [= <- <-] & Eb). unfold mbind, M_bind.
  destruct (wrapM prefix2 _ c1) as [[u1|e] c2] eqn:E1.
  2:{ intros [= <- <-]. right. split; [|done]. cbn. by rewrite Eb. }
  apply wrapM_cases in E1 as ([u2|] & E1 & Hr1); [|done].
  destruct (wrapM prefix3 _ c2) as [[u3|e] c3] eqn:E2.
  2:{ intros [= <- <-]. right. split; [|done]. cbn. by rewrite Eb. }
  apply wrapM_cases in E2 as ([u4|] & E2 & Hr2); [|done].
  apply stmt_cases in E1 as (db1 & E1 & <-). apply stmt_cases in E2 as (db2 & E2 & <-).
  rewrite Eb in *. destruct u2, u4. pose proof (record_one _ _ _ _ _ _ _ Hat E1 E2) as Hat'.
  destruct (next_fault c3) as [f c4] eqn:Ef. apply next_fault_db in Ef. rewrite <- Ef in Hat'.
  destruct f; intros [= <- <-]; [by left| |by left].
  right. split; [exact Hat|done].
Qed.

Lemma select_applied_cases version c r c' vs :
  mg_versions (cn_db c) = Some vs → stmt (select_applied version) c = (r, c') →
  cn_db c' = cn_db c ∧ ∀ b, r = Ok b → b = bool_decide (version ∈ dom vs).
Proof.
  intros Hvs E. apply stmt_cases in E. unfold select_applied in E. rewrite Hvs in E.
  assert (∀ a db, (version' ← pg_text version; Ok (bool_decide (is_Some (vs !! version')), cn_db c)) = Ok (a, db) →
    db = cn_db c ∧ a = bool_decide (version ∈ dom vs)) as H.
  { intros a db Hq. stmt_ok. split; [done|]. apply bool_decide_ext. by rewrite elem_of_dom. }
  destruct r as [b|e].
  - destruct E as (db & [-> ->]%H & ->). split; [done|]. by intros b' [= <-].
  - split; [|done]. by destruct E as [->|(a & db & [-> _]%H & ->)].
Qed.

(** The current file against the files applied: it is one of them, or the next. *)
Lemma file_position pre name names done rest :
  migration_names files = pre ++ name :: names → migration_names files = done ++ rest → length pre ≤ length done →
  (path_Base name ∈ path_Base <$> done ∧ length (pre ++ [name]) ≤ length done) ∨
  (path_Base name ∉ path_Base <$> done ∧ pre = done ∧ name :: names = rest).
Proof.
  intros Hpre Hdone Hlen. pose proof (versions_NoDup files) as Hnd.
  destruct (decide (length pre = length done)) as [Heq|Hne].
  - assert (pre = done ∧ name :: names = rest) as [-> <-] by (apply app_inj_1; [done|congruence]).
    right. split; [|done]. intros Hin. rewrite Hdone, fmap_app, fmap_cons in Hnd.
    apply list.NoDup_app in Hnd as (_ & Hdis & _). eapply Hdis; [exact Hin|left].
  - left. split; [|rewrite length_app; simpl; lia].
    assert (migration_names files !! length pre = Some name) as Hl by (rewrite Hpre; by apply list_lookup_middle).
    rewrite Hdone, lookup_app_l in Hl by lia. apply list_elem_of_fmap_2. by eapply list_elem_of_lookup_2.
Qed.

(** The loop, from any database that has the files before the current one. *)
Lemma migrate_names_prefix names pre done rest c r c' :
  migration_names files = pre ++ names → migration_names files = done ++ rest → length pre ≤ length done →
  at_prefix done (cn_db c) → migrate_names apply files names c = (r, c') →
  ∃ done' rest', migration_names files = done' ++ rest' ∧ at_prefix done' (cn_db c') ∧ (r = Ok () → rest' = []).
Proof.
  revert pre done rest c. induction names as [|name names IH]; intros pre done rest c Hpre Hdone Hlen Hat.
  { intros [= <- <-]. exists done, rest. split_and!; try done. intros _.
    apply (f_equal length) in Hpre. rewrite Hdone, !length_app in Hpre. simpl in Hpre.
    apply nil_length_inv. lia. }
  cbn [migrate_names]. unfold mbind at 1, M_bind.
  destruct (wrapM _ _ c) as [r1 c1] eqn:E1. apply wrapM_cases in E1 as (r0 & E1 & ->).
  pose proof Hat as ((vs & Hvs & Hdom) & _).
  destruct (select_applied_cases _ _ _ _ _ Hvs E1) as [Hdb Hb].
  destruct r0 as [b|e]; cbn [map_err].
  2:{ intros [= <- <-]. exists done, rest. rewrite Hdb. by split_and!. }
  specialize (Hb b eq_refl). rewrite Hdom in Hb.
  assert (b = bool_decide (path_Base name ∈ path_Base <$> done)) as Hb'.
  { rewrite Hb. apply bool_decide_ext. by rewrite elem_of_list_to_set. }
  destruct (file_position _ _ _ _ _ Hpre Hdone Hlen) as [[Hin Hle]|(Hni & <- & <-)].
  - rewrite bool_decide_eq_true_2 in Hb' by done. clear Hb. subst b. intros E.
    apply (IH (pre ++ [name]) done rest c1); try done; [by rewrite <- app_assoc|by rewrite Hdb].
  - rewrite bool_decide_eq_false_2 in Hb' by done. clear Hb. subst b.
    unfold mbind at 1, M_bind. destruct (in_tx _ _ c1) as [r2 c2] eqn:E2.
    apply (apply_one name pre) in E2; [|done|by rewrite Hdb].
    destruct r2 as [[]|e].
    + destruct E2 as [Hat2|[_ Hne]]; [|done]. unfold mbind, M_bind. intros E.
      eapply (IH (pre ++ [name]) (pre ++ [name]) names); [..|exact E]; try (by rewrite <- app_assoc); done.
    + intros [= <- <-]. destruct E2 as [Hat2|[Hat2 _]].
      * exists (pre ++ [name]), names. split_and!; [by rewrite <- app_assoc|done|done].
      * exists pre, (name :: names). by split_and!.
Qed.

Lemma unlock_db c :
  mg_versions (cn_db (unlock c)) = mg_versions (cn_db c) ∧ mg_schema (cn_db (unlock c)) = mg_schema (cn_db c).
Proof.
  unfold unlock. destruct (stmt pg_unlock c) as [[u|e] c'] eqn:E; apply stmt_cases in E; cbn.
  - destruct E as (db & [= <- <-] & ->). done.
  - destruct E as [->|(a & db & [= <- <-] & ->)]; done.
Qed.

(** Whatever only the lock and the existence of the table changes. *)
Lemma Migrate_prefix c r c' :
  prefix_ok (cn_db c) → Migrate apply files c = (r, c') →
  prefix_ok (cn_db c') ∧ (r = Ok () → at_prefix (migration_names files) (cn_db c')).
Proof.
  intros Hok. unfold Migrate.
  assert (∀ db db', mg_versions db' = mg_versions db → mg_schema db' = mg_schema db →
    prefix_ok db → prefix_ok db') as Hsame.
  { unfold prefix_ok, at_prefix. intros db db' -> ->. done. }
  destruct (wrapM _ _ c) as [r1 c1] eqn:E1. apply wrapM_cases in E1 as (r0 & E1 & ->). apply stmt_cases in E1.
  assert (prefix_ok (cn_db c1)) as H1.
  { destruct r0 as [u|e]; [by destruct E1 as (db & [= _ <-] & ->)|].
    by destruct E1 as [->|(a & db & [= _ <-] & ->)]. }
  destruct r0 as [u|e]; cbn [map_err]; [|by intros [= <- <-]]. clear E1.
  destruct (wrapM _ (stmt pg_lock) c1) as [r2 c2] eqn:E2. apply wrapM_cases in E2 as (r0 & E2 & ->). apply stmt_cases in E2.
  assert (prefix_ok (cn_db c2)) as H2.
  { destruct r0 as [u'|e]; [destruct E2 as (db & [= _ <-] & ->); by apply (Hsame (cn_db c1))|].
    destruct E2 as [->|(a & db & [= _ <-] & ->)]; [done|by apply (Hsame (cn_db c1))]. }
  destruct r0 as [u'|e]; cbn [map_err]; [|by intros [= <- <-]]. clear E2 H1.
  unfold mbind at 1, M_bind. destruct (wrapM _ (stmt create_table) c2) as [r3 c3] eqn:E3.
  apply wrapM_cases in E3 as (r0 & E3 & ->). apply stmt_cases in E3.
  destruct H2 as (done & rest & Hnames & Hdb).
  assert (∀ db, create_table (cn_now c2) (cn_db c2) = Ok ((), db) → at_prefix done db) as Hcreate.
  { intros db [= <-]. destruct Hdb as [((vs & Hvs & Hdom) & Hrun)|(-> & Hv & Hs)].
    - split; [|done]. exists vs. cbn. by rewrite Hvs.
    - split; cbn; [|by rewrite Hs]. exists ∅. rewrite Hv. split; [done|]. by rewrite dom_empty_L. }
  destruct r0 as [[]|e]; cbn [map_err].
  - destruct E3 as (db & E3 & Hdb3). apply Hcreate in E3. rewrite <- Hdb3 in E3.
    destruct (migrate_names apply files (migration_names files) c3) as [r4 c4] eqn:E4.
    apply (migrate_names_prefix _ [] done rest) in E4 as (done' & rest' & Hn' & Hat & Hr); try done; [|simpl; lia].
    intros [= <- <-]. destruct (unlock_db c4) as [Hv Hs]. split.
    + apply (Hsame (cn_db c4)); [done..|]. exists done', rest'. split; [done|by left].
    + intros Hrr. specialize (Hr Hrr). subst rest'. rewrite app_nil_r in Hn'. subst done'.
      unfold at_prefix in *. by rewrite Hv, Hs.
  - intros [= <- <-]. destruct (unlock_db c3) as [Hv Hs]. split; [|done].
    apply (Hsame (cn_db c3)); [done..|]. exists done, rest. split; [done|].
    destruct E3 as [->|([] & db & E3 & ->)]; [done|left; by apply Hcreate].
Qed.

(** *** Without failures *)

Lemma M_bind_ok {A B} (m : M (S := S) A) (f : A → M (S := S) B) c a c' : m c = (Ok a, c') → (m ≫= f) c = f a c'.
Proof. intros E. unfold mbind, M_bind. by rewrite E. Qed.

Lemma stmt_clean {A} (f : Time → MigDB S → res (A * MigDB S)) c a db :
  cn_faults c = [] → f (cn_now c) (cn_db c) = Ok (a, db) → stmt f c = (Ok a, set_db db c).
Proof. intros Hc Hf. unfold stmt, next_fault. rewrite Hc. by rewrite Hf. Qed.

Lemma migrate_names_clean names pre done rest c s :
  cn_faults c = [] → migration_names files = pre ++ names → migration_names files = done ++ rest →
  length pre ≤ length done → at_prefix done (cn_db c) → run_scripts (migration_names files) S0 = Ok s →
  Forall (λ name, text_ok (path_Base name) = true) names →
  ∃ c', migrate_names apply files names c = (Ok (), c') ∧ cn_faults c' = [].
Proof.
  revert pre done rest c. induction names as [|name names IH]; intros pre done rest c Hc Hpre Hdone Hlen Hat Hrun Htxt.
  { by exists c. }
  apply Forall_cons_1 in Htxt as [Ht Htxt]. pose proof Hat as ((vs & Hvs & Hdom) & Hdr).
  cbn [migrate_names].
  assert (wrapM ("check " +:+ path_Base name +:+ ": ") (stmt (select_applied (path_Base name))) c =
    (Ok (bool_decide (is_Some (vs !! path_Base name))), c)) as Hcheck.
  { unfold wrapM. rewrite (stmt_clean _ c (bool_decide (is_Some (vs !! path_Base name))) (cn_db c)); [by destruct c|done|].
    unfold select_applied, pg_text. rewrite Ht. cbn. by rewrite Hvs. }
  rewrite (M_bind_ok _ _ _ _ _ Hcheck). case_bool_decide as Hap.
  - apply elem_of_dom in Hap. rewrite Hdom, elem_of_list_to_set in Hap.
    destruct (file_position _ _ _ _ _ Hpre Hdone Hlen) as [[_ Hle]|[Hni _]]; [|done].
    by apply (IH (pre ++ [name]) done rest); [|rewrite <- app_assoc|..].
  - destruct (file_position _ _ _ _ _ Hpre Hdone Hlen) as [[Hin _]|(Hni & -> & <-)].
    { exfalso. apply Hap, elem_of_dom. by rewrite Hdom, elem_of_list_to_set. }
    rewrite Hdone, run_scripts_app, Hdr in Hrun. simpl in Hrun.
    apply res_bind_ok in Hrun as (s1 & Hs1 & Hrun).
    assert (vs !! path_Base name = None) as Hnone by by apply eq_None_not_Some.
    set (db1 := mkMigDB (Some vs) s1 (mg_locked (cn_db c))).
    set (db2 := mkMigDB (Some (<[path_Base name := pg_timestamptz (cn_now c)]> vs)) s1 (mg_locked (cn_db c))).
    assert (∀ p1 p2 p3, in_tx p1 (_ ← wrapM p2 (stmt (run_script apply (default "" (files !! name))));
      wrapM p3 (stmt (insert_version (path_Base name)))) c = (Ok (), set_db db2 c)) as Htx.
    { intros p1 p2 p3. unfold in_tx. rewrite (stmt_clean _ c () (cn_db c)) by done.
      unfold mbind, M_bind, wrapM. rewrite (stmt_clean _ _ () db1); [|done|].
      2:{ unfold run_script. cbn. rewrite Hs1. unfold db1. by rewrite <- Hvs. }
      cbn [map_err]. rewrite (stmt_clean _ _ () db2); [|done|].
      2:{ unfold insert_version, pg_text. rewrite Ht. cbn. by rewrite Hnone. }
      unfold next_fault. cbn [map_err set_db cn_faults]. rewrite Hc. done. }
    rewrite (M_bind_ok _ _ _ _ _ (Htx _ _ _)).
    rewrite (M_bind_ok (log_applied _) _ _ () _ eq_refl).
    assert (at_prefix (done ++ [name]) db2) as Hat2.
    { split.
      - eexists. split; [reflexivity|]. rewrite dom_insert_L, Hdom, fmap_app, list_to_set_app_L. set_solver.
      - rewrite run_scripts_app, Hdr. simpl. by rewrite Hs1. }
    eapply (IH (done ++ [name]) (done ++ [name]) names); try done; try (by rewrite <- app_assoc).
    rewrite Hdone, run_scripts_app, Hdr. simpl. rewrite Hs1. exact Hrun.
Qed.

Lemma Migrate_clean c s :
  cn_faults c = [] → prefix_ok (cn_db c) → run_scripts (migration_names files) S0 = Ok s →
  Forall (λ name, text_ok (path_Base name) = true) (migration_names files) →
  ∃ c', Migrate apply files c = (Ok (), c').
Proof.
  intros Hc (done & rest & Hnames & Hdb) Hrun Htxt. unfold Migrate, wrapM at 1 2.
  rewrite (stmt_clean _ c () (cn_db c)) by done. cbn [map_err].
  rewrite (stmt_clean pg_lock _ () (mkMigDB (mg_versions (cn_db c)) (mg_schema (cn_db c)) true)) by done. cbn [map_err].
  set (db := mkMigDB (Some (default ∅ (mg_versions (cn_db c)))) (mg_schema (cn_db c)) true).
  set (c1 := set_db _ _).
  assert (wrapM "create schema_migrations: " (stmt create_table) c1 = (Ok (), set_db db c1)) as Hcreate.
  { unfold wrapM. by rewrite (stmt_clean create_table c1 () db). }
  rewrite (M_bind_ok _ _ _ _ _ Hcreate).
  destruct (migrate_names_clean (migration_names files) [] done rest (set_db db c1) s) as (c2 & E & _); try done.
  - simpl. lia.
  - destruct Hdb as [((vs & Hvs & Hdom) & Hr)|(-> & Hv & Hs)].
    + split; [|done]. exists vs. cbn. by rewrite Hvs.
    + split; cbn; [|by rewrite Hs]. exists ∅. rewrite Hv. split; [done|]. by rewrite dom_empty_L.
  - rewrite E. by eexists.
Qed.

End migrate_facts.

(** ** Runs of the migrator *)

Section runs.
Context {S : Type} (apply : string → S → res S) (files : gmap string string).

(** One run: a connection of its own, whose end releases the lock, at some time
    and with some failures. *)
Definition migrate_run (run : Time * list fault) (db : MigDB S) : res () * MigDB S :=
  let (r, c) := Migrate apply files (mkConn run.1 run.2 (mkMigDB (mg_versions db) (mg_schema db) false) []) in
  (r, cn_db c).

Lemma migrate_run_prefix S0 run db :
  prefix_ok apply files S0 db →
  prefix_ok apply files S0 (migrate_run run db).2 ∧
  ((migrate_run run db).1 = Ok () → at_prefix apply files S0 (migration_names files) (migrate_run run db).2).
Proof.
  intros Hok. unfold migrate_run. destruct (Migrate _ _ _) as [r c] eqn:E. cbn.
  exact (Migrate_prefix apply files S0 (mkConn _ _ (mkMigDB _ _ _) _) r c Hok E).
Qed.

(** Whatever fails in whatever run of the migrator, statements that took
    effect although they reported an error included, the database always holds a
    first part of the migrations in lexical order, each applied and recorded
    once; and a run that reports success has applied all of them. *)
Theorem migrations_applied_once S0 runs :
  let db := foldl (λ db run, (migrate_run run db).2) (mkMigDB None S0 false) runs in
  (∃ done rest, migration_names files = done ++ rest ∧ NoDup (path_Base <$> done) ∧
     run_scripts apply files done S0 = Ok (mg_schema db) ∧
     dom (default ∅ (mg_versions db)) = list_to_set (path_Base <$> done)) ∧
  ∀ run, (migrate_run run db).1 = Ok () →
    run_scripts apply files (migration_names files) S0 = Ok (mg_schema (migrate_run run db).2).
Proof.
  cbn zeta. set (db := foldl _ _ runs).
  assert (prefix_ok apply files S0 db) as Hok.
  { unfold db. clear db.
    assert (∀ db, prefix_ok apply files S0 db → prefix_ok apply files S0 (foldl (λ db run, (migrate_run run db).2) db runs)) as H.
    { induction runs as [|run l IH]; intros db Hdb; [done|]. apply IH. by apply migrate_run_prefix. }
    apply H. exists [], (migration_names files). split; [done|]. by right. }
  split.
  - exact (prefix_ok_spec apply files S0 db Hok).
  - intros run Hr. by apply (migrate_run_prefix S0 run db Hok).
Qed.

(** A run in which nothing fails succeeds from whatever earlier runs left,
    as long as the scripts themselves run one after the other; and another one
    changes nothing. *)
Theorem migrate_completes S0 s db now :
  prefix_ok apply files S0 db → run_scripts apply files (migration_names files) S0 = Ok s →
  Forall (λ name, text_ok (path_Base name) = true) (migration_names files) →
  let (r, db1) := migrate_run (now, []) db in
  r = Ok () ∧ mg_schema db1 = s ∧
  ∀ now', (migrate_run (now', []) db1).1 = Ok () ∧ mg_schema (migrate_run (now', []) db1).2 = s.
Proof.
  intros Hok Hs Htxt.
  assert (∀ now db, prefix_ok apply files S0 db →
    (migrate_run (now, []) db).1 = Ok () ∧ mg_schema (migrate_run (now, []) db).2 = s ∧
    prefix_ok apply files S0 (migrate_run (now, []) db).2) as H.
  { intros n d Hd. destruct (migrate_run_prefix S0 (n, []) d Hd) as [Hp Ha].
    assert ((migrate_run (n, []) d).1 = Ok ()) as Hr.
    { unfold migrate_run. destruct (Migrate_clean apply files S0
        (mkConn n [] (mkMigDB (mg_versions d) (mg_schema d) false) []) s) as (c' & E); try done.
      cbn [fst snd]. by rewrite E. }
    split; [done|]. split; [|done]. destruct (Ha Hr) as [_ Hrun]. rewrite Hs in Hrun. by injection Hrun. }
  pose proof (H now db Hok) as (H1 & H2 & H3). destruct (migrate_run (now, []) db) as [r db1]. cbn in *.
  split; [done|]. split; [done|]. intros now'. destruct (H now' db1 H3) as (? & ? & _). done.
Qed.

End runs.

(** ** Example *)

(** Scripts that write their text down. *)
Definition ex_apply (sql : string) (s : list string) : res (list string) := Ok (s ++ [sql]).
Definition ex_files : gmap string string :=
  <["migrations/0002_more.sql" := "B"]> {["migrations/0001_init.sql" := "A"]}.

(** The first run loses the connection after the commit of the second file. *)
Definition ex_faults : list fault :=
  [Runs; Runs; Runs; Runs; Runs; Runs; Runs; Runs; Runs; Runs; Runs; Runs; LateFails (EOther "conn closed")].

Example ex_first_run :
  let (r, db) := migrate_run ex_apply ex_files (zero_Time, ex_faults) (mkMigDB None [] false) in
  err_of r = Some (wrapf "commit 0002_more.sql: " (EOther "conn closed")) ∧ mg_schema db = ["A"; "B"].
Proof. vm_compute. done. Qed.

Lemma migrate_completes_witness :
  (migrate_run ex_apply ex_files (zero_Time, []) (mkMigDB None [] false)).1 = Ok () ∧
  mg_schema (migrate_run ex_apply ex_files (zero_Time, []) (mkMigDB None [] false)).2 = ["A"; "B"].
Proof.
  assert (migration_names ex_files = ["migrations/0001_init.sql"; "migrations/0002_more.sql"]) as Hn
    by (vm_compute; reflexivity).
  pose proof (migrate_completes ex_apply ex_files [] ["A"; "B"] (mkMigDB None [] false) zero_Time) as H.
  destruct (migrate_run ex_apply ex_files (zero_Time, []) (mkMigDB None [] false)) as [r db].
  destruct H as (H1 & H2 & _).
  - exists [], (migration_names ex_files). split; [reflexivity|]. right. by split_and!.
  - vm_compute. reflexivity.
  - rewrite Hn. repeat constructor; vm_compute; reflexivity.
  - exact (conj H1 H2).
Defined.
