(* ===== verification/Migrators.v ===== *)
(** * Migrators that run at once

    internal/storage/migrate.go with the statements of [Migrate] as data, and any
    number of connections that send theirs in any order.  The advisory lock is
    granted to one session at a time and kept until that session unlocks it or
    ends.  [Migrate_is_program] shows that the program, run alone, is the
    [Migrate] of the file Migrate. *)
From S2P Require Import Prelude GoErrors GoStrings GoUtf8 GoTime Domain Jsonb Database Migrate.

(** ** The program *)

Inductive MOp := CreateTable | SelectApplied (version : string) | RunScript (sql : string) | InsertVersion (version : string).

Definition MAnswer (o : MOp) : Type := match o with SelectApplied _ => bool | _ => () end.

(** What the connection is asked for, one call at a time. *)
Inductive MProg : Type :=
  | MDone (r : res ())
  | MAcquire (k : res () → MProg)
  | MLock (k : res () → MProg)
  | MExec (o : MOp) (k : res (MAnswer o) → MProg)
  | MBegin (k : res () → MProg)
  | MCommit (k : res () → MProg)
  | MRollback (k : MProg)
  | MLog (version : string) (k : MProg)
  | MUnlock (k : MProg).

(** The deferred unlock and the return. *)
Definition returns (r : res ()) : MProg := MUnlock (MDone r).

Fixpoint names_prog (files : gmap string string) (names : list string) : MProg :=
  match names with
  | [] => returns (Ok ())
  | name :: names =>
      let version := path_Base name in
      MExec (SelectApplied version) (λ r,
        match r with
        | Err e => returns (Err (wrapf ("check " +:+ version +:+ ": ") e))
        | Ok applied =>
            if (applied : bool) then names_prog files names
            else
              MBegin (λ r,
                match r with
                | Err e => returns (Err e)
                | Ok _ =>
                    MExec (RunScript (default "" (files !! name))) (λ r,
                      match r with
                      | Err e => MRollback (returns (Err (wrapf ("apply " +:+ version +:+ ": ") e)))
                      | Ok _ =>
                          MExec (InsertVersion version) (λ r,
                            match r with
                            | Err e => MRollback (returns (Err (wrapf ("record " +:+ version +:+ ": ") e)))
                            | Ok _ =>
                                MCommit (λ r,
                                  match r with
                                  | Err e => returns (Err (wrapf ("commit " +:+ version +:+ ": ") e))
                                  | Ok _ => MLog version (names_prog files names)
                                  end)
                            end)
                      end)
                end)
        end)
  end.

Definition migrate_prog (files : gmap string string) : MProg :=
  MAcquire (λ r,
    match r with
    | Err e => MDone (Err (wrapf "acquire connection: " e))
    | Ok _ =>
        MLock (λ r,
          match r with
          | Err e => MDone (Err (wrapf "acquire migration lock: " e))
          | Ok _ =>
              MExec CreateTable (λ r,
                match r with
                | Err e => returns (Err (wrapf "create schema_migrations: " e))
                | Ok _ => names_prog files (migration_names files)
                end)
          end)
    end).

Section migrators.
Context {S : Type} (apply : string → S → res S).

Definition op_of (o : MOp) : Time → MigDB S → res (MAnswer o * MigDB S) :=
  match o with
  | CreateTable => create_table
  | SelectApplied version => select_applied version
  | RunScript sql => run_script apply sql
  | InsertVersion version => insert_version version
  end.

(** The program run alone on a connection; [before] is what a rollback restores. *)
Fixpoint run_alone (p : MProg) (before : MigDB S) (c : Conn S) : res () * Conn S :=
  match p with
  | MDone r => (r, c)
  | MAcquire k => let (r, c) := stmt (λ _ db, Ok ((), db)) c in run_alone (k r) before c
  | MLock k => let (r, c) := stmt pg_lock c in run_alone (k r) before c
  | MExec o k => let (r, c) := stmt (op_of o) c in run_alone (k r) before c
  | MBegin k => let (r, c) := stmt (λ _ db, Ok ((), db)) c in run_alone (k r) (cn_db c) c
  | MCommit k =>
      let (fault, c) := next_fault c in
      match fault with
      | Runs => run_alone (k (Ok ())) before c
      | Fails e => run_alone (k (Err e)) before (set_db before c)
      | LateFails e => run_alone (k (Err e)) before c
      end
  | MRollback k => run_alone k before (set_db before c)
  | MLog version k => run_alone k before (log_applied version c).2
  | MUnlock k => run_alone k before (unlock c)
  end.

Lemma names_prog_alone files names before c :
  run_alone (names_prog files names) before c =
  let (r, c') := migrate_names apply files names c in (r, unlock c').
Proof.
  revert before c. induction names as [|name names IH]; intros before c; [done|].
  cbn [names_prog run_alone op_of MAnswer migrate_names]. unfold mbind, M_bind, wrapM, in_tx.
  destruct (stmt (select_applied _) c) as [[[]|e] c1]; cbn [map_err]; [apply IH| |done].
  cbn [run_alone op_of MAnswer].
  destruct (stmt (λ _ db, Ok ((), db)) c1) as [[u|e] c2]; [|done]. cbn [run_alone op_of MAnswer].
  destruct (stmt (run_script _ _) c2) as [[u'|e] c3]; cbn [map_err run_alone op_of MAnswer]; [|done].
  destruct (stmt (insert_version _) c3) as [[u''|e] c4]; cbn [map_err run_alone]; [|done].
  destruct (next_fault c4) as [[|e|e] c5]; [|done..]. cbn [run_alone]. apply IH.
Qed.

(** The program of a migrator, run alone, is the function of Migrate. *)
Theorem Migrate_is_program files c : run_alone (migrate_prog files) (cn_db c) c = Migrate apply files c.
Proof.
  unfold migrate_prog, Migrate, mbind, M_bind, wrapM. cbn [run_alone op_of MAnswer].
  destruct (stmt (λ _ db, Ok ((), db)) c) as [[u|e] c1]; [|done]. cbn [run_alone map_err].
  destruct (stmt pg_lock c1) as [[u'|e] c2]; [|done]. cbn [run_alone map_err op_of MAnswer].
  destruct (stmt create_table c2) as [[u''|e] c3]; [|done]. cbn [map_err]. apply names_prog_alone.
Qed.

(** ** Sessions

    A migrator with its connection: the tables as its open transaction sees them,
    and whether its session has the advisory lock. *)
Record MSession := mkMSession {
  sn_now : Time;
  sn_prog : MProg;
  sn_tx : option (MigDB S);
  sn_holds : bool
}.

Record Migrators := mkMigrators { ms_db : MigDB S; ms_sessions : list MSession }.

(** pg_advisory_lock waits while the lock is taken, but for the session that has it. *)
Definition lock_free (db : MigDB S) : bool := negb (mg_locked db).

Definition with_lock (b : bool) (db : MigDB S) : MigDB S := mkMigDB (mg_versions db) (mg_schema db) b.
(** A commit publishes the tables; the lock is no part of the transaction. *)
Definition publish (v db : MigDB S) : MigDB S := with_lock (mg_locked db) v.

(** What the client hears of a call that took effect. *)
Definition heard {A} (f : fault) (a : A) : res A :=
  match f with Runs => Ok a | Fails e | LateFails e => Err e end.

Definition took_effect (f : fault) : bool := match f with Fails _ => false | _ => true end.

(** One call of a session; [None] when it has returned or has to wait. *)
Definition session_step (f : fault) (db : MigDB S) (s : MSession) : option (MigDB S * MSession) :=
  let at_ p tx := mkMSession (sn_now s) p tx (sn_holds s) in
  match sn_prog s with
  | MDone _ => None
  | MAcquire k => Some (db, at_ (k (heard f ())) (sn_tx s))
  | MLock k =>
      if took_effect f then
        if lock_free db || sn_holds s
        then Some (with_lock true db, mkMSession (sn_now s) (k (heard f ())) (sn_tx s) true)
        else None
      else Some (db, at_ (k (heard f ())) (sn_tx s))
  | MExec o k =>
      match f with
      | Fails e => Some (db, at_ (k (Err e)) (sn_tx s))
      | _ =>
          match op_of o (sn_now s) (default db (sn_tx s)), sn_tx s with
          | Err e, _ => Some (db, at_ (k (Err (if f is LateFails e' then e' else e))) (sn_tx s))
          | Ok (a, db'), None => Some (db', at_ (k (heard f a)) None)
          | Ok (a, db'), Some _ => Some (db, at_ (k (heard f a)) (Some db'))
          end
      end
  | MBegin k => Some (db, at_ (k (heard f ())) (if f is Runs then Some db else None))
  | MCommit k =>
      Some (if took_effect f then publish (default db (sn_tx s)) db else db, at_ (k (heard f ())) None)
  | MRollback k => Some (db, at_ k None)
  | MLog _ k => Some (db, at_ k (sn_tx s))
  | MUnlock k =>
      if took_effect f && sn_holds s then Some (with_lock false db, mkMSession (sn_now s) k (sn_tx s) false)
      else Some (db, at_ k (sn_tx s))
  end.

(** The session ends, with the process or with its connection: its transaction is
    rolled back and its lock released. *)
Definition stopped (p : MProg) : MProg :=
  match p with MDone r => MDone r | _ => MDone (Err (EOther "conn closed")) end.
Definition end_session (db : MigDB S) (s : MSession) : MigDB S * MSession :=
  (if sn_holds s then with_lock false db else db, mkMSession (sn_now s) (stopped (sn_prog s)) None false).

Inductive MEvent := MStart (now : Time) | MStep (i : nat) (f : fault) | MEnd (i : nat).

Definition mstep (files : gmap string string) (ev : MEvent) (w : Migrators) : option Migrators :=
  match ev with
  | MStart now => Some (mkMigrators (ms_db w) (ms_sessions w ++ [mkMSession now (migrate_prog files) None false]))
  | MStep i f =>
      s ← ms_sessions w !! i;
      '(db, s) ← session_step f (ms_db w) s;
      Some (mkMigrators db (<[i := s]> (ms_sessions w)))
  | MEnd i =>
      s ← ms_sessions w !! i;
      let (db, s) := end_session (ms_db w) s in
      Some (mkMigrators db (<[i := s]> (ms_sessions w)))
  end.

Fixpoint msteps (files : gmap string string) (evs : list MEvent) (w : Migrators) : option Migrators :=
  match evs with
  | [] => Some w
  | ev :: evs => mstep files ev w ≫= msteps files evs
  end.

End migrators.
Arguments MSession : clear implicits.
Arguments Migrators : clear implicits.

(** ** What a session may rely on *)

Section facts.
Context {S : Type} (apply : string → S → res S) (files : gmap string string) (S0 : S).
Implicit Types (db com v : MigDB S) (s : MSession S) (w : Migrators S).

#[local] Notation at_prefix := (at_prefix apply files S0).
#[local] Notation prefix_ok := (prefix_ok apply files S0).
#[local] Notation at_all := (at_prefix (migration_names files)).

(** How the committed tables change: further along the files, and never back. *)
Definition advances db db' : Prop := prefix_ok db' ∧ (at_all db → at_all db').

Lemma advances_trans db1 db2 db3 : advances db1 db2 → advances db2 db3 → advances db1 db3.
Proof. unfold advances. naive_solver. Qed.

Lemma advances_refl db : prefix_ok db → advances db db.
Proof. done. Qed.

Lemma advances_with_lock b db : prefix_ok db → advances db (with_lock b db).
Proof. done. Qed.

(** A program is safe at a point when, however its calls come out, it keeps the
    tables growing and reports success only once every file is applied.  Without
    the lock it relies on nothing but growth; with the lock, on the tables as it
    left them. *)
Fixpoint safe (held : bool) com (tx : option (MigDB S)) (p : MProg) : Prop :=
  match p with
  | MDone r => tx = None ∧ (r = Ok () → at_all com)
  | MAcquire k => held = false ∧ tx = None ∧ ∀ r com', advances com com' → safe false com' None (k r)
  | MLock k =>
      held = false ∧ tx = None ∧
      ∀ com', advances com com' → (∀ r, safe true com' None (k r)) ∧ ∀ e, safe false com' None (k (Err e))
  | MExec o k =>
      held = true ∧ (∀ e, safe true com tx (k (Err e))) ∧
      ∀ now a db', op_of apply o now (default com tx) = Ok (a, db') → ∀ r, (r = Ok a ∨ ∃ e, r = Err e) →
        match tx with
        | None => advances com db' ∧ safe true db' None (k r)
        | Some _ => safe true com (Some db') (k r)
        end
  | MBegin k => held = true ∧ tx = None ∧ safe true com (Some com) (k (Ok ())) ∧ ∀ e, safe true com None (k (Err e))
  | MCommit k =>
      held = true ∧ (∀ e, safe true com None (k (Err e))) ∧
      ∃ v, tx = Some v ∧ advances com v ∧ ∀ r, safe true (publish v com) None (k r)
  | MRollback k => held = true ∧ safe true com None k
  | MLog _ k => held = true ∧ safe true com tx k
  | MUnlock k => held = true ∧ tx = None ∧ ∀ com', advances com com' → ∀ b, safe b com' None k
  end.

Lemma safe_stable com com' tx p : advances com com' → safe false com tx p → safe false com' tx p.
Proof.
  intros Hg. assert (∀ com'', advances com' com'' → advances com com'') as Ht by (intros ?; by apply advances_trans).
  destruct p; cbn; try naive_solver. destruct Hg. naive_solver.
Qed.

(** Only the lock's holder has a transaction open. *)
Lemma safe_tx held com v p : safe held com (Some v) p → held = true.
Proof. destruct p; cbn; naive_solver. Qed.

Lemma safe_stopped held held' com tx p : safe held com tx p → safe held' com None (stopped p).
Proof. destruct p; cbn; naive_solver. Qed.

Lemma returns_safe com r : (r = Ok () → at_all com) → safe true com None (returns r).
Proof. intros Hr. cbn. split; [done|]. split; [done|]. intros com' [_ Hg] _. split; [done|]. auto. Qed.

Lemma returns_Err_safe com e : safe true com None (returns (Err e)).
Proof. by apply returns_safe. Qed.

Lemma at_prefix_ok done rest db : migration_names files = done ++ rest → at_prefix done db → prefix_ok db.
Proof. intros Hn Hat. exists done, rest. auto. Qed.

Lemma at_prefix_same done done' db :
  at_prefix done db → at_prefix done' db → ∀ version, version ∈ path_Base <$> done → version ∈ path_Base <$> done'.
Proof.
  intros ((vs & Hvs & Hdom) & _) ((vs' & Hvs' & Hdom') & _) version Hin. simplify_eq.
  rewrite <- (elem_of_list_to_set (C := gset string)), <- Hdom', Hdom. by apply elem_of_list_to_set.
Qed.

(** Reading changes nothing and tells whether the file is applied. *)
Lemma select_applied_ok version now done db a db' :
  at_prefix done db → select_applied version now db = Ok (a, db') →
  db' = db ∧ a = bool_decide (version ∈ path_Base <$> done).
Proof.
  intros ((vs & Hvs & Hdom) & _) E. unfold select_applied in E. rewrite Hvs in E. stmt_ok.
  split; [done|]. apply bool_decide_ext. by rewrite <- elem_of_dom, Hdom, elem_of_list_to_set.
Qed.

Lemma names_prog_safe names pre done rest com :
  migration_names files = pre ++ names → migration_names files = done ++ rest → length pre ≤ length done →
  at_prefix done com → safe true com None (names_prog files names).
Proof.
  revert pre done rest com. induction names as [|name names IH]; intros pre done rest com Hpre Hdone Hlen Hat.
  { apply returns_safe. intros _. rewrite app_nil_r in Hpre. subst pre.
    assert (rest = []) as -> by (apply (f_equal length) in Hdone; rewrite length_app in Hdone; apply nil_length_inv; lia).
    by rewrite Hdone, app_nil_r. }
  pose proof (at_prefix_ok _ _ _ Hdone Hat) as Hok.
  cbn [names_prog safe]. split; [done|]. split; [intros e; apply returns_Err_safe|].
  intros now a db' Hsel. cbn [op_of MAnswer default from_option] in Hsel.
  destruct (select_applied_ok _ _ _ _ _ _ Hat Hsel) as [-> ->].
  intros r Hr. split; [by apply advances_refl|]. destruct Hr as [->|[e ->]]; [|apply returns_Err_safe].
  destruct (file_position files _ _ _ _ _ Hpre Hdone Hlen) as [[Hin Hle]|(Hni & <- & <-)].
  { rewrite bool_decide_eq_true_2 by done. apply (IH (pre ++ [name]) done rest); try done. by rewrite <- app_assoc. }
  rewrite bool_decide_eq_false_2 by done. cbn [safe].
  split; [done|]. split; [done|]. split; [|intros e; apply returns_Err_safe].
  split; [done|]. split; [intros e; split; [done|apply returns_Err_safe]|].
  intros now1 [] db1 Hrun r1 Hr1. destruct Hr1 as [->|[e ->]]; [|split; [done|apply returns_Err_safe]]. cbn [safe].
  split; [done|]. split; [intros e; split; [done|apply returns_Err_safe]|].
  intros now2 [] db2 Hins r2 Hr2. destruct Hr2 as [->|[e ->]]; [|split; [done|apply returns_Err_safe]]. cbn [safe].
  pose proof (record_one apply files S0 name pre com db1 db2 now1 now2 Hat Hrun Hins) as Hat2.
  assert (migration_names files = (pre ++ [name]) ++ names) as Hn by (by rewrite <- app_assoc).
  split; [done|]. split; [intros e; apply returns_Err_safe|].
  exists db2. split; [done|]. split.
  - split; [by eapply at_prefix_ok|]. intros Hall. exfalso.
    apply Hni, (at_prefix_same _ _ _ Hall Hat). rewrite Hdone, fmap_app, elem_of_app. right. left.
  - intros [[]|e]; [|apply returns_Err_safe]. cbn [safe]. split; [done|]. by eapply (IH (pre ++ [name]) (pre ++ [name]) names).
Qed.

Lemma create_table_advances now db db' : prefix_ok db → create_table now db = Ok ((), db') →
  advances db db' ∧ ∃ done rest, migration_names files = done ++ rest ∧ at_prefix done db'.
Proof.
  intros (done & rest & Hn & Hdb) [= <-].
  assert (∀ l, at_prefix l db → at_prefix l (mkMigDB (Some (default ∅ (mg_versions db))) (mg_schema db) (mg_locked db))) as H.
  { intros l ((vs & Hvs & Hdom) & Hr). split; [|done]. exists vs. cbn. by rewrite Hvs. }
  assert (at_prefix done (mkMigDB (Some (default ∅ (mg_versions db))) (mg_schema db) (mg_locked db))) as Hat.
  { destruct Hdb as [Hat|(-> & Hv & Hs)]; [by apply H|]. split; cbn; [|by rewrite Hs].
    exists ∅. rewrite Hv. split; [done|]. apply dom_empty_L. }
  split; [|by eauto]. split; [by eapply at_prefix_ok|apply H].
Qed.

(** A migrator is safe wherever it starts. *)
Lemma migrate_prog_safe com : prefix_ok com → safe false com None (migrate_prog files).
Proof.
  intros Hok. cbn. split; [done|]. split; [done|].
  intros [u|e] com1 [Hok1 _]; [|done]. cbn [safe]. split; [done|]. split; [done|].
  intros com2 [Hok2 _]. split; [|done]. intros [u'|e]; [|done]. cbn [safe].
  split; [done|]. split; [intros e; apply returns_Err_safe|].
  intros now [] db Hc r Hr. cbn in Hc. destruct (create_table_advances now com2 db Hok2 Hc) as (Hg & done & rest & Hn & Hat).
  split; [done|]. destruct Hr as [->|[e ->]]; [|apply returns_Err_safe].
  apply (names_prog_safe _ [] done rest); try done. simpl. lia.
Qed.

(** ** The invariant *)

Record minv w : Prop := {
  mi_ok : prefix_ok (ms_db w);
  mi_safe i s : ms_sessions w !! i = Some s → safe (sn_holds s) (ms_db w) (sn_tx s) (sn_prog s);
  mi_lock i s : ms_sessions w !! i = Some s → sn_holds s = true → mg_locked (ms_db w) = true;
  mi_one i j s s' : ms_sessions w !! i = Some s → ms_sessions w !! j = Some s' →
    sn_holds s = true → sn_holds s' = true → i = j;
  mi_held : mg_locked (ms_db w) = true → ∃ i s, ms_sessions w !! i = Some s ∧ sn_holds s = true
}.

(** What one session may do to the database: take a free lock, release its own, and
    change the tables only with the lock. *)
Record allowed db s db' s' : Prop := {
  al_advances : advances db db';
  al_safe : safe (sn_holds s') db' (sn_tx s') (sn_prog s');
  al_lock : (sn_holds s' = sn_holds s ∧ mg_locked db' = mg_locked db) ∨
            (sn_holds s = false ∧ mg_locked db = false ∧ sn_holds s' = true ∧ mg_locked db' = true) ∨
            (sn_holds s = true ∧ sn_holds s' = false ∧ mg_locked db' = false);
  al_frame : sn_holds s = false → mg_versions db' = mg_versions db ∧ mg_schema db' = mg_schema db
}.

Lemma op_of_locked o now db a db' : op_of apply o now db = Ok (a, db') → mg_locked db' = mg_locked db.
Proof.
  destruct o; cbn.
  - by intros [= <- <-].
  - intros E. unfold select_applied in E. destruct (mg_versions db); by stmt_ok.
  - intros (s & _ & E)%res_bind_ok. by simplify_eq.
  - intros E. unfold insert_version in E. destruct (mg_versions db); by stmt_ok.
Qed.

Lemma session_step_allowed f db s db' s' :
  prefix_ok db → safe (sn_holds s) db (sn_tx s) (sn_prog s) →
  session_step apply f db s = Some (db', s') → allowed db s db' s'.
Proof.
  intros Hok. destruct s as [now p tx held]. unfold session_step, lock_free. cbn [sn_now sn_prog sn_tx sn_holds].
  pose proof (advances_refl db Hok) as Hg.
  destruct p as [r|k|k|o k|k|k|k|version k|k]; cbn [safe].
  - done.
  - intros (-> & -> & Hk) [= <- <-]. split; cbn; auto.
  - intros (-> & -> & Hk). destruct (took_effect f) eqn:Ef.
    + destruct (mg_locked db) eqn:El; [done|]. intros [= <- <-]. pose proof (advances_with_lock true db Hok).
      split; cbn; auto 6. apply Hk; done.
    + intros [= <- <-]. destruct f; try done. split; cbn; auto. by apply Hk.
  - intros (-> & He & Hk). destruct (op_of apply o now (default db tx)) as [[a v]|e] eqn:Eo.
    + pose proof (op_of_locked _ _ _ _ _ Eo) as Hl. specialize (Hk _ _ _ Eo).
      destruct tx as [v0|].
      * destruct f; intros [= <- <-]; (split; [done| |auto|done]); first [apply Hk; by eauto|apply He].
      * destruct f; intros [= <- <-]; (split; [first [exact Hg|by apply (Hk (Ok a)); left]| |auto|done]); first [apply He|by eapply Hk; eauto].
    + destruct tx; destruct f; intros [= <- <-]; split; cbn; auto.
  - intros (-> & -> & Hb & He). destruct f; intros [= <- <-]; split; cbn; auto.
  - intros (-> & He & v & -> & Hv & Hk). cbn [default from_option id]. destruct f; intros [= <- <-]; split; cbn; auto; done.
  - intros (-> & Hk) [= <- <-]. split; cbn; auto.
  - intros (-> & Hk) [= <- <-]. split; cbn; auto.
  - intros (-> & -> & Hk). pose proof (advances_with_lock false db Hok). destruct f; intros [= <- <-]; split; cbn; auto 6; try done; by apply Hk.
Qed.

Lemma end_session_allowed db s db' s' :
  prefix_ok db → safe (sn_holds s) db (sn_tx s) (sn_prog s) → end_session db s = (db', s') → allowed db s db' s'.
Proof.
  intros Hok Hs. unfold end_session. destruct (sn_holds s) eqn:Eh; intros [= <- <-].
  - pose proof (advances_with_lock false db Hok) as Hg. split; cbn; auto 6; try done.
    eapply safe_stable; [exact Hg|by eapply safe_stopped].
  - split; cbn; auto; [by apply advances_refl|by eapply safe_stopped].
Qed.

Lemma allowed_minv w i s db' s' :
  minv w → ms_sessions w !! i = Some s → allowed (ms_db w) s db' s' →
  minv (mkMigrators db' (<[i := s']> (ms_sessions w))).
Proof.
  intros Hw Hi [Hg Hs Hl Hf]. pose proof (lookup_lt_Some _ _ _ Hi) as Hlt.
  assert (∀ j t, <[i := s']> (ms_sessions w) !! j = Some t → (j = i ∧ t = s') ∨ (j ≠ i ∧ ms_sessions w !! j = Some t)) as Hcases.
  { intros j t. destruct (decide (j = i)) as [->|]; [rewrite list_lookup_insert_eq by done|rewrite list_lookup_insert_ne by done]; naive_solver. }
  assert (∀ j t, j ≠ i → ms_sessions w !! j = Some t → sn_holds t = true →
    sn_holds s = false ∧ sn_holds s' = false ∧ db' = ms_db w) as Hother.
  { intros j t Hne Hj Ht. assert (sn_holds s = false) as Es.
    { destruct (sn_holds s) eqn:Es; [|done]. exfalso. apply Hne. by eapply mi_one. }
    pose proof (mi_lock _ Hw _ _ Hj Ht) as Hlk. destruct (Hf Es) as [Hv Hsc].
    destruct Hl as [[Hh Hlk']|[(_ & Hlk' & _)|(Hlk' & _)]]; try congruence.
    split; [done|]. split; [congruence|]. destruct db', (ms_db w); cbn in *; congruence. }
  split; cbn [ms_db ms_sessions].
  - apply Hg.
  - intros j t [[-> ->]|[Hne Hj]]%Hcases; [done|]. pose proof (mi_safe _ Hw _ _ Hj) as Ht.
    destruct (sn_holds t) eqn:Et; [by destruct (Hother _ _ Hne Hj Et) as (_ & _ & ->)|by eapply safe_stable].
  - intros j t [[-> ->]|[Hne Hj]]%Hcases Ht.
    + destruct Hl as [[Hh ->]|[(_ & _ & _ & ->)|(_ & Hh & _)]]; [|done|congruence]. eapply mi_lock; [done..|congruence].
    + destruct (Hother _ _ Hne Hj Ht) as (_ & _ & ->). by eapply mi_lock.
  - intros j1 j2 t1 t2 [[-> ->]|[Hne1 Hj1]]%Hcases [[-> ->]|[Hne2 Hj2]]%Hcases H1 H2; try done.
    + destruct (Hother _ _ Hne2 Hj2 H2) as (_ & ? & _). congruence.
    + destruct (Hother _ _ Hne1 Hj1 H1) as (_ & ? & _). congruence.
    + by eapply mi_one.
  - intros Hlk. destruct Hl as [[Hh Hlk']|[(_ & _ & Hh & _)|(_ & _ & Hlk')]]; [| |congruence].
    + rewrite Hlk' in Hlk. destruct (mi_held _ Hw Hlk) as (j & t & Hj & Ht).
      destruct (decide (j = i)) as [->|Hne].
      * exists i, s'. rewrite list_lookup_insert_eq by done. split; [done|]. congruence.
      * exists j, t. by rewrite list_lookup_insert_ne.
    + exists i, s'. by rewrite list_lookup_insert_eq.
Qed.

Lemma mstep_minv ev w w' : minv w → mstep apply files ev w = Some w' → minv w'.
Proof.
  intros Hw. destruct ev as [now|i f|i]; cbn.
  - intros [= <-]. pose proof (mi_ok _ Hw) as Hok.
    assert (∀ j t, (ms_sessions w ++ [mkMSession now (migrate_prog files) None false]) !! j = Some t →
      ms_sessions w !! j = Some t ∨ t = mkMSession now (migrate_prog files) None false) as Hcases.
    { intros j t [Hj|[_ [_ ?]%list_lookup_singleton_Some]]%lookup_app_Some; auto. }
    split; cbn [ms_db ms_sessions].
    + done.
    + intros j t [Hj| ->]%Hcases; [by eapply mi_safe|by apply migrate_prog_safe].
    + intros j t [Hj| ->]%Hcases ?; [by eapply mi_lock|done].
    + intros i j s t Hi Hj Hs Ht. destruct (Hcases _ _ Hi) as [Hi'| ->], (Hcases _ _ Hj) as [Hj'| ->]; try done.
      by eapply mi_one.
    + intros Hl. destruct (mi_held _ Hw Hl) as (j & t & Hj & Ht). exists j, t. split; [|done].
      by apply lookup_app_l_Some.
  - intros (s & Hi & Hs)%bind_Some. apply bind_Some in Hs as ([db' s'] & Hs & [= <-]).
    eapply allowed_minv; [done..|]. eapply session_step_allowed; [by apply mi_ok|by eapply mi_safe|done].
  - intros (s & Hi & Hs)%bind_Some. destruct (end_session (ms_db w) s) as [db' s'] eqn:Es. injection Hs as <-.
    eapply allowed_minv; [done..|]. eapply end_session_allowed; [by apply mi_ok|by eapply mi_safe|done].
Qed.

Definition no_migrators : Migrators S := mkMigrators (mkMigDB None S0 false) [].

Lemma no_migrators_minv : minv no_migrators.
Proof.
  split; try done. exists [], (migration_names files). auto.
Qed.

Lemma msteps_minv evs w w' : minv w → msteps apply files evs w = Some w' → minv w'.
Proof.
  revert w. induction evs as [|ev evs IH]; intros w Hw; cbn; [by intros [= <-]|].
  intros (w1 & E & Er)%bind_Some. eapply IH; [|done]. by eapply mstep_minv.
Qed.

(** ** A migrator goes on to its end *)

Lemma stmt_runs i w s db' s' : ms_sessions w !! i = Some s → session_step apply Runs (ms_db w) s = Some (db', s') →
  mstep apply files (MStep i Runs) w = Some (mkMigrators db' (<[i := s']> (ms_sessions w))).
Proof. intros Hi Hs. cbn. rewrite Hi. cbn. by rewrite Hs. Qed.

(** What a program goes on with after its first call. *)
Definition next_of (p q : MProg) : Prop :=
  match p with
  | MDone _ => False
  | MAcquire k | MLock k | MBegin k | MCommit k => ∃ r, q = k r
  | MExec o k => ∃ r, q = k r
  | MRollback k | MLog _ k | MUnlock k => q = k
  end.

#[local] Ltac go := eexists _, _; split; [reflexivity|split; [cbn [sn_holds default from_option] in *|cbn; by eauto]].

(** With the lock or while it is free, calls that do not fail never wait. *)
Lemma session_runs db s :
  sn_holds s = true ∨ mg_locked db = false →
  (∃ r, sn_prog s = MDone r) ∨
  ∃ db' s', session_step apply Runs db s = Some (db', s') ∧ (sn_holds s' = true ∨ mg_locked db' = false) ∧
    next_of (sn_prog s) (sn_prog s').
Proof.
  intros Hl. destruct s as [now p tx held]. unfold session_step, lock_free. cbn [sn_now sn_prog sn_tx sn_holds] in *.
  destruct p as [r|k|k|o k|k|k|k|version k|k]; [by left; eauto|right..]; cbn [took_effect andb].
  3:{ destruct (op_of apply o now (default db tx)) as [[a v]|e] eqn:Eo.
      - apply op_of_locked in Eo. destruct tx; go; [done|]. by rewrite Eo.
      - go. done. }
  7:{ destruct held; go; auto. }
  - go. done.
  - assert (negb (mg_locked db) || held = true) as -> by (destruct Hl as [->| ->]; [apply orb_true_r|done]).
    go. auto.
  - go. done.
  - go. destruct tx; done.
  - go. done.
  - go. done.
Qed.

Definition returns_from i p : Prop := ∀ w s,
  ms_sessions w !! i = Some s → sn_prog s = p → sn_holds s = true ∨ mg_locked (ms_db w) = false →
  ∃ n w' s' r, msteps apply files (replicate n (MStep i Runs)) w = Some w' ∧
    ms_sessions w' !! i = Some s' ∧ sn_prog s' = MDone r ∧ (sn_holds s' = true ∨ mg_locked (ms_db w') = false) ∧
    ∀ j, j ≠ i → ms_sessions w' !! j = ms_sessions w !! j.

Lemma returns_from_next i p : (∀ q, next_of p q → returns_from i q) → returns_from i p.
Proof.
  intros Hq w s Hi Hp Hl. destruct (session_runs _ _ Hl) as [[r Hr]|(db' & s' & Hs & Hl' & Hk)].
  { exists 0, w, s, r. by split_and!. }
  rewrite Hp in Hk. pose proof (lookup_lt_Some _ _ _ Hi) as Hlt.
  destruct (Hq _ Hk (mkMigrators db' (<[i := s']> (ms_sessions w))) s') as (n & w' & s'' & r & Hn & Hi' & Hr & Hl'' & Ho);
    [by apply list_lookup_insert_eq|done|done|].
  exists (1 + n), w', s'', r. split_and!; try done.
  - cbn [replicate Nat.add msteps]. by rewrite (stmt_runs _ _ _ _ _ Hi Hs).
  - intros j Hj. rewrite Ho by done. by apply list_lookup_insert_ne.
Qed.

Lemma session_returns i p : returns_from i p.
Proof. induction p; apply returns_from_next; cbn; naive_solver. Qed.

(** While one session has a transaction open, the others leave the tables alone. *)
Lemma others_frame w w' i j s f :
  minv w → ms_sessions w !! i = Some s → sn_tx s ≠ None → j ≠ i →
  mstep apply files (MStep j f) w = Some w' ∨ mstep apply files (MEnd j) w = Some w' →
  mg_versions (ms_db w') = mg_versions (ms_db w) ∧ mg_schema (ms_db w') = mg_schema (ms_db w).
Proof.
  intros Hw Hi Htx Hne.
  assert (sn_holds s = true) as Hh.
  { pose proof (mi_safe _ Hw _ _ Hi). destruct (sn_tx s); [by eapply safe_tx|done]. }
  assert (∀ t, ms_sessions w !! j = Some t → sn_holds t = false) as Hj.
  { intros t Ht. destruct (sn_holds t) eqn:Et; [|done]. exfalso. apply Hne. by eapply mi_one. }
  intros [Hs|Hs]; apply bind_Some in Hs as (t & Ht & Hs); specialize (Hj t Ht).
  - apply bind_Some in Hs as ([db' t'] & Hs & [= <-]).
    eapply al_frame; [|exact Hj]. eapply session_step_allowed; [by apply mi_ok|by eapply mi_safe|done].
  - unfold end_session in Hs. rewrite Hj in Hs. by injection Hs as <-.
Qed.

(** After its calls are over, ending a session frees the lock. *)
Lemma end_frees w i s :
  ms_sessions w !! i = Some s → sn_holds s = true ∨ mg_locked (ms_db w) = false →
  ∃ w', mstep apply files (MEnd i) w = Some w' ∧ mg_locked (ms_db w') = false ∧
    ms_sessions w' = <[i := mkMSession (sn_now s) (stopped (sn_prog s)) None false]> (ms_sessions w).
Proof.
  intros Hi Hl. cbn. rewrite Hi. cbn. eexists. split; [done|]. split; [|done]. cbn.
  destruct (sn_holds s); [done|]. by destruct Hl.
Qed.

Lemma turns w i s :
  minv w → ms_sessions w !! i = Some s →
  ∃ j m w1 s1 r1 n w2 s2 r2,
    msteps apply files (replicate m (MStep j Runs)) w = Some w1 ∧
    ms_sessions w1 !! j = Some s1 ∧ sn_prog s1 = MDone r1 ∧
    msteps apply files (MEnd j :: replicate n (MStep i Runs)) w1 = Some w2 ∧
    ms_sessions w2 !! i = Some s2 ∧ sn_prog s2 = MDone r2.
Proof.
  intros Hw Hi.
  assert (∃ j t, ms_sessions w !! j = Some t ∧ (sn_holds t = true ∨ mg_locked (ms_db w) = false)) as (j & t & Hj & Hl).
  { destruct (mg_locked (ms_db w)) eqn:El; [|eauto]. destruct (mi_held _ Hw El) as (j & t & ? & ?). eauto. }
  destruct (session_returns j _ w t Hj eq_refl Hl) as (m & w1 & s1 & r1 & Hm & Hj1 & Hr1 & Hl1 & Ho).
  destruct (end_frees _ _ _ Hj1 Hl1) as (w1' & He & Hfree & Hss).
  assert (∃ t', ms_sessions w1' !! i = Some t') as [t' Ht'].
  { rewrite Hss. pose proof (lookup_lt_Some _ _ _ Hj1). destruct (decide (i = j)) as [->|Hne].
    - rewrite list_lookup_insert_eq by done. eauto.
    - rewrite list_lookup_insert_ne, Ho by done. eauto. }
  destruct (session_returns i _ w1' t' Ht' eq_refl (or_intror Hfree)) as (n & w2 & s2 & r2 & Hn & Hi2 & Hr2 & _).
  exists j, m, w1, s1, r1, n, w2, s2, r2. split_and!; try done. cbn [msteps]. by rewrite He.
Qed.

(** C36: however the statements of any number of migrators interleave, with waits for
    the lock, failures, calls that took effect although they reported an error and
    connections that end at any point: the tables hold a first part of the
    migrations in lexical order, each applied and recorded once; a migrator that
    returned success has every migration applied; while one has a transaction open,
    no step of another changes the tables, so its commit overwrites nothing; and
    each can still return, after at most one other has returned and ended. *)
Theorem migrators_take_turns evs w :
  msteps apply files evs no_migrators = Some w →
  (∃ done rest, migration_names files = done ++ rest ∧ NoDup (path_Base <$> done) ∧
     run_scripts apply files done S0 = Ok (mg_schema (ms_db w)) ∧
     dom (default ∅ (mg_versions (ms_db w))) = list_to_set (path_Base <$> done)) ∧
  (∀ i s, ms_sessions w !! i = Some s →
     (sn_prog s = MDone (Ok ()) → run_scripts apply files (migration_names files) S0 = Ok (mg_schema (ms_db w))) ∧
     (sn_tx s ≠ None → ∀ j f, j ≠ i → ∀ w', mstep apply files (MStep j f) w = Some w' ∨ mstep apply files (MEnd j) w = Some w' →
        mg_versions (ms_db w') = mg_versions (ms_db w) ∧ mg_schema (ms_db w') = mg_schema (ms_db w)) ∧
     ∃ j m w1 s1 r1 n w2 s2 r2,
       msteps apply files (replicate m (MStep j Runs)) w = Some w1 ∧
       ms_sessions w1 !! j = Some s1 ∧ sn_prog s1 = MDone r1 ∧
       msteps apply files (MEnd j :: replicate n (MStep i Runs)) w1 = Some w2 ∧
       ms_sessions w2 !! i = Some s2 ∧ sn_prog s2 = MDone r2).
Proof.
  intros Hev. pose proof (msteps_minv _ _ _ no_migrators_minv Hev) as Hw. clear Hev.
  split; [by apply prefix_ok_spec, mi_ok|]. intros i s Hi. split_and!.
  - intros Hp. pose proof (mi_safe _ Hw _ _ Hi) as Hs. rewrite Hp in Hs. by apply Hs.
  - intros Htx j f Hne w' Hst. by eapply others_frame.
  - by eapply turns.
Qed.

End facts.
Arguments no_migrators {S} S0.

(** ** Example

    Two replicas start at once: the first gets the lock and dies inside the
    transaction of the first file; the second has waited, and applies both. *)
Definition ex_before : list MEvent :=
  [MStart zero_Time; MStart zero_Time; MStep 0 Runs; MStep 1 Runs] ++ replicate 5 (MStep 0 Runs).
Definition ex_race : list MEvent := ex_before ++ [MEnd 0] ++ replicate 15 (MStep 1 Runs).

Example ex_waits :
  (w ← msteps ex_apply ex_files ex_before (no_migrators []); mstep ex_apply ex_files (MStep 1 Runs) w) = None.
Proof. vm_compute. reflexivity. Qed.

Lemma migrators_take_turns_witness :
  ∃ w, msteps ex_apply ex_files ex_race (no_migrators []) = Some w ∧ mg_schema (ms_db w) = ["A"; "B"] ∧
    ∃ done rest, migration_names ex_files = done ++ rest ∧ NoDup (path_Base <$> done) ∧
      run_scripts ex_apply ex_files done [] = Ok (mg_schema (ms_db w)).
Proof.
  eexists. split; [vm_compute; reflexivity|]. split; [reflexivity|].
  edestruct (migrators_take_turns ex_apply ex_files [] ex_race) as [(done & rest & Hn & Hnd & Hr & _) _];
    [vm_compute; reflexivity|].
  exists done, rest. exact (conj Hn (conj Hnd Hr)).
Defined.
