(* ===== verification/Broker.v ===== *)
(** * internal/broker

    The publisher: configuration, construction and [Publish].  The Kafka client
    library is the interface [Kgo]; ranging over a Go map visits its entries in
    any order ([GoMap]). *)
From S2P Require Import Prelude GoErrors GoStrconv GoTime GoDuration GoContext.

Record Message := mkMessage {
  m_Topic : string;
  m_Key : string;
  m_Value : string;
  m_Headers : gmap string string
}.

Record KRecord := mkKRecord {
  k_Topic : string;
  k_Key : string;
  k_Value : string;
  k_Headers : list (string * string)
}.

(** The order in which [range] visits a map. *)
Class GoMap := {
  map_range : gmap string string → list (string * string);
  map_range_perm m : map_range m ≡ₚ map_to_list m
}.

Record PublisherConfig := mkPublisherConfig { pc_Brokers : list string; pc_DeliveryTimeout : Z }.

(** [fmt.Errorf] without a wrapped error. *)
Definition errorf (msg : string) : goerr := EOther msg.

Definition PublisherConfig_Validate (c : PublisherConfig) : option goerr :=
  if (length (pc_Brokers c) =? 0)%nat then Some (errorf "brokers: at least one required")
  else if (pc_DeliveryTimeout c <=? 0)%Z then Some (errorf ("delivery timeout " +:+ Duration_String (pc_DeliveryTimeout c) +:+ ": must be positive"))
  else None.

(** github.com/twmb/franz-go/pkg/kgo, producing side.  A client is a value of
    [kclient]. *)
Class Kgo (W : Type) := {
  kclient : Type;
  NewClient : list string → W → res kclient * W;
  client_Ping : Context → kclient → W → option goerr * W;
  client_Close : kclient → W → W;
  ProduceSync : Context → kclient → KRecord → W → option goerr * W
}.

Section broker.
Context {W : Type} {IC : Clock W} {IK : Kgo W} {IM : GoMap}.

Record Publisher := mkPublisher { p_client : kclient; p_timeout : Z }.

Definition Ping (ctx : Context) (brokers : list string) (w : W) : option goerr * W :=
  match NewClient brokers w with
  | (Err err, w) => (Some (wrapf "create kafka client: " err), w)
  | (Ok client, w) =>
      let (err, w) := client_Ping ctx client w in
      (wrapf "ping kafka: " <$> err, client_Close client w)
  end.

Definition NewPublisher (ctx : Context) (cfg : PublisherConfig) (w : W) : res Publisher * W :=
  match PublisherConfig_Validate cfg with
  | Some err => (Err (wrapf "publisher config: " err), w)
  | None =>
      match NewClient (pc_Brokers cfg) w with
      | (Err err, w) => (Err (wrapf "create kafka client: " err), w)
      | (Ok client, w) =>
          match client_Ping ctx client w with
          | (Some err, w) => (Err (wrapf "ping kafka: " err), client_Close client w)
          | (None, w) => (Ok (mkPublisher client (pc_DeliveryTimeout cfg)), w)
          end
      end
  end.

Definition record_of (msg : Message) : KRecord :=
  mkKRecord (m_Topic msg) (m_Key msg) (m_Value msg) (map_range (m_Headers msg)).

Definition Publish (p : Publisher) (ctx : Context) (msg : Message) (w : W) : option goerr * W :=
  let ctx := WithTimeout ctx (p_timeout p) w in
  let (err, w) := ProduceSync ctx (p_client p) (record_of msg) w in
  (wrapf ("produce to " +:+ m_Topic msg +:+ ": ") <$> err, w).

(** A publisher exists only for a validated configuration with a positive
    delivery timeout, and every produce it makes runs under a context that ends
    no later than that timeout after the call, so a claimed batch is never held
    without bound; the record carries the message's key and value unchanged and
    each header exactly once. *)
Theorem Publish_is_bounded ctx cfg w0 p w1 ctx' msg w :
  NewPublisher ctx cfg w0 = (Ok p, w1) →
  (0 < p_timeout p)%Z ∧ pc_Brokers cfg ≠ [] ∧
  ∃ pctx t e,
    (Publish p ctx' msg w).2 = (ProduceSync pctx (p_client p) (record_of msg) w).2 ∧
    ctx_done pctx = Some (t, e) ∧ (t ≤ now w + p_timeout p)%Z ∧ ctx_id pctx = ctx_id ctx' ∧
    k_Key (record_of msg) = m_Key msg ∧ k_Value (record_of msg) = m_Value msg ∧
    k_Headers (record_of msg) ≡ₚ map_to_list (m_Headers msg).
Proof.
  intros H. unfold NewPublisher, PublisherConfig_Validate in H.
  destruct (pc_Brokers cfg) as [|b bs] eqn:Eb; [done|]. cbn in H.
  destruct (Z.leb_spec (pc_DeliveryTimeout cfg) 0) as [|Hpos]; [done|].
  destruct (NewClient (b :: bs) w0) as [[c|] w2]; [|done].
  destruct (client_Ping ctx c w2) as [[|] w3]; [done|]. injection H as <- _.
  split; [done|]. split; [done|].
  destruct (WithTimeout_done ctx' (pc_DeliveryTimeout cfg) w) as (t & e & Hd & Ht).
  exists (WithTimeout ctx' (pc_DeliveryTimeout cfg) w), t, e.
  split_and!; try done; [|apply map_range_perm].
  unfold Publish. cbn. by destruct (ProduceSync _ _ _ w).
Qed.

End broker.
Arguments Publisher W {_}.

(** ** Reference instances *)

Definition ref_GoMap : GoMap.
Proof. refine {| map_range := λ m, map_to_list m |}. done. Defined.

(** A broker that acknowledges everything. *)
Definition ref_Kgo : Kgo Z :=
  {| kclient := (); NewClient := λ _ w, (Ok (), w); client_Ping := λ _ _ w, (None, w);
     client_Close := λ _ w, w; ProduceSync := λ _ _ _ w, (None, (w + 1)%Z) |}.

Lemma Publish_is_bounded_witness :
  let p := @mkPublisher Z ref_Kgo () 5 in
  (0 < p_timeout p)%Z ∧ ["localhost:9092"] ≠ [].
Proof.
  cbn zeta. set (cfg := mkPublisherConfig ["localhost:9092"] 5).
  pose proof (@Publish_is_bounded Z ref_Clock ref_Kgo ref_GoMap Background cfg 0%Z _ _ Background
    (mkMessage "t" "k" "v" ∅) 0%Z eq_refl) as (H & H' & _).
  split; [exact H|exact H'].
Defined.
