(* ===== verification/Relay.v ===== *)
(** * internal/relay

    The outbox relay: the conversion of an outbox row to a message, the
    publishing of a batch, one poll, and the loop with its backoff.  The broker
    and the outbox are the source's two interfaces, [Publisher] and [Outbox];
    [S] is the whole state an outbox call works on and [W] the part of it the
    publisher sees.  Metrics are counters threaded through; log lines are not
    modelled. *)
From S2P Require Import Prelude GoErrors GoStrconv GoUtf8 GoTime GoDuration Domain Events Jsonb Database Storage GoContext Broker.

(** The Prometheus series; [None] is a gauge that was never set. *)
Record Metrics := mkMetrics { mt_published : Z; mt_failures : Z; mt_pending : option Z }.

Record Config := mkConfig { PollInterval : Z; BatchSize : Z }.

Definition Config_Validate (c : Config) : option goerr :=
  if (PollInterval c <=? 0)%Z then Some (errorf ("poll interval " +:+ Duration_String (PollInterval c) +:+ ": must be positive"))
  else if (BatchSize c <=? 0)%Z then Some (errorf ("batch size " +:+ Itoa (BatchSize c) +:+ ": must be positive"))
  else None.

(** [type Publisher interface]. *)
Class PublisherI (W : Type) := { publish : Context → Message → W → option goerr * W }.

(** [type Outbox interface]. *)
Class Outbox (S W : Type) := {
  outbox_ProcessPending : Context → Z → (Context → PublishFunc W) → S → res PublishResult * S;
  outbox_CountPending : Context → S → res Z * S
}.

Definition MessageFor (evt : OutboxEvent) : res Message :=
  match Decode (oe_Payload evt) with
  | Err err => Err (wrapf ("outbox event " +:+ oe_EventID evt +:+ ": ") err)
  | Ok payload =>
      Ok {| m_Topic := Topic;
            m_Key := oe_ShipmentID evt;
            m_Value := oe_Payload evt;
            m_Headers := list_to_map [(HeaderEventType, e_EventType payload);
                                      (HeaderSchemaVersion, Itoa (e_SchemaVersion payload));
                                      (HeaderCorrelationID, e_CorrelationID payload)] |}
  end.

Section publish.
Context {W : Type} {IP : PublisherI W}.

(** The loop of [publishBatch], from the events acknowledged so far. *)
Fixpoint publish_loop (ctx : Context) (batch : list OutboxEvent) (published : list string) (w : W)
  : PublishResult * W :=
  match batch with
  | [] => (mkPublishResult published "" None, w)
  | evt :: batch =>
      match MessageFor evt with
      | Err err => (mkPublishResult published (oe_EventID evt) (Some err), w)
      | Ok msg =>
          let evtCtx := WithID ctx (default "" (m_Headers msg !! HeaderCorrelationID)) in
          match publish evtCtx msg w with
          | (Some err, w) => (mkPublishResult published (oe_EventID evt) (Some err), w)
          | (None, w) => publish_loop ctx batch (published ++ [oe_EventID evt]) w
          end
      end
  end.

Definition publishBatch (ctx : Context) (batch : list OutboxEvent) (w : W) : PublishResult * W :=
  publish_loop ctx batch [] w.

End publish.

Section relay.
Context {S W : Type} {IC : Clock S} {IP : PublisherI W} {IO : Outbox S W}.

(** [sleep]: without a wait only the context is asked. *)
Definition sleep (ctx : Context) (d : Z) (s : S) : option goerr * S :=
  if (d <=? 0)%Z then (ctx_Err ctx s, s) else select_timer ctx d s.

Definition ObserveBacklog (ctx : Context) (s : S) (m : Metrics) : Metrics * S :=
  match outbox_CountPending ctx s with
  | (Ok n, s) => (mkMetrics (mt_published m) (mt_failures m) (Some n), s)
  | (Err _, s) => (m, s)
  end.

(** [(result, err)]: the result is the zero one when there is an error. *)
Definition poll (cfg : Config) (ctx : Context) (s : S) (m : Metrics) : res PublishResult * S * Metrics :=
  let (m, s) := ObserveBacklog ctx s m in
  let (r, s) := outbox_ProcessPending ctx (BatchSize cfg) publishBatch s in
  let n := match r with Ok result => Z.of_nat (length (pr_Published result)) | Err _ => 0%Z end in
  (r, s, mkMetrics (mt_published m + n) (mt_failures m) (mt_pending m)).

(** The switch of [Run]: the wait, the next backoff, and the failures counted. *)
Definition after_poll (cfg : Config) (r : res PublishResult) (backoff : Z) : Z * Z * Z :=
  let maxBackoff := wrap64 (10 * PollInterval cfg) in
  let grown := Z.min (wrap64 (backoff * 2)) maxBackoff in
  match r with
  | Err _ => (backoff, grown, 1%Z)
  | Ok result =>
      if bool_decide (pr_Failed result ≠ "") then (backoff, grown, 1%Z)
      else if (0 <? Z.of_nat (length (pr_Published result)))%Z then (0%Z, PollInterval cfg, 0%Z)
      else (PollInterval cfg, PollInterval cfg, 0%Z)
  end.

(** One iteration of [Run]; [None] in place of the backoff when it returned. *)
Definition run_step (cfg : Config) (ctx : Context) (backoff : Z) (s : S) (m : Metrics)
  : option Z * S * Metrics :=
  let '(r, s, m) := poll cfg ctx s m in
  if ctx_Err ctx s then (None, s, m)
  else
    let '(wait, backoff, failed) := after_poll cfg r backoff in
    let m := mkMetrics (mt_published m) (mt_failures m + failed) (mt_pending m) in
    match sleep ctx wait s with
    | (Some _, s) => (None, s, m)
    | (None, s) => (Some backoff, s, m)
    end.

(** [Run], at most [fuel] iterations of it. *)
Fixpoint run_loop (fuel : nat) (cfg : Config) (ctx : Context) (backoff : Z) (s : S) (m : Metrics)
  : option Z * S * Metrics :=
  match fuel with
  | O => (Some backoff, s, m)
  | Datatypes.S fuel =>
      match run_step cfg ctx backoff s m with
      | (Some backoff, s, m) => run_loop fuel cfg ctx backoff s m
      | (None, s, m) => (None, s, m)
      end
  end.

Definition Run (fuel : nat) (cfg : Config) (ctx : Context) (s : S) (m : Metrics)
  : option Z * S * Metrics :=
  run_loop fuel cfg ctx (PollInterval cfg) s m.

End relay.

(** The running system's outbox: the Store, with the broker in the rest of the
    world. *)
#[export] Instance store_Outbox {IJ : Jsonb} {IS : PgScan} {IP : Pgconn} {W} {IPool : Pool W}
  : Outbox (St W) W :=
  {| outbox_ProcessPending := λ ctx limit publish st, ProcessPending limit (publish ctx) st;
     outbox_CountPending := λ ctx st, CountPending st |}.

#[export] Instance kafka_PublisherI {W} {IC : Clock W} {IK : Kgo W} {IM : GoMap} (p : Publisher W)
  : PublisherI W := {| publish := Publish p |}.

(** ** Lemmas *)

Section publish_facts.
Context {W : Type} {IP : PublisherI W}.

(** The events of a list were all published, one after the other. *)
Inductive all_published (ctx : Context) : list OutboxEvent → W → W → Prop :=
  | published_nil w : all_published ctx [] w w
  | published_cons evt batch msg w w1 w2 :
      MessageFor evt = Ok msg →
      publish (WithID ctx (default "" (m_Headers msg !! HeaderCorrelationID))) msg w = (None, w1) →
      all_published ctx batch w1 w2 → all_published ctx (evt :: batch) w w2.

(** Publishing an event failed. *)
Definition publish_failed (ctx : Context) (evt : OutboxEvent) (e : goerr) (w w' : W) : Prop :=
  (MessageFor evt = Err e ∧ w' = w) ∨
  ∃ msg, MessageFor evt = Ok msg ∧
    publish (WithID ctx (default "" (m_Headers msg !! HeaderCorrelationID))) msg w = (Some e, w').

Lemma publish_loop_spec ctx batch acc w result w' :
  publish_loop ctx batch acc w = (result, w') →
  ∃ pre post w1, batch = pre ++ post ∧ pr_Published result = acc ++ (oe_EventID <$> pre) ∧
    all_published ctx pre w w1 ∧
    match post with
    | [] => pr_Failed result = "" ∧ pr_Err result = None ∧ w' = w1
    | evt :: _ => pr_Failed result = oe_EventID evt ∧
        ∃ e, pr_Err result = Some e ∧ publish_failed ctx evt e w1 w'
    end.
Proof.
  revert acc w. induction batch as [|evt batch IH]; intros acc w; cbn.
  { intros [= <- <-]. exists [], [], w. split; [done|]. split; [symmetry; apply app_nil_r|].
    split; [constructor|done]. }
  destruct (MessageFor evt) as [msg|e] eqn:Em.
  - destruct (publish _ msg w) as [[e|] w1] eqn:Ep.
    + intros [= <- <-]. exists [], (evt :: batch), w.
      split; [done|]. split; [symmetry; apply app_nil_r|]. split; [constructor|]. split; [done|].
      exists e. split; [done|]. right. eauto.
    + intros (pre & post & w2 & -> & -> & Ha & Hp)%IH. exists (evt :: pre), post, w2.
      split; [done|]. split; [by rewrite <- app_assoc|]. split; [|done]. by econstructor.
  - intros [= <- <-]. exists [], (evt :: batch), w.
    split; [done|]. split; [symmetry; apply app_nil_r|]. split; [constructor|]. split; [done|].
    exists e. split; [done|]. by left.
Qed.

End publish_facts.

(** ** Backoff *)

(** The wait after [k] failures in a row, from a fresh start. *)
Fixpoint backoff_after (cfg : Config) (k : nat) : Z :=
  match k with
  | O => PollInterval cfg
  | S k => (after_poll cfg (Err (EOther "")) (backoff_after cfg k)).1.2
  end.

(** Twice the largest backoff still fits 64 bits: twenty intervals. *)
Definition small_interval (cfg : Config) : Prop := (0 < PollInterval cfg ∧ 20 * PollInterval cfg ≤ max_int64)%Z.

Lemma grown_bounds cfg b :
  small_interval cfg → (PollInterval cfg ≤ b ≤ 10 * PollInterval cfg)%Z →
  Z.min (wrap64 (b * 2)) (wrap64 (10 * PollInterval cfg)) = Z.min (2 * b) (10 * PollInterval cfg).
Proof.
  unfold small_interval, max_int64. intros [Hp Hm] Hb.
  rewrite !wrap64_id by lia. lia.
Qed.

Lemma backoff_after_closed cfg k :
  small_interval cfg →
  backoff_after cfg k = Z.min (2 ^ Z.of_nat k * PollInterval cfg) (10 * PollInterval cfg).
Proof.
  intros Hs. pose proof Hs as [Hp _]. induction k as [|k IH]; [simpl; lia|].
  cbn [backoff_after after_poll]. cbn. rewrite IH, Nat2Z.inj_succ, Z.pow_succ_r by lia.
  assert (0 < 2 ^ Z.of_nat k)%Z by (apply Z.pow_pos_nonneg; lia).
  rewrite grown_bounds by (done || nia). nia.
Qed.

Lemma after_poll_bounds cfg r b wait b' n :
  small_interval cfg → (PollInterval cfg ≤ b ≤ 10 * PollInterval cfg)%Z →
  after_poll cfg r b = (wait, b', n) →
  (PollInterval cfg ≤ b' ≤ 10 * PollInterval cfg)%Z ∧
  (wait = 0%Z ∨ PollInterval cfg ≤ wait ≤ 10 * PollInterval cfg)%Z ∧
  (wait = 0%Z ↔ ∃ result, r = Ok result ∧ pr_Failed result = "" ∧ pr_Published result ≠ []).
Proof.
  intros Hs Hb. pose proof Hs as [Hp _]. unfold after_poll. rewrite grown_bounds by done.
  destruct r as [result|e].
  - case_bool_decide as Hf.
    { intros [= <- <- <-]. split; [lia|]. split; [lia|]. split; [lia|].
      intros (? & [= <-] & ? & _). done. }
    destruct (pr_Published result) as [|id ids] eqn:E; cbn; intros [= <- <- <-].
    + split; [lia|]. split; [lia|]. split; [lia|]. intros (? & [= <-] & _ & ?). congruence.
    + split; [lia|]. split; [lia|]. split; [|done]. intros _. exists result. rewrite E. done.
  - intros [= <- <- <-]. split; [lia|]. split; [lia|]. split; [lia|]. by intros (? & ? & _).
Qed.

(** ** A poll of the Store's outbox *)

Section store_poll.
Context {IJ : Jsonb} {IS : PgScan} {IPg : Pgconn} {W : Type} {IPool : Pool W} {IP : PublisherI W}.
Implicit Types (st : St W).

Definition pending_ids (db : DB) : gset string := dom (filter (λ p, pending p.2) (outbox_events db)).

Lemma pending_ids_elem db id :
  id ∈ pending_ids db ↔ ∃ row, outbox_events db !! id = Some row ∧ pending row.
Proof.
  unfold pending_ids. rewrite elem_of_dom. split.
  - intros [row [Hr Hp]%map_lookup_filter_Some]. eauto.
  - intros (row & Hr & Hp). exists row. by apply map_lookup_filter_Some.
Qed.

Lemma count_pending_size now db n db' :
  count_pending now db = Ok (n, db') → n = Z.of_nat (size (pending_ids db)).
Proof.
  unfold count_pending, pending_ids. intros [= <- _]. f_equal. rewrite size_dom.
  rewrite scan_perm, <- length_map_to_list. apply Permutation_length.
  apply list.NoDup_Permutation;
    [apply list.NoDup_filter, NoDup_map_to_list|apply NoDup_map_to_list|].
  intros [id row]. rewrite list_elem_of_filter, !elem_of_map_to_list, map_lookup_filter_Some. naive_solver.
Qed.

(** A pending row after it was settled. *)
Lemma settle_pending now result id row :
  pending row → (pending (settle now result id row) ↔ id ∉ pr_Published result).
Proof.
  unfold settle, pending. intros Hp. repeat case_bool_decide; simpl; naive_solver.
Qed.

Lemma outbox_step_pending now result db db' :
  outbox_step (settle now result) db db' →
  (∀ id row, outbox_events db !! id = Some row → id ∈ pr_Published result → pending row) →
  pending_ids db' = pending_ids db ∖ list_to_set (pr_Published result).
Proof.
  intros (_ & _ & _ & Hst) Hpub. apply set_eq. intros id.
  rewrite elem_of_difference, elem_of_list_to_set, !pending_ids_elem. split.
  - intros (row' & Hr & Hp). rewrite Hst in Hr.
    apply fmap_Some in Hr as (row & Hr & ->).
    assert (pending row) as Hp0.
    { destruct (decide (id ∈ pr_Published result)); [by eapply Hpub|].
      revert Hp. unfold settle, pending.
      rewrite (bool_decide_eq_false_2 (id ∈ pr_Published result)) by done. by case_bool_decide. }
    split; [eauto|]. by apply settle_pending in Hp.
  - intros [(row & Hr & Hp) Hn]. exists (settle now result id row).
    rewrite Hst, Hr. split; [done|]. by apply settle_pending.
Qed.

(** The batch split where publishing stopped, with what became of the tables. *)
Lemma poll_batch ctx locked limit now db db' w result w' :
  let batch := scanOutboxEvent <$> claimed_rows locked limit db in
  publishBatch ctx batch w = (result, w') → outbox_step (settle now result) db db' →
  ∃ pre post w1, batch = pre ++ post ∧ pr_Published result = oe_EventID <$> pre ∧
    all_published ctx pre w w1 ∧ NoDup (oe_EventID <$> batch) ∧
    (∀ id, id ∈ oe_EventID <$> batch → id ∈ pending_ids db) ∧
    pending_ids db' = pending_ids db ∖ list_to_set (oe_EventID <$> pre) ∧
    match post with
    | [] => pr_Failed result = ""
    | evt :: _ => pr_Failed result = oe_EventID evt ∧ ∃ e, publish_failed ctx evt e w1 w'
    end.
Proof.
  cbn zeta. intros Hpub Hst. apply publish_loop_spec in Hpub as (pre & post & w1 & Hb & Hp & Ha & Hpost).
  rewrite app_nil_l in Hp.
  destruct (claimed_facts locked limit db) as (Hnd & _ & _ & Hin & _).
  exists pre, post, w1. split; [done|]. split; [done|]. split; [done|].
  assert (∀ id, id ∈ oe_EventID <$> (scanOutboxEvent <$> claimed_rows locked limit db) →
    id ∈ pending_ids db) as Hpend.
  { intros id. rewrite claimed_ids. intros ([id' row] & -> & (Hr & Hpe & _)%Hin)%list_elem_of_fmap.
    apply pending_ids_elem. eauto. }
  split; [by rewrite claimed_ids|]. split; [done|]. split.
  - rewrite <- Hp. eapply outbox_step_pending; [done|]. rewrite Hp.
    intros id row Hr Hid. assert (id ∈ pending_ids db) as (row' & Hr' & Hp')%pending_ids_elem.
    { apply Hpend. rewrite Hb, fmap_app. apply elem_of_app. by left. }
    congruence.
  - destruct post; [apply Hpost|]. destruct Hpost as (? & e & _ & ?). eauto.
Qed.

(** What a poll of the Store can have done, with [pre] the events Kafka
    acknowledged during it. *)
Definition poll_post (ctx : Context) st (r : res PublishResult) st' : Prop :=
  ∃ batch pre post w1,
    batch = pre ++ post ∧ NoDup (oe_EventID <$> batch) ∧
    (∀ id, id ∈ oe_EventID <$> batch → id ∈ pending_ids (st_db st)) ∧
    all_published ctx pre (st_ext st) w1 ∧
    (pending_ids (st_db st') = pending_ids (st_db st) ∨
     pending_ids (st_db st') = pending_ids (st_db st) ∖ list_to_set (oe_EventID <$> pre)) ∧
    (∀ result, r = Ok result →
       pr_Published result = oe_EventID <$> pre ∧
       pending_ids (st_db st') = pending_ids (st_db st) ∖ list_to_set (oe_EventID <$> pre) ∧
       match post with
       | [] => pr_Failed result = ""
       | evt :: _ => pr_Failed result = oe_EventID evt ∧ ∃ e, publish_failed ctx evt e w1 (st_ext st')
       end).

Lemma poll_post_none ctx st r st' :
  st_db st' = st_db st → (∀ result, r = Ok result → result = zero_PublishResult) →
  poll_post ctx st r st'.
Proof.
  intros Hdb Hr. exists [], [], [], (st_ext st). rewrite Hdb. split; [done|]. split; [constructor|].
  split; [intros id Hid; by apply not_elem_of_nil in Hid|]. split; [constructor|]. split; [by left|].
  intros result ->. rewrite (Hr result eq_refl). split; [done|]. split; [set_solver|done].
Qed.

Lemma poll_post_holds ctx limit st r st' :
  ProcessPending limit (publishBatch ctx) st = (r, st') → poll_post ctx st r st'.
Proof.
  intros (now & locked & H)%ProcessPending_cases. destruct r as [result|e].
  - destruct H as [(_ & -> & ->)|(_ & Hpub & Hst)]; [apply poll_post_none; [done|congruence]|].
    destruct (poll_batch _ _ _ _ _ _ _ _ _ Hpub Hst)
      as (pre & post & w1 & Hb & Hp & Ha & Hnd & Hin & Hpend & Hpost).
    exists (pre ++ post), pre, post, w1. rewrite <- Hb. split_and!; try done; [by right|].
    by intros ? [= <-].
  - destruct H as [Hdb|(_ & result & Hpub & Hst)]; [by apply poll_post_none|].
    destruct (poll_batch _ _ _ _ _ _ _ _ _ Hpub Hst)
      as (pre & post & w1 & Hb & Hp & Ha & Hnd & Hin & Hpend & Hpost).
    exists (pre ++ post), pre, post, w1. rewrite <- Hb. split_and!; try done. by right.
Qed.

(** ** Properties *)

(** C13: a poll marks an event published only if Kafka acknowledged it during
    that poll, in the order of the batch and with every earlier event of the
    batch acknowledged before; when the poll succeeds exactly the acknowledged
    events are marked, and the one that failed and those after it stay pending.
    This holds for every behaviour of the broker and, after an error, whether or
    not the commit took effect. *)
Theorem poll_marks_only_acknowledged ctx limit st :
  let (r, st') := outbox_ProcessPending ctx limit publishBatch st in
  poll_post ctx st r st'.
Proof.
  cbn. destruct (ProcessPending limit (publishBatch ctx) st) as [r st'] eqn:E.
  by eapply poll_post_holds.
Qed.

(** A poll that succeeds shrinks the backlog by exactly the number of events
    it reports as published, which is what the published counter grows by. *)
Theorem poll_drains {IC : Clock (St W)} cfg ctx st m result st' m' :
  poll cfg ctx st m = (Ok result, st', m') →
  ∃ st1, st1 = (ObserveBacklog ctx st m).2 ∧
  Z.of_nat (size (pending_ids (st_db st'))) =
    (Z.of_nat (size (pending_ids (st_db st1))) - Z.of_nat (length (pr_Published result)))%Z ∧
  mt_published m' = (mt_published (ObserveBacklog ctx st m).1 + Z.of_nat (length (pr_Published result)))%Z.
Proof.
  unfold poll. destruct (ObserveBacklog ctx st m) as [m1 st1].
  change (outbox_ProcessPending ctx (BatchSize cfg) publishBatch st1)
    with (ProcessPending (BatchSize cfg) (publishBatch ctx) st1).
  destruct (ProcessPending (BatchSize cfg) (publishBatch ctx) st1) as [r st2] eqn:E.
  intros [= -> -> <-]. exists st1. split; [done|]. cbn. split; [|done].
  apply poll_post_holds in E as (batch & pre & post & w1 & -> & Hnd & Hin & _ & _ & Hr).
  destruct (Hr result eq_refl) as (-> & -> & _).
  rewrite fmap_app in Hnd. apply list.NoDup_app in Hnd as (Hnd & _ & _).
  assert (list_to_set (oe_EventID <$> pre) ⊆ pending_ids (st_db st1)).
  { intros id Hid%elem_of_list_to_set. apply Hin. rewrite fmap_app. apply elem_of_app. by left. }
  rewrite size_difference by done. rewrite size_list_to_set by done.
  assert (length (oe_EventID <$> pre) ≤ size (pending_ids (st_db st1))); [|lia].
  rewrite <- (size_list_to_set (C := gset string)) by done. by apply subseteq_size.
Qed.

(** A batch that was published honestly leaves the tables consistent. *)
Lemma poll_consistent ctx locked limit now db db' w result w' :
  let batch := scanOutboxEvent <$> claimed_rows locked limit db in
  publishBatch ctx batch w = (result, w') → outbox_step (settle now result) db db' →
  db_ok db' → consistent db → consistent db'.
Proof.
  cbn zeta. intros Hpub Hst Hok Hc.
  destruct (poll_batch _ _ _ _ _ _ _ _ _ Hpub Hst) as (pre & post & w1 & Hb & Hp & _ & Hnd & Hin & _ & Hpost).
  assert (∀ id o, outbox_events db !! id = Some o →
    id ∈ oe_EventID <$> (scanOutboxEvent <$> claimed_rows locked limit db) → pending o) as Hpend.
  { intros id o Ho (o' & Ho' & Hpe)%Hin%pending_ids_elem. congruence. }
  rewrite Hb, fmap_app in Hnd, Hpend. apply list.NoDup_app in Hnd as (_ & Hdisj & _).
  destruct post as [|evt post].
  - eapply settled_consistent; [exact Hst|done|by rewrite Hpost..|done].
  - destruct Hpost as [Hf _]. eapply settled_consistent; [exact Hst|done|..|done]; rewrite Hf; [|rewrite Hp].
    + intros o _ Ho. apply (Hpend _ _ Ho), elem_of_app. right. left.
    + intros _ Hid. apply (Hdisj _ Hid). left.
Qed.

(** C19: the Store's transactions keep the tables consistent with each other,
    which no constraint of the schema does for them: every shipment has exactly
    one outbox event, created with it, every processed event exactly one dispatch,
    recorded with it, and every outbox row its count of attempts and its last
    error as its publications went.  This holds for every way the database and the
    broker can fail, with the publisher the relay uses; and what a success
    reports is then there: the shipment with a pending event of its own, the
    dispatch of the event. *)
Theorem Store_keeps_consistent {IR : Rand W} st :
  consistent (st_db st) →
  (∀ s evt, oe_ShipmentID evt = s_ID s →
     let (r, st') := CreateShipment s evt st in
     consistent (st_db st') ∧
     (r = Ok () → is_Some (shipments (st_db st') !! s_ID s) ∧
        ∃ o, outbox_events (st_db st') !! oe_EventID evt = Some o ∧
          or_shipment_id o = s_ID s ∧ pending o ∧ or_attempts o = 0%Z)) ∧
  (∀ ctx limit, consistent (st_db (outbox_ProcessPending ctx limit publishBatch st).2)) ∧
  (∀ req, let (r, st') := RecordDispatch req st in
     consistent (st_db st') ∧
     (is_ok r = true → ∃ id d, dispatches (st_db st') !! id = Some d ∧ dr_event_id d = rq_EventID req)).
Proof.
  intros Hc. pose proof (cs_schema _ Hc) as Hok. split; [|split].
  - intros s evt Hid. pose proof (CreateShipment_keeps s evt st Hok) as Hk.
    destruct (CreateShipment s evt st) as [r st'] eqn:E. apply CreateShipment_cases in E.
    destruct r as [[]|e]; [|split; [|done]].
    + split; [by eapply created_consistent|]. intros _.
      destruct E as (_ & _ & _ & _ & currency & p & _ & _ & ->). cbn.
      rewrite !lookup_insert_eq. split; [done|]. by eexists.
    + destruct E as [->|E]; [done|by eapply created_consistent].
  - intros ctx limit. pose proof (ProcessPending_keeps limit (publishBatch ctx) st Hok) as Hk.
    change (outbox_ProcessPending ctx limit publishBatch st) with (ProcessPending limit (publishBatch ctx) st).
    destruct (ProcessPending limit (publishBatch ctx) st) as [r st'] eqn:E.
    apply ProcessPending_cases in E as (now & locked & E). cbn in *. destruct r as [result|e].
    + destruct E as [(_ & _ & ->)|(_ & Hp & Hst)]; [done|by eapply poll_consistent].
    + destruct E as [->|(_ & result & Hp & Hst)]; [done|by eapply poll_consistent].
  - intros req. pose proof (RecordDispatch_keeps req st Hok) as Hk.
    destruct (RecordDispatch req st) as [r st'] eqn:E. apply RecordDispatch_cases in E.
    destruct r as [[d []]|e]; cbn in *.
    + destruct E as (_ & [at_ Hp] & ->). split; [done|]. intros _.
      destruct (cs_dispatch _ Hc _ _ Hp) as (i & d' & Hi & He & _). by exists i, d'.
    + pose proof (recorded_consistent _ _ _ _ E Hk Hc) as Hc'. split; [done|]. intros _.
      destruct (cs_dispatch _ Hc' _ _ (proj1 (recorded_ok _ _ _ _ E))) as (i & d' & Hi & He & _). by exists i, d'.
    + split; [|done]. destruct E as [[->|(d & E)] _]; [done|by eapply recorded_consistent].
Qed.

End store_poll.

Section loop_claims.
Context {S W : Type} {IC : Clock S} {IP : PublisherI W} {IO : Outbox S W}.

(** The loop returns only when the context has ended, and does return at its
    first look at a context that has; a publish or storage failure alone never
    ends it. *)
Theorem run_stops_exactly_when_cancelled cfg ctx backoff (s : S) m :
  let '(b, s', m') := run_step cfg ctx backoff s m in
  (b = None → ctx_Err ctx s' ≠ None) ∧
  (b ≠ None → ctx_Err ctx (poll cfg ctx s m).1.2 = None).
Proof.
  unfold run_step. destruct (poll cfg ctx s m) as [[r s1] m1]. cbn.
  destruct (ctx_Err ctx s1) as [e|] eqn:Ee; [split; [by rewrite Ee|done]|].
  destruct (after_poll cfg r backoff) as [[wait b'] n].
  destruct (sleep ctx wait s1) as [[e|] s2] eqn:Es; [|done]. split; [|done]. intros _.
  unfold sleep in Es. destruct (wait <=? 0)%Z.
  - injection Es as Es <-. by rewrite Es.
  - apply select_timer_spec in Es. by rewrite Es.
Qed.

End loop_claims.

(** With an interval of up to 2^63/20 nanoseconds the waits after failures
    in a row are the interval, twice it, four and eight times it and then ten
    times it for good; after any poll the next backoff is between one and ten
    intervals, and the loop goes on without waiting exactly when it has just
    published without a failure. *)
Theorem backoff_is_bounded cfg :
  small_interval cfg →
  (∀ k, backoff_after cfg k = Z.min (2 ^ Z.of_nat k * PollInterval cfg) (10 * PollInterval cfg)) ∧
  (∀ r b wait b' n, (PollInterval cfg ≤ b ≤ 10 * PollInterval cfg)%Z →
     after_poll cfg r b = (wait, b', n) →
     (PollInterval cfg ≤ b' ≤ 10 * PollInterval cfg)%Z ∧
     (wait = 0%Z ∨ PollInterval cfg ≤ wait ≤ 10 * PollInterval cfg)%Z ∧
     (wait = 0%Z ↔ ∃ result, r = Ok result ∧ pr_Failed result = "" ∧ pr_Published result ≠ [])).
Proof.
  intros Hs. split; [intros k; by apply backoff_after_closed|]. intros. by eapply after_poll_bounds.
Qed.

Lemma backoff_is_bounded_witness : backoff_after (mkConfig Second 10) 4 = (10 * Second)%Z.
Proof.
  assert (small_interval (mkConfig Second 10)) as Hs by (split; vm_compute; [reflexivity|discriminate]).
  rewrite (proj1 (backoff_is_bounded _ Hs) 4). vm_compute. reflexivity.
Defined.

(** A longer interval that [Validate] accepts makes the backoff overflow: it
    turns negative after failures in a row, and the loop then polls without
    waiting although [Validate] is meant to reject what makes it busy-loop. *)
Theorem backoff_overflows :
  ∃ cfg k, Config_Validate cfg = None ∧ int64_ok (PollInterval cfg) = true ∧
    (backoff_after cfg k < 0)%Z ∧
    (∀ e, (after_poll cfg (Err e) (backoff_after cfg k)).1.1 = backoff_after cfg k).
Proof.
  exists (mkConfig 1000000000000000000 1), 4. split; [done|]. split; [done|].
  split; [vm_compute; reflexivity|]. by intros e.
Qed.

(** ** Examples *)

Section examples.
#[local] Existing Instances ref_PgScan ref_Pgconn ref_Kgo ref_Clock ref_GoMap.
#[local] Instance ex_pool : Pool Z := ref_Pool Z (mkTime 1700000100 0 0).
#[local] Instance ex_publisher : PublisherI Z := kafka_PublisherI (mkPublisher () 5).

Definition ex_created (id : string) (st : St Z) : St Z :=
  let s := mkShipment id 1500 (mkMoney 700 "EUR") (mkTime 1700000000 123456000 0) in
  let e := NewShipmentCreated id s "req_1" in
  match Encode e with
  | Ok payload =>
      (CreateShipment s (mkOutboxEvent (e_EventID e) id "shipment.created" payload zero_Time 0) st).2
  | Err _ => st
  end.

(** Two shipments and their pending events. *)
Definition ex_backlog : St Z := ex_created "b" (ex_created "a" (mkSt 0%Z empty_DB)).

Lemma poll_drains_witness :
  ∃ result st' m',
    poll (mkConfig Second 10) Background ex_backlog (mkMetrics 0 0 None) = (Ok result, st', m') ∧
    length (pr_Published result) = 2 ∧ size (pending_ids (st_db st')) = 0.
Proof.
  destruct (poll (mkConfig Second 10) Background ex_backlog (mkMetrics 0 0 None)) as [[r st'] m'] eqn:E.
  assert (r = Ok (mkPublishResult ["evt_61"; "evt_62"] "" None)) as ->.
  { transitivity ((poll (mkConfig Second 10) Background ex_backlog (mkMetrics 0 0 None)).1.1);
      [by rewrite E|vm_compute; reflexivity]. }
  eexists _, st', m'. split; [reflexivity|]. split; [reflexivity|].
  destruct (poll_drains _ _ _ _ _ _ _ E) as (st1 & -> & H & _).
  assert (size (pending_ids (st_db (ObserveBacklog Background ex_backlog (mkMetrics 0 0 None)).2)) = 2)
    as Hs by (vm_compute; reflexivity).
  rewrite Hs in H. simpl in H. lia.
Defined.

#[local] Instance ex_rand : Rand Z := ref_Rand Z.

(** The tables after a creation, a poll and a dispatch. *)
Lemma Store_keeps_consistent_witness :
  let ev := mkOutboxEvent "evt_a" "a" "shipment.created" "{}" zero_Time 0 in
  let s := mkShipment "a" 1500 (mkMoney 700 "EUR") (mkTime 1700000000 123456000 0) in
  let st1 := (CreateShipment s ev (mkSt 0%Z empty_DB)).2 in
  let st2 := (outbox_ProcessPending Background 10 publishBatch st1).2 in
  let (r, st3) := RecordDispatch (mkDispatchRequest "evt_a" "a" 700 "EUR") st2 in
  is_ok r = true ∧ consistent (st_db st3).
Proof.
  intros ev s st1 st2.
  assert (consistent (st_db st1)) as H1.
  { pose proof (proj1 (Store_keeps_consistent (mkSt 0%Z empty_DB) empty_DB_consistent)
      s ev eq_refl) as H. subst st1. destruct (CreateShipment s ev _). apply H. }
  assert (consistent (st_db st2)) as H2
    by exact (proj1 (proj2 (Store_keeps_consistent st1 H1)) Background 10%Z).
  pose proof (proj2 (proj2 (Store_keeps_consistent st2 H2))
    (mkDispatchRequest "evt_a" "a" 700 "EUR")) as H3.
  assert (is_ok (RecordDispatch (mkDispatchRequest "evt_a" "a" 700 "EUR") st2).1 = true) as Hr
    by (vm_compute; reflexivity).
  destruct (RecordDispatch _ st2) as [r st3]. split; [exact Hr|apply H3].
Defined.

End examples.
