(* ===== verification/Pricing.v ===== *)
(** * internal/pricing

    The client of the pricing service: one POST with a bounded context, the
    classification of transport failures, and the decoding and validation of the
    answer.  net/http is the interface [Http]. *)
From S2P Require Import Prelude GoErrors GoStrconv GoUtf8 Json JsonFacts GoTime Domain Jsonb Events GoContext Broker.

Definition ErrUnavailable : goerr :=
  ESentinel "pricing.ErrUnavailable" "pricing service unavailable".
Definition ErrTimeout : goerr := ESentinel "pricing.ErrTimeout" "pricing service timed out".
Definition ErrRejected : goerr :=
  ESentinel "pricing.ErrRejected" "pricing service rejected the request".

Inductive outcome :=
  | outcomeOK | outcomeRejected | outcomeUnavailable | outcomeTimeout | outcomeCanceled.

#[export] Instance outcome_eq_dec : EqDecision outcome.
Proof. solve_decision. Defined.

(** The request counter by its label, and the observations of the histogram. *)
Record Metrics := mkMetrics { mt_requests : outcome → Z; mt_durations : Z }.

Definition observe (o : outcome) (m : Metrics) : Metrics :=
  mkMetrics (λ o', if bool_decide (o' = o) then (mt_requests m o' + 1)%Z else mt_requests m o')
    (mt_durations m + 1).

(** [json.Marshal(quoteRequest{...})] does not fail. *)
Definition quoteRequest (weightGrams : Z) : string :=
  json_print (JObj [("weight_grams", jint weightGrams)]).

Record quoteResponse := mkQuoteResponse { q_AmountCents : option Z; q_Currency : option string }.

Definition quoteResponse_step (q : quoteResponse) (k : string) (v : json) : option quoteResponse :=
  let 'mkQuoteResponse ac cu := q in
  if names k "amount_cents" then (λ x, mkQuoteResponse x cu) <$> dec_int 64 v
  else if names k "currency" then (λ x, mkQuoteResponse ac x) <$> dec_string v
  else Some q.

Definition Unmarshal_quote (raw : string) : option quoteResponse :=
  v ← json_parse raw;
  match v with
  | JNull => Some (mkQuoteResponse None None)
  | JObj ms => dec_members quoteResponse_step (mkQuoteResponse None None) ms
  | _ => None
  end.

(** The text of [fmt.Errorf("%w: ...", err)] with further wrapped errors. *)
Definition wrap_with (e : goerr) (text : string) (more : list goerr) : goerr :=
  EWrap (Error e +:+ ": " +:+ text) (e :: more).

(** [(money, outcome, err)] with the zero money when there is an error. *)
Definition decodeQuote (status : Z) (raw : string) : outcome * res Money :=
  if (status =? 400)%Z || (status =? 422)%Z then
    (outcomeRejected, Err (wrap_with ErrRejected ("HTTP " +:+ Itoa status +:+ ": " +:+ TrimSpace raw) []))
  else if negb (status =? 200)%Z then
    (outcomeUnavailable, Err (wrap_with ErrUnavailable ("HTTP " +:+ Itoa status) []))
  else
    match Unmarshal_quote raw with
    | None =>
        let err := EOther "json: cannot unmarshal" in
        (outcomeUnavailable, Err (wrap_with ErrUnavailable ("decode response: " +:+ Error err) [err]))
    | Some out =>
        match q_AmountCents out, q_Currency out with
        | Some amount, Some currency =>
            let money := mkMoney amount currency in
            match ValidateMoney money with
            | Some err => (outcomeUnavailable, Err (wrap_with ErrUnavailable (Error err) [err]))
            | None => (outcomeOK, Ok money)
            end
        | _, _ =>
            (outcomeUnavailable,
             Err (wrap_with ErrUnavailable
                    ("response is missing amount_cents or currency: " +:+ TrimSpace raw) []))
        end
    end.

Record HttpRequest := mkRequest {
  hr_method : string; hr_url : string; hr_body : string; hr_headers : list (string * string)
}.

(** net/http: the check of the URL, the round trip, and the body of an answer,
    read up to a limit. *)
Class Http (W : Type) := {
  response : Type;
  StatusCode : response → Z;
  Status : response → string;
  NewRequest_err : string → option goerr;
  http_Do : Context → HttpRequest → W → res response * W;
  ReadAll_limit : Context → Z → response → W → res string * W;
  Body_Close : response → W → W
}.

Record Client := mkClient { c_baseURL : string; c_timeout : Z }.

Section client.
Context {W : Type} {IC : Clock W} {IH : Http W}.

Definition classifyTransport (ctx : Context) (stage : string) (err : goerr) (w : W) : outcome * goerr :=
  match ctx_Err ctx w with
  | Some ctxErr =>
      if Is ctxErr CtxDeadlineExceeded then
        (outcomeTimeout, wrap_with ErrTimeout (stage +:+ ": " +:+ Error ctxErr) [ctxErr])
      else (outcomeCanceled, EWrap (stage +:+ ": " +:+ Error ctxErr) [ctxErr])
  | None => (outcomeUnavailable, wrap_with ErrUnavailable (stage +:+ ": " +:+ Error err) [err])
  end.

Definition request_for (c : Client) (ctx : Context) (weightGrams : Z) : HttpRequest :=
  let id := FromContext ctx in
  mkRequest "POST" (c_baseURL c +:+ "/quote") (quoteRequest weightGrams)
    (("Content-Type", "application/json") ::
     (if bool_decide (id = "") then [] else [(HTTPHeader, id)])).

Definition quote (c : Client) (ctx : Context) (weightGrams : Z) (w : W) : outcome * res Money * W :=
  let ctx := WithTimeout ctx (c_timeout c) w in
  match NewRequest_err (c_baseURL c +:+ "/quote") with
  | Some err => (outcomeUnavailable, Err err, w)
  | None =>
      match http_Do ctx (request_for c ctx weightGrams) w with
      | (Err err, w) => let (o, err) := classifyTransport ctx "request" err w in (o, Err err, w)
      | (Ok resp, w) =>
          match ReadAll_limit ctx (2 ^ 16)%Z resp w with
          | (Err err, w) =>
              let (o, err) := classifyTransport ctx "read body" err w in
              (o, Err err, Body_Close resp w)
          | (Ok raw, w) => (decodeQuote (StatusCode resp) raw, Body_Close resp w)
          end
      end
  end.

Definition Quote (c : Client) (ctx : Context) (weightGrams : Z) (w : W) (m : Metrics) : res Money * W * Metrics :=
  let '(o, r, w) := quote c ctx weightGrams w in
  (r, w, observe o m).

End client.

(** ** Lemmas *)

Lemma quoteResponse_step_range q k v q' :
  opt_range 64 (q_AmountCents q) → quoteResponse_step q k v = Some q' →
  opt_range 64 (q_AmountCents q').
Proof.
  destruct q as [ac cu]. unfold quoteResponse_step. simpl. intros Hq.
  destruct (names k "amount_cents").
  { intros (x & Hx & ->)%fmap_Some. by eapply dec_int_range. }
  destruct (names k "currency"); [by intros (x & Hx & ->)%fmap_Some|]. by intros [= <-].
Qed.

Lemma Unmarshal_quote_range raw q : Unmarshal_quote raw = Some q → opt_range 64 (q_AmountCents q).
Proof.
  unfold Unmarshal_quote. intros (v & _ & H)%bind_Some. destruct v; try done; [by simplify_eq|].
  eapply (dec_members_inv (λ q, opt_range 64 (q_AmountCents q))) in H; [done| |done].
  intros. by eapply quoteResponse_step_range.
Qed.

Definition classified_as (o : outcome) (e : goerr) : Prop :=
  match o with
  | outcomeOK => False
  | outcomeRejected => Is e ErrRejected = true ∧ Is e ErrUnavailable = false
  | outcomeUnavailable => Is e ErrUnavailable = true ∧ Is e ErrRejected = false
  | outcomeTimeout => Is e ErrTimeout = true ∧ Is e CtxDeadlineExceeded = true
  | outcomeCanceled => Is e ErrTimeout = false ∧ Is e ErrUnavailable = false
  end.

Lemma decodeQuote_spec status raw o r :
  decodeQuote status raw = (o, r) →
  (o = outcomeRejected ↔ status = 400%Z ∨ status = 422%Z) ∧
  match r with
  | Ok m => o = outcomeOK ∧ status = 200%Z ∧ valid_money m ∧ int64_ok (AmountCents m) = true ∧
      ∃ q, Unmarshal_quote raw = Some q ∧ q_AmountCents q = Some (AmountCents m) ∧
        q_Currency q = Some (Currency m)
  | Err e => classified_as o e ∧ (o = outcomeRejected ∨ o = outcomeUnavailable)
  end.
Proof.
  unfold decodeQuote.
  destruct (Z.eqb_spec status 400), (Z.eqb_spec status 422); simpl;
    try (intros [= <- <-]; split; [naive_solver|]; split; [done|by left]).
  destruct (Z.eqb_spec status 200) as [->|]; simpl;
    [|intros [= <- <-]; split; [naive_solver|]; split; [done|by right]].
  assert (∀ q, Unmarshal_quote raw = Some q → opt_range 64 (q_AmountCents q)) as Hq
    by apply Unmarshal_quote_range.
  destruct (Unmarshal_quote raw) as [[[a|] [c|]]|]; simpl;
    try (intros [= <- <-]; split; [naive_solver|]; split; [done|by right]).
  destruct (ValidateMoney_spec (mkMoney a c)) as [[Hm ->]|(_ & e & Hv & _)].
  - intros [= <- <-]. split; [naive_solver|]. split_and!; try done.
    + by apply (Hq _ eq_refl).
    + eexists. by split_and!.
  - rewrite Hv. intros [= <- <-]. split; [naive_solver|]. split; [|by right].
    unfold ValidateMoney in Hv. repeat case_match; simplify_eq; done.
Qed.

(** The client returns a price only from a 200 answer whose body decodes to
    it and which satisfies the money rules and fits 64 bits; 400 and 422, and
    only they, are a rejection, and everything else the service can answer is
    reported as the service being unavailable. *)
Theorem decodeQuote_validates status raw :
  let (o, r) := decodeQuote status raw in
  (o = outcomeRejected ↔ status = 400%Z ∨ status = 422%Z) ∧
  match r with
  | Ok m => o = outcomeOK ∧ status = 200%Z ∧ valid_money m ∧ int64_ok (AmountCents m) = true ∧
      ∃ q, Unmarshal_quote raw = Some q ∧ q_AmountCents q = Some (AmountCents m) ∧
        q_Currency q = Some (Currency m)
  | Err e => classified_as o e ∧ (o = outcomeRejected ∨ o = outcomeUnavailable)
  end.
Proof. destruct (decodeQuote status raw) eqn:E. by apply decodeQuote_spec. Qed.

Section client_facts.
Context {W : Type} {IC : Clock W} {IH : Http W}.

Lemma quote_money c ctx weight w o m w' :
  quote c ctx weight w = (o, Ok m, w') → valid_money m ∧ int64_ok (AmountCents m) = true.
Proof.
  unfold quote. destruct (NewRequest_err _); [done|].
  destruct (http_Do _ _ w) as [[resp|e] w1]; [|by destruct (classifyTransport _ _ _ _)].
  destruct (ReadAll_limit _ _ _ w1) as [[raw|e] w2]; [|by destruct (classifyTransport _ _ _ _)].
  destruct (decodeQuote (StatusCode resp) raw) as [o' r] eqn:E. intros [= -> -> _].
  apply decodeQuote_spec in E as (_ & _ & _ & ? & ? & _). done.
Qed.

(** A call whose context ended is a timeout when the deadline passed and a
    cancellation otherwise, never unavailability; a failure while the context is
    alive is unavailability; and the deadline that bounds the call is never later
    than the client's own timeout, whatever the caller's is. *)
Theorem transport_classification c ctx stage e (w w' : W) :
  let pctx := WithTimeout ctx (c_timeout c) w in
  (∃ t cause, ctx_done pctx = Some (t, cause) ∧ (t ≤ now w + c_timeout c)%Z) ∧
  let (o, err) := classifyTransport pctx stage e w' in
  match ctx_Err pctx w' with
  | Some cause =>
      if Is cause CtxDeadlineExceeded
      then o = outcomeTimeout ∧ Is err ErrTimeout = true ∧ Is err CtxDeadlineExceeded = true
      else o = outcomeCanceled ∧ ∀ n m, Is err (ESentinel n m) = Is cause (ESentinel n m)
  | None => o = outcomeUnavailable ∧ Is err ErrUnavailable = true
  end.
Proof.
  cbn zeta. split; [apply WithTimeout_done|]. unfold classifyTransport.
  destruct (ctx_Err _ w') as [cause|] eqn:E; [|by split].
  destruct (Is cause CtxDeadlineExceeded) eqn:Ed.
  - split; [done|]. split; [done|].
    change (false || (Is cause CtxDeadlineExceeded || false) = true). by rewrite Ed.
  - split; [done|]. intros n m. rewrite Is_wrap. simpl. by rewrite orb_false_r.
Qed.

(** Pricing a parcel over HTTP counts exactly one outcome and one duration,
    and a price it returns is valid whatever the service, the transport or the
    caller did. *)
Theorem Quote_returns_valid_money c ctx weight (w : W) m :
  let '(r, w', m') := Quote c ctx weight w m in
  (∀ p, r = Ok p → valid_money p ∧ int64_ok (AmountCents p) = true) ∧
  mt_durations m' = (mt_durations m + 1)%Z ∧
  ∃ o, ∀ o', mt_requests m' o' = (mt_requests m o' + if bool_decide (o' = o) then 1 else 0)%Z.
Proof.
  unfold Quote. destruct (quote c ctx weight w) as [[o r] w'] eqn:E. split; [|split; [done|]].
  - intros p ->. by eapply quote_money.
  - exists o. intros o'. simpl. case_bool_decide; lia.
Qed.

End client_facts.
