(* ===== verification/PricingService.v ===== *)
(** * The pricing service

    src/pricing/app: the rules of pricing.py and the FastAPI application of
    main.py.  An [int] of Python is unbounded and [//] rounds down; an exception is
    the left side of a sum.  FastAPI with pydantic and prometheus_client, and what
    is used of Python's runtime, are interfaces.  The last part puts the service
    behind the HTTP client of Pricing. *)
From S2P Require Import Prelude GoErrors GoStrconv GoUtf8 Json JsonFacts GoTime Domain Jsonb Events GoContext Broker Pricing.

(** ** pricing.py *)

Definition MIN_WEIGHT_GRAMS : Z := 1.
Definition MAX_WEIGHT_GRAMS : Z := 30000.
Definition BASE_CENTS : Z := 500.
Definition PER_STARTED_KG_CENTS : Z := 100.
Definition CURRENCY : string := "USD".

Record InvalidWeight := mkInvalidWeight { iw_str : string }.
Record PyMoney := mkPyMoney { amount_cents : Z; currency : string }.

Definition validate_weight (weight_grams : Z) : InvalidWeight + Z :=
  if (MIN_WEIGHT_GRAMS <=? weight_grams)%Z && (weight_grams <=? MAX_WEIGHT_GRAMS)%Z then inr weight_grams
  else inl (mkInvalidWeight ("weight_grams must be between " +:+ Itoa MIN_WEIGHT_GRAMS +:+ " and "
              +:+ Itoa MAX_WEIGHT_GRAMS +:+ ", got " +:+ Itoa weight_grams)).

Definition started_kilograms (weight_grams : Z) : Z := (- (- weight_grams / 1000))%Z.

Definition quote (weight_grams : Z) : InvalidWeight + PyMoney :=
  match validate_weight weight_grams with
  | inl e => inl e
  | inr _ => inr (mkPyMoney (BASE_CENTS + PER_STARTED_KG_CENTS * started_kilograms weight_grams) CURRENCY)
  end.

(** ** Interfaces *)

(** The runtime: [int(s)], the message of the ValueError where it raises one, and
    [str.upper]. *)
Class Python := {
  py_int : string → option Z;
  py_int_decimal z : py_int (Itoa z) = Some z;
  py_int_error : string → string;
  py_upper : string → string
}.

Record Request := mkPyRequest {
  rq_method : string; rq_path : string; rq_body : string; rq_headers : list (string * string)
}.
Record Response := mkResponse {
  rs_status_code : Z; rs_body : string; rs_headers : list (string * string)
}.

(** A dict of the content of a [JSONResponse]. *)
Abbreviation Content := (list (string * (Z + string))).

(** Text that no JSON encoder escapes. *)
Definition plain_char (c : ascii) : bool :=
  (32 <=? code c)%Z && (code c <? 127)%Z && negb (Ascii.eqb c GoUtf8.quote) && negb (Ascii.eqb c backslash).
Definition plain_text (s : string) : bool := str_forall plain_char s.

Definition json_of (content : Content) : json :=
  JObj ((λ p, (p.1, match p.2 with inl z => jint z | inr s => JStr s end)) <$> content).

Definition plain_content (content : Content) : Prop :=
  Forall (λ p, plain_text p.1 = true ∧ match p.2 with inl _ => True | inr s => plain_text s = true end) content.

(** FastAPI reads a body into a model, answers 422 when it does not fit, renders
    JSON, and answers for routes that do not exist. *)
Class FastAPI := {
  read_QuoteRequest : string → option Z;
  (** pydantic accepts a JSON integer for an [int] field. *)
  read_integer raw z : int32_ok z = true →
    json_parse raw = Some (JObj [("weight_grams", jint z)]) → read_QuoteRequest raw = Some z;
  unprocessable : string → string;
  render_JSON : Content → string;
  (** Rendered JSON is compact and parses to what was rendered. *)
  render_parses content : plain_content content →
    json_parse (render_JSON content) = Some (json_of content) ∧
    String.length (render_JSON content) ≤ String.length (json_print (json_of content));
  no_route : Request → Response
}.

(** ** main.py *)

Definition CORRELATION_HEADER : string := "X-Correlation-ID".

Record Settings := mkSettings { artificial_delay_ms : Z; log_level : string }.

(** The message of the ValueError, or the settings. *)
Definition from_env `{!Python} (env : gmap string string) : string + Settings :=
  let raw := default "0" (env !! "PRICING_ARTIFICIAL_DELAY_MS") in
  match py_int raw with
  | None => inl (py_int_error raw)
  | Some delay =>
      if (delay <? 0)%Z then inl ("PRICING_ARTIFICIAL_DELAY_MS must be >= 0, got " +:+ Itoa delay)
      else inr (mkSettings delay (py_upper (default "INFO" (env !! "LOG_LEVEL"))))
  end.

(** pricing_quotes_total by outcome, pricing_quote_duration_seconds by its count. *)
Record Metrics := mkQuoteMetrics { quotes_ok : Z; quotes_invalid : Z; duration : Z }.
Definition zero_QuoteMetrics : Metrics := mkQuoteMetrics 0 0 0.

(** [f"{n:x}"]. *)
Fixpoint hex_text (fuel : nat) (n : Z) : string :=
  match fuel with
  | O => ""
  | S fuel => if (n <? 16)%Z then str1 (hex_digit n) else hex_text fuel (n / 16) +:+ str1 (hex_digit (n mod 16))
  end.

(** A header, by its name in any case. *)
Fixpoint header (name : string) (l : list (string * string)) : option string :=
  match l with
  | [] => None
  | (k, v) :: l => if bool_decide (fold_name k = fold_name name) then Some v else header name l
  end.

Class Time_ns (W : Type) := { time_ns : W → Z }.

Section app.
Context {IF : FastAPI} {W : Type} {IC : Clock W} {IT : Time_ns W}
  (generate_latest : Metrics → string) (settings : Settings).

Definition JSONResponse (status : Z) (content : Content) : Response :=
  mkResponse status (render_JSON content) [("content-type", "application/json")].

(** The handler of POST /quote, once the body is a [QuoteRequest]. *)
Definition post_quote (weight_grams : Z) (w : W) (m : Metrics) : (InvalidWeight + Response) * W * Metrics :=
  let w := if (artificial_delay_ms settings =? 0)%Z then w
           else wait_until (now w + artificial_delay_ms settings * 1000000) w in
  match quote weight_grams with
  | inl exc => (inl exc, w, m)
  | inr money =>
      (inr (JSONResponse 200 [("amount_cents", inl (amount_cents money)); ("currency", inr (currency money))]),
       w, mkQuoteMetrics (quotes_ok m + 1) (quotes_invalid m) (duration m + 1))
  end.

Definition invalid_weight (exc : InvalidWeight) (m : Metrics) : Response * Metrics :=
  (JSONResponse 422 [("detail", inr (iw_str exc))],
   mkQuoteMetrics (quotes_ok m) (quotes_invalid m + 1) (duration m)).

Definition healthz : Response := JSONResponse 200 [("status", inr "ok")].

(** What the routes answer. *)
Definition call_next (req : Request) (w : W) (m : Metrics) : Response * W * Metrics :=
  if bool_decide (rq_method req = "POST" ∧ rq_path req = "/quote") then
    match read_QuoteRequest (rq_body req) with
    | None => (mkResponse 422 (unprocessable (rq_body req)) [("content-type", "application/json")], w, m)
    | Some weight_grams =>
        match post_quote weight_grams w m with
        | (inl exc, w, m) => let (resp, m) := invalid_weight exc m in (resp, w, m)
        | (inr resp, w, m) => (resp, w, m)
        end
    end
  else if bool_decide (rq_method req = "GET" ∧ rq_path req = "/healthz") then (healthz, w, m)
  else if bool_decide (rq_method req = "GET" ∧ rq_path req = "/metrics") then
    (mkResponse 200 (generate_latest m) [("content-type", "text/plain; version=0.0.4; charset=utf-8")], w, m)
  else (no_route req, w, m).

(** The middleware: the caller's correlation ID, or a fallback, on every answer. *)
Definition correlation_id (req : Request) (w : W) : string :=
  let fallback := "req_pricing_" +:+ hex_text 64 (time_ns w) in
  match header CORRELATION_HEADER (rq_headers req) with
  | Some id => if bool_decide (id = "") then fallback else id
  | None => fallback
  end.

Definition correlate (req : Request) (w : W) (m : Metrics) : Response * W * Metrics :=
  let id := correlation_id req w in
  let '(resp, w, m) := call_next req w m in
  (mkResponse (rs_status_code resp) (rs_body resp) (rs_headers resp ++ [(CORRELATION_HEADER, id)]), w, m).

End app.

(** ** The price *)

(** 1..1000 g is one started kilogram, 1001..2000 g two, and so on. *)
Lemma started_kilograms_spec w : (1000 * (started_kilograms w - 1) < w <= 1000 * started_kilograms w)%Z.
Proof.
  unfold started_kilograms. pose proof (Z.div_mod (- w) 1000). pose proof (Z.mod_pos_bound (- w) 1000). lia.
Qed.

Lemma quote_cases w :
  (valid_weight w ∧ quote w = inr (mkPyMoney (500 + 100 * started_kilograms w) "USD")) ∨
  (¬ valid_weight w ∧ ∃ e, quote w = inl e ∧
     iw_str e = "weight_grams must be between 1 and 30000, got " +:+ Itoa w).
Proof.
  unfold quote, validate_weight, valid_weight. change MIN_WEIGHT_GRAMS with 1%Z. change MAX_WEIGHT_GRAMS with 30000%Z.
  destruct (Z.leb_spec 1 w), (Z.leb_spec w 30000); cbn [andb]; [left|right..]; (split; [lia|]); eauto.
Qed.

(** ** The service behind the client *)

(** The world of the client with the service's counters. *)
Record Net (W : Type) := mkNet { net_w : W; net_quotes : Metrics }.
Arguments mkNet {W} _ _.
Arguments net_w {W} _.
Arguments net_quotes {W} _.

Definition Net_Clock {W} {IC : Clock W} : Clock (Net W).
Proof.
  refine {| now := λ n, now (net_w n); wait_until := λ t n, mkNet (wait_until t (net_w n)) (net_quotes n);
            pick_done := λ n, pick_done (net_w n) |};
    intros; [apply wait_until_mono|apply wait_until_reached].
Defined.

Section behind_client.
Context {IF : FastAPI} {W : Type} {IC : Clock W} {IT : Time_ns W}
  (generate_latest : Metrics → string) (settings : Settings) (base : string).
#[local] Existing Instance Net_Clock.

(** A network that delivers: the call ends with the answer, or with the context's
    error when that ended first. *)
Definition deliver (ctx : Context) (req : HttpRequest) (n : Net W) : res Response * Net W :=
  let path := default (hr_url req) (strip base (hr_url req)) in
  let '(resp, w, m) := correlate generate_latest settings
        (mkPyRequest (hr_method req) path (hr_body req) (hr_headers req)) (net_w n) (net_quotes n) in
  let n := mkNet w m in
  (match ctx_Err ctx n with
   | Some e => Err (EWrap (hr_method req +:+ " " +:+ hr_url req +:+ ": " +:+ Error e) [e])
   | None => Ok resp
   end, n).

Definition service_Http : Http (Net W) := {|
  response := Response; StatusCode := rs_status_code; Status := λ r, Itoa (rs_status_code r);
  NewRequest_err := λ _, None; http_Do := deliver;
  ReadAll_limit := λ _ limit r n, (Ok (String.substring 0 (Z.to_nat limit) (rs_body r)), n);
  Body_Close := λ _ n, n |}.
#[local] Existing Instance service_Http.

(** *** The client reads what the service writes *)

Lemma quoteRequest_parses weight :
  json_parse (quoteRequest weight) = Some (JObj [("weight_grams", jint weight)]).
Proof.
  apply json_parse_print; [|done]. cbn. split_and!; [|apply wf_lit_Itoa|done].
  apply (wf_raw_escape "weight_grams"). reflexivity.
Qed.

Lemma substring_all n s : String.length s ≤ n → String.substring 0 n s = s.
Proof.
  revert n. induction s as [|c s IH]; intros [|n] H; cbn in *; try done; [lia|]. by rewrite IH by lia.
Qed.

Definition price_content (amount : Z) : Content := [("amount_cents", inl amount); ("currency", inr "USD")].

(** Thirty prices, the longest of four digits. *)
Lemma price_short k :
  (1 ≤ k ≤ 30)%Z → String.length (json_print (json_of (price_content (500 + 100 * k)))) ≤ 65536.
Proof.
  intros Hk.
  assert (forallb (λ k, String.length (json_print (json_of (price_content (500 + 100 * k)))) <=? 65536)
            (seqZ 1 30) = true) as H by (vm_compute; reflexivity).
  rewrite forallb_forall in H. apply Nat.leb_le, H, list_elem_of_In, elem_of_seqZ. lia.
Qed.

Lemma price_decodes amount :
  (0 <= amount)%Z → int64_ok amount = true →
  decodeQuote 200 (render_JSON (price_content amount)) = (outcomeOK, Ok (mkMoney amount "USD")).
Proof.
  intros H0 Hok.
  assert (Unmarshal_quote (render_JSON (price_content amount)) = Some (mkQuoteResponse (Some amount) (Some "USD"))) as E.
  { unfold Unmarshal_quote. rewrite (proj1 (render_parses (price_content amount) ltac:(repeat constructor))).
    cbn -[dec_int dec_string names jint]. change (names "amount_cents" "amount_cents") with true.
    unfold dec_int, jint. rewrite ParseInt_Itoa, Hok by done. reflexivity. }
  unfold decodeQuote. cbn [Z.eqb Pos.eqb orb negb]. rewrite E. cbn [q_AmountCents q_Currency].
  assert (ValidateMoney (mkMoney amount "USD") = None) as ->; [|done].
  unfold ValidateMoney. cbn [AmountCents]. by rewrite (proj2 (Z.ltb_ge _ _) H0).
Qed.

(** What the service does with a request of the client. *)
Definition after_delay (w : W) : W :=
  if (artificial_delay_ms settings =? 0)%Z then w else wait_until (now w + artificial_delay_ms settings * 1000000) w.

Lemma service_answers weight headers w m :
  int32_ok weight = true →
  let req := mkPyRequest "POST" "/quote" (quoteRequest weight) headers in
  let '(resp, w', m') := correlate generate_latest settings req w m in
  w' = after_delay w ∧
  rs_headers resp = [("content-type", "application/json"); (CORRELATION_HEADER, correlation_id req w)] ∧
  ((valid_weight weight ∧ rs_status_code resp = 200%Z ∧
    rs_body resp = render_JSON (price_content (500 + 100 * started_kilograms weight)) ∧
    m' = mkQuoteMetrics (quotes_ok m + 1) (quotes_invalid m) (duration m + 1)) ∨
   (¬ valid_weight weight ∧ rs_status_code resp = 422%Z ∧
    m' = mkQuoteMetrics (quotes_ok m) (quotes_invalid m + 1) (duration m))).
Proof.
  intros Hw req. unfold correlate, call_next, post_quote.
  rewrite bool_decide_eq_true_2 by done. cbn [rq_body req].
  rewrite (read_integer (quoteRequest weight) weight Hw (quoteRequest_parses weight)). fold (after_delay w).
  destruct (quote_cases weight) as [[Hv ->]|(Hv & e & -> & _)]; cbn; (split; [done|]; split; [done|]); [left|right]; done.
Qed.

Lemma started_kilograms_range weight : valid_weight weight → (1 ≤ started_kilograms weight ≤ 30)%Z.
Proof. pose proof (started_kilograms_spec weight). unfold valid_weight. lia. Qed.

(** A quote held as long as the client waits comes too late. *)
Lemma late_call ctx d (n : Net W) m :
  (0 < d <= artificial_delay_ms settings * 1000000)%Z →
  is_Some (ctx_Err (WithTimeout ctx d n) (mkNet (after_delay (net_w n)) m)).
Proof.
  intros Hd. destruct (WithTimeout_done ctx d n) as (t & e & Hdone & Ht).
  unfold ctx_Err. rewrite Hdone. unfold after_delay.
  destruct (Z.eqb_spec (artificial_delay_ms settings) 0); [lia|].
  assert (t <= now (mkNet (wait_until (now (net_w n) + artificial_delay_ms settings * 1000000) (net_w n)) m))%Z as H.
  { cbn in *. pose proof (wait_until_reached (now (net_w n) + artificial_delay_ms settings * 1000000) (net_w n)). lia. }
  apply Z.leb_le in H. rewrite H. by eexists.
Qed.

(** C18: the client and the pricing service agree: for a weight the service accepts
    the client returns 500 cents plus 100 for each started kilogram, in USD; for
    any other it reports a rejection; and when the service holds the quote until
    the client's deadline, or the caller's, the call ends as a timeout or a
    cancellation and never with a price.  The service counts the request once. *)
Theorem client_and_service_agree (c : Client) ctx weight (n : Net W) :
  c_baseURL c = base → int32_ok weight = true →
  let pctx := WithTimeout ctx (c_timeout c) n in
  let '(o, r, n') := Pricing.quote c ctx weight n in
  net_w n' = after_delay (net_w n) ∧
  (quotes_ok (net_quotes n') + quotes_invalid (net_quotes n')
   = quotes_ok (net_quotes n) + quotes_invalid (net_quotes n) + 1)%Z ∧
  match ctx_Err pctx n' with
  | Some e =>
      if Is e CtxDeadlineExceeded then o = outcomeTimeout ∧ ∃ err, r = Err err ∧ Is err ErrTimeout = true
      else o = outcomeCanceled ∧ ∃ err, r = Err err
  | None =>
      (¬ valid_weight weight ∧ o = outcomeRejected ∧ ∃ err, r = Err err ∧ Is err ErrRejected = true) ∨
      (valid_weight weight ∧ o = outcomeOK ∧ ∃ k, (1000 * (k - 1) < weight <= 1000 * k)%Z ∧
         r = Ok (mkMoney (500 + 100 * k) "USD"))
  end ∧
  ((0 < c_timeout c <= artificial_delay_ms settings * 1000000)%Z → o = outcomeTimeout ∨ o = outcomeCanceled).
Proof.
  intros Hbase Hw pctx. unfold Pricing.quote. cbn [NewRequest_err http_Do service_Http].
  unfold deliver. cbn [hr_url hr_method hr_body hr_headers request_for]. rewrite Hbase, strip_text. cbn [default].
  fold pctx. change (id "/quote") with "/quote". set (headers := _ :: _).
  pose proof (service_answers weight headers (net_w n) (net_quotes n) Hw) as Hs. cbn zeta in Hs.
  destruct (correlate _ _ _ _ _) as [[resp w] m]. destruct Hs as (-> & _ & Hs).
  set (n' := mkNet (after_delay (net_w n)) m).
  assert (quotes_ok m + quotes_invalid m = quotes_ok (net_quotes n) + quotes_invalid (net_quotes n) + 1)%Z as Hm.
  { destruct Hs as [(_ & _ & _ & ->)|(_ & _ & ->)]; cbn; lia. }
  assert ((0 < c_timeout c <= artificial_delay_ms settings * 1000000)%Z → is_Some (ctx_Err pctx n')) as Hlate.
  { intros Hd. by apply late_call. }
  destruct (ctx_Err pctx n') as [e|] eqn:Ee.
  - unfold classifyTransport. rewrite Ee. destruct (Is e CtxDeadlineExceeded) eqn:Ed; cbn [n' net_w net_quotes];
      rewrite Ee, Ed; (split; [done|]; split; [done|]; split; [split; [done|by eexists]|]).
    + by left.
    + by right.
  - cbn [ReadAll_limit StatusCode service_Http].
    assert ((0 < c_timeout c <= artificial_delay_ms settings * 1000000)%Z → False) as Hin.
    { intros Hd. by destruct (Hlate Hd). }
    destruct Hs as [(Hv & -> & -> & _)|(Hv & -> & _)].
    + pose proof (started_kilograms_range _ Hv) as Hk.
      rewrite substring_all.
      2: { etrans; [apply (render_parses (price_content _)); repeat constructor|].
           change (Z.to_nat (2 ^ 16)) with 65536. by apply price_short. }
      rewrite price_decodes by (first [lia|apply int64_ok_iff; lia]).
      cbn [Body_Close service_Http]. rewrite Ee.
      split; [done|]. split; [done|]. split; [|tauto]. right. split; [done|]. split; [done|].
      exists (started_kilograms weight). split; [apply started_kilograms_spec|done].
    + cbn [Body_Close service_Http]. rewrite Ee.
      split; [done|]. split; [done|]. split; [|tauto]. left. split; [done|]. split; [done|].
      eexists. split; [reflexivity|]. done.
Qed.

End behind_client.

(** ** Answers

    Every answer carries a correlation ID, the caller's when it sent one; a body
    that is no quote request and a path that does not exist count nothing. *)
Theorem answers_are_correlated `{!FastAPI} {W} `{!Clock W} `{!Time_ns W} gen settings req (w : W) m :
  let '(resp, w', m') := correlate gen settings req w m in
  let id := correlation_id req w in
  (∃ l, rs_headers resp = l ++ [(CORRELATION_HEADER, id)]) ∧ id ≠ "" ∧
  (∀ sent, header CORRELATION_HEADER (rq_headers req) = Some sent → sent ≠ "" → id = sent) ∧
  ((m' = m ∧ w' = w) ∨
   ∃ weight, rq_method req = "POST" ∧ rq_path req = "/quote" ∧ read_QuoteRequest (rq_body req) = Some weight ∧
     (valid_weight weight ↔ rs_status_code resp = 200%Z)).
Proof.
  unfold correlate. destruct (call_next gen settings req w m) as [[resp w'] m'] eqn:E.
  split; [by eexists|]. split; [|split].
  - unfold correlation_id. destruct (header _ _) as [sent|]; [case_bool_decide|]; done.
  - intros sent Hs Hne. unfold correlation_id. rewrite Hs. by rewrite bool_decide_eq_false_2.
  - unfold call_next in E. case_bool_decide as Hq; [|repeat case_bool_decide; simplify_eq; by left].
    destruct (read_QuoteRequest _) as [weight|]; [|simplify_eq; by left].
    right. exists weight. split; [apply Hq|]. split; [apply Hq|]. split; [done|].
    unfold post_quote in E. destruct (quote_cases weight) as [[Hv Hqu]|(Hv & e & Hqu & _)]; rewrite Hqu in E;
      injection E as <- _ _; cbn; naive_solver.
Qed.

(** A body that is no quote request is answered with 422 and counted under neither
    outcome; a weight out of bounds is counted as invalid, with no observation of the
    time it took. *)
Theorem unread_bodies_are_not_counted `{!FastAPI} {W} `{!Clock W} `{!Time_ns W} gen settings body headers (w : W) m :
  let '(resp, w', m') := correlate gen settings (mkPyRequest "POST" "/quote" body headers) w m in
  rs_status_code resp = 422%Z →
  match read_QuoteRequest body with
  | None => m' = m
  | Some weight => ¬ valid_weight weight ∧ m' = mkQuoteMetrics (quotes_ok m) (quotes_invalid m + 1) (duration m)
  end.
Proof.
  unfold correlate, call_next, post_quote. rewrite bool_decide_eq_true_2 by done. cbn [rq_body].
  destruct (read_QuoteRequest body) as [weight|]; [|done].
  destruct (quote_cases weight) as [[_ ->]|(Hv & e & -> & _)]; cbn; [done|auto].
Qed.

(** The settings take the delay the environment names, refuse a negative one and
    default to none. *)
Theorem settings_from_env `{!Python} env :
  match env !! "PRICING_ARTIFICIAL_DELAY_MS" with
  | None => ∃ level, from_env env = inr (mkSettings 0 level)
  | Some raw => ∀ z, raw = Itoa z →
      if (z <? 0)%Z then ∃ err, from_env env = inl err
      else ∃ level, from_env env = inr (mkSettings z level)
  end.
Proof.
  unfold from_env. destruct (env !! "PRICING_ARTIFICIAL_DELAY_MS") as [raw|]; cbn [default].
  - intros z ->. cbn [from_option id]. rewrite py_int_decimal. destruct (z <? 0)%Z; by eexists.
  - cbn [from_option id]. rewrite (py_int_decimal 0 : py_int "0" = Some 0%Z). by eexists.
Qed.

(** ** A reference instance *)

Lemma plain_wf s : plain_text s = true → wf_raw s.
Proof.
  unfold wf_raw. induction s as [|c s IH]; intros Hs r.
  { rewrite str_app_nil_l. cbn. done. }
  cbn [plain_text str_forall] in Hs. apply andb_true_iff in Hs as [Hc Hs]. unfold plain_char in Hc.
  rewrite !andb_true_iff, !negb_true_iff, Z.leb_le in Hc. destruct Hc as [[[Hlo _] Hq] Hb].
  rewrite str_app_cons. cbn [scan_str]. rewrite Hq, Hb, (proj2 (Z.ltb_ge _ _) Hlo).
  by rewrite IH.
Qed.

Lemma json_of_parses content :
  plain_content content → json_parse (json_print (json_of content)) = Some (json_of content).
Proof.
  intros Hc. apply json_parse_print.
  - unfold json_of. cbn. induction Hc as [|[k v] l [Hk Hv] Hc IH]; [done|]. cbn. split; [|exact IH].
    split; [by apply plain_wf|]. destruct v; [apply wf_lit_Itoa|by apply plain_wf].
  - unfold json_of. cbn -[max_nesting].
    assert (foldr (λ '(_, v) n, N.max (json_depth v) n) 0%N
      ((λ p : string * (Z + string), (p.1, match p.2 with inl z => jint z | inr s => JStr s end)) <$> content) = 0%N) as ->.
    { clear Hc. induction content as [|[k [z|v]] l IH]; [done|..]; cbn; by rewrite IH. }
    done.
Qed.

Definition ref_read (raw : string) : option Z :=
  match json_parse raw with
  | Some (JObj [(k, JNum lit)]) =>
      if bool_decide (k = "weight_grams") then match ParseInt lit with Ok z => Some z | Err _ => None end else None
  | _ => None
  end.

Definition ref_FastAPI : FastAPI.
Proof.
  refine {| read_QuoteRequest := ref_read;
            unprocessable := λ _, "{}"; render_JSON := λ c, json_print (json_of c);
            no_route := λ _, mkResponse 404 "{}" [] |}.
  - intros raw z Hz Hp. unfold ref_read. rewrite Hp. cbn.
    assert (int64_ok z = true) as H64.
    { apply int64_ok_iff. unfold in_range in Hz. apply bool_decide_eq_true in Hz.
      change (2 ^ (32 - 1))%Z with 2147483648%Z in Hz. lia. }
    by rewrite ParseInt_Itoa.
  - intros content Hc. split; [by apply json_of_parses|done].
Defined.

Section examples.
#[local] Existing Instances ref_Clock ref_FastAPI Net_Clock.
#[local] Instance ex_Time_ns : Time_ns Z := {| time_ns := λ w, (1700000000000000000 + w)%Z |}.

Definition ex_settings (delay : Z) : Settings := mkSettings delay "INFO".
Definition ex_base : string := "http://pricing:8000".
Definition ex_page (m : Metrics) : string := "pricing_quotes_total".
#[local] Instance ex_http : Http (Net Z) := service_Http ex_page (ex_settings 0) ex_base.

Definition ex_client : Client := mkClient ex_base 2000000000.

Example ex_price :
  (Pricing.quote ex_client Background 1500 (mkNet 0%Z zero_QuoteMetrics)).1 = (outcomeOK, Ok (mkMoney 700 "USD")).
Proof. vm_compute. reflexivity. Qed.

Example ex_fallback : correlation_id (mkPyRequest "GET" "/healthz" "" []) 255%Z = "req_pricing_17979cfe362a00ff".
Proof. vm_compute. reflexivity. Qed.

Lemma client_and_service_agree_witness :
  let '(o, r, n) := Pricing.quote ex_client Background 1001 (mkNet 0%Z zero_QuoteMetrics) in
  o = outcomeOK ∧ net_w n = 0%Z ∧
  ∃ k, (1000 * (k - 1) < 1001 <= 1000 * k)%Z ∧ r = Ok (mkMoney (500 + 100 * k) "USD").
Proof.
  pose proof (client_and_service_agree ex_page (ex_settings 0) ex_base ex_client Background 1001
                (mkNet 0%Z zero_QuoteMetrics) eq_refl eq_refl) as H.
  cbn zeta in H. unfold ex_http.
  assert (ctx_Err (WithTimeout Background (c_timeout ex_client) (mkNet 0%Z zero_QuoteMetrics))
            (Pricing.quote ex_client Background 1001 (mkNet 0%Z zero_QuoteMetrics)).2 = None) as E
    by (vm_compute; reflexivity).
  destruct (Pricing.quote _ _ _ _) as [[o r] n]. cbn [snd] in E. rewrite E in H.
  destruct H as (Hn & _ & [(Hv & _)|(_ & Ho & Hr)] & _).
  - exfalso. apply Hv. unfold valid_weight. lia.
  - split; [exact Ho|]. split; [exact Hn|exact Hr].
Defined.

End examples.
