(* ===== verification/Consumer.v ===== *)
(** * internal/consumer

    The dispatch consumer: the handler of one record with its bounded retries,
    the check of the configuration, and the loop that commits a record's offset
    only after the handler succeeded.  The store and the Kafka client are the
    interfaces [DispatchStore] and [KafkaConsumer].  Metrics are threaded
    through; log lines are not modelled. *)
From S2P Require Import Prelude GoErrors GoStrconv GoUtf8 GoTime GoDuration Domain Events Jsonb Database Storage GoContext Broker.

Inductive Outcome :=
  | OutcomeProcessed | OutcomeDuplicate | OutcomeMalformed | OutcomeUnsupported
  | OutcomeConflict | OutcomeFailed.

#[export] Instance Outcome_eq_dec : EqDecision Outcome.
Proof. solve_decision. Defined.

Definition outcome_string (o : Outcome) : string :=
  match o with
  | OutcomeProcessed => "processed"
  | OutcomeDuplicate => "duplicate"
  | OutcomeMalformed => "malformed"
  | OutcomeUnsupported => "unsupported"
  | OutcomeConflict => "conflict"
  | OutcomeFailed => "failed"
  end.

(** The counters, the one with labels as a function of the label; the histogram
    only counts its observations. *)
Record Metrics := mkMetrics {
  mt_events : Outcome → Z;
  mt_durations : Z;
  mt_retries : Z
}.

Definition zero_Metrics : Metrics := mkMetrics (λ _, 0%Z) 0 0.
Definition inc_event (o : Outcome) (m : Metrics) : Metrics :=
  mkMetrics (λ o', if bool_decide (o' = o) then (mt_events m o' + 1)%Z else mt_events m o')
    (mt_durations m) (mt_retries m).
Definition observe_duration (m : Metrics) : Metrics :=
  mkMetrics (mt_events m) (mt_durations m + 1) (mt_retries m).
Definition inc_retries (m : Metrics) : Metrics :=
  mkMetrics (mt_events m) (mt_durations m) (mt_retries m + 1).

Record RetryPolicy := mkRetryPolicy { MaxAttempts : Z; Backoff : Z }.

Definition RetryPolicy_Validate (p : RetryPolicy) : option goerr :=
  if (MaxAttempts p <? 1)%Z then
    Some (errorf ("max attempts " +:+ Itoa (MaxAttempts p) +:+ ": must be at least 1"))
  else if (Backoff p <? 0)%Z then Some (errorf ("backoff " +:+ Duration_String (Backoff p) +:+ ": must not be negative"))
  else None.

(** The products and the sum wrap like Go's, division truncates. *)
Definition MaxWait (p : RetryPolicy) : Z :=
  let n := wrap64 (MaxAttempts p - 1) in
  Z.quot (wrap64 (wrap64 (Backoff p * n) * wrap64 (n + 1))) 2.

Record Record_ := mkRecord { rec_Partition : Z; rec_Offset : Z; rec_Value : string }.

(** [type DispatchStore interface]. *)
Class DispatchStore (S : Type) := {
  store_RecordDispatch : Context → DispatchRequest → S → res (Dispatch * bool) * S
}.

Definition decodeOutcome (err : goerr) : Outcome :=
  if Is err ErrUnsupported then OutcomeUnsupported else OutcomeMalformed.

Definition request_of (evt : ShipmentCreated) : DispatchRequest :=
  mkDispatchRequest (e_EventID evt) (e_ShipmentID evt) (ed_AmountCents (e_Data evt))
    (ed_Currency (e_Data evt)).

Section handler.
Context {S : Type} {IC : Clock S} {ID : DispatchStore S}.

(** The retry loop of [handle]; [None] when the fuel, one unit per attempt, has
    run out. *)
Fixpoint attempts (fuel : nat) (retry : RetryPolicy) (ctx : Context) (req : DispatchRequest)
    (attempt : Z) (s : S) (m : Metrics) : option (Outcome * option goerr * S * Metrics) :=
  match fuel with
  | O => None
  | Datatypes.S fuel =>
      let (r, s) := store_RecordDispatch ctx req s in
      match r with
      | Ok (_, true) => Some (OutcomeDuplicate, None, s, m)
      | Ok (_, false) => Some (OutcomeProcessed, None, s, m)
      | Err err =>
          if Is err ErrDispatchConflict then Some (OutcomeConflict, Some err, s, m)
          else
            match ctx_Err ctx s with
            | Some cerr =>
                Some (OutcomeFailed,
                      Some (EWrap ("record dispatch: " +:+ Error cerr +:+ ": " +:+ Error err) [cerr; err]),
                      s, m)
            | None =>
                if (MaxAttempts retry <=? attempt)%Z then
                  Some (OutcomeFailed,
                        Some (wrapf ("record dispatch after " +:+ Itoa attempt +:+ " attempts: ") err), s, m)
                else
                  let m := inc_retries m in
                  match select_timer ctx (wrap64 (attempt * Backoff retry)) s with
                  | (Some err, s) => Some (OutcomeFailed, Some err, s, m)
                  | (None, s) => attempts fuel retry ctx req (attempt + 1) s m
                  end
            end
      end
  end.

Definition handle_fuel (retry : RetryPolicy) : nat := Datatypes.S (Z.to_nat (MaxAttempts retry)).

Definition handle (retry : RetryPolicy) (ctx : Context) (rec : Record_) (s : S) (m : Metrics)
  : option (Outcome * option goerr * S * Metrics) :=
  match Decode (rec_Value rec) with
  | Err err => Some (decodeOutcome err, Some err, s, m)
  | Ok evt =>
      attempts (handle_fuel retry) retry (WithID ctx (e_CorrelationID evt)) (request_of evt) 1 s m
  end.

Definition Handle (retry : RetryPolicy) (ctx : Context) (rec : Record_) (s : S) (m : Metrics)
  : option (Outcome * option goerr * S * Metrics) :=
  '(outcome, err, s, m) ← handle retry ctx rec s m;
  Some (outcome, err, s, observe_duration (inc_event outcome m)).

End handler.

(** ** consumer.go *)

Definition ErrStopped : goerr :=
  ESentinel "consumer.ErrStopped" "consumer stopped on unprocessable record".

Definition GroupID : string := "dispatch-consumer".
Definition rebalanceTimeout : Z := 60 * Second.
Definition commitTimeout : Z := 10 * Second.
Definition maxRecordTimeout : Z := rebalanceTimeout / 2 - commitTimeout.

Record Config := mkConfig { Brokers : list string; Retry : RetryPolicy; RecordTimeout : Z }.

Definition Config_Validate (c : Config) : option goerr :=
  if (length (Brokers c) =? 0)%nat then Some (errorf "brokers: at least one required")
  else
    match RetryPolicy_Validate (Retry c) with
    | Some err => Some (wrapf "retry: " err)
    | None =>
        if (RecordTimeout c <=? 0)%Z then Some (errorf ("record timeout " +:+ Duration_String (RecordTimeout c) +:+ ": must be positive"))
        else if (maxRecordTimeout <? RecordTimeout c)%Z then
          Some (errorf ("record timeout " +:+ Duration_String (RecordTimeout c) +:+ ": must not exceed "
                        +:+ Duration_String maxRecordTimeout +:+ " so a stuck record cannot outlive the "
                        +:+ Duration_String rebalanceTimeout +:+ " rebalance timeout"))
        else if (RecordTimeout c <=? MaxWait (Retry c))%Z then
          Some (errorf ("retry policy can wait " +:+ Duration_String (MaxWait (Retry c))
                        +:+ ", which is not inside the record timeout " +:+ Duration_String (RecordTimeout c)))
        else None
    end.

(** What one poll of the client returns. *)
Record Fetches := mkFetches { f_closed : bool; f_records : list Record_ }.

(** The consuming side of the Kafka client; building it, with the options of
    [Run], can fail. *)
Class KafkaConsumer (S : Type) := {
  consumer_New : Config → S → option goerr * S;
  consumer_Ping : Context → S → option goerr * S;
  PollRecords : Context → Z → S → Fetches * S;
  CommitRecords : Context → Record_ → S → option goerr * S;
  AllowRebalance : S → S;
  consumer_Close : S → S
}.

Section consumer.
Context {S : Type} {IC : Clock S} {ID : DispatchStore S} {IK : KafkaConsumer S}.

Definition processRecord (cfg : Config) (ctx : Context) (rec : Record_) (s : S) (m : Metrics)
  : option (option goerr * S * Metrics) :=
  let handleCtx := WithTimeout ctx (RecordTimeout cfg) s in
  '(outcome, err, s, m) ← Handle (Retry cfg) handleCtx rec s m;
  match err with
  | Some err =>
      let where_ := ": partition " +:+ Itoa (rec_Partition rec) +:+ " offset " +:+ Itoa (rec_Offset rec)
                    +:+ " outcome " +:+ outcome_string outcome +:+ ": " in
      Some (Some (EWrap (Error ErrStopped +:+ where_ +:+ Error err) [ErrStopped; err]), s, m)
  | None =>
      let commitCtx := WithTimeout ctx commitTimeout s in
      match CommitRecords commitCtx rec s with
      | (Some err, s) =>
          Some (Some (wrapf ("commit offset partition " +:+ Itoa (rec_Partition rec) +:+ " offset "
                             +:+ Itoa (rec_Offset rec) +:+ ": ") err), s, m)
      | (None, s) => Some (None, s, m)
      end
  end.

Fixpoint processFetches (cfg : Config) (ctx : Context) (recs : list Record_) (s : S) (m : Metrics)
  : option (option goerr * S * Metrics) :=
  match recs with
  | [] => Some (None, s, m)
  | rec :: recs =>
      '(err, s, m) ← processRecord cfg ctx rec s m;
      match err with
      | Some err => Some (Some err, s, m)
      | None => processFetches cfg ctx recs s m
      end
  end.

(** The loop of [Run]: [inl err] when it returned, [inr ()] after [fuel] polls. *)
Fixpoint consume (fuel : nat) (cfg : Config) (ctx : Context) (s : S) (m : Metrics)
  : option ((option goerr + ()) * S * Metrics) :=
  match ctx_Err ctx s with
  | Some _ => Some (inl None, s, m)
  | None =>
      match fuel with
      | O => Some (inr (), s, m)
      | Datatypes.S fuel =>
          let (fetches, s) := PollRecords ctx 1 s in
          if f_closed fetches then Some (inl None, s, m)
          else
            '(err, s, m) ← processFetches cfg ctx (f_records fetches) s m;
            let s := AllowRebalance s in
            match err, ctx_Err ctx s with
            | Some err, None => Some (inl (Some err), s, m)
            | _, _ => consume fuel cfg ctx s m
            end
      end
  end.

Definition Run (fuel : nat) (cfg : Config) (ctx : Context) (s : S) (m : Metrics)
  : option ((option goerr + ()) * S * Metrics) :=
  match Config_Validate cfg with
  | Some err => Some (inl (Some (wrapf "consumer config: " err)), s, m)
  | None =>
      match consumer_New cfg s with
      | (Some err, s) => Some (inl (Some (wrapf "create kafka client: " err)), s, m)
      | (None, s) =>
          match consumer_Ping ctx s with
          | (Some err, s) => Some (inl (Some (wrapf "ping kafka: " err)), consumer_Close s, m)
          | (None, s) =>
              '(r, s, m) ← consume fuel cfg ctx s m;
              Some (r, match r with inl _ => consumer_Close s | inr _ => s end, m)
          end
      end
  end.

End consumer.

#[export] Instance store_DispatchStore {IJ : Jsonb} {IP : Pgconn} {W} {IPool : Pool W} {IR : Rand W}
  : DispatchStore (St W) := {| store_RecordDispatch := λ _, RecordDispatch |}.

(** ** Lemmas *)

Section handler_facts.
Context {S : Type} {IC : Clock S} {ID : DispatchStore S}.

(** What one record's outcome and error say together. *)
Definition outcome_ok (o : Outcome) (err : option goerr) : Prop :=
  match o with
  | OutcomeProcessed | OutcomeDuplicate => err = None
  | OutcomeConflict => ∃ e, err = Some e ∧ Is e ErrDispatchConflict = true
  | OutcomeFailed => err ≠ None
  | OutcomeMalformed | OutcomeUnsupported => False
  end.

Lemma attempts_spec retry ctx req fuel attempt (s : S) m :
  (1 ≤ attempt ≤ MaxAttempts retry)%Z → (MaxAttempts retry - attempt < Z.of_nat fuel)%Z →
  ∃ o err s' m', attempts fuel retry ctx req attempt s m = Some (o, err, s', m') ∧
    outcome_ok o err ∧ mt_events m' = mt_events m ∧ mt_durations m' = mt_durations m ∧
    (mt_retries m ≤ mt_retries m' ≤ mt_retries m + (MaxAttempts retry - attempt))%Z.
Proof.
  revert attempt s m. induction fuel as [|fuel IH]; intros attempt s m Ha Hf; [lia|]. cbn [attempts].
  destruct (store_RecordDispatch ctx req s) as [[[d []]|err] s1].
  - eexists _, _, _, _. split; [reflexivity|]. split_and!; try done; lia.
  - eexists _, _, _, _. split; [reflexivity|]. split_and!; try done; lia.
  - destruct (Is err ErrDispatchConflict) eqn:Ec.
    { eexists _, _, _, _. split; [reflexivity|]. split_and!; try done; try lia. by eexists. }
    destruct (ctx_Err ctx s1); [eexists _, _, _, _; split; [reflexivity|]; split_and!; try done; lia|].
    destruct (Z.leb_spec (MaxAttempts retry) attempt);
      [eexists _, _, _, _; split; [reflexivity|]; split_and!; try done; lia|].
    destruct (select_timer _ _ s1) as [[e|] s2].
    + eexists _, _, _, _. split; [reflexivity|]. simpl. split_and!; try done; lia.
    + destruct (IH (attempt + 1)%Z s2 (inc_retries m)) as (o & err' & s' & m' & -> & Ho & H1 & H2 & H3);
        [lia|lia|].
      eexists _, _, _, _. split; [reflexivity|]. simpl in *. split_and!; try done; lia.
Qed.

Lemma RetryPolicy_Validate_nil p :
  RetryPolicy_Validate p = None ↔ (1 ≤ MaxAttempts p ∧ 0 ≤ Backoff p)%Z.
Proof.
  unfold RetryPolicy_Validate.
  destruct (Z.ltb_spec (MaxAttempts p) 1), (Z.ltb_spec (Backoff p) 0); split; intros; try done; lia.
Qed.

Lemma handle_spec retry ctx rec (s : S) m :
  (1 ≤ MaxAttempts retry)%Z →
  ∃ o err s' m', handle retry ctx rec s m = Some (o, err, s', m') ∧
    mt_events m' = mt_events m ∧ mt_durations m' = mt_durations m ∧
    (mt_retries m ≤ mt_retries m' ≤ mt_retries m + (MaxAttempts retry - 1))%Z ∧
    match Decode (rec_Value rec) with
    | Ok evt => outcome_ok o err
    | Err e => o = decodeOutcome e ∧ err = Some e ∧ s' = s
    end.
Proof.
  intros Hm. unfold handle. destruct (Decode (rec_Value rec)) as [evt|e].
  - destruct (attempts_spec retry (WithID ctx (e_CorrelationID evt)) (request_of evt)
                (handle_fuel retry) 1 s m) as (o & err & s' & m' & -> & ? & ? & ? & ?);
      [lia|unfold handle_fuel; lia|].
    eexists _, _, _, _. split; [reflexivity|]. done.
  - eexists _, _, _, _. split; [reflexivity|]. split_and!; try done; lia.
Qed.

Lemma Handle_spec retry ctx rec (s : S) m :
  (1 ≤ MaxAttempts retry)%Z →
  ∃ o err s' m1, handle retry ctx rec s m = Some (o, err, s', m1) ∧
    Handle retry ctx rec s m = Some (o, err, s', observe_duration (inc_event o m1)).
Proof.
  intros Hm. destruct (handle_spec retry ctx rec s m Hm) as (o & err & s' & m' & E & _).
  eexists _, _, _, _. split; [exact E|]. unfold Handle. by rewrite E.
Qed.

End handler_facts.

(** ** With the Store behind the handler *)

Section store_handler.
Context {IJ : Jsonb} {IS : PgScan} {IP : Pgconn} {W : Type} {IPool : Pool W} {IR : Rand W} {IC : Clock W}.
Implicit Types (st : St W).

Lemma select_timer_db ctx d st r st' : select_timer ctx d st = (r, st') → st_db st' = st_db st.
Proof. unfold select_timer. repeat case_match; by intros [= <- <-]. Qed.

(** A request was recorded, or nothing happened. *)
Definition at_most_recorded (req : DispatchRequest) (db db' : DB) : Prop :=
  db' = db ∨ ∃ d, recorded req d db db'.

Lemma RecordDispatch_step req st r st' db0 :
  RecordDispatch req st = (r, st') → at_most_recorded req db0 (st_db st) →
  at_most_recorded req db0 (st_db st') ∧
  (∀ d dup, r = Ok (d, dup) → is_Some (processed_events (st_db st') !! rq_EventID req)).
Proof.
  intros E H. apply RecordDispatch_cases in E.
  assert (∀ d, recorded req d (st_db st) (st_db st') → at_most_recorded req db0 (st_db st')) as Hr.
  { intros d Hd. destruct H as [<-|(d0 & H)]; [right; by eexists|].
    exfalso. apply recorded_ok in H as [H _]. destruct Hd as (Hn & _). congruence. }
  destruct r as [[d []]|e].
  - destruct E as (-> & Hp & ->). split; [done|]. intros _ _ _. done.
  - split; [by eapply Hr|]. intros _ _ _. apply recorded_ok in E as [E _]. by eexists.
  - destruct E as [[->|(d & Hd)] _]; (split; [by eauto|done]).
Qed.

Lemma attempts_store fuel retry ctx req attempt st m o err st' m' db0 :
  attempts fuel retry ctx req attempt st m = Some (o, err, st', m') →
  at_most_recorded req db0 (st_db st) →
  at_most_recorded req db0 (st_db st') ∧
  (err = None → is_Some (processed_events (st_db st') !! rq_EventID req)).
Proof.
  revert attempt st m. induction fuel as [|fuel IH]; intros attempt st m; [done|]. cbn [attempts].
  change (store_RecordDispatch ctx req st) with (RecordDispatch req st).
  destruct (RecordDispatch req st) as [r st1] eqn:E. intros H Hdb.
  destruct (RecordDispatch_step _ _ _ _ _ E Hdb) as [Hdb1 Hok].
  destruct r as [[d []]|e].
  - injection H as <- <- <- <-. eauto.
  - injection H as <- <- <- <-. eauto.
  - destruct (Is e ErrDispatchConflict); [by injection H as <- <- <- <-|].
    destruct (ctx_Err ctx st1); [by injection H as <- <- <- <-|].
    destruct (MaxAttempts retry <=? attempt)%Z; [by injection H as <- <- <- <-|].
    destruct (select_timer _ _ st1) as [[e'|] st2] eqn:Es; pose proof (select_timer_db _ _ _ _ _ Es) as Hs.
    + injection H as <- <- <- <-. by rewrite Hs.
    + eapply IH; [exact H|]. by rewrite Hs.
Qed.

(** Every processed event has its dispatch. *)
Definition linked (db : DB) : Prop :=
  ∀ ev, is_Some (processed_events db !! ev) →
    ∃ id row, dispatches db !! id = Some row ∧ dr_event_id row = ev.

Lemma recorded_linked req d db db' : recorded req d db db' → linked db → linked db'.
Proof.
  intros (Hp & _ & Hd & _ & _ & c & _ & ->) Hl ev Hev. simpl in *.
  destruct (decide (ev = rq_EventID req)) as [->|Hne].
  - eexists _, _. split; [apply lookup_insert_eq|done].
  - rewrite lookup_insert_ne in Hev by done. destruct (Hl ev Hev) as (id & row & Hr & He).
    exists id, row. split; [|done]. rewrite lookup_insert_ne; [done|congruence].
Qed.

Lemma at_most_recorded_linked req db db' : at_most_recorded req db db' → linked db → linked db'.
Proof. intros [->|(d & H)]; [done|]. by eapply recorded_linked. Qed.

End store_handler.

(** ** Waiting *)

(** The sleeps between [n + 1] attempts, with the products the loop computes. *)
Fixpoint waits_sum (n : nat) (backoff : Z) : Z :=
  match n with
  | O => 0
  | S n' => waits_sum n' backoff + wrap64 (Z.of_nat n * backoff)
  end.

Definition total_wait (p : RetryPolicy) : Z := waits_sum (Z.to_nat (MaxAttempts p - 1)) (Backoff p).

Lemma waits_sum_closed n b :
  (0 ≤ b)%Z → (b * Z.of_nat n ≤ max_int64)%Z →
  (2 * waits_sum n b = b * Z.of_nat n * (Z.of_nat n + 1))%Z.
Proof.
  unfold max_int64. induction n as [|n IH]; intros Hb Hn; [simpl; lia|]. cbn [waits_sum].
  rewrite wrap64_id by nia. nia.
Qed.

(** Nothing in [MaxWait] overflows. *)
Definition wait_fits (p : RetryPolicy) : Prop :=
  (Backoff p * (MaxAttempts p - 1) * MaxAttempts p ≤ max_int64)%Z.

Lemma MaxWait_total p :
  RetryPolicy_Validate p = None → int64_ok (MaxAttempts p) = true → wait_fits p →
  MaxWait p = total_wait p ∧ (0 ≤ MaxWait p)%Z.
Proof.
  rewrite RetryPolicy_Validate_nil. unfold wait_fits, MaxWait, total_wait, max_int64.
  destruct p as [a b]. simpl. intros [Ha Hb] Hi%int64_ok_iff Hf.
  assert (b * (a - 1) ≤ 9223372036854775807)%Z by nia.
  rewrite (wrap64_id (a - 1)) by lia. rewrite (wrap64_id (a - 1 + 1)) by lia.
  rewrite (wrap64_id (b * (a - 1))) by nia.
  replace (a - 1 + 1)%Z with a by lia. rewrite wrap64_id by nia.
  assert (b * (a - 1) * a = waits_sum (Z.to_nat (a - 1)) b * 2)%Z as ->.
  { pose proof (waits_sum_closed (Z.to_nat (a - 1)) b) as Hw.
    rewrite Z2Nat.id in Hw by lia. unfold max_int64 in Hw. nia. }
  rewrite Z.quot_mul by lia. split; [done|].
  pose proof (waits_sum_closed (Z.to_nat (a - 1)) b) as Hw.
  rewrite Z2Nat.id in Hw by lia. unfold max_int64 in Hw. nia.
Qed.

Lemma Config_Validate_iff c :
  Config_Validate c = None ↔
  Brokers c ≠ [] ∧ RetryPolicy_Validate (Retry c) = None ∧
  (0 < RecordTimeout c ≤ maxRecordTimeout)%Z ∧ (MaxWait (Retry c) < RecordTimeout c)%Z.
Proof.
  unfold Config_Validate. destruct (Brokers c) as [|b l]; cbn; [naive_solver|].
  destruct (RetryPolicy_Validate (Retry c)); [naive_solver|].
  destruct (Z.leb_spec (RecordTimeout c) 0); [split; [done|lia]|].
  destruct (Z.ltb_spec maxRecordTimeout (RecordTimeout c)); [split; [done|lia]|].
  destruct (Z.leb_spec (RecordTimeout c) (MaxWait (Retry c))); [split; [done|lia]|].
  split; [|done]. intros _. split_and!; [done..|lia|done|lia].
Qed.

Lemma Config_Validate_nil c :
  Config_Validate c = None →
  RetryPolicy_Validate (Retry c) = None ∧ (0 < RecordTimeout c ≤ maxRecordTimeout)%Z ∧
  (MaxWait (Retry c) < RecordTimeout c)%Z.
Proof. by intros (_ & ?)%Config_Validate_iff. Qed.

(** ** Properties *)

Section handler_claims.
Context {S : Type} {IC : Clock S} {ID : DispatchStore S}.

(** C22: under a validated policy the handler always returns, after at most
    [MaxAttempts] calls of the store.  Its error is nil exactly for the outcomes
    processed and duplicate; a payload that cannot be decoded is classified as
    unsupported or malformed with the store untouched; conflict carries the
    store's conflict error.  Exactly the counter of the outcome grows, by one. *)
Theorem Handle_outcomes retry ctx rec (s : S) m :
  RetryPolicy_Validate retry = None →
  ∃ o err s' m', Handle retry ctx rec s m = Some (o, err, s', m') ∧
    (err = None ↔ o = OutcomeProcessed ∨ o = OutcomeDuplicate) ∧
    (∀ o', mt_events m' o' = mt_events m o' + if bool_decide (o' = o) then 1 else 0)%Z ∧
    (mt_retries m ≤ mt_retries m' ≤ mt_retries m + (MaxAttempts retry - 1))%Z ∧
    match Decode (rec_Value rec) with
    | Ok evt => outcome_ok o err
    | Err e => err = Some e ∧ s' = s ∧
        o = if Is e ErrUnsupported then OutcomeUnsupported else OutcomeMalformed
    end.
Proof.
  intros [Hm _]%RetryPolicy_Validate_nil.
  destruct (handle_spec retry ctx rec s m Hm) as (o & err & s' & m1 & E & He & _ & Hr & Hd).
  exists o, err, s', (observe_duration (inc_event o m1)). unfold Handle. rewrite E. split; [done|].
  split; [|split; [|split; [done|]]].
  - destruct (Decode (rec_Value rec)) as [evt|e].
    + destruct o; simpl in Hd; naive_solver.
    + destruct Hd as (-> & -> & _). unfold decodeOutcome. case_match; naive_solver.
  - intros o'. simpl. rewrite He. case_bool_decide; lia.
  - destruct (Decode (rec_Value rec)) as [evt|e]; [done|]. by destruct Hd as (-> & -> & ->).
Qed.

End handler_claims.

Section store_claims.
Context {IJ : Jsonb} {IS : PgScan} {IP : Pgconn} {W : Type} {IPool : Pool W} {IR : Rand W} {IC : Clock W}.
Implicit Types (st : St W).

(** C12: handling a record with the Store behind the handler, through any number
    of failed and retried transactions, some of which may have committed, either
    changes nothing or records exactly one dispatch for the event; when the
    handler reports success (and only then may the offset be committed) the
    event has its dispatch. *)
Theorem handled_record_is_dispatched retry ctx rec st m o err st' m' :
  linked (st_db st) → Handle retry ctx rec st m = Some (o, err, st', m') →
  linked (st_db st') ∧
  match Decode (rec_Value rec) with
  | Err _ => st_db st' = st_db st ∧ err ≠ None
  | Ok evt =>
      at_most_recorded (request_of evt) (st_db st) (st_db st') ∧
      (err = None → ∃ id row, dispatches (st_db st') !! id = Some row ∧
                      dr_event_id row = e_EventID evt)
  end.
Proof.
  intros Hl H. unfold Handle in H. apply bind_Some in H as ([[[o1 err1] st1] m1] & H & Heq).
  simplify_eq/=. unfold handle in H. destruct (Decode (rec_Value rec)) as [evt|e].
  - apply (attempts_store _ _ _ _ _ _ _ _ _ _ _ (st_db st)) in H as [Hr Hp]; [|by left].
    assert (linked (st_db st')) as Hl' by (by eapply at_most_recorded_linked).
    split; [done|]. split; [done|]. intros ->. by apply Hl', Hp.
  - by simplify_eq.
Qed.

End store_claims.

Section consumer_claims.
Context {S : Type} {IC : Clock S} {ID : DispatchStore S} {IK : KafkaConsumer S}.

(** A record was handled without an error and then its offset committed. *)
Definition committed_record (cfg : Config) (ctx : Context) (rec : Record_) (s s' : S) (m m' : Metrics) : Prop :=
  ∃ o s1, Handle (Retry cfg) (WithTimeout ctx (RecordTimeout cfg) s) rec s m = Some (o, None, s1, m') ∧
    (o = OutcomeProcessed ∨ o = OutcomeDuplicate) ∧
    CommitRecords (WithTimeout ctx commitTimeout s1) rec s1 = (None, s').

Inductive all_committed (cfg : Config) (ctx : Context) : list Record_ → S → S → Metrics → Metrics → Prop :=
  | committed_nil s m : all_committed cfg ctx [] s s m m
  | committed_cons rec recs s s1 s2 m m1 m2 :
      committed_record cfg ctx rec s s1 m m1 → all_committed cfg ctx recs s1 s2 m1 m2 →
      all_committed cfg ctx (rec :: recs) s s2 m m2.

(** A record stopped the consumer: its handling failed, and no commit was asked
    for, or the commit itself failed. *)
Definition record_stopped (cfg : Config) (ctx : Context) (rec : Record_) (s s' : S) (m m' : Metrics)
    (err : goerr) : Prop :=
  (∃ o e, Handle (Retry cfg) (WithTimeout ctx (RecordTimeout cfg) s) rec s m = Some (o, Some e, s', m') ∧
     Is err ErrStopped = true) ∨
  (∃ o s1 e, Handle (Retry cfg) (WithTimeout ctx (RecordTimeout cfg) s) rec s m = Some (o, None, s1, m') ∧
     CommitRecords (WithTimeout ctx commitTimeout s1) rec s1 = (Some e, s')).

(** C16: the records of a fetch are handled in order and an offset is committed
    only after its own record was handled successfully; the first record that
    cannot be handled or committed ends the fetch with an error, without a commit
    for it or for any record after it. *)
Theorem commits_only_handled_prefix cfg ctx recs (s : S) m :
  RetryPolicy_Validate (Retry cfg) = None →
  ∃ err s' m' pre post s1 m1,
    processFetches cfg ctx recs s m = Some (err, s', m') ∧ recs = pre ++ post ∧
    all_committed cfg ctx pre s s1 m m1 ∧
    match post with
    | [] => err = None ∧ s' = s1 ∧ m' = m1
    | rec :: _ => ∃ e, err = Some e ∧ record_stopped cfg ctx rec s1 s' m1 m' e
    end.
Proof.
  intros [Hm _]%RetryPolicy_Validate_nil. revert s m. induction recs as [|rec recs IH]; intros s m.
  { exists None, s, m, [], [], s, m. split; [done|]. split; [done|]. by split; [constructor|]. }
  cbn [processFetches]. unfold processRecord.
  set (hctx := WithTimeout ctx (RecordTimeout cfg) s).
  destruct (handle_spec (Retry cfg) hctx rec s m Hm) as (o & err & s1 & m1 & E & _ & _ & _ & Hd).
  assert (Handle (Retry cfg) hctx rec s m = Some (o, err, s1, observe_duration (inc_event o m1))) as EH
    by (unfold Handle; by rewrite E).
  rewrite EH. cbn [mbind option_bind]. destruct err as [e|].
  { eexists _, _, _, [], (rec :: recs), s, m. split; [done|]. split; [done|]. split; [constructor|].
    eexists. split; [done|]. left. exists o, e. split; [done|].
    change (Is ErrStopped ErrStopped || existsb (λ c, Is c ErrStopped) [e] = true). done. }
  destruct (CommitRecords _ rec s1) as [[e|] s2] eqn:Ec; cbn [mbind option_bind].
  { eexists _, _, _, [], (rec :: recs), s, m. split; [done|]. split; [done|]. split; [constructor|].
    eexists. split; [done|]. right. by exists o, s1, e. }
  destruct (IH s2 (observe_duration (inc_event o m1)))
    as (err & s' & m' & pre & post & s3 & m3 & -> & -> & Ha & Hp).
  exists err, s', m', (rec :: pre), post, s3, m3. split; [done|]. split; [done|]. split; [|done].
  econstructor; [|exact Ha]. exists o, s1. split; [done|]. split; [|done].
  destruct (Decode (rec_Value rec)); [destruct o; naive_solver|naive_solver].
Qed.

Lemma processFetches_total cfg ctx recs (s : S) m :
  RetryPolicy_Validate (Retry cfg) = None →
  ∃ err s' m', processFetches cfg ctx recs s m = Some (err, s', m').
Proof.
  intros [Hm _]%RetryPolicy_Validate_nil. revert s m.
  induction recs as [|rec recs IH]; intros s m; [by eexists _, _, _|].
  cbn [processFetches]. unfold processRecord.
  destruct (Handle_spec (Retry cfg) (WithTimeout ctx (RecordTimeout cfg) s) rec s m Hm)
    as (o & err & s1 & m1 & _ & ->). cbn [mbind option_bind].
  destruct err; [by eexists _, _, _|]. destruct (CommitRecords _ rec s1) as [[e|] s2];
    [by eexists _, _, _|apply IH].
Qed.

(** Any number of polls of [Run] comes to an end, since no record can keep the
    loop busy forever, and an invalid configuration is rejected with an error
    before anything else happens. *)
Theorem Run_total fuel cfg ctx (s : S) m :
  ∃ r s' m', Run fuel cfg ctx s m = Some (r, s', m') ∧
    (Config_Validate cfg ≠ None → s' = s ∧ ∃ e, r = inl (Some e)).
Proof.
  unfold Run. destruct (Config_Validate cfg) as [e|] eqn:Ev.
  { eexists _, _, _. split; [done|]. intros _. split; [done|by eexists]. }
  destruct (consumer_New cfg s) as [[e|] s1]; [by eexists _, _, _|].
  destruct (consumer_Ping ctx s1) as [[e|] s2]; [by eexists _, _, _|].
  assert (∃ r s' m', consume fuel cfg ctx s2 m = Some (r, s', m')) as (r & s' & m' & ->);
    [|by eexists _, _, _].
  apply Config_Validate_nil in Ev as (Hp & _).
  revert s2 m. induction fuel as [|fuel IH]; intros s2 m; cbn [consume];
    (destruct (ctx_Err ctx s2); [by eexists _, _, _|]); [by eexists _, _, _|].
  destruct (PollRecords ctx 1 s2) as [f s3]. destruct (f_closed f); [by eexists _, _, _|].
  destruct (processFetches_total cfg ctx (f_records f) s3 m Hp) as (err & s4 & m4 & ->).
  cbn [mbind option_bind]. destruct err as [e|], (ctx_Err ctx (AllowRebalance s4)); try apply IH.
  by eexists _, _, _.
Qed.

End consumer_claims.

(** C25: as long as [Backoff * (MaxAttempts - 1) * MaxAttempts] fits 64 bits,
    [Validate] does what it is meant to: it accepts a configuration exactly when a
    broker is named, the policy is valid, the record timeout is positive and at
    most the largest allowed one, and all the sleeping between the attempts of one
    record stays strictly inside that timeout; [MaxWait] is exactly the sum of
    the sleeps then, and an accepted timeout together with the commit timeout is
    at most half of the rebalance timeout.  Without the condition it is false,
    as [MaxWait_overflow_accepted] shows. *)
Theorem validated_waits_fit cfg :
  int64_ok (MaxAttempts (Retry cfg)) = true → wait_fits (Retry cfg) →
  (RetryPolicy_Validate (Retry cfg) = None → MaxWait (Retry cfg) = total_wait (Retry cfg)) ∧
  (Config_Validate cfg = None ↔
     Brokers cfg ≠ [] ∧ (1 ≤ MaxAttempts (Retry cfg))%Z ∧ (0 ≤ Backoff (Retry cfg))%Z ∧
     (0 < RecordTimeout cfg ≤ maxRecordTimeout)%Z ∧ (total_wait (Retry cfg) < RecordTimeout cfg)%Z) ∧
  (Config_Validate cfg = None →
     (0 ≤ total_wait (Retry cfg))%Z ∧ (2 * (RecordTimeout cfg + commitTimeout) ≤ rebalanceTimeout)%Z).
Proof.
  intros Ha Hf. split; [|split].
  - intros Hr. by destruct (MaxWait_total _ Hr Ha Hf).
  - rewrite Config_Validate_iff, RetryPolicy_Validate_nil.
    assert (RetryPolicy_Validate (Retry cfg) = None → MaxWait (Retry cfg) = total_wait (Retry cfg)) as Hw
      by (intros Hr; by destruct (MaxWait_total _ Hr Ha Hf)).
    rewrite RetryPolicy_Validate_nil in Hw. split.
    + intros (Hb & Hr & Ht & Hm). rewrite (Hw Hr) in Hm. by destruct Hr.
    + intros (Hb & Hm & Hk & Ht & Hs). rewrite Hw by done. done.
  - intros (_ & Hr & Ht & _)%Config_Validate_iff. destruct (MaxWait_total _ Hr Ha Hf) as [E H0]. rewrite <- E.
    split; [done|]. change maxRecordTimeout with 20000000000%Z in Ht.
    change commitTimeout with 10000000000%Z. change rebalanceTimeout with 60000000000%Z. lia.
Qed.

Lemma validated_waits_fit_witness :
  let cfg := mkConfig ["localhost:9092"] (mkRetryPolicy 5 (500 * Millisecond)) (15 * Second) in
  (total_wait (Retry cfg) < 15 * Second)%Z.
Proof.
  cbn zeta.
  set (cfg := mkConfig ["localhost:9092"] (mkRetryPolicy 5 (500 * Millisecond)) (15 * Second)).
  destruct (validated_waits_fit cfg) as (_ & H & _);
    [vm_compute; reflexivity|vm_compute; discriminate|].
  apply H. vm_compute. reflexivity.
Defined.

(** Without the bound on the product the check is fooled: a policy of 2^32+1
    attempts a nanosecond apart passes [Validate] with a record timeout of 15
    seconds, because [MaxWait] wraps around to about two seconds, while its
    sleeps add up to more than 292 years. *)
Theorem MaxWait_overflow_accepted :
  ∃ cfg, Config_Validate cfg = None ∧ int64_ok (MaxAttempts (Retry cfg)) = true ∧
    (MaxWait (Retry cfg) < 3 * Second)%Z ∧ (2 ^ 63 ≤ total_wait (Retry cfg))%Z ∧
    (RecordTimeout cfg < total_wait (Retry cfg))%Z.
Proof.
  exists (mkConfig ["localhost:9092"] (mkRetryPolicy 4294967297 1) (15 * Second)).
  assert (2 ^ 63 ≤ total_wait (mkRetryPolicy 4294967297 1))%Z as Hw.
  { unfold total_wait. cbn [MaxAttempts Backoff].
    pose proof (waits_sum_closed (Z.to_nat (4294967297 - 1)) 1) as H.
    rewrite Z2Nat.id in H by lia. unfold max_int64 in H. lia. }
  cbn [Retry RecordTimeout]. split; [vm_compute; reflexivity|]. split; [vm_compute; reflexivity|].
  split; [vm_compute; reflexivity|]. split; [exact Hw|].
  change (15 * Second)%Z with 15000000000%Z. lia.
Qed.

(** ** Examples *)

Section examples.
#[local] Existing Instances ref_PgScan ref_Pgconn ref_Clock.
#[local] Instance ex_pool : Pool Z := ref_Pool Z (mkTime 1700000100 0 0).
#[local] Instance ex_rand : Rand Z := ref_Rand Z.
#[local] Instance ex_kafka : KafkaConsumer (St Z) :=
  {| consumer_New := λ _ s, (None, s); consumer_Ping := λ _ s, (None, s);
     PollRecords := λ _ _ s, (mkFetches false [], s); CommitRecords := λ _ _ s, (None, s);
     AllowRebalance := λ s, s; consumer_Close := λ s, s |}.

Definition ex_policy : RetryPolicy := mkRetryPolicy 5 (500 * Millisecond).
Definition ex_config : Config := mkConfig ["localhost:9092"] ex_policy (15 * Second).
Definition ex_payload : string :=
  match Encode (NewShipmentCreated "12345678" ex_shipment "req_1") with Ok s => s | Err _ => "" end.
Definition ex_record : Record_ := mkRecord 0 7 ex_payload.
Definition ex_state : St Z :=
  (CreateShipment ex_shipment
     (mkOutboxEvent "evt_3132333435363738" "shp_1" "shipment.created" ex_payload zero_Time 0)
     (mkSt 0%Z empty_DB)).2.

Lemma Handle_outcomes_witness :
  ∃ o err st' m', Handle ex_policy Background ex_record ex_state zero_Metrics = Some (o, err, st', m') ∧
    outcome_ok o err.
Proof.
  destruct (Handle_outcomes ex_policy Background ex_record ex_state zero_Metrics eq_refl)
    as (o & err & st' & m' & E & _ & _ & _ & H).
  exists o, err, st', m'. split; [exact E|].
  assert (∃ evt, Decode (rec_Value ex_record) = Ok evt) as [evt Ed]
    by (eexists; vm_compute; reflexivity).
  rewrite Ed in H. exact H.
Defined.

Lemma handled_record_is_dispatched_witness :
  ∃ o st' m', Handle ex_policy Background ex_record ex_state zero_Metrics = Some (o, None, st', m') ∧
    linked (st_db st').
Proof.
  destruct (Handle_spec ex_policy Background ex_record ex_state zero_Metrics)
    as (o & err & st' & m1 & _ & E); [vm_compute; discriminate|].
  assert (err = None) as ->.
  { assert (option_map (λ p, p.1.1.2) (Handle ex_policy Background ex_record ex_state zero_Metrics)
            = Some None) as H by (vm_compute; reflexivity).
    rewrite E in H. injection H as H. exact H. }
  eexists o, st', _. split; [exact E|].
  refine (proj1 (handled_record_is_dispatched ex_policy Background ex_record ex_state zero_Metrics
                   o None st' _ _ E)).
  intros ev [t Ht]. vm_compute in Ht. discriminate Ht.
Defined.

Lemma commits_only_handled_prefix_witness :
  ∃ err s' m', processFetches ex_config Background [ex_record] ex_state zero_Metrics = Some (err, s', m').
Proof.
  destruct (commits_only_handled_prefix ex_config Background [ex_record] ex_state zero_Metrics eq_refl)
    as (err & s' & m' & _ & _ & _ & _ & E & _).
  exists err, s', m'. exact E.
Defined.

End examples.
