(* ===== verification/ShipmentApi.v ===== *)
(** * internal/shipmentapi

    The gRPC service: its three methods over the interfaces [Pricer] and [Store],
    the mapping of errors to statuses and of domain values to protobuf messages,
    and the metrics interceptor.  grpc's [status.FromError] is the parameter
    [GrpcStatus].  [UnimplementedShipmentServiceServer] and the generated
    messages are plain records here. *)
From S2P Require Import Prelude GoErrors GoStrconv GoUtf8 Json JsonFacts GoTime Domain Events Jsonb Database GoContext Storage Broker Pricing.

(** A gRPC status in the tree of an error. *)
Definition has_status (e : goerr) : bool :=
  tree_any (λ e, match e with EStatus _ _ => true | _ => false end) e.

(** [_, ok := status.FromError(err)], for an error that is not nil, and
    [status.Code]. *)
Class GrpcStatus := {
  FromError : goerr → bool;
  status_Code : goerr → Code;
  FromError_status e : has_status e = false → FromError e = false;
  status_Code_status c m : status_Code (EStatus c m) = c
}.

Class Pricer (W : Type) := { pricer_Quote : Context → Z → W → res Money * W }.

Class StoreI (S : Type) := {
  store_CreateShipment : Context → Shipment → OutboxEvent → S → res () * S;
  store_GetShipment : Context → string → S → res ShipmentView * S
}.

(** ** Protobuf messages *)

Record Timestamp := mkTimestamp { ts_seconds : Z; ts_nanos : Z }.
Record ProtoDispatch := mkProtoDispatch {
  pd_status : Z; pd_dispatch_id : string; pd_event_id : string; pd_dispatched_at : option Timestamp
}.
Record ProtoShipment := mkProtoShipment {
  ps_shipment_id : string;
  ps_weight_grams : Z;
  ps_price : Money;
  ps_created_at : Timestamp;
  ps_outbox_status : Z;
  ps_dispatch : ProtoDispatch
}.

Definition OUTBOX_STATUS_UNSPECIFIED : Z := 0.
Definition OUTBOX_STATUS_PENDING : Z := 1.
Definition OUTBOX_STATUS_PUBLISHED : Z := 2.
Definition DISPATCH_STATUS_UNSPECIFIED : Z := 0.
Definition DISPATCH_STATUS_PENDING : Z := 1.
Definition DISPATCH_STATUS_DISPATCHED : Z := 2.

(** [timestamppb.New]. *)
Definition timestamppb_New (t : Time) : Timestamp := mkTimestamp (t_sec t) (t_nsec t).

Definition toProtoMoney (m : Money) : Money := mkMoney (AmountCents m) (Currency m).

Definition toProtoOutboxStatus (s : Z) : Z :=
  if (s =? OutboxPending)%Z then OUTBOX_STATUS_PENDING
  else if (s =? OutboxPublished)%Z then OUTBOX_STATUS_PUBLISHED
  else OUTBOX_STATUS_UNSPECIFIED.

Definition toProtoDispatch (d : Dispatch) : ProtoDispatch :=
  if (d_Status d =? DispatchDispatched)%Z then
    mkProtoDispatch DISPATCH_STATUS_DISPATCHED (d_ID d) (d_EventID d)
      (Some (timestamppb_New (d_DispatchedAt d)))
  else if (d_Status d =? DispatchPending)%Z then mkProtoDispatch DISPATCH_STATUS_PENDING "" "" None
  else mkProtoDispatch DISPATCH_STATUS_UNSPECIFIED "" "" None.

Definition toProtoShipment (v : ShipmentView) : ProtoShipment :=
  let s := v_Shipment v in
  mkProtoShipment (s_ID s) (s_WeightGrams s) (toProtoMoney (s_Price s))
    (timestamppb_New (s_CreatedAt s)) (toProtoOutboxStatus (v_Outbox v)) (toProtoDispatch (v_Dispatch v)).

(** ** Errors *)

Section status.
Context {IG : GrpcStatus}.

Definition toStatus (err : goerr) : goerr :=
  if FromError err then err
  else if Is err ErrInvalidWeight || Is err ErrRejected then EStatus InvalidArgument (Error err)
  else if Is err ErrNotFound then EStatus NotFound (Error err)
  else if Is err CtxCanceled then EStatus Canceled (Error err)
  else if Is err ErrTimeout || Is err CtxDeadlineExceeded then EStatus DeadlineExceeded (Error err)
  else if Is err Pricing.ErrUnavailable || Is err Storage.ErrUnavailable then
    EStatus Unavailable (Error err)
  else EStatus Internal "internal error".

(** [fail] also logs internal errors. *)
Definition fail (err : goerr) : goerr := toStatus err.

End status.

(** ** The methods *)

Definition newOutboxEvent (rnd : string) (shipment : Shipment) (correlationID : string) : res OutboxEvent :=
  let evt := NewShipmentCreated rnd shipment correlationID in
  match Encode evt with
  | Err err => Err (wrapf "encode event: " err)
  | Ok payload =>
      Ok (mkOutboxEvent (e_EventID evt) (s_ID shipment) (e_EventType evt) payload zero_Time 0)
  end.

(** Which identifiers and timestamps the server draws: its randomness and its
    [now] function. *)
Class ServerEnv (S : Type) := { srv_rand8 : S → string * S; srv_now : S → Time * S }.

Section server.
Context {S : Type} {IG : GrpcStatus} {IPr : Pricer S} {ISt : StoreI S} {IE : ServerEnv S}.

Definition server_quote (ctx : Context) (weightGrams : Z) (s : S) : res Money * S :=
  match ValidateWeight weightGrams with
  | Some err => (Err err, s)
  | None => pricer_Quote ctx weightGrams s
  end.

Definition GetQuote (ctx : Context) (weight_grams : Z) (s : S) : res Money * S :=
  match server_quote ctx weight_grams s with
  | (Err err, s) => (Err (fail err), s)
  | (Ok price, s) => (Ok (toProtoMoney price), s)
  end.

Definition CreateShipment (ctx : Context) (weight_grams : Z) (s : S) : res ProtoShipment * S :=
  match server_quote ctx weight_grams s with
  | (Err err, s) => (Err (fail err), s)
  | (Ok price, s) =>
      let (rnd, s) := srv_rand8 s in
      let (at_, s) := srv_now s in
      let shipment := mkShipment (NewShipmentID rnd) weight_grams price (UTC at_) in
      let (rnd, s) := srv_rand8 s in
      match newOutboxEvent rnd shipment (FromContext ctx) with
      | Err err => (Err (fail err), s)
      | Ok outbox =>
          match store_CreateShipment ctx shipment outbox s with
          | (Err err, s) => (Err (fail err), s)
          | (Ok _, s) =>
              (Ok (toProtoShipment (mkView shipment OutboxPending
                                      (mkDispatch DispatchPending "" "" zero_Time))), s)
          end
      end
  end.

Definition GetShipment (ctx : Context) (shipment_id : string) (s : S) : res ProtoShipment * S :=
  if bool_decide (shipment_id = "") then (Err (EStatus InvalidArgument "shipment_id is required"), s)
  else
    match store_GetShipment ctx shipment_id s with
    | (Err err, s) => (Err (fail err), s)
    | (Ok view, s) => (Ok (toProtoShipment view), s)
    end.

End server.

(** ** The interceptor *)

Inductive Level := LevelInfo | LevelWarn | LevelError.

Definition logLevel (code : Code) : Level :=
  match code with
  | OK => LevelInfo
  | InvalidArgument | NotFound | Canceled => LevelWarn
  | _ => LevelError
  end.

(** The request counter by method and code, the observations of the histogram by
    method, and the levels of the lines logged. *)
Record Metrics := mkMetrics {
  mt_requests : string → Code → Z;
  mt_durations : string → Z;
  mt_log : list Level
}.

Section interceptor.
Context {S : Type} {IG : GrpcStatus}.

Definition code_of {A} (r : res A) : Code := match r with Ok _ => OK | Err e => status_Code e end.

Definition Interceptor {A} (method : string) (handler : S → res A * S) (s : S) (m : Metrics)
  : res A * S * Metrics :=
  let (resp, s) := handler s in
  let code := code_of resp in
  (resp, s,
   mkMetrics
     (λ me c, (mt_requests m me c + if bool_decide (me = method ∧ c = code) then 1 else 0)%Z)
     (λ me, (mt_durations m me + if bool_decide (me = method) then 1 else 0)%Z)
     (mt_log m ++ [logLevel code])).

End interceptor.

(** The running service: the pricing client and the Store over one state. *)
#[export] Instance store_StoreI {IJ : Jsonb} {IS : PgScan} {IP : Pgconn} {W} {IPool : Pool W}
  : StoreI (St W) :=
  {| store_CreateShipment := λ _, Storage.CreateShipment;
     store_GetShipment := λ _, Storage.GetShipment |}.

(** A clock on the wall next to the randomness of the world. *)
Class WallClock (W : Type) := { wall_now : W → Time * W }.

Definition on_ext {W A} (f : W → A * W) (st : St W) : A * St W :=
  let (a, w) := f (st_ext st) in (a, mkSt w (st_db st)).

#[export] Instance st_ServerEnv {W} {IR : Rand W} {IWc : WallClock W} : ServerEnv (St W) :=
  {| srv_rand8 := on_ext rand8; srv_now := on_ext wall_now |}.

(** A pricing dependency that only works outside the database. *)
#[export] Instance ext_Pricer {W} {IPr : Pricer W} : Pricer (St W) :=
  {| pricer_Quote := λ ctx weight, on_ext (pricer_Quote ctx weight) |}.

(** The metrics of the client are not part of its answer. *)
Definition client_Pricer {W} {IC : Clock W} {IH : Http W} (c : Client) (m : Pricing.Metrics) : Pricer W :=
  {| pricer_Quote := λ ctx weight w, (Quote c ctx weight w m).1 |}.

(** ** Lemmas *)

Section status_facts.
Context {IG : GrpcStatus} {IP : Pgconn}.

Lemma Is_foreign_app e n m :
  foreign e = true → is_app_sentinel (ESentinel n m) = true → Is e (ESentinel n m) = false.
Proof. apply foreign_Is. Qed.

Lemma tree_any_wrap2 p m e1 e2 :
  tree_any p (EWrap m [e1; e2]) = p (EWrap m [e1; e2]) || (tree_any p e1 || tree_any p e2).
Proof. simpl. by rewrite orb_false_r. Qed.

Lemma Is_wrap2 m e1 e2 t : Is (EWrap m [e1; e2]) t = Is e1 t || Is e2 t.
Proof. unfold Is. rewrite tree_any_wrap2. by destruct t. Qed.

Lemma Is_wrap1 m e t : Is (EWrap m [e]) t = Is e t.
Proof. unfold Is. simpl. rewrite orb_false_r. by destruct t. Qed.

Lemma classify_not_status e : has_status e = false → has_status (classify e) = false.
Proof.
  unfold classify, has_status. intros He. do 2 (case_match; [done || (simpl; by rewrite He)|]); done.
Qed.

(** What the driver makes of a database it cannot reach, or of a failure before
    anything was sent. *)
Definition unreachable (e : goerr) : Prop :=
  As_ConnectError e = true ∨ As_netError e = true ∨ SafeToRetry e = true.

(** The error of an operation of the Store: classified, and wrapped by
    [GetShipment]. *)
Definition store_error (prefix : string) (e err : goerr) : Prop :=
  (err = classify e ∧ prefix = "") ∨ err = wrapf prefix (classify e).

Lemma store_error_facts prefix e err :
  foreign e = true → has_status e = false → store_error prefix e err →
  FromError err = false ∧ Error err = prefix +:+ Error (classify e) ∧
  (∀ t, Is err t = Is (classify e) t) ∧
  (∀ n m, is_app_sentinel (ESentinel n m) = true → n ≠ "storage.ErrUnavailable" →
     Is err (ESentinel n m) = false).
Proof.
  intros Hf Hs He. assert (∀ t, Is err t = Is (classify e) t) as Hi.
  { destruct He as [[-> _]| ->]; [done|intros t; apply Is_wrapf_any]. }
  split; [|split; [|split; [done|]]].
  - apply FromError_status. destruct He as [[-> _]| ->]; [by apply classify_not_status|].
    unfold has_status, wrapf. cbn. by rewrite orb_false_r; apply classify_not_status.
  - by destruct He as [[-> ->]| ->].
  - intros n m Ha Hn. rewrite Hi, Is_classify by done. by apply foreign_Is.
Qed.

End status_facts.

(** ** Stored events *)

(** An outbox row holds the event of its shipment: its payload decodes to an
    event of the row's identifier, for the shipment the row references, with the
    weight and the price the shipment was stored with. *)
Definition event_matches (db : DB) (id : string) (row : OutboxRow) : Prop :=
  or_event_type row = TypeShipmentCreated ∧
  ∃ e s, Decode (or_payload row) = Ok e ∧ e_EventID e = id ∧ e_ShipmentID e = or_shipment_id row ∧
    shipments db !! or_shipment_id row = Some s ∧
    ed_WeightGrams (e_Data e) = sr_weight_grams s ∧
    ed_AmountCents (e_Data e) = sr_amount_cents s ∧
    ed_Currency (e_Data e) = sr_currency s.

Definition outbox_wf (db : DB) : Prop :=
  map_Forall (event_matches db) (outbox_events db) ∧
  (∀ i j r r', outbox_events db !! i = Some r → outbox_events db !! j = Some r' →
     or_shipment_id r = or_shipment_id r' → i = j).

(** What a caller and a pricing service can make the server store. *)
Definition good_input (correlationID : string) (at_ : Time) (price : Money) : Prop :=
  utf8_valid correlationID = true ∧ utc_ok (UTC at_) = true ∧
  valid_money price ∧ int64_ok (AmountCents price) = true.

Section stored.
Context {IJ : Jsonb}.

Lemma newOutboxEvent_ok rnd s cid evt :
  newOutboxEvent rnd s cid = Ok evt →
  Encode (NewShipmentCreated rnd s cid) = Ok (oe_Payload evt) ∧
  oe_EventID evt = NewEventID rnd ∧ oe_ShipmentID evt = s_ID s ∧ oe_EventType evt = TypeShipmentCreated.
Proof.
  unfold newOutboxEvent. destruct (Encode _) as [p|] eqn:E; [|done]. by intros [= <-].
Qed.

Lemma created_wf rnd rnd' weight price at_ cid evt db db' :
  let s := mkShipment (NewShipmentID rnd) weight price (UTC at_) in
  db_ok db → good_input cid at_ price → newOutboxEvent rnd' s cid = Ok evt →
  created s evt db db' → outbox_wf db → outbox_wf db'.
Proof.
  intros s [_ Hout _ _] (Hcid & Hat & Hm & Hi) (He & Hid & Hsid & Hty)%newOutboxEvent_ok
    (Hns & Hne & Hw & _ & cur & payload & Hcur & Hp & ->) [Hf Hu].
  assert (Decode payload = Ok (NewShipmentCreated rnd' s cid)) as Hd.
  { eapply decode_stored; [| |exact He|exact Hp].
    - do 2 (split; [done|]). split; [apply newID_nonempty|]. split; [apply newID_nonempty|].
      split; [done|]. simpl. by destruct price.
    - split; [by apply newID_valid|]. split; [by apply newID_valid|]. done. }
  assert (cur = Currency price) as ->.
  { destruct Hm as [_ Hc%isCurrencyCode_spec]. rewrite currency_char3 in Hcur by done.
    by apply (inj Ok) in Hcur. }
  split.
  - simpl. apply map_Forall_insert_2.
    + split; [done|]. eexists _, _. split; [exact Hd|]. rewrite Hid. simpl. rewrite Hsid.
      split; [done|]. split; [done|]. split; [apply lookup_insert_eq|done].
    + eapply map_Forall_impl; [exact Hf|]. intros i r (Ht & e & sr & Hde & H1 & H2 & H3 & H4).
      split; [done|]. exists e, sr. split_and!; try done; try (by destruct H4 as (? & ? & ?)).
      simpl. rewrite lookup_insert_ne; [done|]. intros Heq. subst s. simpl in *.
      rewrite Heq in Hns. congruence.
  - simpl. assert (∀ i r, outbox_events db !! i = Some r → or_shipment_id r ≠ oe_ShipmentID evt) as Hold.
    { intros i r Hr Heq. destruct (Hout _ _ Hr) as (_ & [x Hx] & _). rewrite Heq, Hsid in Hx. congruence. }
    intros i j r r'. rewrite !lookup_insert. repeat case_decide; intros; simplify_eq/=; try done.
    + exfalso. by eapply Hold.
    + exfalso. by eapply Hold.
    + by eapply Hu.
Qed.

End stored.

(** ** Properties *)

Section api_claims.
Context {IG : GrpcStatus} {IJ : Jsonb} {IS : PgScan} {IP : Pgconn} {W : Type} {IPool : Pool W}
  {IR : Rand W} {IPr : Pricer W} {IWc : WallClock W}.
Implicit Types (st : St W).

(** C14: the service as a whole: with a pricing dependency that returns valid
    prices and a clock in the years 0 to 9999, creating a shipment keeps the
    outbox decodable, whatever the database does.  When it answers with a
    shipment, that shipment is stored with the price and the weight in the
    answer, its event is pending in the outbox, and a consumer decodes the
    event's payload to this shipment, price and correlation ID; when it answers
    with an error the tables are unchanged, or the answer of the commit was lost
    and a shipment with such an event was added. *)
Theorem CreateShipment_stores_decodable_event ctx weight st r st' :
  (∀ c w x p x', pricer_Quote c w x = (Ok p, x') → valid_money p ∧ int64_ok (AmountCents p) = true) →
  (∀ w, utc_ok (UTC (wall_now w).1) = true) → utf8_valid (FromContext ctx) = true →
  db_ok (st_db st) → outbox_wf (st_db st) →
  CreateShipment ctx weight st = (r, st') →
  outbox_wf (st_db st') ∧
  match r with
  | Ok resp =>
      ∃ id row e, outbox_events (st_db st') !! id = Some row ∧ pending row ∧
        outbox_events (st_db st) !! id = None ∧
        Decode (or_payload row) = Ok e ∧ e_EventID e = id ∧
        e_ShipmentID e = ps_shipment_id resp ∧ ed_WeightGrams (e_Data e) = weight ∧
        ps_weight_grams resp = weight ∧
        mkMoney (ed_AmountCents (e_Data e)) (ed_Currency (e_Data e)) = ps_price resp ∧
        e_CorrelationID e = FromContext ctx ∧
        is_Some (shipments (st_db st') !! ps_shipment_id resp) ∧
        ps_outbox_status resp = OUTBOX_STATUS_PENDING
  | Err _ => st_db st' = st_db st ∨ ∃ s evt, created s evt (st_db st) (st_db st')
  end.
Proof.
  intros Hpr Hwall Hcid Hok Hwf. unfold CreateShipment, server_quote.
  destruct (ValidateWeight weight) as [err|]; [intros [= <- <-]; by split; [|left]|].
  cbn [pricer_Quote ext_Pricer]. unfold on_ext at 1.
  destruct (pricer_Quote ctx weight (st_ext st)) as [[price|err] w1] eqn:Eq;
    [|intros [= <- <-]; by split; [|left]].
  destruct (Hpr _ _ _ _ _ Eq) as [Hm Hi].
  cbn [srv_rand8 st_ServerEnv]. unfold on_ext at 1. cbn [st_ext st_db].
  destruct (rand8 w1) as [rnd w2]. cbn [srv_now st_ServerEnv]. unfold on_ext at 1. cbn [st_ext st_db].
  specialize (Hwall w2). destruct (wall_now w2) as [at_ w3]. cbn [fst] in Hwall.
  unfold on_ext at 1. cbn [st_ext st_db]. destruct (rand8 w3) as [rnd' w4].
  set (s := mkShipment (NewShipmentID rnd) weight price (UTC at_)).
  destruct (newOutboxEvent rnd' s (FromContext ctx)) as [evt|err] eqn:Ee;
    [|intros [= <- <-]; by split; [|left]].
  cbn [store_CreateShipment store_StoreI].
  destruct (Storage.CreateShipment s evt (mkSt w4 (st_db st))) as [[u|err] st2] eqn:Es;
    apply CreateShipment_cases in Es; cbn [st_db] in Es; intros [= <- <-].
  - assert (outbox_wf (st_db st2)) as Hwf'.
    { eapply (created_wf rnd rnd' weight price at_); [done| |exact Ee|exact Es|done]. done. }
    split; [done|].
    destruct (newOutboxEvent_ok _ _ _ _ Ee) as (He & Hid & Hsid & Hty).
    pose proof Es as (Hns & Hne & _ & _ & cur & payload & _ & Hp & Hdb).
    assert (Decode payload = Ok (NewShipmentCreated rnd' s (FromContext ctx))) as Hd.
    { destruct Hwf' as [Hf _]. rewrite Hdb in Hf.
      eapply decode_stored; [| |exact He|exact Hp].
      - do 2 (split; [done|]). split; [apply newID_nonempty|]. split; [apply newID_nonempty|].
        split; [by destruct Es as (_ & _ & ? & _)|]. simpl. by destruct price.
      - split; [by apply newID_valid|]. split; [by apply newID_valid|]. done. }
    exists (oe_EventID evt), (outbox_row s evt payload), (NewShipmentCreated rnd' s (FromContext ctx)).
    rewrite Hdb. simpl. rewrite lookup_insert_eq. split_and!; try done.
    rewrite lookup_insert_eq. by eexists.
  - destruct Es as [->|Es]; [by split; [|left]|]. split; [|right; by eexists _, _].
    eapply (created_wf rnd rnd' weight price at_); [done| |exact Ee|exact Es|done]. done.
Qed.

(** A weight outside the accepted range is answered with InvalidArgument
    without asking the pricing service or touching the database. *)
Theorem invalid_weight_rejected_locally ctx weight st :
  ¬ valid_weight weight →
  (∃ msg, CreateShipment ctx weight st = (Err (EStatus InvalidArgument msg), st)) ∧
  (∃ msg, GetQuote ctx weight st = (Err (EStatus InvalidArgument msg), st)).
Proof.
  intros Hw. unfold CreateShipment, GetQuote, server_quote, fail.
  unfold ValidateWeight. destruct (ValidateWeight_spec weight) as [[? _]|[_ (e & He & Hi)]]; [done|].
  unfold ValidateWeight in He. case_match; [|done].
  unfold toStatus. rewrite FromError_status by done. rewrite Is_wrap1. cbn. split; by eexists.
Qed.

(** C26: a failure of the database, as the Store returns it, reaches the caller
    under the code of its cause: Canceled when the call was cancelled, otherwise
    DeadlineExceeded when its time was up, otherwise Unavailable when the database
    could not be reached, each with the text of the error, and Internal in all other
    cases, a constraint violation say.  Only the Internal answer hides the text of
    the database: it is always "internal error". *)
Theorem database_error_status prefix e err :
  foreign e = true → has_status e = false → store_error prefix e err →
  (Is e CtxCanceled = true → toStatus err = EStatus Canceled (prefix +:+ Error e)) ∧
  (Is e CtxCanceled = false → Is e CtxDeadlineExceeded = true →
     toStatus err = EStatus DeadlineExceeded (prefix +:+ Error e)) ∧
  (Is e CtxCanceled = false → Is e CtxDeadlineExceeded = false → unreachable e →
     toStatus err = EStatus Unavailable (prefix +:+ "database unavailable: " +:+ Error e)) ∧
  (Is e CtxCanceled = false → Is e CtxDeadlineExceeded = false → ¬ unreachable e →
     toStatus err = EStatus Internal "internal error").
Proof.
  intros Hf Hs He. destruct (store_error_facts _ _ _ Hf Hs He) as (Hst & Ht & Hi & Happ).
  unfold toStatus. rewrite Hst, Ht.
  unfold ErrInvalidWeight, ErrRejected, ErrNotFound, ErrTimeout, Pricing.ErrUnavailable.
  rewrite !Happ by done. cbn [orb]. rewrite !Hi.
  assert (∀ n m, n ≠ "storage.ErrUnavailable" →
    Is (classify e) (ESentinel n m) = Is e (ESentinel n m)) as Hc by (intros; by apply Is_classify).
  unfold CtxCanceled, CtxDeadlineExceeded. rewrite !Hc by done. clear Hc.
  unfold classify, CtxCanceled, CtxDeadlineExceeded, unreachable. split_and!.
  - intros ->. done.
  - intros -> ->. done.
  - intros -> -> Hu. cbn [orb].
    assert (As_ConnectError e || As_netError e || SafeToRetry e = true) as ->
      by (rewrite !orb_true_iff; tauto).
    rewrite Is_wrap2. done.
  - intros -> -> Hu. cbn [orb].
    assert (As_ConnectError e || As_netError e || SafeToRetry e = false) as ->
      by (rewrite !orb_false_iff, <- !not_true_iff_false; tauto).
    unfold Storage.ErrUnavailable. by rewrite foreign_Is.
Qed.

(** An answer of the pricing service that is not a price reaches the caller
    as InvalidArgument when the service rejected the parcel and as Unavailable in
    every other case. *)
Theorem pricing_answer_status status raw o e :
  decodeQuote status raw = (o, Err e) →
  toStatus e = EStatus (if bool_decide (o = outcomeRejected) then InvalidArgument else Unavailable) (Error e).
Proof.
  unfold decodeQuote. intros H.
  assert ((o = outcomeRejected ∧ ∃ t, e = wrap_with ErrRejected t []) ∨
          (o = outcomeUnavailable ∧ ∃ t cs, e = wrap_with Pricing.ErrUnavailable t cs ∧
             (cs = [] ∨ (∃ m, cs = [EOther m]) ∨ ∃ m, cs = [EWrap m [ErrInvalidMoney]])))
    as [[-> [t ->]]|[-> (t & cs & -> & Hcs)]].
  { repeat (case_match; simplify_eq; try (left; by eauto); try (right; split; [done|];
      eexists _, _; split; [done|]; by eauto)).
    right. split; [done|]. eexists _, _. split; [done|]. do 2 right.
    rename select (ValidateMoney _ = Some _) into Hv. unfold ValidateMoney in Hv.
    repeat case_match; simplify_eq; by eexists. }
  - unfold toStatus. by rewrite FromError_status.
  - destruct Hcs as [->|[[m ->]|[m ->]]]; unfold toStatus; by rewrite FromError_status.
Qed.

End api_claims.

(** ** Examples *)

Definition ref_GrpcStatus : GrpcStatus.
Proof.
  refine {| FromError := has_status;
            status_Code := λ e, match e with EStatus c _ => c | _ => Unknown end |}; done.
Defined.

Section examples.
#[local] Existing Instances ref_PgScan ref_Pgconn ref_GrpcStatus.
#[local] Instance ex_pool : Pool Z := ref_Pool Z (mkTime 1700000100 0 0).
#[local] Instance ex_rand : Rand Z := ref_Rand Z.
#[local] Instance ex_wall : WallClock Z := {| wall_now := λ w, (mkTime 1700000000 123456000 7200, w) |}.

(** A pricing service with one price for everything. *)
#[local] Instance ex_flat_pricer : Pricer Z := {| pricer_Quote := λ _ _ w, (Ok (mkMoney 700 "EUR"), w) |}.

Lemma CreateShipment_stores_decodable_event_witness :
  ∃ r st', CreateShipment (WithID Background "req_1") 1500 (mkSt 0%Z empty_DB) = (Ok r, st') ∧
    outbox_wf (st_db st').
Proof.
  destruct (CreateShipment (WithID Background "req_1") 1500 (mkSt 0%Z empty_DB)) as [r st'] eqn:E.
  assert (is_ok r = true) as Hr.
  { transitivity (is_ok (CreateShipment (WithID Background "req_1") 1500 (mkSt 0%Z empty_DB)).1);
      [by rewrite E|vm_compute; reflexivity]. }
  destruct r as [resp|err]; [|discriminate Hr]. exists resp, st'. split; [reflexivity|].
  refine (proj1 (CreateShipment_stores_decodable_event _ _ _ _ _ _ _ _ _ _ E)).
  - intros c w x p x' [= <- <-]. split; [|reflexivity]. split; [discriminate|].
    exists "E"%char, "U"%char, "R"%char. vm_compute. intuition discriminate.
  - intros w. vm_compute. reflexivity.
  - reflexivity.
  - apply empty_DB_ok.
  - split; [apply map_Forall_empty|]. intros i j x y Hx. simpl in Hx.
    by apply lookup_empty_Some in Hx.
Defined.

Lemma invalid_weight_rejected_locally_witness :
  ∃ msg, GetQuote Background 30001 (mkSt 0%Z empty_DB) =
    (Err (EStatus InvalidArgument msg), mkSt 0%Z empty_DB).
Proof.
  refine (proj2 (invalid_weight_rejected_locally Background 30001 (mkSt 0%Z empty_DB) _)).
  unfold valid_weight. lia.
Defined.

Lemma database_error_status_witness :
  toStatus (classify (EPg "23505" "duplicate key")) = EStatus Internal "internal error" ∧
  toStatus (wrapf "query shipment: " (classify (EConnect "connection refused" []))) =
    EStatus Unavailable "query shipment: database unavailable: connection refused".
Proof.
  split.
  - apply (database_error_status "" (EPg "23505" "duplicate key")); [reflexivity|reflexivity|by left|reflexivity|reflexivity|].
    by intros [[=]|[[=]|[=]]].
  - apply (database_error_status "query shipment: " (EConnect "connection refused" []));
      [reflexivity|reflexivity|by right|reflexivity|reflexivity|by left].
Defined.

Lemma pricing_answer_status_witness :
  ∃ e, decodeQuote 422 " no " = (outcomeRejected, Err e) ∧
    toStatus e = EStatus InvalidArgument (Error e).
Proof.
  eexists. split; [reflexivity|].
  exact (pricing_answer_status 422 " no " outcomeRejected _ eq_refl).
Defined.

End examples.
