(* ===== verification/Grpc.v ===== *)
(** * gen/parcellab/v1

    The generated code of the gRPC service: the messages as a client sees them,
    with getters that work on nil, the client stubs over a connection, and the
    dispatch of a call to the server through its interceptors.  The transport is
    the interface [ClientConn]; protobuf's wire format is part of it.  A pointer
    that can be nil is an option, and a response is its only field. *)
From S2P Require Import Prelude GoErrors GoStrconv GoUtf8 GoTime Domain Events Jsonb Database GoContext Storage Broker ShipmentApi.

(** ** Messages *)

Record ShipmentMsg := mkShipmentMsg {
  sm_shipment_id : string;
  sm_weight_grams : Z;
  sm_price : option Money;
  sm_created_at : option Timestamp;
  sm_outbox_status : Z;
  sm_dispatch : option ProtoDispatch
}.

Definition GetAmountCents (m : option Money) : Z := match m with Some m => AmountCents m | None => 0 end.
Definition GetCurrency (m : option Money) : string := match m with Some m => Currency m | None => "" end.

Definition GetShipmentId (s : option ShipmentMsg) : string := match s with Some s => sm_shipment_id s | None => "" end.
Definition GetPrice (s : option ShipmentMsg) : option Money := s ≫= sm_price.
Definition GetOutboxStatus (s : option ShipmentMsg) : Z :=
  match s with Some s => sm_outbox_status s | None => OUTBOX_STATUS_UNSPECIFIED end.
Definition GetDispatch (s : option ShipmentMsg) : option ProtoDispatch := s ≫= sm_dispatch.

Definition GetStatus (d : option ProtoDispatch) : Z :=
  match d with Some d => pd_status d | None => DISPATCH_STATUS_UNSPECIFIED end.
Definition GetDispatchId (d : option ProtoDispatch) : string := match d with Some d => pd_dispatch_id d | None => "" end.
Definition GetEventId (d : option ProtoDispatch) : string := match d with Some d => pd_event_id d | None => "" end.

(** The name of a value, or its number. *)
Definition enum_string (names : list (Z * string)) (z : Z) : string :=
  match list_find (λ p, p.1 = z) names with Some (_, (_, n)) => n | None => Itoa z end.
Definition OutboxStatus_String : Z → string :=
  enum_string [(OUTBOX_STATUS_UNSPECIFIED, "OUTBOX_STATUS_UNSPECIFIED"); (OUTBOX_STATUS_PENDING, "OUTBOX_STATUS_PENDING");
               (OUTBOX_STATUS_PUBLISHED, "OUTBOX_STATUS_PUBLISHED")].
Definition DispatchStatus_String : Z → string :=
  enum_string [(DISPATCH_STATUS_UNSPECIFIED, "DISPATCH_STATUS_UNSPECIFIED"); (DISPATCH_STATUS_PENDING, "DISPATCH_STATUS_PENDING");
               (DISPATCH_STATUS_DISPATCHED, "DISPATCH_STATUS_DISPATCHED")].

(** What the server sends, as a client receives it. *)
Definition received (s : ProtoShipment) : ShipmentMsg :=
  mkShipmentMsg (ps_shipment_id s) (ps_weight_grams s) (Some (ps_price s)) (Some (ps_created_at s))
    (ps_outbox_status s) (Some (ps_dispatch s)).

(** ** The service *)

Definition ServiceName : string := "parcellab.v1.ShipmentService".

Inductive method := MGetQuote | MCreateShipment | MGetShipment.

Definition FullMethodName (m : method) : string :=
  match m with
  | MGetQuote => "/parcellab.v1.ShipmentService/GetQuote"
  | MCreateShipment => "/parcellab.v1.ShipmentService/CreateShipment"
  | MGetShipment => "/parcellab.v1.ShipmentService/GetShipment"
  end.

(** A weight or an identifier; a price or a shipment. *)
Definition request (m : method) : Type := match m with MGetQuote | MCreateShipment => Z | MGetShipment => string end.
Definition reply (m : method) : Type :=
  match m with MGetQuote => option Money | MCreateShipment | MGetShipment => option ShipmentMsg end.

(** A context with outgoing metadata. *)
Record OutgoingContext := mkOutgoing { oc_ctx : Context; oc_metadata : list (string * string) }.
Definition AppendToOutgoingContext (ctx : Context) (key value : string) : OutgoingContext :=
  mkOutgoing ctx [(key, value)].

(** ** Client stubs *)

(** google.golang.org/grpc, calling side, and the stub of grpc_health_v1.  A
    health status is its number. *)
Class ClientConn (W : Type) := {
  conn : Type;
  grpc_NewClient : string → W → res conn * W;
  conn_Close : conn → W → W;
  Invoke : conn → OutgoingContext → ∀ m, request m → W → res (reply m) * W;
  Health_Check : conn → Context → string → W → res Z * W;
  HealthStatus_String : Z → string
}.

Definition HEALTH_SERVING : Z := 1.

Section stubs.
Context {W : Type} {ICC : ClientConn W}.

Definition client_GetQuote (c : conn) (ctx : OutgoingContext) (weight_grams : Z) : W → res (option Money) * W :=
  Invoke c ctx MGetQuote weight_grams.
Definition client_CreateShipment (c : conn) (ctx : OutgoingContext) (weight_grams : Z) : W → res (option ShipmentMsg) * W :=
  Invoke c ctx MCreateShipment weight_grams.
Definition client_GetShipment (c : conn) (ctx : OutgoingContext) (shipment_id : string) : W → res (option ShipmentMsg) * W :=
  Invoke c ctx MGetShipment shipment_id.

End stubs.

(** ** Server dispatch *)

Section server.
Context {S : Type} {IG : GrpcStatus} {IPr : Pricer S} {ISt : StoreI S} {IE : ServerEnv S}.

(** The method of the server, its response as it goes out. *)
Definition srv_method (m : method) : Context → request m → S → res (reply m) * S :=
  match m return Context → request m → S → res (reply m) * S with
  | MGetQuote => λ ctx w s, let (r, s) := ShipmentApi.GetQuote ctx w s in (Some <$> r, s)
  | MCreateShipment => λ ctx w s, let (r, s) := ShipmentApi.CreateShipment ctx w s in (Some ∘ received <$> r, s)
  | MGetShipment => λ ctx id s, let (r, s) := ShipmentApi.GetShipment ctx id s in (Some ∘ received <$> r, s)
  end.

(** [_ShipmentService_..._Handler]: a request that does not decode ends here. *)
Definition method_Handler {B} (m : method) (ctx : Context) (dec : res (request m))
    (undecodable : goerr → B)
    (interceptor : Context → string → (Context → S → res (reply m) * S) → B) : B :=
  match dec with
  | Err err => undecodable err
  | Ok in_ => interceptor ctx (FullMethodName m) (λ ctx, srv_method m ctx in_)
  end.

(** [grpc.ChainUnaryInterceptor] of the two interceptors of cmd/shipment-service:
    the correlation ID, then logging and metrics. *)
Definition chain {A} (md : option (gmap string (list string))) (rnd : string) (s : S) (mt : ShipmentApi.Metrics)
    (ctx : Context) (fullMethod : string) (handler : Context → S → res A * S) : res A * S * ShipmentApi.Metrics :=
  (UnaryServerInterceptor md rnd ctx (λ ctx, Interceptor fullMethod (handler ctx) s mt)).1.

(** One call as the server answers it. *)
Definition serve_call (md : option (gmap string (list string))) (rnd : string) (m : method) (ctx : Context)
    (dec : res (request m)) (s : S) (mt : ShipmentApi.Metrics) : res (reply m) * S * ShipmentApi.Metrics :=
  method_Handler m ctx dec (λ err, (Err err, s, mt)) (chain md rnd s mt).

End server.

(** ** What the messages can hold *)

(** Waiting, with nothing to say about a dispatch, or dispatched at some time. *)
Definition dispatch_typed (d : ProtoDispatch) : Prop :=
  d = mkProtoDispatch DISPATCH_STATUS_PENDING "" "" None ∨
  pd_status d = DISPATCH_STATUS_DISPATCHED ∧ is_Some (pd_dispatched_at d).

Definition shipment_typed (sh : ShipmentMsg) : Prop :=
  valid_weight (sm_weight_grams sh) ∧ is_Some (sm_created_at sh) ∧
  (∃ price, sm_price sh = Some price ∧ (0 ≤ AmountCents price)%Z) ∧
  (sm_outbox_status sh = OUTBOX_STATUS_PENDING ∨ sm_outbox_status sh = OUTBOX_STATUS_PUBLISHED) ∧
  ∃ d, sm_dispatch sh = Some d ∧ dispatch_typed d.

Definition reply_typed (m : method) : reply m → Prop :=
  match m return reply m → Prop with
  | MGetQuote => λ r, ∃ price, r = Some price ∧ valid_money price
  | MCreateShipment | MGetShipment => λ r, ∃ sh, r = Some sh ∧ shipment_typed sh
  end.

(** A value of the reply's type, or a gRPC status. *)
Definition answer_typed `{GrpcStatus} {m} (r : res (reply m)) : Prop :=
  match r with
  | Ok a => reply_typed m a
  | Err e => FromError e = true ∨ ∃ code msg, e = EStatus code msg
  end.

Lemma fail_typed `{GrpcStatus} {m} e : answer_typed (m := m) (Err (fail e)).
Proof. unfold fail, toStatus. cbn. repeat case_match; eauto. Qed.

Lemma view_typed db id row :
  db_ok db → shipments db !! id = Some (row.1.1.2) → row.1.1.1 = id →
  shipment_typed (received (toProtoShipment (view (scan_shipment row)))).
Proof.
  intros Hok Hr <-. destruct row as [[[id s] o] d]. cbn in *. destruct (ok_shipments _ Hok _ _ Hr) as (_ & Hw & Ha).
  split; [exact Hw|]. split; [by eexists|]. split; [by eexists|]. cbn. split.
  - destruct o as [[?|]|]; cbn; auto.
  - eexists. split; [done|]. destruct d as [[? ?]|]; cbn; [right|left]; [split; [done|by eexists]|done].
Qed.

Section typed.
Context {IG : GrpcStatus} {IJ : Jsonb} {IS : PgScan} {IP : Pgconn} {W : Type} {IPool : Pool W}
  {IR : Rand W} {IPr : Pricer W} {IWc : WallClock W}.
Implicit Types (st : St W).

Lemma server_quote_typed ctx weight st r st' :
  (∀ c w x p x', pricer_Quote c w x = (Ok p, x') → valid_money p) →
  server_quote ctx weight st = (r, st') →
  st_db st' = st_db st ∧ match r with Ok p => valid_weight weight ∧ valid_money p | Err _ => True end.
Proof.
  intros Hpr. unfold server_quote. destruct (ValidateWeight weight) eqn:Ew; [by intros [= <- <-]|].
  apply ValidateWeight_nil in Ew. cbn. unfold on_ext. destruct (pricer_Quote ctx weight (st_ext st)) as [[p|e] w] eqn:E;
    intros [= <- <-]; [|done]. split; [done|]. split; [done|]. by eapply Hpr.
Qed.

(** C31: every answer of the service has its type, whatever the database does: a
    quote is a valid price; a shipment, created or read, has a valid weight, a
    price that is not negative, a creation time, a known outbox status, and a
    dispatch that is either pending with nothing in it or dispatched with its
    time; no enumeration is left unspecified; and an error is a gRPC status. *)
Theorem answers_are_typed m ctx (req : request m) st r st' :
  (∀ c w x p x', pricer_Quote c w x = (Ok p, x') → valid_money p) → db_ok (st_db st) →
  srv_method m ctx req st = (r, st') → answer_typed r.
Proof.
  intros Hpr Hok. destruct m; cbn in *.
  - unfold ShipmentApi.GetQuote. destruct (server_quote ctx req st) as [[p|e] st1] eqn:E;
      (apply server_quote_typed in E as [_ Hp]; [|exact Hpr]); intros [= <- <-]; [|by apply (fail_typed (m := MGetQuote))].
    exists (toProtoMoney p). split; [done|]. destruct Hp as [_ Hp]. by destruct p.
  - unfold ShipmentApi.CreateShipment. destruct (server_quote ctx req st) as [[p|e] st1] eqn:E;
      (apply server_quote_typed in E as [_ Hp]; [|exact Hpr]); [|intros [= <- <-]; by apply (fail_typed (m := MCreateShipment))].
    cbn [srv_rand8 srv_now st_ServerEnv store_CreateShipment store_StoreI]. destruct (on_ext rand8 st1) as [rnd st2], (on_ext wall_now st2) as [t st3], (on_ext rand8 st3) as [rnd' st4].
    match goal with |- context [newOutboxEvent rnd' ?s ?c] => set (sh := s); destruct (newOutboxEvent rnd' sh c) as [evt|e] end; [|intros [= <- <-]; by apply (fail_typed (m := MCreateShipment))].
    destruct (Storage.CreateShipment sh evt st4) as [[u|e] st5];
      [|intros [= <- <-]; by apply (fail_typed (m := MCreateShipment))].
    intros [= <- <-]. eexists. split; [done|]. destruct Hp as [Hw [Ha _]].
    split; [exact Hw|]. split; [by eexists|]. split; [by eexists|]. split; [by left|].
    eexists. split; [done|]. by left.
  - unfold ShipmentApi.GetShipment. case_bool_decide; [intros [= <- <-]; right; by eexists _, _|].
    cbn. unfold Storage.GetShipment. destruct (Query (select_shipment req) st) as [q st1] eqn:Eq.
    apply Query_cases in Eq as [(e & -> & -> & _)|(now & rows & -> & Hs & _)].
    { destruct (Is e ErrNoRows); intros [= <- <-]; by apply (fail_typed (m := MGetShipment)). }
    destruct rows as [|row rows]; intros [= <- <-]; [by apply (fail_typed (m := MGetShipment))|].
    eexists. split; [done|]. unfold select_shipment in Hs. destruct (pg_text req) eqn:Et; [|done].
    injection Hs as Hrows Hdb.
    destruct (shipments (st_db st) !! a) as [s|] eqn:Es; [|done].
    apply (view_typed (st_db st) a); [done|..];
      [|]; (case_match; cbn in Hrows; injection Hrows as <- _; cbn; done).
Qed.

End typed.

Section example.
#[local] Existing Instances ref_PgScan ref_Pgconn ref_GrpcStatus.
#[local] Instance ex_pool : Pool Z := ref_Pool Z (mkTime 1700000100 0 0).
#[local] Instance ex_rand : Rand Z := ref_Rand Z.
#[local] Instance ex_wall : WallClock Z := {| wall_now := λ w, (mkTime 1700000000 123456000 7200, w) |}.
#[local] Instance ex_pricer : Pricer Z := {| pricer_Quote := λ _ _ w, (Ok (mkMoney 700 "USD"), w) |}.

Lemma answers_are_typed_witness :
  ∃ (sh : ShipmentMsg) st', srv_method MCreateShipment (WithID Background "req_1") 1500%Z (mkSt 0%Z empty_DB) = (Ok (Some sh), st') ∧
    sm_shipment_id sh = "shp_3031323334353637" ∧ shipment_typed sh.
Proof.
  destruct (srv_method MCreateShipment (WithID Background "req_1") 1500%Z (mkSt 0%Z empty_DB)) as [r st'] eqn:E.
  assert (answer_typed r) as H.
  { refine (answers_are_typed MCreateShipment (WithID Background "req_1") 1500%Z (mkSt 0%Z empty_DB) r st' _ empty_DB_ok E).
    intros c w x p x' [= <- <-]. split; [discriminate|].
    exists "U"%char, "S"%char, "D"%char. vm_compute. intuition discriminate. }
  assert ((λ r : res (option ShipmentMsg), match r with Ok (Some sh) => sm_shipment_id sh | _ => "" end) r = "shp_3031323334353637") as Hid.
  { apply (f_equal fst) in E. cbn [fst] in E. rewrite <- E. vm_compute. reflexivity. }
  destruct r as [[sh|]|err]; [|discriminate Hid..].
  destruct H as (sh' & [= <-] & H). exists sh, st'. split; [reflexivity|]. split; [exact Hid|exact H].
Defined.

End example.
