(* ===== verification/Protoc.v ===== *)
(** * tools/protoc: the installer of protoc

    Downloads the pinned release, checks its digest, unpacks it beside its final
    place and renames it there.  The archive format is an interface ([Zip]); the
    header fields of an entry are read as archive/zip reads them. *)
From S2P Require Import Prelude GoErrors GoStrconv GoStrings GoTime GoContext GoSha256 GoPath GoOs Domain Pricing Config.

Definition checksums : gmap string (gmap string string) :=
  {[ "36.1" := list_to_map [
       ("linux-x86_64", "c4bc672d9d49214dc8cafdceadf4df92182d6ca8e3ec65a56b2d7de5602669b4");
       ("linux-aarch_64", "237a68856edf1bd28b6204bddd0596c1cf46d298bc29c620012540b2e44c73e7");
       ("osx-x86_64", "ee2c5496e4af0aa6a224894bc0f7025145260e004d890487d510725ce8b473eb");
       ("osx-aarch_64", "de56d57afe30c5d191b11d24ff93dd4025728d7fb43b773886b2d3613e0bdbb2")] ]}.

Definition os_names : gmap string string := list_to_map [("linux", "linux"); ("darwin", "osx")].
Definition arch_names : gmap string string := list_to_map [("amd64", "x86_64"); ("arm64", "aarch_64")].

(** A map read gives the zero value for a missing key. *)
Definition assetName (goos goarch : string) : res string :=
  let osName := default "" (os_names !! goos) in
  let arch := default "" (arch_names !! goarch) in
  if bool_decide (osName = "") || bool_decide (arch = "") then
    Err (EOther ("no pinned protoc build for " +:+ goos +:+ "/" +:+ goarch +:+ " (Windows: use WSL2)"))
  else Ok (osName +:+ "-" +:+ arch).

Definition completeMarker : string := ".complete".

(** ** archive/zip *)

(** The header of an entry, and opening it. *)
Record ZipFile := mkZipFile {
  z_Name : string;
  z_CreatorVersion : Z;
  z_ExternalAttrs : Z;
  z_Open : res Reader
}.

Class Zip := { zip_NewReader : string → res (list ZipFile) }.

(** [FileHeader.Mode] as far as [IsDir] and [Perm] see it. *)
Definition creator (f : ZipFile) : Z := Z.shiftr (z_CreatorVersion f) 8.
Definition from_unix (f : ZipFile) : bool := (creator f =? 3)%Z || (creator f =? 19)%Z.
Definition from_msdos (f : ZipFile) : bool := (creator f =? 11)%Z || (creator f =? 14)%Z || (creator f =? 0)%Z.

Definition IsDir (f : ZipFile) : bool :=
  (from_unix f && (Z.land (Z.shiftr (z_ExternalAttrs f) 16) 61440 =? 16384)%Z)
  || (from_msdos f && Z.testbit (z_ExternalAttrs f) 4)
  || ends_with_slash (z_Name f).

Definition Perm (f : ZipFile) : Z :=
  if from_unix f then Z.land (Z.shiftr (z_ExternalAttrs f) 16) 511
  else if from_msdos f then
    Z.ldiff (if Z.testbit (z_ExternalAttrs f) 4 then 511 else 438) (if Z.testbit (z_ExternalAttrs f) 0 then 146 else 0)
  else 0.

(** package runtime *)
Class Runtime := { GOOS : string; GOARCH : string }.

Section protoc.
Context {W : Type} {ID : Disk} {IZ : Zip} {IR : Runtime} {IH : Http W}.

Definition HasPrefix (s prefix : string) : bool := String.prefix prefix s.

Definition installed (versioned : string) : IO W bool :=
  r ← io_try (Stat (path_Join [versioned; completeMarker]));
  mret (is_ok r).

Definition extractFile (f : ZipFile) (target : string) : IO W () :=
  _ ← MkdirAll (Dir target) 493;
  src ← io_lift (z_Open f);
  dst ← OpenFile target (Z.lor (Perm f) 384);
  copyErr ← io_try (Copy dst src);
  closeErr ← io_try (Close dst);
  io_lift (check (errors_Join (option_list (err_of copyErr) ++ option_list (err_of closeErr)))).

(** The entries kept, by their cleaned names. *)
Definition wanted (name : string) : bool := HasPrefix name "bin/" || HasPrefix name "include/".

Fixpoint unzip_files (dir : string) (files : list ZipFile) : IO W () :=
  match files with
  | [] => mret ()
  | f :: files =>
      let name := Clean (z_Name f) in
      if negb (wanted name) then unzip_files dir files
      else
        let target := path_Join [dir; name] in
        if negb (HasPrefix target (Clean dir +:+ "/")) then
          io_fail (EOther ("archive entry escapes destination: " +:+ z_Name f))
        else if IsDir f then
          _ ← MkdirAll target 493;
          unzip_files dir files
        else
          _ ← extractFile f target;
          unzip_files dir files
  end.

Definition unzip (archive dir : string) : IO W () :=
  files ← io_lift (zip_NewReader archive);
  unzip_files dir files.

(** The steps of [install] after the temporary directory exists. *)
Definition fill (archive tmp versioned : string) : IO W () :=
  _ ← io_map_err (wrapf "unpack: ") (unzip archive tmp);
  _ ← Chmod (path_Join [tmp; "bin"; "protoc"]) 493;
  _ ← WriteFile (path_Join [tmp; completeMarker]) "" 420;
  Rename tmp versioned.

Definition install (archive dest versioned : string) : IO W () :=
  _ ← MkdirAll dest 493;
  tmp ← MkdirTemp dest (Base versioned +:+ ".tmp-");
  r ← io_try (fill archive tmp versioned);
  match r with
  | Ok _ => mret ()
  | Err err =>
      _ ← io_try (RemoveAll tmp);
      io_fail err
  end.

Definition body_limit : Z := Z.shiftl 64 20.

Definition download (ctx : Context) (url wantSHA : string) : IO W string :=
  _ ← io_lift (check (NewRequest_err url));
  resp ← io_ext (http_Do ctx (mkRequest "GET" url "" []));
  io_defer (io_ext (λ w, (Ok (), Body_Close resp w))) (
    if negb (StatusCode resp =? 200)%Z then io_fail (EOther ("GET " +:+ url +:+ ": " +:+ Status resp))
    else
      body ← io_ext (ReadAll_limit ctx body_limit resp);
      let got := hex_EncodeToString (Sum256 body) in
      if bool_decide (got = wantSHA) then mret body
      else io_fail (EOther ("checksum mismatch for " +:+ url +:+ ": got " +:+ got +:+ ", want " +:+ wantSHA))).

Definition link (dest binary : string) : IO W () :=
  rel ← io_lift (Rel dest binary);
  let target := path_Join [dest; "protoc"] in
  _ ← io_try (Remove target);
  Symlink rel target.

Definition release_url (version asset : string) : string :=
  "https://github.com/protocolbuffers/protobuf/releases/download/v" +:+ version +:+ "/protoc-" +:+ version
  +:+ "-" +:+ asset +:+ ".zip".

(** The rest of [run] when nothing is installed. *)
Definition install_release (ctx : Context) (version dest asset digest versioned : string) : IO W () :=
  s ← io_try (Stat versioned);
  _ ← match s with
      | Ok _ =>
          _ ← Printf ("removing incomplete " +:+ versioned +:+ str1 newline);
          RemoveAll versioned
      | Err _ => mret ()
      end;
  let url := release_url version asset in
  _ ← Printf ("downloading " +:+ url +:+ str1 newline);
  archive ← download ctx url digest;
  _ ← install archive dest versioned;
  Printf ("installed protoc " +:+ version +:+ " into " +:+ versioned +:+ str1 newline).

(** [run] reads its digests from the package's variable. *)
Definition run_with (checksums : gmap string (gmap string string)) (ctx : Context) (version dest : string) : IO W () :=
  if bool_decide (version = "") then io_fail (EOther "-version is required")
  else
    match checksums !! version with
    | None =>
        io_fail (EOther ("no checksums recorded for protoc " +:+ version +:+ "; add them to tools/protoc/main.go"))
    | Some digests =>
        asset ← io_lift (assetName GOOS GOARCH);
        let versioned := path_Join [dest; "protoc-" +:+ version] in
        let binary := path_Join [versioned; "bin"; "protoc"] in
        done ← installed versioned;
        if (done : bool) then link dest binary
        else
          _ ← install_release ctx version dest asset (default "" (digests !! asset)) versioned;
          link dest binary
    end.

Definition run : Context → string → string → IO W () := run_with checksums.

(** [main] with its flags: the exit status, and what goes to the standard error. *)
Definition install_timeout : Z := 5 * Minute.
Definition main {IC : Clock W} (version dest : string) (st : Os W) : Z * string * Os W :=
  let ctx := WithTimeout Background install_timeout (os_ext st) in
  match run ctx version dest st with
  | (Ok _, st) => (0%Z, "", st)
  | (Err err, st) => (1%Z, "protoc: " +:+ Error err +:+ str1 newline, st)
  end.

End protoc.
