(* ===== verification/ProtocFacts.v ===== *)
(** * The installer: whatever stops it, what counts as installed is complete

    A versioned directory with the marker is either what it was before or the
    whole tree of a release whose digest is pinned, at every moment of every run,
    however calls fail; nothing outside the destination changes. *)
From S2P Require Import Prelude GoErrors GoStrconv GoStrings GoTime GoContext GoSha256 GoPath GoOs Crash OsFacts Domain Pricing Config Protoc.

(** ** What an archive unpacks to *)

Definition entry_names (f : ZipFile) : path := elements (Clean (z_Name f)).
Definition is_wanted (f : ZipFile) : bool := wanted (Clean (z_Name f)).

(** The file of an entry, in a tree that has its directory. *)
Definition put_file (m : path) (perm : Z) (data : string) (t : FS) : FS :=
  append m data (<[m := opened m perm t]> t).

Definition unpack_entry (t : FS) (f : ZipFile) : FS :=
  if negb (is_wanted f) then t
  else if IsDir f then mkdirs (entry_names f) t
  else put_file (entry_names f) (Z.lor (Perm f) 384) (from_res "" (rd_data <$> z_Open f)) (mkdirs (parent (entry_names f)) t).

(** A directory made by [MkdirTemp], then the entries, the permissions of the
    binary, and the marker. *)
Definition unpacked (files : list ZipFile) : FS := foldl unpack_entry {[ [] := NDir 448 ]} files.
Definition binary_names : path := ["bin"; "protoc"].
Definition release_tree (files : list ZipFile) : FS :=
  let t := unpacked files in
  let t := match t !! binary_names with Some n => <[binary_names := chmod_node 493 n]> t | None => t end in
  put_file [completeMarker] 420 "" t.

(** An entry that is unpacked can be read to its end. *)
Definition readable (f : ZipFile) : Prop :=
  is_wanted f = true → IsDir f = false → ∃ r, z_Open f = Ok r ∧ rd_err r = None.

Lemma opened_file m perm t : ∃ p, opened m perm t = NFile "" p.
Proof. unfold opened. destruct (t !! m) as [[]|]; eauto. Qed.

Lemma lookup_put_file m perm data t k :
  put_file m perm data t !! k = if decide (k = m) then Some (NFile data (match t !! m with Some (NFile _ p) => p | _ => perm end)) else t !! k.
Proof.
  unfold put_file, append, opened. rewrite lookup_insert_eq.
  destruct (decide (k = m)) as [->|]; [by rewrite lookup_insert_eq|by rewrite !lookup_insert_ne].
Qed.

(** ** The names of entries *)

Lemma wanted_names f : is_wanted f = true →
  Forall proper (entry_names f) ∧ entry_names f ≠ [] ∧ Clean (z_Name f) = Join slash (entry_names f) ∧
  (∃ m, m ≠ [] ∧ (entry_names f = "bin" :: m ∨ entry_names f = "include" :: m)).
Proof.
  unfold is_wanted, wanted, HasPrefix, entry_names. intros [Hw|Hw]%orb_true_iff; apply prefix_spec in Hw as [u Hu].
  - destruct (Clean_under "bin" (z_Name f) u) as (m & Hm & Hp & E); [by vm_compute|exact Hu|].
    rewrite E, elements_Join by done. split_and!; [done..|]. exists m. auto.
  - destruct (Clean_under "include" (z_Name f) u) as (m & Hm & Hp & E); [by vm_compute|exact Hu|].
    rewrite E, elements_Join by done. split_and!; [done..|]. exists m. auto.
Qed.

Lemma parent_snoc m : m ≠ [] → ∃ x, m = parent m ++ [x].
Proof. intros Hm. exists (List.last m ""). by apply app_removelast_last. Qed.

Section facts.
Context {W : Type} {ID : Disk} {IZ : Zip} {IR : Runtime} {IHt : Http W}.

(** ** Unpacking into our own directory *)

Section unpack.
Context (T : path) (fs1 : FS) (Hout : nolink fs1 T).
Context (dir : string) (r : bool) (l : list string) (Hsp : spells dir r l) (HT : base r ++ l = T) (Hl : l ≠ []).

Lemma target_names m : Forall proper m → m ≠ [] →
  path_Join [dir; Join slash m] = unparse r (l ++ m) ∧ spells (unparse r (l ++ m)) r (l ++ m) ∧
  base r ++ l ++ m = T ++ m.
Proof.
  intros Hm Hn. destruct Hsp as [Hd <- Hel Hp]. split_and!.
  - by apply path_Join_names.
  - apply spells_unparse. by apply Forall_app.
  - by rewrite app_assoc, HT.
Qed.

(** The check against escaping never fires: cleaned names stay inside. *)
Lemma target_inside m : Forall proper m → m ≠ [] →
  HasPrefix (unparse r (l ++ m)) (Clean dir +:+ "/") = true.
Proof.
  intros Hm Hn. destruct Hsp as [Hd Hr Hel Hp]. rewrite (Clean_proper dir r l) by done.
  rewrite unparse_app by done. unfold HasPrefix.
  replace (unparse r l +:+ String slash (Join slash m)) with ((unparse r l +:+ "/") +:+ Join slash m)
    by by rewrite <- str_app_assoc.
  apply prefix_app.
Qed.

Lemma extractFile_owns t f : is_wanted f = true →
  triple (owns T fs1 t) (extractFile f (unparse r (l ++ entry_names f)) : IO W ()) (filling T fs1)
    (λ r' fs, filling T fs1 fs ∧ (is_ok r' = true → (∃ src, z_Open f = Ok src ∧ rd_err src = None) ∧
       owns T fs1 (put_file (entry_names f) (Z.lor (Perm f) 384) (from_res "" (rd_data <$> z_Open f))
                     (mkdirs (parent (entry_names f)) t)) fs)).
Proof.
  intros Hw. destruct (wanted_names f Hw) as (Hp & Hn & _ & _). pose proof Hsp as [_ _ _ Hpl].
  destruct (target_names (entry_names f) Hp Hn) as (_ & Ht & HX). destruct (parent_snoc _ Hn) as [x Ex].
  set (m := entry_names f) in *. unfold extractFile.
  assert (Forall proper (l ++ parent m) ∧ proper x) as [Hlp Hx].
  { rewrite Ex in Hp. apply Forall_app in Hp as [Hp Hx]. split; [by apply Forall_app|by inversion Hx]. }
  assert (Dir (unparse r (l ++ m)) = unparse r (l ++ parent m)) as ->.
  { rewrite Ex at 1. rewrite app_assoc. by apply Dir_unparse. }
  eapply triple_bind.
  { eapply (MkdirAll_owns T fs1 Hout t _ r (l ++ parent m) (parent m)); [by apply spells_unparse|by rewrite app_assoc, HT]. }
  2: by intros ? ? [? _].
  intros []. apply triple_lift_bind. destruct (z_Open f) as [src|e] eqn:Ef; [|by intros fs [? _]].
  eapply triple_bind.
  { eapply triple_conseq; [by apply (OpenFile_owns T fs1 Hout (mkdirs (parent m) t) _ (Z.lor (Perm f) 384) r (l ++ m) m)
      |intros ? [_ H]; by apply H|done|]. intros r' fs H. exact H. }
  2: by intros ? ? [? _].
  intros dst. apply (triple_pure (dst = T ++ m)); [naive_solver|]. intros ->.
  eapply triple_bind.
  { apply triple_tried. eapply triple_conseq;
      [apply (Copy_owns T fs1 (<[m := opened m (Z.lor (Perm f) 384) (mkdirs (parent m) t)]> (mkdirs (parent m) t)) m src)| |done|].
    - by rewrite lookup_insert_eq.
    - intros fs (_ & _ & H). exact H.
    - intros r' fs H. exact H. }
  2: by intros ? ? [].
  intros copyErr. eapply triple_bind; [apply Close_stays| |naive_solver].
  intros closeErr. apply triple_lift. intros fs [Hf Ho]. split; [done|]. intros Hok.
  assert (is_ok copyErr = true) as Hc by by destruct copyErr.
  destruct (Ho Hc) as [He Ho']. split; [by exists src|exact Ho'].
Qed.

Lemma unzip_files_owns files t :
  triple (owns T fs1 t) (unzip_files dir files : IO W ()) (filling T fs1)
    (λ r' fs, filling T fs1 fs ∧ (is_ok r' = true → Forall readable files ∧ owns T fs1 (foldl unpack_entry t files) fs)).
Proof.
  revert t. induction files as [|f files IH]; intros t; cbn [unzip_files foldl].
  { apply triple_ret. intros fs Ho. split; [apply Ho|by split]. }
  unfold unpack_entry at 2. fold (is_wanted f). destruct (is_wanted f) eqn:Hw; cbn [negb].
  2: { eapply triple_conseq; [apply (IH t)|done|done|]. intros r' fs [Hf Ho]. split; [done|]. intros Hok.
       destruct (Ho Hok). split; [|done]. constructor; [|done]. intros Hw'. by rewrite Hw in Hw'. }
  destruct (wanted_names f Hw) as (Hp & Hn & -> & _). destruct (target_names _ Hp Hn) as (-> & Ht & HX).
  rewrite target_inside by done. cbn [negb]. destruct (IsDir f) eqn:Hd.
  - eapply triple_bind; [by apply (MkdirAll_owns T fs1 Hout t _ r (l ++ entry_names f) (entry_names f))| |by intros ? ? [? _]].
    intros []. eapply triple_conseq; [apply (IH (mkdirs (entry_names f) t))|naive_solver|done|].
    intros r' fs [Hf Ho]. split; [done|]. intros Hok. destruct (Ho Hok). split; [|done]. constructor; [|done].
    intros _ Hd'. by rewrite Hd in Hd'.
  - eapply triple_bind; [by apply (extractFile_owns t f)| |by intros ? ? [? _]].
    intros []. apply (triple_pure (∃ src, z_Open f = Ok src ∧ rd_err src = None)); [naive_solver|]. intros Hr.
    eapply triple_conseq; [apply IH|intros fs [_ H]; by apply H|done|].
    intros r' fs [Hf Ho]. split; [done|]. intros Hok. destruct (Ho Hok). split; [|done]. constructor; [|done]. by intros _ _.
Qed.

Lemma unzip_owns archive t :
  triple (owns T fs1 t) (unzip archive dir : IO W ()) (filling T fs1)
    (λ r' fs, filling T fs1 fs ∧ (is_ok r' = true → ∃ files, zip_NewReader archive = Ok files ∧
       Forall readable files ∧ owns T fs1 (foldl unpack_entry t files) fs)).
Proof.
  apply triple_lift_bind. destruct (zip_NewReader archive) as [files|e]; [|intros fs Ho; split; [apply Ho|done]].
  eapply triple_conseq; [apply (unzip_files_owns files t)|done|done|].
  intros r' fs [Hf Ho]. split; [done|]. intros Hok. destruct (Ho Hok). by exists files.
Qed.

End unpack.
(** ** Installing *)

Section install.
Context (genuine : string → Prop).
Context (dest : string) (r : bool) (l : list string) (Hsp : spells dest r l).
Context (vname : string) (Hvname : proper vname) (Hprotoc : vname ≠ "protoc").
Context (Htemp : ∀ s, digits s → proper ((vname +:+ ".tmp-") +:+ s)).
Notation D := (base r ++ l).
Notation V := (D ++ [vname]).
Context (Hcwd : ∀ z, ¬ D ++ [z] `prefix_of` cwd).
Implicit Types (fs : FS).

Let versioned : string := unparse r (l ++ [vname]).

(** At [V] there is everything a genuine archive holds, read to its end. *)
Definition complete fs : Prop := ∃ archive files,
  genuine archive ∧ zip_NewReader archive = Ok files ∧ Forall readable files ∧
  is_Some (unpacked files !! binary_names) ∧ holds V (release_tree files) fs.

Definition marked fs : Prop := is_Some (fs !! (V ++ [completeMarker])).

(** What every run relies on and leaves. *)
Record sound fs : Prop := mk_sound {
  so_wf : wf fs;
  so_dest : nolink fs D;
  so_links m : is_link (fs !! (V ++ m)) = false;
  so_complete : marked fs → complete fs
}.

(** Nothing outside the destination changes; the way to it may be made. *)
Definition frame fs0 fs : Prop := ∀ p,
  D `prefix_of` p ∨ fs !! p = fs0 !! p ∨ (p `prefix_of` D ∧ fs0 !! p = None ∧ fs !! p = Some (NDir 493)).

Lemma frame_trans fs0 fs1 fs2 : frame fs0 fs1 → frame fs1 fs2 → frame fs0 fs2.
Proof.
  intros H1 H2 p. destruct (H2 p) as [|[E|(Hp & E & E2)]]; [by left| |].
  - rewrite E. apply H1.
  - destruct (H1 p) as [|[E1|(_ & _ & E1)]]; [by left| |by rewrite E in E1].
    right; right. by rewrite <- E1.
Qed.

Lemma frame_refl fs : frame fs fs.
Proof. right. by left. Qed.

(** A change of one other name in the destination. *)
Definition beside (x : string) fs1 fs : Prop := wf fs ∧ ∀ p, ¬ D ++ [x] `prefix_of` p → fs !! p = fs1 !! p.

Lemma beside_same x fs1 fs p : beside x fs1 fs → ¬ D ++ [x] `prefix_of` p → fs !! p = fs1 !! p.
Proof. intros [_ H]. apply H. Qed.

Lemma D_not_below x p : p `prefix_of` D → ¬ D ++ [x] `prefix_of` p.
Proof. intros [k Hk] [k' ->]. apply (f_equal length) in Hk. rewrite !length_app in Hk. cbn in Hk. lia. Qed.

Lemma V_not_below x m : x ≠ vname → ¬ D ++ [x] `prefix_of` V ++ m.
Proof. intros Hx [k Hk]. by destruct (siblings D x vname Hx k m). Qed.

Lemma beside_frame x fs1 fs : beside x fs1 fs → frame fs1 fs.
Proof.
  intros Hb p. destruct (decide (D ++ [x] `prefix_of` p)) as [Hp|Hp].
  - left. by eapply prefix_app_l.
  - right; left. by eapply beside_same.
Qed.

Lemma complete_same fs1 fs : (∀ m, fs !! (V ++ m) = fs1 !! (V ++ m)) → complete fs1 → complete fs.
Proof.
  intros Hs (a & files & ? & ? & ? & ? & Hh). exists a, files. split_and!; [done..|].
  intros m. rewrite Hs. apply Hh.
Qed.

Lemma beside_sound x fs1 fs : x ≠ vname → sound fs1 → beside x fs1 fs → sound fs ∧ (marked fs ↔ marked fs1).
Proof.
  intros Hx Hs Hb. assert (∀ m, fs !! (V ++ m) = fs1 !! (V ++ m)) as HV.
  { intros m. eapply beside_same; [done|by apply V_not_below]. }
  assert (marked fs ↔ marked fs1) as Hm by (unfold marked; by rewrite HV).
  split; [|done]. split; [apply Hb| | |].
  - intros q Hq. rewrite (beside_same x fs1 fs) by (done || by apply D_not_below). by apply Hs.
  - intros m. rewrite HV. apply (so_links _ Hs).
  - intros Hmk. eapply complete_same; [exact HV|]. by apply Hs, Hm.
Qed.

Lemma filling_beside x fs1 fs : filling (D ++ [x]) fs1 fs → beside x fs1 fs.
Proof. intros Hf. split; apply Hf. Qed.

Lemma removing_beside x fs1 fs2 fs : beside x fs1 fs2 → removing (D ++ [x]) fs2 fs → beside x fs1 fs.
Proof.
  intros Hb [Hwf Hp]. split; [done|]. intros p Hn. rewrite <- (beside_same x fs1 fs2 p) by done.
  by destruct (Hp p) as [|[? _]].
Qed.

Lemma V_not_prefix m : ¬ V ++ m `prefix_of` D.
Proof. intros [k Hk]. apply (f_equal length) in Hk. rewrite !length_app in Hk. cbn in Hk. lia. Qed.

Lemma making_sound fs1 fs : sound fs1 → making D fs1 fs → sound fs ∧ (marked fs ↔ marked fs1) ∧ frame fs1 fs.
Proof.
  intros Hs [Hwf Hm]. assert (∀ m, fs !! (V ++ m) = fs1 !! (V ++ m)) as HV.
  { intros m. destruct (Hm (V ++ m)) as [|(Hp & _)]; [done|by apply V_not_prefix in Hp]. }
  assert (marked fs ↔ marked fs1) as Hmk by (unfold marked; by rewrite HV).
  split; [split|split; [done|]].
  - done.
  - eapply made_nolink; [done|apply Hs].
  - intros m. rewrite HV. apply (so_links _ Hs).
  - intros H. eapply complete_same; [exact HV|]. by apply Hs, Hmk.
  - intros p. right. apply Hm.
Qed.

Lemma removing_sound fs1 fs : sound fs1 → ¬ marked fs1 → removing V fs1 fs → sound fs ∧ ¬ marked fs ∧ frame fs1 fs.
Proof.
  intros Hs Hm [Hwf Hp]. assert (¬ marked fs) as Hm'.
  { intros [n Hn]. apply Hm. exists n. by destruct (Hp (V ++ [completeMarker])) as [<-|[_ E]]; [|rewrite Hn in E]. }
  split; [split|split; [done|]].
  - done.
  - intros q Hq. eapply pruned_links; [done|]. by apply Hs.
  - intros m. eapply pruned_links; [done|]. apply (so_links _ Hs).
  - done.
  - intros p. destruct (Hp p) as [E|[HVp _]]; [by right; left|left]. by eapply prefix_app_l.
Qed.

Lemma sound_nolink fs x : sound fs → x ≠ vname → fs !! (D ++ [x]) = None → nolink fs (D ++ [x]).
Proof. intros Hs Hx Hn q [Hq| ->]%prefix_snoc; [by apply Hs|by rewrite Hn]. Qed.

Lemma sound_nolink_V fs : sound fs → nolink fs V.
Proof. intros Hs q [Hq| ->]%prefix_snoc; [by apply Hs|]. rewrite <- (app_nil_r V). apply (so_links _ Hs). Qed.

(** The archive has been read whole and its binary made executable. *)
Record good archive files : Prop := mk_good {
  go_zip : zip_NewReader archive = Ok files;
  go_readable : Forall readable files;
  go_binary : is_Some (unpacked files !! binary_names)
}.

Section fill.
Context (archive tmp x : string) (fs1 : FS).
Notation T := (D ++ [x]).
Context (Hx : x ≠ vname) (HnT : nolink fs1 T) (HnV : nolink fs1 V) (Htmp : spells tmp r (l ++ [x])).

Lemma T_names : base r ++ l ++ [x] = T.
Proof. by rewrite app_assoc. Qed.

Lemma in_tmp m : Forall proper m →
  spells (unparse r ((l ++ [x]) ++ m)) r ((l ++ [x]) ++ m) ∧ base r ++ (l ++ [x]) ++ m = T ++ m.
Proof.
  intros Hm. split; [|by rewrite !app_assoc]. apply spells_unparse. apply Forall_app. split; [apply Htmp|done].
Qed.

Lemma Chmod_binary files :
  triple (owns T fs1 (unpacked files)) (Chmod (path_Join [tmp; "bin"; "protoc"]) 493 : IO W ()) (filling T fs1)
    (λ r' fs, filling T fs1 fs ∧ (is_ok r' = true → ∃ n, unpacked files !! binary_names = Some n ∧
       owns T fs1 (<[binary_names := chmod_node 493 n]> (unpacked files)) fs)).
Proof.
  destruct Htmp as [Hn Hr Hel Hp]. rewrite (path_Join_two tmp (l ++ [x])), Hr by (done || by vm_compute).
  destruct (in_tmp binary_names) as [Hb HX]; [by apply (bool_decide_unpack _)|]. by eapply Chmod_owns.
Qed.

Lemma WriteFile_marker t :
  triple (owns T fs1 t) (WriteFile (path_Join [tmp; completeMarker]) "" 420 : IO W ()) (filling T fs1)
    (λ r' fs, filling T fs1 fs ∧ (is_ok r' = true → owns T fs1 (put_file [completeMarker] 420 "" t) fs)).
Proof.
  destruct Htmp as [Hn Hr Hel Hp]. rewrite (path_Join_name tmp (l ++ [x])), Hr by (done || by vm_compute).
  destruct (in_tmp [completeMarker]) as [Hb HX]; [by apply (bool_decide_unpack _)|]. by eapply WriteFile_owns.
Qed.

Lemma fill_landed :
  triple (owns T fs1 {[ [] := NDir 448 ]}) (fill archive tmp versioned : IO W ())
    (λ fs, filling T fs1 fs ∨ ∃ files, good archive files ∧ landed D x vname fs1 (release_tree files) fs)
    (λ r' fs, match r' with
       | Err _ => filling T fs1 fs
       | Ok _ => ∃ files, good archive files ∧ landed D x vname fs1 (release_tree files) fs
       end).
Proof.
  assert (l ++ [x] ≠ []) as Hne by by destruct l.
  apply triple_bind with (R := λ r' fs, filling T fs1 fs ∧ (is_ok r' = true → ∃ files,
      zip_NewReader archive = Ok files ∧ Forall readable files ∧ owns T fs1 (unpacked files) fs)).
  { apply triple_map_err. eapply triple_conseq;
      [apply (unzip_owns T fs1 HnT tmp r (l ++ [x]) Htmp T_names Hne archive)|done|by left|]. by intros []. }
  2: by intros e fs [? _].
  intros []. apply triple_pre with (P := λ fs, ∃ files, (zip_NewReader archive = Ok files ∧ Forall readable files) ∧
    owns T fs1 (unpacked files) fs); [intros fs [_ H]; destruct (H eq_refl) as (files & ? & ? & ?); by exists files|].
  apply triple_exists. intros files. apply (triple_pure (zip_NewReader archive = Ok files ∧ Forall readable files)); [naive_solver|].
  intros [Hz Hread]. eapply triple_bind.
  { eapply triple_conseq; [apply (Chmod_binary files)|by intros fs [_ H]|by left|]. intros r' fs H. exact H. }
  2: by intros e fs [? _].
  intros []. apply triple_pre with (P := λ fs, ∃ n, unpacked files !! binary_names = Some n ∧
    owns T fs1 (<[binary_names := chmod_node 493 n]> (unpacked files)) fs); [intros fs [_ H]; by apply H|].
  apply triple_exists. intros n. apply (triple_pure (unpacked files !! binary_names = Some n)); [naive_solver|]. intros Hbin.
  eapply triple_bind.
  { eapply triple_conseq; [apply (WriteFile_marker (<[binary_names := chmod_node 493 n]> (unpacked files)))|by intros fs [_ H]|by left|].
    intros r' fs H. exact H. }
  2: by intros e fs [? _].
  intros []. assert (good archive files) as Hgood by (split; [done..|by rewrite Hbin]).
  assert (release_tree files = put_file [completeMarker] 420 "" (<[binary_names := chmod_node 493 n]> (unpacked files))) as Hrel.
  { unfold release_tree. by rewrite Hbin. }
  eapply triple_conseq.
  - apply (Rename_landed D x vname Hx Hcwd fs1 (release_tree files) tmp versioned r (l ++ [x]) (l ++ [vname]));
      [done|done|done|apply T_names| |by rewrite app_assoc].
    apply spells_unparse. apply Forall_app. split; [apply Hsp|by apply Forall_singleton].
  - intros fs [_ H]. rewrite Hrel. by apply H.
  - intros fs H. right. by exists files.
  - intros [] fs H; [by exists files|apply H].
Qed.

End fill.

Lemma landed_sound archive files x fs1 fs : genuine archive → good archive files → sound fs1 →
  landed D x vname fs1 (release_tree files) fs → sound fs ∧ complete fs ∧ frame fs1 fs.
Proof.
  intros Hg [Hz Hr Hb] Hs Hl. assert (complete fs) as Hc.
  { exists archive, files. split_and!; [done..|]. apply Hl. }
  split_and!; [split| |]; try done.
  - apply Hl.
  - intros q Hq. rewrite (la_outside _ _ _ _ _ _ Hl) by by apply D_not_below. by apply Hs.
  - apply Hl.
  - intros p. destruct (decide (D ++ [x] `prefix_of` p)) as [Ht|Ht]; [left; by eapply prefix_app_l|].
    destruct (decide (V `prefix_of` p)) as [Hv|Hv]; [left; by eapply prefix_app_l|].
    right; left. by apply Hl.
Qed.

(** Sound, with the frame of [fs0]; and before anything is installed. *)
Definition fine fs0 fs : Prop := sound fs ∧ frame fs0 fs.
Definition waiting fs0 fs : Prop := fine fs0 fs ∧ ¬ marked fs.

Lemma fine_beside x fs0 fs1 fs : x ≠ vname → fine fs0 fs1 → beside x fs1 fs → fine fs0 fs.
Proof.
  intros Hx [Hs Hf] Hb. split; [by eapply beside_sound|]. eapply frame_trans; [done|by eapply beside_frame].
Qed.

Lemma temp_not_vname s : (vname +:+ ".tmp-") +:+ s ≠ vname.
Proof. intros E%(f_equal String.length). rewrite !str_app_length in E. cbn in E. lia. Qed.

Lemma remove_temp fs0 fs1 x (tmp : string) : x ≠ vname → fine fs0 fs1 → nolink fs1 (D ++ [x]) →
  spells tmp r (l ++ [x]) →
  triple (filling (D ++ [x]) fs1) (io_try (RemoveAll tmp) : IO W _) (fine fs0)
    (λ r' fs, fine fs0 fs ∧ match r' with Ok _ => True | Err _ => False end).
Proof.
  intros Hx Hf Hn Htmp. apply triple_each. intros fs2 Hf2.
  assert (∀ fs, removing (D ++ [x]) fs2 fs → fine fs0 fs) as Hfine.
  { intros fs Hr. eapply fine_beside; [done|done|]. eapply removing_beside; [by apply filling_beside|done]. }
  apply triple_try. eapply triple_conseq.
  - apply (RemoveAll_keeps (D ++ [x]) fs2 (snoc_ne _ _) (Hcwd x) tmp r (l ++ [x]) Htmp); [by rewrite app_assoc|].
    apply nolink_clear. rewrite <- (app_nil_r (D ++ [x])). by eapply filling_nolink.
  - intros fs ->. split; [apply Hf2|by left].
  - exact Hfine.
  - intros r' fs Hr. split; [by apply Hfine|done].
Qed.

Lemma install_temp archive fs0 fs1 s : genuine archive → waiting fs0 fs1 → digits s →
  fs1 !! (D ++ [(vname +:+ ".tmp-") +:+ s]) = None →
  triple (fresh D fs1 ((vname +:+ ".tmp-") +:+ s))
    (r' ← io_try (fill archive (below dest ((vname +:+ ".tmp-") +:+ s)) versioned);
     match r' with
     | Ok _ => mret ()
     | Err err => _ ← io_try (RemoveAll (below dest ((vname +:+ ".tmp-") +:+ s))); io_fail err
     end : IO W ()) (fine fs0) (λ r' fs, fine fs0 fs ∧ (is_ok r' = true → complete fs)).
Proof.
  intros Hg [[Hs Hfr] Hm] Hd Hnone. set (x := (vname +:+ ".tmp-") +:+ s) in *.
  assert (x ≠ vname) as Hx by apply temp_not_vname.
  pose proof (spells_below dest r l x Hsp (Htemp s Hd)) as Htmp. pose proof (sound_nolink fs1 x Hs Hx Hnone) as HnT.
  assert (∀ fs, filling (D ++ [x]) fs1 fs → fine fs0 fs) as Hfill.
  { intros fs Hf. by eapply fine_beside, filling_beside. }
  assert (∀ fs files, good archive files → landed D x vname fs1 (release_tree files) fs → fine fs0 fs ∧ complete fs) as Hland.
  { intros fs files Hgo Hl. destruct (landed_sound archive files x fs1 fs) as (? & ? & ?); [done..|].
    split; [split; [done|by eapply frame_trans]|done]. }
  eapply triple_bind.
  - apply triple_tried. eapply triple_conseq; [by apply (fill_landed archive (below dest x) x fs1 Hx HnT (sound_nolink_V fs1 Hs) Htmp)| | |].
    + intros fs Hf. apply fresh_owns; [apply Hs|done].
    + intros fs [Hf|(files & Hgo & Hl)]; [by apply Hfill|by eapply Hland].
    + intros r' fs H. exact H.
  - intros [u|err].
    + apply triple_ret. intros fs (files & Hgo & Hl). destruct (Hland fs files Hgo Hl). by split.
    + eapply triple_bind; [by apply (remove_temp fs0 fs1 x)| |by intros ? ? [? _]].
      intros r'. apply triple_fail. by intros fs [? _].
  - by intros ? ? [].
Qed.

Lemma install_fine archive fs0 : genuine archive →
  triple (waiting fs0) (install archive dest versioned : IO W ()) (fine fs0)
    (λ r' fs, fine fs0 fs ∧ (is_ok r' = true → complete fs)).
Proof.
  intros Hg. apply triple_bind with (R := λ _, waiting fs0); [| |by intros e fs [? _]].
  - apply triple_each. intros fs1 [[Hs Hf] Hm].
    assert (∀ fs, making D fs1 fs → waiting fs0 fs) as Hp.
    { intros fs Hmk. destruct (making_sound fs1 fs Hs Hmk) as (? & Hiff & ?). split; [split; [done|by eapply frame_trans]|].
      by rewrite Hiff. }
    eapply triple_conseq; [apply (MkdirAll_making fs1 dest r l Hsp), Hs| | |].
    + intros fs ->. split; [apply Hs|apply made_refl].
    + intros fs Hmk. by apply Hp.
    + intros r' fs [Hmk _]. by apply Hp.
  - intros []. assert (Base versioned = vname) as -> by (apply Base_unparse; [apply Hsp|done]).
    apply triple_bind with (R := λ r' fs, match r' with
      | Ok tmp => ∃ fs1 s, (waiting fs0 fs1 ∧ digits s ∧ tmp = below dest ((vname +:+ ".tmp-") +:+ s) ∧
          fs1 !! (D ++ [(vname +:+ ".tmp-") +:+ s]) = None) ∧ fresh D fs1 ((vname +:+ ".tmp-") +:+ s) fs
      | Err _ => fine fs0 fs end).
    + apply triple_each. intros fs1 Hp. destruct Hp as [[Hs Hf] Hm] eqn:Ep. clear Ep.
      eapply triple_conseq; [apply (MkdirTemp_fresh dest r l fs1 (vname +:+ ".tmp-") Hsp)| | |].
      * apply Hs.
      * apply Hs.
      * apply Htemp.
      * done.
      * intros fs (s & Hd & Hfr). eapply (fine_beside ((vname +:+ ".tmp-") +:+ s)); [apply temp_not_vname|by split|].
        eapply filling_beside, fresh_owns; [apply Hs|done].
      * intros [tmp|e] fs; [|by intros ->]. intros (s & Hd & -> & Hfr). exists fs1, s. split; [|done].
        split_and!; try done. apply Hfr.
    + intros tmp. apply triple_exists. intros fs1. apply triple_exists. intros s.
      apply (triple_pure (waiting fs0 fs1 ∧ digits s ∧ tmp = below dest ((vname +:+ ".tmp-") +:+ s) ∧
          fs1 !! (D ++ [(vname +:+ ".tmp-") +:+ s]) = None)); [naive_solver|]. intros (Hp & Hd & -> & Hnone).
      eapply triple_pre; [|by apply (install_temp archive fs0 fs1 s)]. naive_solver.
    + naive_solver.
Qed.

(** ** The link *)

Definition link_text : string := Join slash [vname; "bin"; "protoc"].

(** What is known of an installed tree goes through the change of the link. *)
Definition finer (b : bool) fs0 fs : Prop := fine fs0 fs ∧ (b = true → complete fs).

Lemma finer_beside b fs0 fs1 fs : finer b fs0 fs1 → beside "protoc" fs1 fs → finer b fs0 fs.
Proof.
  intros [Hf Hc] Hb. split; [by eapply fine_beside|]. intros Hbt. eapply complete_same; [|by apply Hc].
  intros m. eapply beside_same; [done|by apply V_not_below, not_eq_sym].
Qed.

Lemma link_target : spells (path_Join [dest; "protoc"]) r (l ++ ["protoc"]) ∧ base r ++ l ++ ["protoc"] = D ++ ["protoc"].
Proof.
  split; [|by rewrite app_assoc]. destruct Hsp as [Hd <- Hel Hl].
  rewrite (path_Join_name dest l) by (done || by apply (bool_decide_unpack _)).
  apply spells_unparse. apply Forall_app. split; [done|by apply (bool_decide_unpack _)].
Qed.

Lemma link_Rel : Rel dest (path_Join [versioned; "bin"; "protoc"]) = Ok link_text.
Proof.
  assert (Forall proper (l ++ [vname])) as Hlv by (apply Forall_app; split; [apply Hsp|by apply Forall_singleton]).
  destruct Hsp as [Hd Hr Hel Hl]. unfold versioned.
  rewrite (path_Join_two _ (l ++ [vname])), rooted_unparse by
    (by apply unparse_nonempty || by apply elements_unparse || done || by apply (bool_decide_unpack _)).
  rewrite <- app_assoc, <- Hr. apply Rel_below; [done|done| |done].
  apply Forall_cons_2; [done|by apply (bool_decide_unpack _)].
Qed.

Lemma link_finer b fs0 :
  triple (finer b fs0) (link dest (path_Join [versioned; "bin"; "protoc"]) : IO W ()) (finer b fs0)
    (λ r' fs, finer b fs0 fs ∧ (is_ok r' = true → fs !! (D ++ ["protoc"]) = Some (NLink link_text))).
Proof.
  unfold link. rewrite link_Rel. apply triple_lift_bind. destruct link_target as [Hst HD].
  apply triple_each. intros fs1 Hf1. pose proof (so_wf _ (proj1 (proj1 Hf1))) as Hwf1.
  pose proof (parent_clear _ _ "protoc" (so_dest _ (proj1 (proj1 Hf1)))) as Hclear.
  assert (∀ fs, removing (D ++ ["protoc"]) fs1 fs → beside "protoc" fs1 fs) as Hb.
  { intros fs Hr. eapply removing_beside; [|done]. by split. }
  apply triple_bind with (R := λ _, removing (D ++ ["protoc"]) fs1); [| |].
  - apply triple_try. eapply triple_conseq.
    + by apply (Remove_keeps (D ++ ["protoc"]) fs1 (snoc_ne _ _) (Hcwd "protoc") _ r (l ++ ["protoc"]) Hst).
    + intros fs ->. split; [done|by left].
    + intros fs Hr. by eapply finer_beside, Hb.
    + by intros r' fs Hr.
  - intros r'. apply triple_syscall; [intros e fs Hr; split; [by eapply finer_beside, Hb|done]|].
    intros fs [] fs' Hr. destruct (locate fs false _) as [l'|] eqn:E; [cbn|done].
    assert (clear fs false (base r ++ l ++ ["protoc"])) as Hc.
    { rewrite HD. intros q Hq Hne. eapply pruned_links; [apply Hr|]. by apply Hclear. }
    destruct (locate_clear _ _ _ _ _ _ Hst Hc E) as [-> _].
    destruct (fs !! (base r ++ l ++ ["protoc"])) eqn:En; [done|]. intros [= <-].
    assert (wf (<[base r ++ l ++ ["protoc"] := NLink link_text]> fs)) as Hwf' by (eapply wf_create; [apply Hr|done..]).
    rewrite HD in *. assert (finer b fs0 (<[D ++ ["protoc"] := NLink link_text]> fs)) as Hfin.
    { eapply finer_beside; [done|]. split; [done|]. intros p Hp.
      rewrite lookup_insert_ne by (by intros <-; apply Hp). by apply Hb. }
    split; [done|split; [done|]]. intros _. apply lookup_insert_eq.
  - intros e fs Hr. split; [by eapply finer_beside, Hb|done].
Qed.

End install.

(** ** Downloading *)

Lemma download_checked ctx url want (P I : FS → Prop) :
  triple P (download ctx url want : IO W string) I
    (λ r' fs, P fs ∧ match r' with Ok archive => hex_EncodeToString (Sum256 archive) = want | Err _ => True end).
Proof.
  unfold download. apply triple_lift_bind. destruct (NewRequest_err url); [done|]. cbn.
  apply triple_bind with (R := λ _, P); [by apply triple_ext| |done]. intros resp.
  apply triple_defer; [|done]. case_match; [by apply triple_fail|].
  apply triple_bind with (R := λ _, P); [by apply triple_ext| |done]. intros body. cbv zeta.
  case_bool_decide; [by apply triple_ret|by apply triple_fail].
Qed.

(** The archive has the digest a table has for the version and this machine. *)
Definition pinned (table : gmap string (gmap string string)) (version archive : string) : Prop := ∃ digests asset,
  table !! version = Some digests ∧ assetName GOOS GOARCH = Ok asset ∧
  default "" (digests !! asset) = hex_EncodeToString (Sum256 archive).

(** A table of digests of this one version; the program's table is one
    ([checksums_version]). *)
Definition one_version (table : gmap string (gmap string string)) : Prop :=
  ∀ version digests, table !! version = Some digests → version = "36.1".
Lemma checksums_version : one_version checksums.
Proof. intros version digests. unfold checksums. by intros [<- _]%lookup_singleton_Some. Qed.

(** ** A run *)

Section run.
Context (dest : string) (r : bool) (l : list string) (Hsp : spells dest r l).
Notation D := (base r ++ l).
Notation vname := "protoc-36.1".
Notation V := (D ++ [vname]).
Context (Hcwd : ∀ z, ¬ D ++ [z] `prefix_of` cwd).
Context (table : gmap string (gmap string string)) (Htable : one_version table).
Notation genuine := (pinned table "36.1").

Lemma vname_proper : proper vname.
Proof. by apply (bool_decide_unpack _). Qed.
Hint Resolve vname_proper : core.

Lemma temp_proper s : digits s → proper ((vname +:+ ".tmp-") +:+ s).
Proof.
  intros (n & Hn & ->). destruct (Itoa_natural n Hn) as [Hd _].
  assert (no_byte slash (Itoa n) = true) as Hs.
  { revert Hd. generalize (Itoa n). intros s. unfold no_byte. induction s as [|c s IH]; [done|]. cbn.
    intros [Hc Hs]%andb_true_iff. rewrite IH by done. rewrite andb_true_r, negb_true_iff.
    destruct (Ascii.eqb_spec c slash) as [->|]; done. }
  split_and!; [done..|]. unfold no_byte in *. rewrite str_forall_app, Hs. done.
Qed.
Hint Resolve temp_proper : core.

Notation sound := (sound genuine r l vname).
Notation fine := (fine genuine r l vname).
Notation waiting := (waiting genuine r l vname).
Notation complete := (complete genuine r l vname).
Notation marked := (marked r l vname).
Notation versioned := (unparse r (l ++ [vname])).

Lemma V_proper : Forall proper (l ++ [vname]).
Proof. apply Forall_app. split; [apply Hsp|by apply Forall_singleton]. Qed.

Lemma marker_names : spells (path_Join [versioned; completeMarker]) r ((l ++ [vname]) ++ [completeMarker]) ∧
  base r ++ (l ++ [vname]) ++ [completeMarker] = V ++ [completeMarker].
Proof.
  pose proof V_proper as HV. split; [|by rewrite !app_assoc].
  rewrite (path_Join_name _ (l ++ [vname])), rooted_unparse by
    (by apply unparse_nonempty || by apply elements_unparse || done || by apply (bool_decide_unpack _)).
  apply spells_unparse. apply Forall_app. split; [done|by apply (bool_decide_unpack _)].
Qed.

Lemma sound_nolink_marker fs : sound fs → nolink fs (V ++ [completeMarker]).
Proof.
  intros Hs q [Hq| ->]%prefix_snoc; [by eapply sound_nolink_V|]. apply (so_links _ _ _ _ _ Hs).
Qed.

(** Without the marker the tree does not count as installed. *)
Lemma installed_pending fs0 :
  triple (waiting fs0) (installed versioned : IO W bool) (fine fs0)
    (λ r' fs, waiting fs0 fs ∧ match r' with Ok b => b = false | Err _ => False end).
Proof.
  destruct marker_names as [Hm HX]. unfold installed.
  apply triple_bind with (R := λ r' fs, waiting fs0 fs ∧ match r' with Ok n => is_ok n = false | Err _ => False end).
  - apply triple_try, (triple_stat true); [done|]. intros fs l' n Hp E.
    assert (clear fs true (base r ++ (l ++ [vname]) ++ [completeMarker])) as Hc.
    { rewrite HX. apply nolink_clear, sound_nolink_marker, Hp. }
    destruct (node_at_clear _ _ _ _ _ _ _ Hm Hc E) as [_ Hn]. rewrite HX in Hn. destruct Hp as [_ Hnm].
    destruct Hnm. exists n. exact Hn.
  - intros n. apply triple_ret. naive_solver.
  - naive_solver.
Qed.

Lemma RemoveAll_pending fs0 :
  triple (waiting fs0) (RemoveAll versioned : IO W ()) (fine fs0) (λ _, waiting fs0).
Proof.
  apply triple_each. intros fs1 [[Hs Hf] Hm].
  assert (∀ fs, removing V fs1 fs → waiting fs0 fs) as Hp.
  { intros fs Hr. destruct (removing_sound genuine r l vname fs1 fs Hs Hm Hr) as (? & ? & ?).
    split; [split; [done|by eapply frame_trans]|done]. }
  eapply triple_conseq.
  - apply (RemoveAll_keeps V fs1 (snoc_ne _ _) (Hcwd vname) versioned r (l ++ [vname]));
      [by apply spells_unparse, V_proper|by rewrite app_assoc|]. by eapply nolink_clear, sound_nolink_V.
  - intros fs ->. split; [apply Hs|by left].
  - intros fs Hr. by apply Hp.
  - intros r' fs Hr. by apply Hp.
Qed.

Lemma install_release_fine ctx digests asset digest fs0 : table !! "36.1" = Some digests →
  assetName GOOS GOARCH = Ok asset → default "" (digests !! asset) = digest →
  triple (waiting fs0) (install_release ctx "36.1" dest asset digest versioned : IO W ()) (fine fs0)
    (λ r' fs, fine fs0 fs ∧ (is_ok r' = true → complete fs)).
Proof.
  intros Hc Ha Hd. unfold install_release.
  apply triple_bind with (R := λ r' fs, waiting fs0 fs ∧ match r' with Ok _ => True | Err _ => False end);
    [apply triple_try, (triple_stat true); by split| |naive_solver].
  intros s. apply triple_bind with (R := λ _, waiting fs0); [| |by intros e fs [? _]].
  { destruct s as [n|e]; [|by apply triple_ret; intros ? [? _]].
    apply triple_bind with (R := λ _, waiting fs0); [by apply triple_printf; intros ? [? _]| |done].
    intros u. apply RemoveAll_pending. }
  intros []. cbv zeta. apply triple_bind with (R := λ _, waiting fs0); [by apply triple_printf| |by intros e fs [? _]].
  intros []. apply triple_bind with (R := λ r' fs, waiting fs0 fs ∧
    match r' with Ok archive => hex_EncodeToString (Sum256 archive) = digest | Err _ => True end);
    [apply download_checked| |by intros e fs [[? _] _]].
  intros archive. apply (triple_pure (hex_EncodeToString (Sum256 archive) = digest)); [naive_solver|]. intros Hg.
  apply triple_bind with (R := λ r' fs, fine fs0 fs ∧ (is_ok r' = true → complete fs)); [| |naive_solver].
  - eapply triple_pre; [|apply (install_fine genuine dest r l Hsp vname vname_proper ltac:(done) temp_proper Hcwd archive fs0)]; [by intros ? [? _]|].
    exists digests, asset. by rewrite Hg.
  - intros []. apply triple_printf. naive_solver.
Qed.

Lemma versioned_is : path_Join [dest; "protoc-36.1"] = versioned.
Proof. destruct Hsp as [Hd <- Hel Hl]. by apply path_Join_name. Qed.

(** What a run makes of the disk, and what it returns. *)
Lemma run_pending ctx version fs0 :
  triple (waiting fs0) (run_with table ctx version dest : IO W ()) (fine fs0)
    (λ r' fs, fine fs0 fs ∧ (is_ok r' = true → complete fs ∧ fs !! (D ++ ["protoc"]) = Some (NLink (link_text vname)))).
Proof.
  unfold run_with. case_bool_decide; [by apply triple_fail; intros ? [? _]|].
  destruct (table !! version) as [digests|] eqn:Hc; [|by apply triple_fail; intros ? [? _]].
  pose proof (Htable _ _ Hc) as ->. apply triple_lift_bind.
  destruct (assetName GOOS GOARCH) as [asset|e] eqn:Ha; [|by intros ? [? _]].
  change ("protoc-" +:+ "36.1") with vname. cbv zeta. rewrite versioned_is.
  apply triple_bind with (R := λ r' fs, waiting fs0 fs ∧ match r' with Ok b => b = false | Err _ => False end);
    [apply installed_pending| |naive_solver].
  intros b. apply (triple_pure (b = false)); [naive_solver|]. intros ->.
  apply triple_bind with (R := λ r' fs, fine fs0 fs ∧ (is_ok r' = true → complete fs)); [| |naive_solver].
  - eapply triple_pre; [|by eapply install_release_fine]. by intros ? [? _].
  - intros []. eapply triple_conseq; [by apply (link_finer genuine dest r l Hsp vname vname_proper ltac:(done) Hcwd true fs0)| | |].
    + intros fs [Hf Hcm]. split; [done|]. intros _. by apply Hcm.
    + by intros fs [? _].
    + intros r' fs [[Hf Hcm] Hl]. split; [done|]. intros Hr. split; [by apply Hcm|by apply Hl].
Qed.

(** What holds of the disk on the way and at the end. *)
Definition run_safe ctx version fs0 (st : Os W) : Prop := ∃ new,
  os_seen (run_with table ctx version dest st).2 = os_seen st ++ new ∧ Forall (fine fs0) new ∧
  fine fs0 (os_fs (run_with table ctx version dest st).2) ∧
  (is_ok (run_with table ctx version dest st).1 = true → complete (os_fs (run_with table ctx version dest st).2) ∧
     os_fs (run_with table ctx version dest st).2 !! (D ++ ["protoc"]) = Some (NLink (link_text vname))).

Lemma next_stat_keeps (st : Os W) :
  os_fs (next_stat_fault st).2 = os_fs st ∧ os_seen (next_stat_fault st).2 = os_seen st.
Proof. unfold next_stat_fault. by destruct (os_stat_faults st). Qed.

Lemma installed_marked (st : Os W) : sound (os_fs st) → marked (os_fs st) → (next_stat_fault st).1 = None →
  installed versioned st = (Ok true, (next_stat_fault st).2).
Proof.
  intros Hs [n Hn] Hst. destruct marker_names as [Hmn HX]. destruct (next_stat_keeps st) as [Hfs _].
  unfold installed, io_try, mbind, IO_bind, Stat. destruct (next_stat_fault st) as [f st1]. cbn in Hst, Hfs |- *. subst f.
  rewrite Hfs, (node_at_finds (os_fs st) true _ r ((l ++ [vname]) ++ [completeMarker]) n); [done|apply Hs|done| |].
  - rewrite HX. by apply nolink_clear, sound_nolink_marker.
  - by rewrite HX.
Qed.

(** With the marker there, as far as it can be seen, only the link is made again. *)
Lemma run_marked ctx version fs0 (st : Os W) : fine fs0 (os_fs st) → marked (os_fs st) → (next_stat_fault st).1 = None →
  run_safe ctx version fs0 st.
Proof.
  intros Hf Hm Hst.
  assert (∀ e, run_with table ctx version dest st = (Err e, st) → run_safe ctx version fs0 st) as Herr.
  { intros e E. unfold run_safe. rewrite E. exists []. by rewrite app_nil_r. }
  destruct (decide (version = "")) as [->|Hv]; [by eapply Herr|].
  destruct (table !! version) as [digests|] eqn:Ec.
  2: { eapply Herr. unfold run_with. by rewrite bool_decide_false, Ec. }
  destruct (assetName GOOS GOARCH) as [asset|e] eqn:Ea.
  2: { eapply Herr. unfold run_with. by rewrite bool_decide_false, Ec, Ea. }
  assert (run_with table ctx version dest st =
    link dest (path_Join [versioned; "bin"; "protoc"]) (next_stat_fault st).2) as E.
  { pose proof (Htable _ _ Ec) as ->. unfold run_with. rewrite bool_decide_false, Ec, Ea by done.
    unfold mbind at 1, IO_bind at 1, io_lift at 1. cbv beta iota zeta.
    change ("protoc-" +:+ "36.1") with vname. rewrite versioned_is. unfold mbind at 1, IO_bind at 1.
    by rewrite (installed_marked st (proj1 Hf) Hm Hst). }
  unfold run_safe. rewrite E. destruct (next_stat_keeps st) as [Hfs Hseen]. rewrite <- Hseen.
  destruct (link_finer genuine dest r l Hsp vname vname_proper ltac:(done) Hcwd true fs0 (next_stat_fault st).2)
    as (new & ? & Hnew & [Hfin Hc] & Hl).
  { rewrite Hfs. split; [done|]. intros _. by apply Hf. }
  exists new. split_and!; [done| |done|].
  - eapply Forall_impl; [|exact Hnew]. by intros ? [? _].
  - intros Hok. split; [by apply Hc|by apply Hl].
Qed.

Lemma run_fine ctx version fs0 (st : Os W) : fine fs0 (os_fs st) →
  (marked (os_fs st) → (next_stat_fault st).1 = None) → run_safe ctx version fs0 st.
Proof.
  intros Hf Hst. destruct (os_fs st !! (V ++ [completeMarker])) as [n|] eqn:Em.
  - assert (marked (os_fs st)) as Hm by by exists n. by apply run_marked; [| |apply Hst].
  - destruct (run_pending ctx version fs0 st) as (new & ? & ? & ? & ?); [|by exists new].
    split; [done|]. intros [n Hn]. by rewrite Em in Hn.
Qed.

End run.
End facts.

(** ** Properties *)

Section properties.
Context {W : Type} {ID : Disk} {IZ : Zip} {IR : Runtime} {IHt : Http W}.

(** Where the files go. *)
Definition dest_path (dest : string) : path := base (rooted dest) ++ elements dest.
Definition release_path (dest : string) : path := dest_path dest ++ ["protoc-36.1"].

(** A disk to install on: the destination is a path of names with no links on it,
    the program does not run from inside it, and no finished install is there (an
    unfinished one, or anything else, may be). *)
Record ready (dest : string) (fs : FS) : Prop := mk_ready {
  rd_wf : wf fs;
  rd_names : dest ≠ "" ∧ Forall proper (elements dest);
  rd_cwd z : ¬ dest_path dest ++ [z] `prefix_of` cwd;
  rd_nolink : nolink fs (dest_path dest);
  rd_links m : is_link (fs !! (release_path dest ++ m)) = false;
  rd_unmarked : fs !! (release_path dest ++ [completeMarker]) = None
}.

Definition has_marker (dest : string) (fs : FS) : Prop := is_Some (fs !! (release_path dest ++ [completeMarker])).

(** A marker that is there is seen: the first [Stat] of a run does not fail by
    itself then.  All other calls may fail. *)
Definition marker_seen (dest : string) (st : Os W) : Prop :=
  has_marker dest (os_fs st) → (next_stat_fault st).1 = None.

(** What a run, of any version, leaves on the disk when it is stopped at some
    moment or at its end. *)
Definition left_by table (dest : string) (fs fs' : FS) : Prop := ∃ ctx version (st : Os W),
  os_fs st = fs ∧ os_seen st = [] ∧ marker_seen dest st ∧
  (fs' = os_fs (run_with table ctx version dest st).2 ∨ fs' ∈ os_seen (run_with table ctx version dest st).2).

Lemma left_at_end table dest ctx version (st : Os W) : os_seen st = [] → marker_seen dest st →
  left_by table dest (os_fs st) (os_fs (run_with table ctx version dest st).2).
Proof. intros Hs Hm. exists ctx, version, st. split_and!; [done..|by left]. Qed.

(** Everything an archive with the pinned digest holds, read to its end. *)
Definition whole table (dest : string) (fs : FS) : Prop := ∃ archive files,
  pinned table "36.1" archive ∧ zip_NewReader archive = Ok files ∧ Forall readable files ∧
  is_Some (unpacked files !! binary_names) ∧ ∀ m, fs !! (release_path dest ++ m) = release_tree files !! m.

Notation fine_at table dest := (fine (pinned table "36.1") (rooted dest) (elements dest) "protoc-36.1").

Lemma ready_spells dest fs : ready dest fs → spells dest (rooted dest) (elements dest).
Proof. intros H. destruct (rd_names _ _ H). by split. Qed.

Lemma ready_fine table dest fs : ready dest fs → fine_at table dest fs fs.
Proof.
  intros H. split; [|apply frame_refl]. split; [apply H|apply H|apply (rd_links _ _ H)|].
  intros [n Hn]. pose proof (rd_unmarked _ _ H) as E. unfold release_path, dest_path in E. by rewrite Hn in E.
Qed.

Section runs.
Context (table : gmap string (gmap string string)) (Htable : one_version table).

Lemma left_by_fine dest fs0 fs fs' :
  ready dest fs0 → fine_at table dest fs0 fs → left_by table dest fs fs' → fine_at table dest fs0 fs'.
Proof.
  intros Hr Hf (ctx & version & st & <- & Hseen & Hst & Hin).
  assert (marked (rooted dest) (elements dest) "protoc-36.1" (os_fs st) → (next_stat_fault st).1 = None) as Hst'
    by exact Hst.
  destruct (run_fine dest _ _ (ready_spells _ _ Hr) (rd_cwd _ _ Hr) table Htable ctx version fs0 st Hf Hst')
    as (new & Hs & Hnew & Hend & _).
  rewrite Hseen in Hs. cbn in Hs. destruct Hin as [->|Hin]; [done|]. rewrite Hs in Hin.
  by eapply (proj1 (list.Forall_forall _ _)).
Qed.

Lemma interrupted_fine dest fs0 fs : ready dest fs0 → rtc (left_by table dest) fs0 fs → fine_at table dest fs0 fs.
Proof.
  intros Hr Hrtc.
  assert (∀ fs1 fs2, fine_at table dest fs0 fs1 → rtc (left_by table dest) fs1 fs2 → fine_at table dest fs0 fs2) as H.
  { intros fs1 fs2 Hf Hs. induction Hs as [|fs1 fs2 fs3 H12 H23 IH]; [done|]. by eapply IH, left_by_fine. }
  eapply H; [by apply ready_fine|done].
Qed.

(** C33: through any number of installer runs, each stopped at any moment or
    failing in any call but one, a release directory that carries the marker is the
    whole tree of an archive with the digest the program's table has for it, and
    outside the destination nothing changes but that the directories on the way to
    it may be made.  The one call is the look at a marker that is there: a run
    whose [Stat] of it fails takes the release for an unfinished one, and
    [unreadable_marker_loses_install] shows what can come of that.  It holds for
    every table of digests of the one version, the program's [checksums] being one. *)
Theorem interrupted_installs_are_safe dest fs0 fs : ready dest fs0 → rtc (left_by table dest) fs0 fs →
  (has_marker dest fs → whole table dest fs) ∧
  (∀ p, dest_path dest `prefix_of` p ∨ fs !! p = fs0 !! p ∨
        (p `prefix_of` dest_path dest ∧ fs0 !! p = None ∧ fs !! p = Some (NDir 493))).
Proof.
  intros Hr Hs. destruct (interrupted_fine dest fs0 fs Hr Hs) as [Hso Hf]. split; [|exact Hf].
  intros Hm. apply (so_complete _ _ _ _ _ Hso Hm).
Qed.

(** C34: when a run reports success, after any number of interrupted ones, the whole
    release, with the digest the table has for it, is in its directory and
    <dest>/protoc is a link to its binary, whatever the runs before left.  As in
    the theorem above a marker that is there is seen. *)
Theorem successful_run_installs dest fs0 ctx version (st st' : Os W) :
  ready dest fs0 → rtc (left_by table dest) fs0 (os_fs st) → marker_seen dest st →
  run_with table ctx version dest st = (Ok (), st') →
  whole table dest (os_fs st') ∧
  os_fs st' !! (dest_path dest ++ ["protoc"]) = Some (NLink "protoc-36.1/bin/protoc").
Proof.
  intros Hr Hs Hst Hrun. pose proof (interrupted_fine dest fs0 _ Hr Hs) as Hf.
  assert (marked (rooted dest) (elements dest) "protoc-36.1" (os_fs st) → (next_stat_fault st).1 = None) as Hst'
    by exact Hst.
  destruct (run_fine dest _ _ (ready_spells _ _ Hr) (rd_cwd _ _ Hr) table Htable ctx version fs0 st Hf Hst')
    as (new & _ & _ & _ & H).
  rewrite Hrun in H. exact (H eq_refl).
Qed.

End runs.

(** *** The content of an unpacked tree *)

Lemma names_not_marker f m : is_wanted f = true → entry_names f ≠ [completeMarker] ++ m.
Proof. intros Hw E. destruct (wanted_names f Hw) as (_ & _ & _ & m' & _ & [H|H]); by rewrite H in E. Qed.

(** Later entries leave a file as it is unless they have its name. *)
Lemma unpack_keeps_file m data files t :
  (∃ perm, t !! m = Some (NFile data perm)) →
  (∀ g, g ∈ files → is_wanted g = true → IsDir g = false → entry_names g ≠ m) →
  ∃ perm, foldl unpack_entry t files !! m = Some (NFile data perm).
Proof.
  revert t. induction files as [|g files IH]; intros t [perm Ht] Hg; [by exists perm|]. cbn. apply IH.
  - unfold unpack_entry. destruct (is_wanted g) eqn:Hw; cbn [negb]; [|by exists perm]. destruct (IsDir g) eqn:Hd.
    + exists perm. by rewrite lookup_mkdirs, Ht.
    + exists perm. rewrite lookup_put_file, decide_False by (apply not_eq_sym, Hg; [by left|done..]).
      by rewrite lookup_mkdirs, Ht.
  - intros g' Hin. apply Hg. by right.
Qed.

(** A file of an archive is in its tree, under its cleaned name, with its content,
    unless a later entry has the same name. *)
Lemma release_tree_file before f after src : is_wanted f = true → IsDir f = false → z_Open f = Ok src →
  (∀ g, g ∈ after → is_wanted g = true → IsDir g = false → entry_names g ≠ entry_names f) →
  ∃ perm, release_tree (before ++ f :: after) !! entry_names f = Some (NFile (rd_data src) perm).
Proof.
  intros Hw Hd Ho Hafter.
  assert (∃ perm, unpacked (before ++ f :: after) !! entry_names f = Some (NFile (rd_data src) perm)) as [perm Hu].
  { unfold unpacked. rewrite foldl_app. cbn [foldl]. apply unpack_keeps_file; [|done].
    unfold unpack_entry. rewrite Hw, Hd, Ho. cbn [negb from_res]. eexists. by rewrite lookup_put_file, decide_True. }
  unfold release_tree. rewrite lookup_put_file, decide_False by (pose proof (names_not_marker f [] Hw); done).
  destruct (unpacked _ !! binary_names) as [n|] eqn:Hb; [|by exists perm].
  destruct (decide (entry_names f = binary_names)) as [E|E].
  - rewrite E in *. rewrite lookup_insert_eq. rewrite Hu in Hb. injection Hb as <-. by eexists.
  - rewrite lookup_insert_ne by done. by exists perm.
Qed.

(** The release directory holds everything of this archive. *)
Definition archive_at (dest archive : string) (fs : FS) : Prop := ∃ files,
  zip_NewReader archive = Ok files ∧ Forall readable files ∧ is_Some (unpacked files !! binary_names) ∧
  (∀ m, fs !! (release_path dest ++ m) = release_tree files !! m) ∧
  (∀ before f after src, files = before ++ f :: after → is_wanted f = true → IsDir f = false → z_Open f = Ok src →
     (∀ g, g ∈ after → is_wanted g = true → IsDir g = false → entry_names g ≠ entry_names f) →
     ∃ perm, fs !! (release_path dest ++ entry_names f) = Some (NFile (rd_data src) perm)).

Lemma complete_archive_at dest archive fs :
  complete (λ a, a = archive) (rooted dest) (elements dest) "protoc-36.1" fs → archive_at dest archive fs.
Proof.
  intros (a & files & -> & Hz & Hr & Hb & Hh). exists files. split_and!; try done.
  intros before f after src -> Hw Hd Ho Hafter. pose proof (Hh (entry_names f)) as E.
  destruct (release_tree_file before f after src Hw Hd Ho Hafter) as [perm Hp]. exists perm. by rewrite <- Hp.
Qed.

(** C35: installing an archive is all or nothing: at every moment, whichever calls
    fail, a directory with the marker holds exactly what the entries of the archive
    below bin/ and include/ describe, each file with its own content and each read
    to its end; and success means that it is there. *)
Theorem install_all_or_nothing dest archive (st st' : Os W) r' : ready dest (os_fs st) → os_seen st = [] →
  install archive dest (path_Join [dest; "protoc-36.1"]) st = (r', st') →
  (∀ fs, fs ∈ os_seen st' → is_Some (fs !! (release_path dest ++ [completeMarker])) → archive_at dest archive fs) ∧
  (r' = Ok () → archive_at dest archive (os_fs st')).
Proof.
  intros Hr Hseen Hi. pose proof (ready_spells _ _ Hr) as Hsp. pose proof (rd_unmarked _ _ Hr) as Hun.
  rewrite (versioned_is dest _ _ Hsp (rd_cwd _ _ Hr)) in Hi.
  destruct (install_fine (λ a, a = archive) dest _ _ Hsp "protoc-36.1" vname_proper ltac:(done) temp_proper (rd_cwd _ _ Hr)
    archive (os_fs st) eq_refl st) as (new & Hs & Hnew & Hend & Hok).
  { split; [|intros [n Hn]; unfold release_path, dest_path in Hun; by rewrite Hn in Hun].
    split; [|apply frame_refl]. split; [apply Hr|apply Hr|apply (rd_links _ _ Hr)|].
    intros [n Hn]. unfold release_path, dest_path in Hun. by rewrite Hn in Hun. }
  rewrite Hi, Hseen in *. cbn in *. subst new. split.
  - intros fs Hin Hm. apply complete_archive_at.
    destruct (proj1 (list.Forall_forall _ _) Hnew fs Hin) as [Hso _]. by apply (so_complete _ _ _ _ _ Hso).
  - intros ->. apply complete_archive_at. by apply Hok.
Qed.

End properties.

(** ** A disk, a server and an archive *)

Definition children (fs : FS) (p : path) : list string :=
  omap (λ q, if bool_decide (q ≠ [] ∧ parent q = p) then Some (List.last q "") else None) (map fst (map_to_list fs)).

Lemma children_spec fs p x : x ∈ children fs p ↔ is_Some (fs !! (p ++ [x])).
Proof.
  unfold children. rewrite list_elem_of_omap. split.
  - intros (q & Hq & Hx). apply list_elem_of_fmap in Hq as ([q' n] & -> & Hq). cbn in Hx.
    case_bool_decide as H; [|done]. destruct H as [Hne <-]. injection Hx as <-. unfold parent.
    rewrite <- app_removelast_last by done. apply elem_of_map_to_list in Hq. by rewrite Hq.
  - intros [n Hn]. exists (p ++ [x]). split.
    + apply list_elem_of_fmap. exists (p ++ [x], n). split; [done|]. by apply elem_of_map_to_list.
    + unfold parent. rewrite removelast_last, List.last_last, bool_decide_true; [done|]. by destruct p.
Qed.

Module Example_disk.

#[local] Instance ex_disk : Disk := {|
  cwd := ["w"]; readdir := children; readdir_spec := children_spec; read_size := λ _, 4; read_size_pos := λ _, Nat.lt_0_succ 3
|}.
#[local] Instance ex_runtime : Runtime := {| GOOS := "linux"; GOARCH := "amd64" |}.

(** An archive with a binary, a file, and entries to leave out. *)
Definition ex_file (name : string) (mode : Z) (data : string) : ZipFile :=
  mkZipFile name (Z.shiftl 3 8) (Z.shiftl mode 16) (Ok (mkReader data None)).
Definition ex_files : list ZipFile :=
  [ex_file "bin/protoc" 493 "#!/bin/sh"; ex_file "include/a.proto" 420 "syntax"; ex_file "readme.txt" 420 "x";
   ex_file "bin/../../evil" 420 "x"].
#[local] Instance ex_zip : Zip := {|
  zip_NewReader := λ a, if bool_decide (a = "archive") then Ok ex_files else Err (EOther "zip: not a valid zip file")
|}.
(** A server whose answer is not the pinned release. *)
#[local] Instance ex_http : Http () := {|
  response := (); StatusCode := λ _, 200%Z; Status := λ _, "200 OK"; NewRequest_err := λ _, None;
  http_Do := λ _ _ w, (Ok (), w); ReadAll_limit := λ _ _ _ w, (Ok "archive", w); Body_Close := λ _ w, w
|}.

(** A working directory with what an interrupted run of an older tool left. *)
Definition ex_fs : FS := list_to_map
  [([], NDir 493); (["w"], NDir 493); (["w"; "bin"], NDir 493);
   (["w"; "bin"; "protoc-36.1"], NDir 493); (["w"; "bin"; "protoc-36.1"; "bin"], NDir 493);
   (["w"; "bin"; "protoc-36.1"; "bin"; "protoc"], NFile "trunc" 493)].
Definition ex_fresh : FS := list_to_map [([], NDir 493); (["w"], NDir 493)].
Definition ex_st (fs : FS) (faults : list (option Fault)) (stat_faults : list (option goerr)) : Os () :=
  mkOs fs [] faults stat_faults [7%Z] [] ().

Lemma check_wf (fs : FS) : is_dir (fs !! []) = true → is_dir (fs !! cwd) = true →
  forallb (λ p, bool_decide (p = []) || is_dir (fs !! parent p)) (map fst (map_to_list fs)) = true → wf fs.
Proof.
  intros H1 H2 H3. split; [done..|]. intros p x [n Hn]. rewrite forallb_forall in H3.
  specialize (H3 (p ++ [x])). rewrite bool_decide_false in H3 by by destruct p. unfold parent in H3.
  rewrite removelast_last in H3. apply H3. apply list_elem_of_In, list_elem_of_fmap. exists (p ++ [x], n).
  split; [done|]. by apply elem_of_map_to_list.
Qed.

Lemma check_links (fs : FS) : forallb (λ n, negb (is_link (Some n))) (map snd (map_to_list fs)) = true →
  ∀ p, is_link (fs !! p) = false.
Proof.
  intros H p. destruct (fs !! p) as [n|] eqn:Hn; [|done]. rewrite forallb_forall in H. apply negb_true_iff, H.
  apply list_elem_of_In, list_elem_of_fmap. exists (p, n). split; [done|]. by apply elem_of_map_to_list.
Qed.

Lemma ex_ready fs : wf fs → (∀ p, is_link (fs !! p) = false) →
  fs !! ["w"; "bin"; "protoc-36.1"; ".complete"] = None → ready "bin" fs.
Proof.
  intros Hwf Hl Hn. split; try done.
  - split; [done|]. by apply (bool_decide_unpack _).
  - intros z Hp. change (dest_path "bin") with ["w"; "bin"] in Hp. apply prefix_length in Hp. cbn in Hp. lia.
  - intros q _. apply Hl.
Qed.

Lemma ex_fs_ready : ready "bin" ex_fs.
Proof. apply ex_ready; [by apply check_wf|by apply check_links|done]. Qed.
Lemma ex_fresh_ready : ready "bin" ex_fresh.
Proof. apply ex_ready; [by apply check_wf|by apply check_links|done]. Qed.

(** A table that has the digest of this archive, for the runs that finish. *)
Definition ex_table : gmap string (gmap string string) :=
  {[ "36.1" := {[ "linux-x86_64" := hex_EncodeToString (Sum256 "archive") ]} ]}.
Lemma ex_one_version : one_version ex_table.
Proof. intros version digests. unfold ex_table. by intros [<- _]%lookup_singleton_Some. Qed.

(** With the program's table a run removes the unfinished directory and refuses
    the download.  With the table above a run puts the release in place, and the
    next one, whose first call after the look at the marker fails, leaves it as it
    is: whole. *)
Definition ex_refused : FS := os_fs (run (W := ()) Background "36.1" "bin" (ex_st ex_fs [] [])).2.
Definition ex_marked : FS := os_fs (run_with (W := ()) ex_table Background "36.1" "bin" (ex_st ex_fs [] [])).2.
Definition ex_again : FS :=
  os_fs (run_with (W := ()) ex_table Background "36.1" "bin" (ex_st ex_marked [Some (mkFault EBUSY 0)] [None; Some EBUSY])).2.

Lemma interrupted_installs_are_safe_witness :
  ready "bin" ex_fs ∧ (ex_refused !! release_path "bin" = None ∧ (has_marker "bin" ex_refused → whole checksums "bin" ex_refused)) ∧
  has_marker "bin" ex_again ∧ whole ex_table "bin" ex_again.
Proof.
  split; [apply ex_fs_ready|]. split; [split; [by vm_compute|]|].
  - apply (interrupted_installs_are_safe (W := ()) checksums checksums_version "bin" ex_fs _ ex_fs_ready).
    apply rtc_once. exists Background, "36.1", (ex_st ex_fs [] []). by repeat split; left.
  - assert (has_marker "bin" ex_again) as Hm by (apply (bool_decide_unpack _); by vm_compute). split; [exact Hm|].
    refine (proj1 (interrupted_installs_are_safe (W := ()) ex_table ex_one_version "bin" ex_fs ex_again ex_fs_ready _) Hm).
    apply (rtc_l _ ex_fs ex_marked); [|apply rtc_once].
    + exact (left_at_end ex_table "bin" Background "36.1" (ex_st ex_fs [] []) eq_refl (λ _, eq_refl)).
    + exact (left_at_end ex_table "bin" Background "36.1" (ex_st ex_marked [Some (mkFault EBUSY 0)] [None; Some EBUSY])
        eq_refl (λ _, eq_refl)).
Defined.

(** A run that fails while it unpacks, and cannot remove what it made. *)
Definition ex_cut_st : Os () := ex_st ex_fs (replicate 12 None ++ replicate 9 (Some (mkFault EBUSY 0))) [].
Definition ex_cut : FS := os_fs (run_with (W := ()) ex_table Background "36.1" "bin" ex_cut_st).2.

Lemma ex_cut_left : left_by (W := ()) ex_table "bin" ex_fs ex_cut.
Proof. exact (left_at_end ex_table "bin" Background "36.1" ex_cut_st eq_refl (λ _, eq_refl)). Qed.

(** The run on the disk it left reports success. *)
Lemma successful_run_installs_witness :
  let st' := (run_with (W := ()) ex_table Background "36.1" "bin" (ex_st ex_cut [] [])).2 in
  whole ex_table "bin" (os_fs st') ∧
  os_fs st' !! ["w"; "bin"; "protoc"] = Some (NLink "protoc-36.1/bin/protoc") ∧
  os_fs st' !! ["w"; "bin"; "protoc-36.1"; "include"; "a.proto"] = Some (NFile "syntax" 420).
Proof.
  assert (∀ fs st', rtc (left_by (W := ()) ex_table "bin") ex_fs fs →
    run_with ex_table Background "36.1" "bin" (ex_st fs [] []) = (Ok (), st') →
    whole ex_table "bin" (os_fs st') ∧
    os_fs st' !! (dest_path "bin" ++ ["protoc"]) = Some (NLink "protoc-36.1/bin/protoc")) as H.
  { intros fs st' Hs E.
    exact (successful_run_installs (W := ()) ex_table ex_one_version "bin" ex_fs Background "36.1"
      (ex_st fs [] []) st' ex_fs_ready Hs (λ _, eq_refl) E). }
  intros st'.
  assert (run_with (W := ()) ex_table Background "36.1" "bin" (ex_st ex_cut [] []) = (Ok (), st')) as E.
  { etransitivity; [apply surjective_pairing|]. apply (f_equal (λ r, (r, _))). vm_compute. reflexivity. }
  destruct (H ex_cut st' (rtc_once _ _ ex_cut_left) E) as [Hw Hl].
  split; [exact Hw|]. split; [exact Hl|]. vm_compute. reflexivity.
Defined.

(** A whole installation of the archive, and what its files hold. *)
Lemma install_all_or_nothing_witness :
  ready "bin" ex_fresh ∧
  (let st' := (install (W := ()) "archive" "bin" (path_Join ["bin"; "protoc-36.1"]) (ex_st ex_fresh [] [])).2 in
   os_fs st' !! ["w"; "bin"; "protoc-36.1"; "bin"; "protoc"] = Some (NFile "#!/bin/sh" 493) ∧
   os_fs st' !! ["w"; "evil"] = None ∧ archive_at "bin" "archive" (os_fs st')).
Proof.
  split; [apply ex_fresh_ready|]. split; [by vm_compute|split; [by vm_compute|]].
  apply (install_all_or_nothing (W := ()) "bin" "archive" (ex_st ex_fresh [] []) _ (Ok ()) ex_fresh_ready eq_refl).
  - etransitivity; [apply surjective_pairing|]. apply (f_equal (λ r, (r, _))). vm_compute. reflexivity.
  - reflexivity.
Defined.

(** The marker cannot be looked at (the hypothesis on [Stat] of the theorems above
    fails), so a finished install is taken for an unfinished one and removed; when
    that is cut short, the directory has the marker and no binary. *)
Definition ex_done : FS :=
  os_fs (install (W := ()) "archive" "bin" (path_Join ["bin"; "protoc-36.1"]) (ex_st ex_fresh [] [])).2.

Theorem unreadable_marker_loses_install :
  ∃ fs, fs ∈ os_seen (run (W := ()) Background "36.1" "bin" (ex_st ex_done [] [Some EBUSY])).2 ∧
    is_Some (fs !! ["w"; "bin"; "protoc-36.1"; ".complete"]) ∧
    is_Some (ex_done !! ["w"; "bin"; "protoc-36.1"; "bin"; "protoc"]) ∧
    fs !! ["w"; "bin"; "protoc-36.1"; "bin"; "protoc"] = None.
Proof.
  assert (Exists (λ fs : FS, is_Some (fs !! ["w"; "bin"; "protoc-36.1"; ".complete"]) ∧
    is_Some (ex_done !! ["w"; "bin"; "protoc-36.1"; "bin"; "protoc"]) ∧
    fs !! ["w"; "bin"; "protoc-36.1"; "bin"; "protoc"] = None)
    (os_seen (run (W := ()) Background "36.1" "bin" (ex_st ex_done [] [Some EBUSY])).2)) as H.
  { apply (bool_decide_unpack _). by vm_compute. }
  apply list.Exists_exists in H as (fs & ? & ?). by exists fs.
Qed.

End Example_disk.
