(* ===== verification/App.v ===== *)
(** * internal/app and the opening of the Store

    The bootstrap the binaries share: the level of the logger, [storage.Open]
    and [Store.Ping], [OpenStore] with its retries, the management server in the
    background, and [Main] with the exit status.  What the process holds open is
    a ledger in the world ([Ledger]), so that leaks and the order of closing can
    be stated. *)
From S2P Require Import Prelude GoErrors GoStrconv GoStrings GoUtf8 GoTime GoDuration GoContext Observability Jsonb Database Storage Config.

(** ** The log level *)

(** [strings.ToUpper], as far as the result can be ASCII: besides the letters,
    two characters outside ASCII have an ASCII upper case. *)
Fixpoint ToUpper (s : string) : string :=
  match s with
  | String "196" (String "177" r) => String "I" (ToUpper r)
  | String "197" (String "191" r) => String "S" (ToUpper r)
  | String c r => String (if between 97 122 c then chr (code c - 32) else c) (ToUpper r)
  | EmptyString => EmptyString
  end.

(** The text up to the first sign, and the rest with its sign. *)
Definition not_sign (c : ascii) : bool := negb (Ascii.eqb c "+") && negb (Ascii.eqb c "-").

(** [slog.Level.UnmarshalText]: a name and an optional offset. *)
Definition parse_level (s : string) : res Z :=
  let (name, rest) := span not_sign s in
  offset ← (if bool_decide (rest = "") then Ok 0%Z else Atoi rest);
  let name := ToUpper name in
  base ← (if bool_decide (name = "DEBUG") then Ok LevelDebug
          else if bool_decide (name = "INFO") then Ok LevelInfo
          else if bool_decide (name = "WARN") then Ok LevelWarn
          else if bool_decide (name = "ERROR") then Ok LevelError
          else Err (EOther "unknown name"));
  Ok (wrap64 (base + offset)).

Definition logLevel (name : string) : Z := match parse_level name with Ok l => l | Err _ => LevelInfo end.

(** ** What a process holds *)

Inductive Resource := RPool | RListener | RKafka.

#[export] Instance Resource_eq_dec : EqDecision Resource.
Proof. solve_decision. Defined.

(** The resources open, the latest first. *)
Class Ledger (W : Type) := { held : W → list Resource }.

Definition quiet_on {W A} `{!Ledger W} (f : W → A * W) : Prop := ∀ w, held (f w).2 = held w.

(** An operation that opens a resource, or fails and opens nothing. *)
Definition opens {W A} `{!Ledger W} (r : Resource) (f : W → res A * W) : Prop :=
  ∀ w, held (f w).2 = if is_ok (f w).1 then r :: held w else held w.

(** Closing the resource opened last. *)
Definition closes {W} `{!Ledger W} (r : Resource) (f : W → W) : Prop :=
  ∀ w h, held w = r :: h → held (f w) = h.

(** ** Opening the Store *)

(** github.com/jackc/pgx/v5/pgxpool. *)
Class Pgxpool (W : Type) := {
  pgconfig : Type;
  pgpool : Type;
  ParseConfig : string → res pgconfig;
  set_MaxConns : Z → pgconfig → pgconfig;
  NewWithConfig : Context → pgconfig → W → res pgpool * W;
  pool_Ping : Context → pgpool → W → option goerr * W;
  pool_Close : pgpool → W → W
}.

Section open.
Context {W : Type} {IC : Clock W} {IP : Pgconn} {IX : Pgxpool W}.

Definition Open (ctx : Context) (dsn : string) (w : W) : res pgpool * W :=
  match ParseConfig dsn with
  | Err err => (Err (wrapf "parse database url: " err), w)
  | Ok cfg =>
      match NewWithConfig ctx (set_MaxConns 8 cfg) w with
      | (Err err, w) => (Err err, w)
      | (Ok pool, w) =>
          match pool_Ping ctx pool w with
          | (Some err, w) => (Err (wrapf "ping postgres: " err), pool_Close pool w)
          | (None, w) => (Ok pool, w)
          end
      end
  end.

(** A [*storage.Store] is its pool. *)
Record Store := mkStore { st_pool : pgpool }.
Definition storage_New (pool : pgpool) : Store := mkStore pool.
Definition Ping (s : Store) (ctx : Context) (w : W) : option goerr * W :=
  let (err, w) := pool_Ping ctx (st_pool s) w in (classify <$> err, w).

(** A variable the function given to [Retry] assigns, next to the world. *)
#[export] Instance var_Clock {X} : Clock (W * X).
Proof.
  refine {| now := λ s, now s.1; wait_until := λ t s, (wait_until t s.1, s.2); pick_done := λ s, pick_done s.1 |};
    intros; [apply wait_until_mono|apply wait_until_reached].
Defined.

(** [Retry] with a function that sets a captured variable when it succeeds. *)
Definition assigning {X} (fn : Context → W → res X * W) (ctx : Context) (s : W * option X) : option goerr * (W * option X) :=
  match fn ctx s.1 with
  | (Err err, w) => (Some err, (w, s.2))
  | (Ok x, w) => (None, (w, Some x))
  end.

(** [None] stands for running out of fuel, which [Retry_ends] excludes. *)
Definition Retry_assign {X} (ctx : Context) (what : string) (timeout : Z) (fn : Context → W → res X * W) (w : W)
    : option (res X * W) :=
  '(err, (w, x)) ← Retry ctx what timeout (assigning fn) (w, None);
  match err, x with
  | Some err, _ => Some (Err err, w)
  | None, Some x => Some (Ok x, w)
  | None, None => None
  end.

Definition OpenStore (ctx : Context) (dsn : string) (w : W) : option (res Store * W) :=
  match Retry_assign ctx "postgres" Minute (λ ctx, Open ctx dsn) w with
  | Some (Ok pool, w) => Some (Ok (storage_New pool), w)
  | Some (Err err, w) => Some (Err err, w)
  | None => None
  end.

End open.
Arguments Store W {_}.

(** ** The management server in the background *)

(** Package net and net/http, serving side: a listener, the moment and error
    [Serve] would return with on its own, and [Shutdown]. *)
Class Network (W : Type) := {
  listener : Type;
  Listen : string → W → res listener * W;
  Serve_ends : listener → option (Z * goerr);
  http_Shutdown : Context → listener → W → option goerr * W
}.

Definition ErrServerClosed : goerr := ESentinel "http.ErrServerClosed" "http: Server closed".

Section management.
Context {W : Type} {IC : Clock W} {IN : Network W}.

(** [m.failed] delivers an error at some moment, or never. *)
Record Management := mkManagement {
  mg_listener : listener;
  mg_srv : ManagementServer W;
  mg_failed : option (Z * goerr)
}.

Definition ListenManagement (ctx : Context) (addr : string) (ready : ReadinessCheck W)
    (metrics : W → Response * W) (w : W) : res Management * W :=
  match Listen addr w with
  | (Err err, w) => (Err (wrapf ("listen management " +:+ addr +:+ ": ") err), w)
  | (Ok lis, w) =>
      (Ok (mkManagement lis (NewManagementServer ctx addr ready metrics)
             (match Serve_ends lis with
              | Some (t, err) =>
                  if negb (Is err ErrServerClosed) then Some (t, wrapf "management server: " err) else None
              | None => None
              end)), w)
  end.

Definition Management_Shutdown (m : Management) (ctx : Context) (w : W) : option goerr * W :=
  http_Shutdown ctx (mg_listener m) w.

(** [context.WithoutCancel] and [ShutdownContext]. *)
Definition WithoutCancel (ctx : Context) : Context := mkContext (ctx_id ctx) None.
Definition ShutdownContext (ctx : Context) (d : Z) (w : W) : Context := WithTimeout (WithoutCancel ctx) d w.

(** The cleanup of a management server every binary defers: its failure is a
    line in the log. *)
Definition shutdownManagement (ctx : Context) (grace : Z) (m : Management) (w : W) : W :=
  (Management_Shutdown m (ShutdownContext ctx grace w) w).2.

(** A context that also ends at a given moment, when [stopRun] is called. *)
Definition cancelled_at (stop : option Z) (ctx : Context) : Context := request_context ctx stop.

End management.
Arguments Management W {_}.

(** ** Main *)

Record App := mkApp { app_Name : string; app_Logger : Logger; app_Env : Env }.

Section main.
Context {W : Type} {IW : LogWriter W}.

Definition new_app (name : string) (env : Env) : App :=
  mkApp name (NewLogger (W := W) name (logLevel (env_String "LOG_LEVEL" "info" env))) env.

(** [Main], with the exit status; [ctx] is cancelled by SIGINT and SIGTERM.
    [None] as long as [run] has not returned. *)
Definition Main (name : string) (run : Context → App → W → option (option goerr * W)) (ctx : Context)
    (env : Env) (w : W) : option (Z * W) :=
  let a := new_app name env in
  '(err, w) ← run ctx a w;
  match err with
  | Some err =>
      Some (1%Z, logger_Log ctx LevelError (name +:+ " failed") [mkAttr "error" (Error err)] (app_Logger a) w)
  | None => Some (0%Z, w)
  end.

End main.

(** ** Lemmas *)

(** An invariant of the attempts and waits of [Retry], and what success adds. *)
Lemma retry_loop_inv {W} {IC : Clock W} (P Q : W → Prop) (fn : Context → W → option goerr * W) :
  (∀ ctx w, P w → match fn ctx w with (None, w') => Q w' | (Some _, w') => P w' end) →
  (∀ t w, P w → P (wait_until t w)) →
  ∀ fuel ctx what wait w r w', P w → retry_loop fuel ctx what fn wait w = Some (r, w') →
  match r with None => Q w' | Some _ => P w' end.
Proof.
  intros Hfn Hwait. induction fuel as [|fuel IH]; intros ctx what wait w r w' Hw; cbn [retry_loop]; [done|].
  specialize (Hfn (WithTimeout ctx attempt_timeout w) w Hw).
  destruct (fn _ w) as [[err|] w1]; [|by intros [= <- <-]].
  destruct (ctx_Err ctx w1) as [stop|]; [by intros [= <- <-]|].
  destruct (select_timer ctx wait w1) as [[stop|] w2] eqn:Es;
    (assert (P w2) by (unfold select_timer in Es; repeat case_match; simplify_eq; by apply Hwait));
    [by intros [= <- <-]|by apply IH].
Qed.

Section open_facts.
Context {W : Type} {IC : Clock W} {IL : Ledger W}.
Hypothesis wait_quiet : ∀ t w, held (wait_until t w) = held w.

Lemma Retry_assign_opens {X} r (fn : Context → W → res X * W) ctx what timeout w :
  (∀ ctx, opens r (fn ctx)) → (∀ ctx w, (now w ≤ now (fn ctx w).2)%Z) →
  ∃ x w', Retry_assign ctx what timeout fn w = Some (x, w') ∧
    held w' = if is_ok x then r :: held w else held w.
Proof.
  intros Hfn Htime. unfold Retry_assign.
  destruct (Retry_ends (assigning fn)) with ctx what timeout (w, @None X) as (err & [w' x] & E & _).
  { intros c [w1 x1] r1 [w2 x2]. unfold assigning. cbn. specialize (Htime c w1).
    destruct (fn c w1) as [[?|?] ?]; cbn in *; by intros [= <- <- <-]. }
  rewrite E. unfold Retry in E.
  eapply (retry_loop_inv (λ s, held s.1 = held w ∧ s.2 = None)
    (λ s, held s.1 = r :: held w ∧ is_Some s.2)) in E; [| | |done].
  - cbn. destruct err as [err|]; destruct E as [Eh Ex]; cbn in *.
    + exists (Err err), w'. by rewrite Eh.
    + destruct Ex as [y Ey]. rewrite Ey. exists (Ok y), w'. by rewrite Eh.
  - intros c [w1 x1] [Hh Hx]. unfold assigning. cbn in *. specialize (Hfn c w1).
    destruct (fn c w1) as [[y|e] w2]; cbn in *; rewrite Hfn, Hh; by split.
  - intros t [w1 x1] [Hh Hx]. cbn in *. by rewrite wait_quiet.
Qed.

Context {IP : Pgconn} {IX : Pgxpool W}.
Hypothesis New_opens : ∀ ctx cfg, opens RPool (NewWithConfig ctx cfg).
Hypothesis Ping_quiet : ∀ ctx pool, quiet_on (pool_Ping ctx pool).
Hypothesis Close_closes : ∀ pool, closes RPool (pool_Close pool).

(** A connection that does not answer is not kept. *)
Lemma Open_opens ctx dsn : opens RPool (Open ctx dsn).
Proof.
  intros w. unfold Open. destruct (ParseConfig dsn) as [cfg|]; [|done].
  specialize (New_opens ctx (set_MaxConns 8 cfg) w).
  destruct (NewWithConfig _ _ w) as [[pool|] w1]; cbn in *; [|done].
  specialize (Ping_quiet ctx pool w1). destruct (pool_Ping ctx pool w1) as [[err|] w2]; cbn in *; [|congruence].
  apply (Close_closes pool w2). congruence.
Qed.

Lemma OpenStore_opens ctx dsn w :
  (∀ ctx w, (now w ≤ now (Open ctx dsn w).2)%Z) →
  ∃ r w', OpenStore ctx dsn w = Some (r, w') ∧ held w' = if is_ok r then RPool :: held w else held w.
Proof.
  intros Ht. destruct (Retry_assign_opens RPool (λ ctx, Open ctx dsn) ctx "postgres" Minute w)
    as (r & w' & E & Hh); [intros c; apply Open_opens|done|].
  unfold OpenStore. rewrite E. destruct r; by eexists _, _.
Qed.

End open_facts.
