(* ===== verification/Smoke.v ===== *)
(** * cmd/smoke

    The end-to-end check of a running stack: nine steps over gRPC, Kafka and HTTP,
    each bounded by a timeout, the first failure ending the run with an error.  The
    connections are interfaces: [ClientConn], [Http], [Kgo] and, for reading a topic
    from its start, [KafkaReader].  Loops that poll take fuel; SmokeFacts shows how
    much is enough. *)
From Stdlib Require Import SpecFloat.
From S2P Require Import Prelude GoErrors GoStrconv GoStrings GoUtf8 Json GoTime GoDuration GoFloat GoContext Observability Domain Events Jsonb Database Storage Broker Pricing ShipmentApi Grpc Config App.

(** ** Programs that call out

    [None] when the fuel is used up; an error ends the program. *)
Definition Prog (W A : Type) : Type := W → option (res A * W).

#[export] Instance Prog_ret {W} : MRet (Prog W) := λ A a w, Some (Ok a, w).
#[export] Instance Prog_bind {W} : MBind (Prog W) := λ A B f m w,
  match m w with
  | Some (Ok a, w) => f a w
  | Some (Err e, w) => Some (Err e, w)
  | None => None
  end.

Section prog.
Context {W : Type}.

Definition call {A} (f : W → res A * W) : Prog W A := λ w, Some (f w).
Definition call_err (f : W → option goerr * W) : Prog W () := λ w, let (e, w) := f w in Some (check e, w).
Definition fail_ {A} (e : goerr) : Prog W A := λ w, Some (Err e, w).
Definition lift {A} (r : res A) : Prog W A := λ w, Some (r, w).
(** A loop that is not done yet. *)
Definition unfinished {A} : Prog W A := λ _, None.
(** [defer]. *)
Definition defer_ {A} (cleanup : W → W) (m : Prog W A) : Prog W A := λ w,
  match m w with Some (r, w) => Some (r, cleanup w) | None => None end.

End prog.

(** ** Configuration and state *)

Definition exampleWeightGrams : Z := 1500.
Definition exampleAmountCents : Z := 700.
Definition exampleCurrency : string := "USD".

Record smokeConfig := mkSmokeConfig {
  sk_GRPCAddr : string;
  sk_Publisher : PublisherConfig;
  sk_ShipmentMgmt : string;
  sk_RelayMgmt : string;
  sk_ConsumerMgmt : string;
  sk_PricingURL : string;
  sk_PrometheusURL : string;
  sk_StepTimeout : Z
}.

Definition smokeConfig_Validate (c : smokeConfig) : option goerr :=
  match PublisherConfig_Validate (sk_Publisher c) with
  | Some err => Some err
  | None => if (sk_StepTimeout c <=? 0)%Z then Some (errorf ("SMOKE_STEP_TIMEOUT " +:+ Duration_String (sk_StepTimeout c) +:+ ": must be positive")) else None
  end.

Definition read_smokeConfig (e : Env) : smokeConfig * Env :=
  let grpc := env_String "SHIPMENT_GRPC_ADDR" "shipment-service:50051" e in
  let brokers := env_Brokers e in
  let (delivery, e) := env_Duration "RELAY_PUBLISH_TIMEOUT" (10 * Second) e in
  let shipment := env_String "SHIPMENT_MGMT_URL" "http://shipment-service:8080" e in
  let relay := env_String "RELAY_MGMT_URL" "http://outbox-relay:8080" e in
  let consumer := env_String "CONSUMER_MGMT_URL" "http://dispatch-consumer:8080" e in
  let pricing := env_String "PRICING_URL" "http://pricing:8000" e in
  let prometheus := env_String "PROMETHEUS_URL" "http://prometheus:9090" e in
  let (timeout, e) := env_Duration "SMOKE_STEP_TIMEOUT" (45 * Second) e in
  (mkSmokeConfig grpc (mkPublisherConfig brokers delivery) shipment relay consumer pricing prometheus timeout, e).

Record state := mkState {
  st_correlationID : string;
  st_shipmentID : string;
  st_event : ShipmentCreated;
  st_message : Message;
  st_dispatchID : string
}.

Definition zero_event : ShipmentCreated := mkEvent "" "" 0 "" zero_Time "" (mkData 0 0 "").
Definition start_state (id : string) : state := mkState id "" zero_event (mkMessage "" "" "" ∅) "".

Definition set_shipmentID (id : string) (st : state) : state :=
  mkState (st_correlationID st) id (st_event st) (st_message st) (st_dispatchID st).
Definition set_event (evt : ShipmentCreated) (msg : Message) (st : state) : state :=
  mkState (st_correlationID st) (st_shipmentID st) evt msg (st_dispatchID st).
Definition set_dispatchID (id : string) (st : state) : state :=
  mkState (st_correlationID st) (st_shipmentID st) (st_event st) (st_message st) id.

(** ** Reading a topic *)

(** A record with where it is. *)
Record Fetched := mkFetched { ft_Record : KRecord; ft_Partition : Z; ft_Offset : Z }.

(** A client of franz-go without a group, from the start of a topic: what a poll
    returns is whether the client is closed, and records. *)
Class KafkaReader (W : Type) := {
  kreader : Type;
  reader_New : list string → string → W → res kreader * W;
  PollFetches : kreader → Context → W → (bool * list Fetched) * W;
  reader_Close : kreader → W → W
}.

Definition headerMap (hs : list (string * string)) : gmap string string :=
  foldl (λ m h, <[h.1 := h.2]> m) ∅ hs.

(** ** What Prometheus says about its targets *)

Record target := mkTarget { tg_Labels : gmap string string; tg_Health : string }.
Definition zero_target : target := mkTarget ∅ "".

(** A slice with the cells behind it: an array decoded later into the same field
    starts from what they hold. *)
Record targets := mkTargets { ts_cells : list target; ts_len : nat }.
Definition active (t : targets) : list target := take (ts_len t) (ts_cells t).

Fixpoint dec_labels (cur : gmap string string) (ms : list (string * json)) : option (gmap string string) :=
  match ms with
  | [] => Some cur
  | (k, v) :: ms =>
      k ← unquote k;
      v ← dec_string v;
      dec_labels (<[k := default "" v]> cur) ms
  end.

Definition target_step (t : target) (k : string) (v : json) : option target :=
  let 'mkTarget labels health := t in
  if names k "labels" then
    match v with
    | JNull => Some (mkTarget ∅ health)
    | JObj ms => (λ l, mkTarget l health) <$> dec_labels labels ms
    | _ => None
    end
  else if names k "health" then (λ h, mkTarget labels (default health h)) <$> dec_string v
  else Some t.

Definition dec_struct {A} (step : A → string → json → option A) (cur : A) (v : json) : option A :=
  match v with
  | JNull => Some cur
  | JObj ms => dec_members step cur ms
  | _ => None
  end.

Fixpoint dec_cells (cells : list target) (vs : list json) : option (list target) :=
  match vs with
  | [] => Some cells
  | v :: vs =>
      t ← dec_struct target_step (default zero_target (head cells)) v;
      ts ← dec_cells (tail cells) vs;
      Some (t :: ts)
  end.

Definition dec_targets (cur : targets) (v : json) : option targets :=
  match v with
  | JNull | JArr [] => Some (mkTargets [] 0)
  | JArr vs => (λ cells, mkTargets cells (length vs)) <$> dec_cells (ts_cells cur) vs
  | _ => None
  end.

Definition payload_data_step (t : targets) (k : string) (v : json) : option targets :=
  if names k "activeTargets" then dec_targets t v else Some t.
Definition payload_step (t : targets) (k : string) (v : json) : option targets :=
  if names k "data" then dec_struct payload_data_step t v else Some t.

Definition Unmarshal_targets (raw : string) : option (list target) :=
  v ← json_parse raw;
  active <$> dec_struct payload_step (mkTargets [] 0) v.

Definition is_up (t : target) : bool := bool_decide (tg_Health t = "up").
Definition down_text (t : target) : string := default "" (tg_Labels t !! "job") +:+ "=" +:+ tg_Health t.

(** ** The steps *)

(** The standard output. *)
Class Stdout (W : Type) := { stdout_write : string → W → W }.

(** The step took its details from the world and may have learnt something. *)
Record step (W : Type) := mkStep { step_name : string; step_run : Context → state → Prog W (string * state) }.
Arguments mkStep {W}.
Arguments step_name {W}.
Arguments step_run {W}.

(** The text of a list joined by a separator, and of a column. *)
Definition nl : string := str1 newline.
Definition pad_right (n : nat) (s : string) : string :=
  s +:+ String.string_of_list_ascii (replicate (n - String.length s) " "%char).

Definition smoke_poll : Z := 250 * Millisecond.

Section smoke.
Context {W : Type} {IC : Clock W} {ICC : ClientConn W} {IH : Http W} {IK : Kgo W} {IM : GoMap} {IR : KafkaReader W}.
Variables (cfg : smokeConfig) (cc : conn).
Implicit Types (ctx : Context) (st : state).

(** The error of [sleep] is looked at by both callers. *)
Definition sleep ctx (d : Z) : Prog W (option goerr) := call (λ w, let (e, w) := select_timer ctx d w in (Ok e, w)).

(** The connection gives both clients. *)
Definition withCorrelation ctx st : OutgoingContext := AppendToOutgoingContext ctx MetadataKey (st_correlationID st).

Definition get ctx (url : string) : Prog W string :=
  _ ← lift (check (NewRequest_err url));
  resp ← call (http_Do ctx (mkRequest "GET" url "" []));
  defer_ (Body_Close resp)
    (body ← call (ReadAll_limit ctx (Z.shiftl 4 20) resp);
     if (StatusCode resp =? 200)%Z then mret body
     else fail_ (EOther ("GET " +:+ url +:+ ": HTTP " +:+ Itoa (StatusCode resp) +:+ ": " +:+ TrimSpace body))).

Definition checkGRPCHealth ctx st : Prog W (string * state) :=
  status ← call (Health_Check cc ctx ServiceName);
  if (status =? HEALTH_SERVING)%Z then mret (sk_GRPCAddr cfg, st)
  else fail_ (EOther ("status " +:+ HealthStatus_String status)).

Definition checkPricingHealth ctx st : Prog W (string * state) :=
  body ← get ctx (sk_PricingURL cfg +:+ "/healthz");
  mret (TrimSpace body, st).

Definition getQuote ctx st : Prog W (string * state) :=
  price ← call (client_GetQuote cc (withCorrelation ctx st) exampleWeightGrams);
  let text := Itoa (GetAmountCents price) +:+ " " +:+ GetCurrency price in
  if negb (GetAmountCents price =? exampleAmountCents)%Z || negb (bool_decide (GetCurrency price = exampleCurrency)) then
    fail_ (EOther ("got " +:+ text +:+ ", want " +:+ Itoa exampleAmountCents +:+ " " +:+ exampleCurrency))
  else mret (text, st).

Definition createShipment ctx st : Prog W (string * state) :=
  sh ← call (client_CreateShipment cc (withCorrelation ctx st) exampleWeightGrams);
  if negb (GetAmountCents (GetPrice sh) =? exampleAmountCents)%Z then
    fail_ (EOther ("stored amount " +:+ Itoa (GetAmountCents (GetPrice sh)) +:+ ", want " +:+ Itoa exampleAmountCents))
  else if negb (GetOutboxStatus sh =? OUTBOX_STATUS_PENDING)%Z then
    fail_ (EOther ("new shipment reports outbox " +:+ OutboxStatus_String (GetOutboxStatus sh) +:+ ", want PENDING"))
  else mret (GetShipmentId sh, set_shipmentID (GetShipmentId sh) st).

(** The first record with the key decides; the text of a mismatch does not
    matter to any caller. *)
Definition check_record st (f : Fetched) : res (string * state) :=
  let rec_ := ft_Record f in
  match Decode (k_Value rec_) with
  | Err err => Err (wrapf ("record for " +:+ st_shipmentID st +:+ " is not a valid event: ") err)
  | Ok evt =>
      if negb (ed_AmountCents (e_Data evt) =? exampleAmountCents)%Z
         || negb (bool_decide (e_CorrelationID evt = st_correlationID st)) then
        Err (EOther "event payload mismatch")
      else
        Ok (e_EventID evt +:+ " partition=" +:+ Itoa (ft_Partition f) +:+ " offset=" +:+ Itoa (ft_Offset f),
            set_event evt (mkMessage (k_Topic rec_) (k_Key rec_) (k_Value rec_) (headerMap (k_Headers rec_))) st)
  end.

Definition has_key (key : string) (f : Fetched) : bool := bool_decide (k_Key (ft_Record f) = key).

Definition no_record st : goerr :=
  EOther ("no record with key " +:+ st_shipmentID st +:+ " on " +:+ Topic +:+ " before timeout (is the relay running?)").

Fixpoint find_record (fuel : nat) (client : kreader) ctx st : Prog W (string * state) := λ w,
  match ctx_Err ctx w with
  | Some _ => Some (Err (no_record st), w)
  | None =>
      match fuel with
      | O => None
      | S fuel =>
          let '((closed, recs), w) := PollFetches client ctx w in
          if closed then Some (Err (no_record st), w)
          else
            match List.find (has_key (st_shipmentID st)) recs with
            | Some f => Some (check_record st f, w)
            | None => find_record fuel client ctx st w
            end
      end
  end.

Definition findEventInKafka (fuel : nat) ctx st : Prog W (string * state) :=
  client ← call (reader_New (pc_Brokers (sk_Publisher cfg)) Topic);
  defer_ (reader_Close client) (find_record fuel client ctx st).

Definition getShipment ctx st : Prog W (option ShipmentMsg) :=
  call (client_GetShipment cc (withCorrelation ctx st) (st_shipmentID st)).

Definition dispatched_published (sh : option ShipmentMsg) : bool :=
  (GetStatus (GetDispatch sh) =? DISPATCH_STATUS_DISPATCHED)%Z && (GetOutboxStatus sh =? OUTBOX_STATUS_PUBLISHED)%Z.

(** The loop of [waitForDispatch], with the last answer. *)
Fixpoint poll_dispatch (fuel : nat) ctx st : Prog W (option ShipmentMsg) :=
  match fuel with
  | O => unfinished
  | S fuel =>
      sh ← getShipment ctx st;
      if dispatched_published sh then mret sh
      else
        ended ← sleep ctx smoke_poll;
        match ended with
        | Some _ =>
            fail_ (EOther ("shipment stayed outbox=" +:+ OutboxStatus_String (GetOutboxStatus sh) +:+ " dispatch="
                   +:+ DispatchStatus_String (GetStatus (GetDispatch sh)) +:+ " (are the relay and consumer running?)"))
        | None => poll_dispatch fuel ctx st
        end
  end.

Definition waitForDispatch (fuel : nat) ctx st : Prog W (string * state) :=
  last ← poll_dispatch fuel ctx st;
  let d := GetDispatch last in
  if negb (bool_decide (GetEventId d = e_EventID (st_event st))) then
    fail_ (EOther ("dispatch references event " +:+ GetEventId d +:+ ", Kafka carried " +:+ e_EventID (st_event st)))
  else mret (GetDispatchId d, set_dispatchID (GetDispatchId d) st).

(** The value of the first line with the prefix; zero without one. *)
Definition outcome_prefix (outcome : string) : string :=
  "parcellab_consumer_events_total{outcome=" +:+ str1 GoUtf8.quote +:+ outcome +:+ str1 GoUtf8.quote +:+ "} ".
Definition CutPrefix (s prefix : string) : option string := strip prefix s.
Fixpoint read_series (prefix : string) (lines : list string) : res float64 :=
  match lines with
  | [] => Ok (S754_zero false)
  | line :: lines =>
      match CutPrefix line prefix with
      | Some v => Sscanf_g v
      | None => read_series prefix lines
      end
  end.

Definition consumerOutcome ctx (outcome : string) : Prog W float64 :=
  body ← get ctx (sk_ConsumerMgmt cfg +:+ "/metrics");
  lift (read_series (outcome_prefix outcome) (Split newline body)).

(** The loop of [replayIsDeduplicated]. *)
Fixpoint poll_duplicate (fuel : nat) (before : float64) ctx : Prog W () :=
  match fuel with
  | O => unfinished
  | S fuel =>
      after ← consumerOutcome ctx "duplicate";
      if float_ge after (float_add before (float_of 1)) then mret ()
      else
        ended ← sleep ctx smoke_poll;
        match ended with
        | Some _ => fail_ (EOther ("consumer duplicate counter stayed at " +:+ Sprint_float before +:+ " after replay"))
        | None => poll_duplicate fuel before ctx
        end
  end.

Definition replayIsDeduplicated (fuel : nat) ctx st : Prog W (string * state) :=
  before ← consumerOutcome ctx "duplicate";
  publisher ← call (NewPublisher ctx (sk_Publisher cfg));
  defer_ (client_Close (p_client publisher))
    (_ ← call_err (Publish publisher ctx (st_message st));
     _ ← poll_duplicate fuel before ctx;
     sh ← getShipment ctx st;
     let got := GetDispatchId (GetDispatch sh) in
     if negb (bool_decide (got = st_dispatchID st)) then
       fail_ (EOther ("dispatch changed after replay: " +:+ st_dispatchID st +:+ " -> " +:+ got))
     else mret ("duplicate counter " +:+ Sprint_float before +:+ " -> " +:+ Sprint_float (float_add before (float_of 1))
                +:+ ", dispatch still " +:+ st_dispatchID st, st)).

Definition metric_targets : list (string * string) :=
  [(sk_ShipmentMgmt cfg, "parcellab_grpc_requests_total"); (sk_ShipmentMgmt cfg, "parcellab_pricing_requests_total");
   (sk_RelayMgmt cfg, "parcellab_outbox_published_total"); (sk_ConsumerMgmt cfg, "parcellab_consumer_events_total");
   (sk_PricingURL cfg, "pricing_quotes_total")].

Fixpoint check_targets ctx (l : list (string * string)) : Prog W () :=
  match l with
  | [] => mret ()
  | (url, metric) :: l =>
      body ← get ctx (url +:+ "/metrics");
      if Contains body metric then check_targets ctx l
      else fail_ (EOther (url +:+ "/metrics does not expose " +:+ metric))
  end.

Definition checkMetrics ctx st : Prog W (string * state) :=
  _ ← check_targets ctx metric_targets;
  mret (Itoa (Z.of_nat (length metric_targets)) +:+ " series checked across 4 endpoints", st).

Definition checkPrometheus ctx st : Prog W (string * state) :=
  _ ← get ctx (sk_PrometheusURL cfg +:+ "/-/ready");
  body ← get ctx (sk_PrometheusURL cfg +:+ "/api/v1/targets?state=active");
  match Unmarshal_targets body with
  | None => fail_ (wrapf "decode targets: " (EOther "json: cannot unmarshal"))
  | Some ts =>
      let up := length (filter (λ t, is_up t = true) ts) in
      let total := length ts in
      let down := down_text <$> filter (λ t, is_up t = false) ts in
      let text := Itoa (Z.of_nat up) +:+ "/" +:+ Itoa (Z.of_nat total) +:+ " targets up" in
      if (total =? 0)%nat then fail_ (EOther "prometheus has no active targets")
      else if negb (up =? total)%nat then mret (text +:+ " (" +:+ str_join ", " down +:+ ")", st)
      else mret (text, st)
  end.

Definition steps (fuel : nat) : list (step W) :=
  [mkStep "gRPC health is SERVING" checkGRPCHealth;
   mkStep "pricing service is healthy" checkPricingHealth;
   mkStep "GetQuote prices the 1,500 g example" getQuote;
   mkStep "CreateShipment stores shipment + pending event" createShipment;
   mkStep "event reaches Kafka keyed by shipment ID" (findEventInKafka fuel);
   mkStep "consumer persists exactly one dispatch" (waitForDispatch fuel);
   mkStep "replaying the event creates no second dispatch" (replayIsDeduplicated fuel);
   mkStep "management endpoints expose metrics" checkMetrics;
   mkStep "Prometheus is ready and scraping" checkPrometheus].

(** ** The run *)

Definition runStep ctx (timeout : Z) (stp : step W) st : Prog W (string * state) := λ w,
  step_run stp (WithTimeout ctx timeout w) st w.

Context {IO : Stdout W}.

Definition say (s : string) (w : W) : W := stdout_write s w.

Definition failed_text (i : Z) (name : string) (err : goerr) : string :=
  "  ✗ " +:+ Itoa i +:+ ". " +:+ name +:+ nl +:+ "      " +:+ Error err +:+ nl +:+ nl +:+ "SMOKE FAILED" +:+ nl.
Definition passed_text (i : Z) (name detail : string) : string :=
  "  ✓ " +:+ Itoa i +:+ ". " +:+ pad_right 44 name +:+ " " +:+ detail +:+ nl.

(** From the step of number [i] on. *)
Fixpoint run_steps ctx (i : Z) (l : list (step W)) st : Prog W state :=
  match l with
  | [] => λ w, Some (Ok st, say (nl +:+ "SMOKE PASSED" +:+ nl) w)
  | stp :: l => λ w,
      match runStep ctx (sk_StepTimeout cfg) stp st w with
      | None => None
      | Some (Err err, w) =>
          Some (Err (wrapf ("step " +:+ Itoa i +:+ " (" +:+ step_name stp +:+ "): ") err),
                say (failed_text i (step_name stp) err) w)
      | Some (Ok (detail, st), w) => run_steps ctx (i + 1) l st (say (passed_text i (step_name stp) detail) w)
      end
  end.

End smoke.

Section run.
Context {W : Type} {IC : Clock W} {ICC : ClientConn W} {IH : Http W} {IK : Kgo W} {IM : GoMap} {IR : KafkaReader W}
  {IO : Stdout W} {IWc : WallClock W} {IW : LogWriter W}.

(** The time of day in UTC, six digits. *)
Definition Format_150405 (t : Time) : string :=
  let s := (t_sec t mod 86400)%Z in
  pad 2 (s / 3600) +:+ pad 2 (s / 60 mod 60) +:+ pad 2 (s mod 60).

Definition smoke_run (fuel : nat) (ctx : Context) (a : App) : Prog W state :=
  let (cfg, env) := read_smokeConfig (app_Env a) in
  match errors_Join (option_list (env_Err env) ++ option_list (smokeConfig_Validate cfg)) with
  | Some err => fail_ err
  | None => λ w,
      match grpc_NewClient (sk_GRPCAddr cfg) w with
      | (Err err, w) => Some (Err (wrapf "grpc client: " err), w)
      | (Ok conn, w) =>
          defer_ (conn_Close conn) (λ w,
            let (t, w) := wall_now w in
            let st := start_state ("req_smoke_" +:+ Format_150405 t) in
            run_steps cfg (WithID ctx (st_correlationID st)) 1 (steps cfg conn fuel) st
              (say ("ParcelLab smoke test (correlation_id=" +:+ st_correlationID st +:+ ")" +:+ nl +:+ nl) w)) w
      end
  end.

(** [main]. *)
Definition smoke_main (fuel : nat) (ctx : Context) (env : Env) (w : W) : option (Z * W) :=
  Main "smoke" (λ ctx a w, match smoke_run fuel ctx a w with Some (r, w) => Some (err_of r, w) | None => None end)
    ctx env w.

End run.
