(* ===== verification/SmokeFacts.v ===== *)
(** * What a passed smoke test shows

    The verdict of Smoke: the run always ends, because every loop is bounded by
    the timeout of its step; and it passes only when each thing it announces was
    observed, in that order.  Then the test run against the modelled program. *)
From Stdlib Require Import SpecFloat.
From S2P Require Import Prelude GoErrors GoStrconv GoStrings GoUtf8 Json GoTime GoDuration GoFloat GoContext Observability Domain Events Jsonb Database Storage Broker Relay Pricing Consumer ShipmentApi Grpc Config App Smoke.

(** ** Programs and the clock *)

Lemma prog_bind_ok {W A B} (m : Prog W A) (f : A → Prog W B) w b w' :
  (m ≫= f) w = Some (Ok b, w') ↔ ∃ a w1, m w = Some (Ok a, w1) ∧ f a w1 = Some (Ok b, w').
Proof. unfold mbind, Prog_bind. destruct (m w) as [[[a|e] w1]|]; split; intros; simplify_eq; eauto; by destruct_and?; naive_solver. Qed.

Lemma call_ok {W A} (f : W → res A * W) w r w' : call f w = Some (r, w') ↔ f w = (r, w').
Proof. unfold call. split; [by intros [= ->]|by intros ->]. Qed.

Lemma defer_ok {W A} (cleanup : W → W) (m : Prog W A) w r w' :
  defer_ cleanup m w = Some (r, w') ↔ ∃ w1, m w = Some (r, w1) ∧ w' = cleanup w1.
Proof. unfold defer_. destruct (m w) as [[r1 w1]|]; naive_solver. Qed.

Section time.
Context {W : Type} {IC : Clock W}.

(** It takes no negative time; it comes to an end. *)
Definition forward {A} (m : Prog W A) : Prop := ∀ w r w', m w = Some (r, w') → (now w ≤ now w')%Z.
Definition ends {A} (m : Prog W A) : Prop := ∀ w, is_Some (m w).

(** A result the program gave within a span of time. *)
Definition ran {A} (m : Prog W A) (a : A) (from to : Z) : Prop :=
  ∃ w w', m w = Some (Ok a, w') ∧ (from ≤ now w)%Z ∧ (now w' ≤ to)%Z.

Lemma ran_within {A} (m : Prog W A) a from to from' to' :
  ran m a from to → (from' ≤ from)%Z → (to ≤ to')%Z → ran m a from' to'.
Proof. intros (w & w' & ? & ? & ?) ??. exists w, w'. split_and!; [done|lia|lia]. Qed.

Lemma ran_intro {A} (m : Prog W A) w a w' : m w = Some (Ok a, w') → ran m a (now w) (now w').
Proof. intros. by exists w, w'. Qed.

Lemma forward_bind {A B} (m : Prog W A) (f : A → Prog W B) :
  forward m → (∀ a, forward (f a)) → forward (m ≫= f).
Proof.
  intros Hm Hf w r w'. unfold mbind, Prog_bind. destruct (m w) as [[[a|e] w1]|] eqn:E; [| |done].
  - intros E2. apply Hm in E. apply Hf in E2. lia.
  - intros [= <- <-]. by apply Hm in E.
Qed.
Lemma forward_ret {A} (a : A) : forward (mret a).
Proof. intros w r w' [= _ <-]. lia. Qed.
Lemma forward_fail {A} e : forward (fail_ (A := A) e).
Proof. intros w r w' [= _ <-]. lia. Qed.
Lemma forward_lift {A} (r : res A) : forward (lift r).
Proof. intros w r1 w' [= _ <-]. lia. Qed.
Lemma forward_unfinished {A} : forward (unfinished (A := A)).
Proof. by intros w r w'. Qed.
Lemma forward_call {A} (f : W → res A * W) : (∀ w, (now w ≤ now (f w).2)%Z) → forward (call f).
Proof. intros Hf w r w' E%call_ok. specialize (Hf w). by rewrite E in Hf. Qed.
Lemma forward_call_err (f : W → option goerr * W) : (∀ w, (now w ≤ now (f w).2)%Z) → forward (call_err f).
Proof. intros Hf w r w'. unfold call_err. specialize (Hf w). destruct (f w). by intros [= _ <-]. Qed.
Lemma forward_defer {A} (cleanup : W → W) (m : Prog W A) :
  (∀ w, (now w ≤ now (cleanup w))%Z) → forward m → forward (defer_ cleanup m).
Proof. intros Hc Hm w r w' (w1 & E & ->)%defer_ok. apply Hm in E. specialize (Hc w1). lia. Qed.

Lemma ends_bind {A B} (m : Prog W A) (f : A → Prog W B) : ends m → (∀ a, ends (f a)) → ends (m ≫= f).
Proof.
  intros Hm Hf w. unfold mbind, Prog_bind. destruct (Hm w) as [[[a|e] w1] ->]; [apply Hf|by eexists].
Qed.
Lemma ends_ret {A} (a : A) : ends (mret a).
Proof. by eexists. Qed.
Lemma ends_fail {A} e : ends (fail_ (A := A) e).
Proof. by eexists. Qed.
Lemma ends_lift {A} (r : res A) : ends (lift r).
Proof. by eexists. Qed.
Lemma ends_call {A} (f : W → res A * W) : ends (call f).
Proof. by eexists. Qed.
Lemma ends_call_err (f : W → option goerr * W) : ends (call_err f).
Proof. intros w. unfold call_err. destruct (f w). by eexists. Qed.
Lemma ends_defer {A} (cleanup : W → W) (m : Prog W A) : ends m → ends (defer_ cleanup m).
Proof. intros Hm w. unfold defer_. destruct (Hm w) as [[r w1] ->]. by eexists. Qed.

End time.

Create HintDb smoke discriminated.
#[export] Hint Resolve forward_bind forward_ret forward_fail forward_lift forward_unfinished forward_call
  forward_call_err forward_defer ends_bind ends_ret ends_fail ends_lift ends_call ends_call_err ends_defer : smoke.

(** ** Every call takes its time *)

Section facts.
Context {W : Type} {IC : Clock W} {ICC : ClientConn W} {IH : Http W} {IK : Kgo W} {IM : GoMap} {IR : KafkaReader W}
  {IO : Stdout W} {IWc : WallClock W} {IW : LogWriter W}.

(** The clock does not go back in a call, and a poll of the topic takes some
    time. *)
Record smoke_laws : Prop := mk_smoke_laws {
  kl_dial addr w : (now w ≤ now (grpc_NewClient addr w).2)%Z;
  kl_hang_up c w : (now w ≤ now (conn_Close c w))%Z;
  kl_invoke c ctx m r w : (now w ≤ now (Invoke c ctx m r w).2)%Z;
  kl_health c ctx n w : (now w ≤ now (Health_Check c ctx n w).2)%Z;
  kl_do ctx r w : (now w ≤ now (http_Do ctx r w).2)%Z;
  kl_read ctx n r w : (now w ≤ now (ReadAll_limit ctx n r w).2)%Z;
  kl_close_body r w : (now w ≤ now (Body_Close r w))%Z;
  kl_kafka brokers w : (now w ≤ now (NewClient brokers w).2)%Z;
  kl_ping ctx c w : (now w ≤ now (client_Ping ctx c w).2)%Z;
  kl_close_kafka c w : (now w ≤ now (client_Close c w))%Z;
  kl_produce ctx c r w : (now w ≤ now (ProduceSync ctx c r w).2)%Z;
  kl_reader brokers t w : (now w ≤ now (reader_New brokers t w).2)%Z;
  kl_poll c ctx w : (now w < now (PollFetches c ctx w).2)%Z;
  kl_close_reader c w : (now w ≤ now (reader_Close c w))%Z;
  kl_print s w : (now w ≤ now (stdout_write s w))%Z;
  kl_wall w : (now w ≤ now (wall_now w).2)%Z
}.

Hypothesis laws : smoke_laws.

Lemma NewPublisher_time ctx c w : (now w ≤ now (NewPublisher ctx c w).2)%Z.
Proof.
  unfold NewPublisher. destruct (PublisherConfig_Validate c); [cbn; lia|].
  pose proof (kl_kafka laws (pc_Brokers c) w). destruct (NewClient _ w) as [[cl|] w1]; cbn in *; [|lia].
  pose proof (kl_ping laws ctx cl w1). destruct (client_Ping ctx cl w1) as [[|] w2]; cbn in *; [|lia].
  pose proof (kl_close_kafka laws cl w2). lia.
Qed.

Lemma Publish_time p ctx msg w : (now w ≤ now (Publish p ctx msg w).2)%Z.
Proof.
  unfold Publish. pose proof (kl_produce laws (WithTimeout ctx (p_timeout p) w) (p_client p) (record_of msg) w).
  by destruct (ProduceSync _ _ _ w).
Qed.

Lemma sleep_time ctx d w : (now w ≤ now (select_timer ctx d w).2)%Z.
Proof.
  unfold select_timer. destruct (ctx_done ctx) as [[t e]|]; [case_match|]; apply wait_until_mono.
Qed.

(** A sleep of a positive length that was not cut short. *)
Lemma sleep_forward ctx d : forward (Smoke.sleep ctx d).
Proof.
  apply forward_call. intros w. pose proof (sleep_time ctx d w). by destruct (select_timer ctx d w).
Qed.

Lemma get_forward ctx url : forward (get ctx url).
Proof.
  unfold get. apply forward_bind; [apply forward_lift|]. intros _.
  apply forward_bind; [apply forward_call, laws|]. intros resp. apply forward_defer; [apply laws|].
  apply forward_bind; [apply forward_call, laws|]. intros body. case_match; auto with smoke.
Qed.
Lemma get_ends ctx url : ends (get ctx url).
Proof.
  unfold get. apply ends_bind; [apply ends_lift|]. intros _. apply ends_bind; [apply ends_call|].
  intros resp. apply ends_defer, ends_bind; [apply ends_call|]. intros body. case_match; auto with smoke.
Qed.

Variables (cfg : smokeConfig) (cc : conn).
Implicit Types (ctx : Context) (st : state).

Lemma consumerOutcome_forward ctx o : forward (consumerOutcome cfg ctx o).
Proof. apply forward_bind; [apply get_forward|]. intros body. apply forward_lift. Qed.
Lemma consumerOutcome_ends ctx o : ends (consumerOutcome cfg ctx o).
Proof. apply ends_bind; [apply get_ends|]. intros body. apply ends_lift. Qed.

Lemma getShipment_forward ctx st : forward (getShipment cc ctx st).
Proof. apply forward_call; intros w; exact (kl_invoke laws _ _ MGetShipment _ w). Qed.

Lemma find_record_forward fuel client ctx st : forward (find_record fuel client ctx st).
Proof.
  induction fuel as [|fuel IHf]; intros w r w'; cbn; destruct (ctx_Err ctx w);
    try (intros [= _ <-]; lia).
  pose proof (kl_poll laws client ctx w). destruct (PollFetches client ctx w) as [[closed recs] w1]. cbn in *.
  destruct closed; [intros [= _ <-]; lia|]. destruct (List.find _ recs); [intros [= _ <-]; lia|].
  intros Hx. specialize (IHf _ _ _ Hx). lia.
Qed.

Lemma poll_dispatch_forward fuel ctx st : forward (poll_dispatch cc fuel ctx st).
Proof.
  induction fuel as [|fuel IHf]; cbn; [apply forward_unfinished|].
  apply forward_bind; [apply getShipment_forward|]. intros sh. case_match; [apply forward_ret|].
  apply forward_bind; [apply sleep_forward|]. intros [e|]; [apply forward_fail|exact IHf].
Qed.

Lemma poll_duplicate_forward fuel before ctx : forward (poll_duplicate cfg fuel before ctx).
Proof.
  induction fuel as [|fuel IHf]; cbn; [apply forward_unfinished|].
  apply forward_bind; [apply consumerOutcome_forward|]. intros after. case_match; [apply forward_ret|].
  apply forward_bind; [apply sleep_forward|]. intros [e|]; [apply forward_fail|exact IHf].
Qed.

Lemma check_targets_forward ctx l : forward (check_targets ctx l).
Proof.
  induction l as [|[url metric] l IHl]; cbn; [apply forward_ret|].
  apply forward_bind; [apply get_forward|]. intros body. case_match; auto with smoke.
Qed.
Lemma check_targets_ends ctx l : ends (check_targets ctx l).
Proof.
  induction l as [|[url metric] l IHl]; cbn; [apply ends_ret|].
  apply ends_bind; [apply get_ends|]. intros body. case_match; auto with smoke.
Qed.

(** ** Every loop ends with its step *)

Lemma find_record_ends fuel client ctx st t e w :
  ctx_done ctx = Some (t, e) → (t - now w ≤ Z.of_nat fuel)%Z → is_Some (find_record fuel client ctx st w).
Proof.
  intros Hd. revert w. induction fuel as [|fuel IHf]; intros w Hf; cbn; unfold ctx_Err; rewrite Hd.
  - destruct (Z.leb_spec t (now w)); [by eexists|lia].
  - destruct (Z.leb_spec t (now w)); [by eexists|].
    pose proof (kl_poll laws client ctx w). destruct (PollFetches client ctx w) as [[closed recs] w1]. cbn in *.
    destruct closed; [by eexists|]. destruct (List.find _ recs); [by eexists|]. apply IHf. lia.
Qed.

(** The loops that ask and sleep: whatever is asked, a sleep that was not cut
    short leaves less time. *)
Lemma ask_and_sleep_ends {A B} (ask : Prog W A) (answer : A → Prog W B) (good : A → bool) (gave_up : A → goerr)
    (loop : nat → Prog W B) ctx t e :
  ctx_done ctx = Some (t, e) → ends ask → forward ask → (∀ a, ends (answer a)) →
  (∀ fuel w, loop (S fuel) w =
     (a ← ask; if good a then answer a
               else ended ← Smoke.sleep ctx smoke_poll;
                    match ended with Some _ => fail_ (gave_up a) | None => loop fuel end) w) →
  ∀ fuel w, (t - now w < Z.of_nat fuel)%Z → (0 < fuel)%nat → is_Some (loop fuel w).
Proof.
  intros Hd Hask Hfwd Hans Hloop. induction fuel as [|fuel IHf]; intros w Hf Hpos; [lia|].
  rewrite Hloop. unfold mbind at 1, Prog_bind. destruct (Hask w) as [[[a|err] w1] E]; rewrite E; [|by eexists].
  apply Hfwd in E. destruct (good a); [apply Hans|].
  unfold mbind, Prog_bind, Smoke.sleep, call. pose proof (select_timer_spec ctx smoke_poll w1) as Hs.
  unfold select_timer in *. rewrite Hd in *. case_match; [by eexists|]. specialize (Hs _ _ eq_refl). cbn in Hs. apply IHf.
  - change smoke_poll with 250000000%Z in *. lia.
  - destruct fuel; [|lia]. exfalso. revert H. rewrite orb_false_iff, Z.ltb_ge.
    change smoke_poll with 250000000%Z. lia.
Qed.

Lemma poll_dispatch_ends fuel ctx st t e w :
  ctx_done ctx = Some (t, e) → (t - now w < Z.of_nat fuel)%Z → (0 < fuel)%nat → is_Some (poll_dispatch cc fuel ctx st w).
Proof.
  intros Hd. eapply (ask_and_sleep_ends (getShipment cc ctx st) mret dispatched_published _
    (λ fuel, poll_dispatch cc fuel ctx st));
    [exact Hd|apply ends_call|apply getShipment_forward|intros a; apply ends_ret|done].
Qed.

Lemma poll_duplicate_ends fuel before ctx t e w :
  ctx_done ctx = Some (t, e) → (t - now w < Z.of_nat fuel)%Z → (0 < fuel)%nat →
  is_Some (poll_duplicate cfg fuel before ctx w).
Proof.
  intros Hd. eapply (ask_and_sleep_ends (consumerOutcome cfg ctx "duplicate") (λ _, mret ())
    (λ after, float_ge after (float_add before (float_of 1))) _ (λ fuel, poll_duplicate cfg fuel before ctx));
    [exact Hd|apply consumerOutcome_ends|apply consumerOutcome_forward|intros a; apply ends_ret|done].
Qed.

(** A program that ends when it starts late enough. *)
Definition ends_from {A} (m : Prog W A) (from : Z) : Prop := ∀ w, (from ≤ now w)%Z → is_Some (m w).

Lemma ends_from_bind {A B} (m : Prog W A) (f : A → Prog W B) from :
  ends_from m from → forward m → (∀ a, ends_from (f a) from) → ends_from (m ≫= f) from.
Proof.
  intros Hm Hfwd Hf w Hw. unfold mbind, Prog_bind. destruct (Hm w Hw) as [[[a|e] w1] E]; rewrite E; [|by eexists].
  apply Hf. apply Hfwd in E. lia.
Qed.
Lemma ends_from_defer {A} cleanup (m : Prog W A) from : ends_from m from → ends_from (defer_ cleanup m) from.
Proof. intros Hm w Hw. unfold defer_. destruct (Hm w Hw) as [[r w1] ->]. by eexists. Qed.
Lemma ends_ends_from {A} (m : Prog W A) from : ends m → ends_from m from.
Proof. intros Hm w _. apply Hm. Qed.

(** Each step ends when the fuel is more than the time it has. *)
Lemma steps_end fuel stp st ctx t e from :
  stp ∈ steps cfg cc fuel → ctx_done ctx = Some (t, e) → (t - from < Z.of_nat fuel)%Z → (0 < fuel)%nat →
  ends_from (step_run stp ctx st) from.
Proof.
  intros Hin Hd Hf Hpos. unfold steps in Hin.
  repeat (apply elem_of_cons in Hin as [->|Hin]; [cbn [step_run]|]); [..|by apply elem_of_nil in Hin].
  - apply ends_ends_from, ends_bind; [apply ends_call|]. intros s. case_match; auto with smoke.
  - apply ends_ends_from, ends_bind; [apply get_ends|]. intros b. apply ends_ret.
  - apply ends_ends_from, ends_bind; [apply ends_call|]. intros p. case_match; auto with smoke.
  - apply ends_ends_from, ends_bind; [apply ends_call|]. intros sh. repeat case_match; auto with smoke.
  - apply ends_from_bind; [apply ends_ends_from, ends_call|apply forward_call, laws|]. intros r.
    apply ends_from_defer. intros w Hw. eapply find_record_ends; [exact Hd|lia].
  - apply ends_from_bind; [|apply poll_dispatch_forward|].
    + intros w Hw. eapply poll_dispatch_ends; [exact Hd|lia|done].
    + intros sh. apply ends_ends_from. cbv zeta. case_match; auto with smoke.
  - apply ends_from_bind; [apply ends_ends_from, consumerOutcome_ends|apply consumerOutcome_forward|]. intros b.
    apply ends_from_bind; [apply ends_ends_from, ends_call|apply forward_call; intros w; apply NewPublisher_time|].
    intros p. apply ends_from_defer.
    apply ends_from_bind; [apply ends_ends_from, ends_call_err|apply forward_call_err; intros w; apply Publish_time|].
    intros _. apply ends_from_bind; [|apply poll_duplicate_forward|].
    + intros w Hw. eapply poll_duplicate_ends; [exact Hd|lia|done].
    + intros _. apply ends_ends_from, ends_bind; [apply ends_call|]. intros sh. cbv zeta. case_match; auto with smoke.
  - apply ends_ends_from, ends_bind; [apply check_targets_ends|]. intros _. apply ends_ret.
  - apply ends_ends_from, ends_bind; [apply get_ends|]. intros _. apply ends_bind; [apply get_ends|]. intros b.
    destruct (Unmarshal_targets b); cbv zeta; repeat case_match; auto with smoke.
Qed.

Lemma run_steps_end fuel ctx i l st :
  (Z.to_nat (sk_StepTimeout cfg) < fuel)%nat → l ⊆ steps cfg cc fuel → ends (run_steps cfg ctx i l st).
Proof.
  intros Hf. revert i st. induction l as [|stp l IHl]; intros i st Hl w; cbn; [by eexists|].
  destruct (WithTimeout_done ctx (sk_StepTimeout cfg) w) as (t & e & Hd & Ht).
  assert (is_Some (runStep ctx (sk_StepTimeout cfg) stp st w)) as [[[[d st']|err] w1] ->]; [|apply IHl; set_solver|by eexists].
  unfold runStep. eapply steps_end; [apply Hl; set_solver|exact Hd| |lia|reflexivity]. lia.
Qed.

(** ** What each step observed *)

(** Between two moments: an answer of the service under the run's correlation ID. *)
Definition answered {A} (rpc : OutgoingContext → W → res A * W) st (a : A) (from to : Z) : Prop :=
  ∃ ctx, ran (call (rpc (withCorrelation ctx st))) a from to.

Definition saw_page (url : string) (p : string → bool) (from to : Z) : Prop :=
  ∃ ctx body, ran (get ctx url) body from to ∧ p body = true.

Definition saw_serving (from to : Z) : Prop :=
  ∃ ctx, ran (call (Health_Check cc ctx ServiceName)) HEALTH_SERVING from to.

Definition saw_price st (from to : Z) : Prop :=
  ∃ price, answered (λ oc, client_GetQuote cc oc exampleWeightGrams) st price from to ∧
    GetAmountCents price = exampleAmountCents ∧ GetCurrency price = exampleCurrency.

Definition saw_created st (from to : Z) : Prop :=
  ∃ sh, answered (λ oc, client_CreateShipment cc oc exampleWeightGrams) st sh from to ∧
    GetAmountCents (GetPrice sh) = exampleAmountCents ∧ GetOutboxStatus sh = OUTBOX_STATUS_PENDING ∧
    GetShipmentId sh = st_shipmentID st.

(** A record of the topic, keyed by the shipment, with the event and the message
    that is replayed. *)
Definition saw_event st (from to : Z) : Prop :=
  ∃ client ctx w f recs w', PollFetches client ctx w = ((false, recs), w') ∧ (from ≤ now w)%Z ∧ (now w' ≤ to)%Z ∧
    f ∈ recs ∧ k_Key (ft_Record f) = st_shipmentID st ∧ Decode (k_Value (ft_Record f)) = Ok (st_event st) ∧
    ed_AmountCents (e_Data (st_event st)) = exampleAmountCents ∧ e_CorrelationID (st_event st) = st_correlationID st ∧
    st_message st = mkMessage (k_Topic (ft_Record f)) (st_shipmentID st) (k_Value (ft_Record f)) (headerMap (k_Headers (ft_Record f))).

Definition saw_shipment st (p : option ShipmentMsg → Prop) (from to : Z) : Prop :=
  ∃ sh, answered (λ oc, client_GetShipment cc oc (st_shipmentID st)) st sh from to ∧
    GetDispatchId (GetDispatch sh) = st_dispatchID st ∧ p sh.

(** Dispatched for the event of the topic, and marked published. *)
Definition saw_dispatch st : Z → Z → Prop :=
  saw_shipment st (λ sh, GetStatus (GetDispatch sh) = DISPATCH_STATUS_DISPATCHED ∧
    GetOutboxStatus sh = OUTBOX_STATUS_PUBLISHED ∧ GetEventId (GetDispatch sh) = e_EventID (st_event st)).

Definition saw_counter (n : float64) (from to : Z) : Prop :=
  ∃ ctx, ran (consumerOutcome cfg ctx "duplicate") n from to.

(** The message went out again, the consumer counted a duplicate more, and the
    dispatch was the same after. *)
Definition saw_deduplicated st (from to : Z) : Prop :=
  ∃ before after t1 t2 t3, saw_counter before from t1 ∧
    (∃ p ctx, ran (call_err (Publish p ctx (st_message st))) () t1 t2) ∧
    saw_counter after t2 t3 ∧ float_ge after (float_add before (float_of 1)) = true ∧
    saw_shipment st (λ _, True) t3 to.

Definition saw_metrics (from to : Z) : Prop :=
  ∀ url metric, (url, metric) ∈ metric_targets cfg →
    saw_page (url +:+ "/metrics") (λ body, Contains body metric) from to.

Definition saw_prometheus (from to : Z) : Prop :=
  ∃ t, saw_page (sk_PrometheusURL cfg +:+ "/-/ready") (λ _, true) from t ∧
    saw_page (sk_PrometheusURL cfg +:+ "/api/v1/targets?state=active")
      (λ body, match Unmarshal_targets body with Some (_ :: _) => true | _ => false end) t to.

(** Observations one after the other, within a span of time. *)
Inductive in_order : list (Z → Z → Prop) → Z → Z → Prop :=
  | in_order_nil from to : (from ≤ to)%Z → in_order [] from to
  | in_order_cons (P : Z → Z → Prop) Ps from t1 t2 to :
      (from ≤ t1)%Z → P t1 t2 → in_order Ps t2 to → in_order (P :: Ps) from to.

(** Everything a passed run announces. *)
Definition evidence st : Z → Z → Prop :=
  in_order
    [saw_serving; saw_page (sk_PricingURL cfg +:+ "/healthz") (λ _, true); saw_price st; saw_created st;
     saw_event st; saw_dispatch st; saw_deduplicated st; saw_metrics; saw_prometheus].

(** *** Taking a step apart *)

Lemma checkGRPCHealth_saw ctx st r w w' :
  checkGRPCHealth cfg cc ctx st w = Some (Ok r, w') → r.2 = st ∧ saw_serving (now w) (now w').
Proof.
  intros (s & w1 & E & H)%prog_bind_ok. destruct (Z.eqb_spec s HEALTH_SERVING) as [->|]; [|done].
  injection H as <- <-. split; [done|]. exists ctx. by apply ran_intro.
Qed.

Lemma get_saw ctx url (p : string → bool) body w w' :
  get ctx url w = Some (Ok body, w') → p body = true → saw_page url p (now w) (now w').
Proof. intros E Hp. exists ctx, body. split; [by apply ran_intro|done]. Qed.

Lemma checkPricingHealth_saw ctx st r w w' :
  checkPricingHealth cfg ctx st w = Some (Ok r, w') →
  r.2 = st ∧ saw_page (sk_PricingURL cfg +:+ "/healthz") (λ _, true) (now w) (now w').
Proof. intros (b & w1 & E & [= <- <-])%prog_bind_ok. split; [done|]. by eapply get_saw. Qed.

Lemma getQuote_saw ctx st r w w' :
  getQuote cc ctx st w = Some (Ok r, w') → r.2 = st ∧ saw_price st (now w) (now w').
Proof.
  intros (p & w1 & E & H)%prog_bind_ok. cbv zeta in H.
  destruct (Z.eqb_spec (GetAmountCents p) exampleAmountCents); [|done].
  destruct (bool_decide_reflect (GetCurrency p = exampleCurrency)); [|done].
  injection H as <- <-. split; [done|]. exists p. split; [|done]. exists ctx. by apply ran_intro.
Qed.

Lemma createShipment_saw ctx st r w w' :
  createShipment cc ctx st w = Some (Ok r, w') →
  ∃ id, r.2 = set_shipmentID id st ∧ saw_created r.2 (now w) (now w').
Proof.
  intros (sh & w1 & E & H)%prog_bind_ok.
  destruct (Z.eqb_spec (GetAmountCents (GetPrice sh)) exampleAmountCents); [|done].
  destruct (Z.eqb_spec (GetOutboxStatus sh) OUTBOX_STATUS_PENDING); [|done]. injection H as <- <-.
  exists (GetShipmentId sh). split; [done|]. exists sh. split_and!; try done. exists ctx. by apply ran_intro.
Qed.

Lemma check_record_saw st f r :
  check_record st f = Ok r → has_key (st_shipmentID st) f = true →
  ∃ evt, Decode (k_Value (ft_Record f)) = Ok evt ∧ ed_AmountCents (e_Data evt) = exampleAmountCents ∧
    e_CorrelationID evt = st_correlationID st ∧
    r.2 = set_event evt (mkMessage (k_Topic (ft_Record f)) (st_shipmentID st) (k_Value (ft_Record f))
      (headerMap (k_Headers (ft_Record f)))) st.
Proof.
  unfold check_record. intros H Hk%bool_decide_eq_true. destruct (Decode _) as [evt|]; [|done].
  destruct (Z.eqb_spec (ed_AmountCents (e_Data evt)) exampleAmountCents); [|done].
  destruct (bool_decide_reflect (e_CorrelationID evt = st_correlationID st)); [|done].
  injection H as <-. exists evt. cbn. by rewrite Hk.
Qed.

Lemma find_record_saw fuel client ctx st r w w' :
  find_record fuel client ctx st w = Some (Ok r, w') →
  ∃ evt msg, r.2 = set_event evt msg st ∧ saw_event r.2 (now w) (now w').
Proof.
  revert w. induction fuel as [|fuel IHf]; intros w; cbn; destruct (ctx_Err ctx w); try done.
  pose proof (kl_poll laws client ctx w). destruct (PollFetches client ctx w) as [[[] recs] w1] eqn:Ep; [done|].
  destruct (List.find _ recs) as [f|] eqn:Ef; cbn in *.
  - apply List.find_some in Ef as [Hin Hk]. intros H'. injection H' as Hr <-.
    destruct (check_record_saw _ _ _ Hr Hk) as (evt & Hd & Ha & Hc & E). apply bool_decide_eq_true in Hk.
    eexists _, _. split; [exact E|]. rewrite E. exists client, ctx, w, f, recs, w1.
    split_and!; try done; try lia. by apply list_elem_of_In.
  - intros (evt & msg & E & Hs)%IHf. exists evt, msg. split; [done|].
    destruct Hs as (c & ctx' & w2 & f & rs & w3 & ? & ? & ? & Hs). exists c, ctx', w2, f, rs, w3. split_and!; try lia; naive_solver.
Qed.

Lemma findEventInKafka_saw fuel ctx st r w w' :
  findEventInKafka cfg fuel ctx st w = Some (Ok r, w') →
  ∃ evt msg, r.2 = set_event evt msg st ∧ saw_event r.2 (now w) (now w').
Proof.
  intros (client & w1 & E & (w2 & H & ->)%defer_ok)%prog_bind_ok. apply call_ok in E.
  apply find_record_saw in H as (evt & msg & Er & Hs). exists evt, msg. split; [done|].
  pose proof (kl_reader laws (pc_Brokers (sk_Publisher cfg)) Topic w). rewrite E in *. cbn in *.
  pose proof (kl_close_reader laws client w2).
  destruct Hs as (c & ctx' & w3 & f & rs & w4 & ? & ? & ? & Hs). exists c, ctx', w3, f, rs, w4.
  split_and!; try lia; naive_solver.
Qed.

(** A loop that asks and sleeps ends well with an answer it was waiting for. *)
Lemma poll_dispatch_saw fuel ctx st sh w w' :
  poll_dispatch cc fuel ctx st w = Some (Ok sh, w') →
  answered (λ oc, client_GetShipment cc oc (st_shipmentID st)) st sh (now w) (now w') ∧ dispatched_published sh = true.
Proof.
  revert w. induction fuel as [|fuel IHf]; intros w; cbn; [done|].
  intros (sh1 & w1 & E & H)%prog_bind_ok. pose proof (getShipment_forward _ _ _ _ _ E).
  destruct (dispatched_published sh1) eqn:Ed.
  - injection H as <- <-. split; [|done]. exists ctx. by apply ran_intro.
  - apply prog_bind_ok in H as (ended & w2 & Es & H). pose proof (sleep_forward _ _ _ _ _ Es).
    destruct ended; [done|]. apply IHf in H as [(ctx' & H) Hd]. split; [|done]. exists ctx'.
    eapply ran_within; [exact H|lia|lia].
Qed.

Lemma waitForDispatch_saw fuel ctx st r w w' :
  waitForDispatch cc fuel ctx st w = Some (Ok r, w') →
  ∃ id, r.2 = set_dispatchID id st ∧ saw_dispatch r.2 (now w) (now w').
Proof.
  intros (sh & w1 & E & H)%prog_bind_ok. cbv zeta in H.
  destruct (bool_decide_reflect (GetEventId (GetDispatch sh) = e_EventID (st_event st))); [|done].
  injection H as <- <-. exists (GetDispatchId (GetDispatch sh)). split; [done|].
  apply poll_dispatch_saw in E as [Ha Hd]. exists sh. split; [exact Ha|]. split; [done|].
  unfold dispatched_published in Hd. apply andb_true_iff in Hd as [?%Z.eqb_eq ?%Z.eqb_eq]. done.
Qed.

Lemma poll_duplicate_saw fuel before ctx u w w' :
  poll_duplicate cfg fuel before ctx w = Some (Ok u, w') →
  ∃ after, saw_counter after (now w) (now w') ∧ float_ge after (float_add before (float_of 1)) = true.
Proof.
  revert w. induction fuel as [|fuel IHf]; intros w; cbn; [done|].
  intros (after & w1 & E & H)%prog_bind_ok. pose proof (consumerOutcome_forward _ _ _ _ _ E).
  destruct (float_ge after _) eqn:Ed.
  - injection H as <- <-. exists after. split; [|done]. exists ctx. by apply ran_intro.
  - apply prog_bind_ok in H as (ended & w2 & Es & H). pose proof (sleep_forward _ _ _ _ _ Es).
    destruct ended; [done|]. apply IHf in H as (after' & (ctx' & H) & Hd). exists after'. split; [|done]. exists ctx'.
    eapply ran_within; [exact H|lia|lia].
Qed.

Lemma replayIsDeduplicated_saw fuel ctx st r w w' :
  replayIsDeduplicated cfg cc fuel ctx st w = Some (Ok r, w') →
  r.2 = st ∧ saw_deduplicated st (now w) (now w').
Proof.
  intros (before & w1 & E1 & (p & w2 & E2%call_ok & (w6 & H & ->)%defer_ok)%prog_bind_ok)%prog_bind_ok.
  apply prog_bind_ok in H as ([] & w3 & E3 & H). apply prog_bind_ok in H as (u & w4 & E4 & H).
  apply prog_bind_ok in H as (sh & w5 & E5 & H). cbv zeta in H.
  destruct (bool_decide_reflect (GetDispatchId (GetDispatch sh) = st_dispatchID st)); [|done].
  injection H as <- <-. split; [done|]. apply poll_duplicate_saw in E4 as (after & Ha & Hge).
  pose proof (NewPublisher_time ctx (sk_Publisher cfg) w1) as Ht. rewrite E2 in Ht. cbn in Ht.
  pose proof (kl_close_kafka laws (p_client p) w5).
  exists before, after, (now w1), (now w3), (now w4). split_and!; try done.
  - exists ctx. by apply ran_intro.
  - exists p, ctx. eapply ran_within; [by apply ran_intro|lia|lia].
  - exists sh. split_and!; [|done..]. exists ctx. eapply ran_within; [by apply ran_intro|lia|lia].
Qed.

Lemma check_targets_saw ctx l u w w' :
  check_targets ctx l w = Some (Ok u, w') →
  ∀ url metric, (url, metric) ∈ l → saw_page (url +:+ "/metrics") (λ body, Contains body metric) (now w) (now w').
Proof.
  revert w. induction l as [|[url metric] l IHl]; intros w; cbn; [intros _ ?? []%elem_of_nil|].
  intros (body & w1 & E & H)%prog_bind_ok. destruct (Contains body metric) eqn:Ec; [|done].
  pose proof (check_targets_forward _ _ _ _ _ H). pose proof (get_forward _ _ _ _ _ E).
  intros url' metric' [[= -> ->]|Hin]%elem_of_cons.
  - exists ctx, body. split; [|done]. eapply ran_within; [by apply ran_intro|lia|lia].
  - destruct (IHl _ H _ _ Hin) as (ctx' & b & Hr & Hc). exists ctx', b. split; [|done].
    eapply ran_within; [exact Hr|lia|lia].
Qed.

Lemma checkMetrics_saw ctx st r w w' :
  checkMetrics cfg ctx st w = Some (Ok r, w') → r.2 = st ∧ saw_metrics (now w) (now w').
Proof.
  intros (u & w1 & E & [= <- <-])%prog_bind_ok. split; [done|]. intros url metric. by eapply check_targets_saw.
Qed.

Lemma checkPrometheus_saw ctx st r w w' :
  checkPrometheus cfg ctx st w = Some (Ok r, w') → r.2 = st ∧ saw_prometheus (now w) (now w').
Proof.
  intros (b1 & w1 & E1 & (b & w2 & E2 & H)%prog_bind_ok)%prog_bind_ok.
  destruct (Unmarshal_targets b) as [[|t ts]|] eqn:Eu; [done| |done]. cbv zeta in H.
  assert (r.2 = st ∧ w' = w2) as [-> ->].
  { revert H. destruct (length (t :: ts) =? 0)%nat eqn:E0; [done|]. by case_match; intros [= <- <-]. }
  split; [done|]. exists (now w1). split; [by eapply get_saw|]. eapply get_saw; [exact E2|]. by rewrite Eu.
Qed.

(** *** The whole run *)

Lemma in_order_within Ps from to from' to' :
  in_order Ps from to → (from' ≤ from)%Z → (to ≤ to')%Z → in_order Ps from' to'.
Proof.
  intros H. revert from'. induction H as [from to|P Ps from t1 t2 to Hle HP _ IHo]; intros from' Hf Ht.
  - constructor. lia.
  - econstructor; [|exact HP|by apply IHo]. lia.
Qed.

Lemma run_steps_ok ctx i stp l st stf w w' :
  run_steps cfg ctx i (stp :: l) st w = Some (Ok stf, w') →
  ∃ ctx1 r w1 w2, step_run stp ctx1 st w = Some (Ok r, w1) ∧ (now w1 ≤ now w2)%Z ∧
    run_steps cfg ctx (i + 1) l r.2 w2 = Some (Ok stf, w').
Proof.
  cbn. unfold runStep. destruct (step_run stp _ st w) as [[[[d st1]|] w1]|] eqn:E; [|done..].
  intros H. exists (WithTimeout ctx (sk_StepTimeout cfg) w), (d, st1), w1. eexists. split; [exact E|]. split; [|exact H].
  apply (kl_print laws).
Qed.

Lemma run_steps_evidence fuel ctx id stf w w' :
  run_steps cfg ctx 1 (steps cfg cc fuel) (start_state id) w = Some (Ok stf, w') →
  evidence stf (now w) (now w').
Proof.
  unfold steps. intros H.
  apply run_steps_ok in H as (? & r & w1 & w1' & E & T1 & H). apply checkGRPCHealth_saw in E as [E S1]. rewrite E in H.
  apply run_steps_ok in H as (? & r2 & w2 & w2' & E2 & T2 & H). apply checkPricingHealth_saw in E2 as [E2 S2]. rewrite E2 in H.
  apply run_steps_ok in H as (? & r3 & w3 & w3' & E3 & T3 & H). apply getQuote_saw in E3 as [E3 S3]. rewrite E3 in H.
  apply run_steps_ok in H as (? & r4 & w4 & w4' & E4 & T4 & H). apply createShipment_saw in E4 as (sid & E4 & S4). rewrite E4 in H, S4.
  apply run_steps_ok in H as (? & r5 & w5 & w5' & E5 & T5 & H). apply findEventInKafka_saw in E5 as (evt & msg & E5 & S5). rewrite E5 in H, S5.
  apply run_steps_ok in H as (? & r6 & w6 & w6' & E6 & T6 & H). apply waitForDispatch_saw in E6 as (did & E6 & S6). rewrite E6 in H, S6.
  apply run_steps_ok in H as (? & r7 & w7 & w7' & E7 & T7 & H). apply replayIsDeduplicated_saw in E7 as [E7 S7]. rewrite E7 in H.
  apply run_steps_ok in H as (? & r8 & w8 & w8' & E8 & T8 & H). apply checkMetrics_saw in E8 as [E8 S8]. rewrite E8 in H.
  apply run_steps_ok in H as (? & r9 & w9 & w9' & E9 & T9 & H). apply checkPrometheus_saw in E9 as [E9 S9]. rewrite E9 in H.
  cbn in H. injection H as <- <-.
  pose proof (kl_print laws (nl +:+ "SMOKE PASSED" +:+ nl) w9').
  unfold evidence.
  do 9 (eapply in_order_cons; [|first [exact S1|exact S2|exact S3|exact S4|exact S5|exact S6|exact S7|exact S8|exact S9]|]; [lia|]).
  constructor. unfold say. lia.
Qed.

End facts.

Section verdict.
Context {W : Type} {IC : Clock W} {ICC : ClientConn W} {IH : Http W} {IK : Kgo W} {IM : GoMap} {IR : KafkaReader W}
  {IO : Stdout W} {IWc : WallClock W} {IW : LogWriter W}.

(** C29: the smoke test always gives a verdict, and it passes only on evidence:
    with fuel for the timeout of one step it ends with status 0 or 1; and status
    0 means that, in this order and under the run's correlation ID, the service
    said it is serving, the example was priced at 700 USD, a shipment was created
    with its event pending, the topic held a record keyed by that shipment with
    its event, the shipment was dispatched for that event and published, the
    replayed message was acknowledged and the consumer counted one duplicate more
    while the dispatch stayed the same, every metric was exposed, and Prometheus
    had targets. *)
Theorem smoke_verdict fuel ctx env w :
  smoke_laws → (Z.to_nat (sk_StepTimeout (read_smokeConfig env).1) < fuel)%nat →
  ∃ status w', smoke_main fuel ctx env w = Some (status, w') ∧ (status = 0 ∨ status = 1)%Z ∧
    (status = 0%Z → ∃ cc st, evidence (read_smokeConfig env).1 cc st (now w) (now w')).
Proof.
  intros laws Hf. unfold smoke_main, Main.
  assert (∃ r w', smoke_run fuel ctx (new_app (W := W) "smoke" env) w = Some (r, w') ∧
    ∀ st, r = Ok st → ∃ cc, evidence (read_smokeConfig env).1 cc st (now w) (now w')) as (r & w' & -> & Hr).
  { unfold smoke_run. cbn [app_Env new_app]. destruct (read_smokeConfig env) as [cfg env'].
    destruct (errors_Join _); [by eexists (Err _), _|].
    pose proof (kl_dial laws (sk_GRPCAddr cfg) w). destruct (grpc_NewClient _ w) as [[cc|] w1]; [|by eexists (Err _), _].
    unfold defer_. cbn beta. cbn [snd] in *. pose proof (kl_wall laws w1). destruct (wall_now w1) as [t w2].
    set (id := "req_smoke_" +:+ Format_150405 t).
    destruct (run_steps_end laws cfg cc fuel (WithID ctx id) 1 (steps cfg cc fuel) (start_state id) Hf ltac:(done)
      (say ("ParcelLab smoke test (correlation_id=" +:+ id +:+ ")" +:+ nl +:+ nl) w2)) as [[r w3] E].
    exists r, (conn_Close cc w3). split; [cbn [st_correlationID start_state]; by rewrite E|].
    intros st ->. exists cc. apply (run_steps_evidence laws) in E. pose proof (kl_hang_up laws cc w3).
    eapply in_order_within; [exact E| |lia].
    etransitivity; [|apply (kl_print laws)]. cbn [snd] in *. lia. }
  cbn. destruct r as [st|err]; cbn; eexists _, _; (split; [done|]).
  - split; [by left|]. intros _. destruct (Hr st eq_refl) as (cc & He). by exists cc, st.
  - split; [by right|done].
Qed.

End verdict.
