(* ===== verification/Registry.v ===== *)
(** * The metrics of each process

    The NewMetrics functions of the components, the registry they register on, and
    the page of GET /metrics in Prometheus' text format.  [MustRegister] panics on a
    name that is taken or malformed; a counter with labels has no series before its
    first increment.  The runtime collectors and the lines of histograms are an
    interface. *)
From Stdlib Require Import SpecFloat.
From S2P Require Import Prelude GoErrors GoStrconv GoStrings GoUtf8 Json JsonFacts GoTime GoDuration GoContext GoFloat FloatFacts Relay Pricing PricingService Consumer ShipmentApi Config Smoke.

(** ** Collectors *)

Inductive MetricKind := CounterKind | GaugeKind | HistogramKind.

Record Desc := mkDesc { d_name : string; d_help : string; d_kind : MetricKind; d_labels : list string }.

Definition NewCounter (name help : string) : Desc := mkDesc name help CounterKind [].
Definition NewCounterVec (name help : string) (labels : list string) : Desc := mkDesc name help CounterKind labels.
Definition NewGauge (name help : string) : Desc := mkDesc name help GaugeKind [].
Definition NewHistogram (name help : string) : Desc := mkDesc name help HistogramKind [].
Definition NewHistogramVec (name help : string) (labels : list string) : Desc := mkDesc name help HistogramKind labels.

(** Letters, digits, underscores and colons; no digit first. *)
Definition name_char (c : ascii) : bool :=
  between 97 122 c || between 65 90 c || Ascii.eqb c "_" || Ascii.eqb c ":".
Definition valid_name (s : string) : bool :=
  match s with
  | EmptyString => false
  | String c r => name_char c && str_forall (λ c, name_char c || is_digit c) r
  end.

Definition Registry := list Desc.

(** [Register]: [None] is the error. *)
Definition Register (reg : Registry) (d : Desc) : option Registry :=
  if valid_name (d_name d) && forallb valid_name (d_labels d) && bool_decide (d_name d ∉ d_name <$> reg)
  then Some (reg ++ [d]) else None.

(** [MustRegister]: [None] is the panic. *)
Fixpoint MustRegister (reg : Registry) (ds : list Desc) : option Registry :=
  match ds with
  | [] => Some reg
  | d :: ds => reg ← Register reg d; MustRegister reg ds
  end.

(** client_golang's own collectors, what they and histograms print below their
    header lines, and the order of the families on the page. *)
Class Collectors := {
  NewGoCollector : list Desc;
  NewProcessCollector : list Desc;
  measured : Desc → list string;
  gather : list Desc → list Desc;
  gather_perm l : gather l ≡ₚ l;
  runtime_registers : ∃ reg, MustRegister [] (NewGoCollector ++ NewProcessCollector) = Some reg;
  runtime_named d : d ∈ NewGoCollector ++ NewProcessCollector →
    (∃ r, d_name d = "go_" +:+ r ∨ d_name d = "process_" +:+ r) ∧
    no_byte newline (d_name d) = true ∧ no_byte newline (d_help d) = true;
  measured_named d line : line ∈ measured d → ∃ r, line = d_name d +:+ r;
  measured_line d line : no_byte newline (d_name d) = true → line ∈ measured d → no_byte newline line = true
}.

Section registry.
Context {IC : Collectors}.

(** ** internal/observability *)

Definition NewRegistry : option Registry := MustRegister [] (NewGoCollector ++ NewProcessCollector).

(** ** NewMetrics of each component: the values start at zero *)

Definition consumer_events : Desc :=
  NewCounterVec "parcellab_consumer_events_total"
    "Records handled by the dispatch consumer, by outcome (processed, duplicate, malformed, unsupported, conflict, failed)."
    ["outcome"].
Definition consumer_retries : Desc :=
  NewCounter "parcellab_consumer_storage_retries_total" "Transient storage failures that were retried.".

Definition consumer_NewMetrics (reg : Registry) : option (Consumer.Metrics * Registry) :=
  let duration := NewHistogram "parcellab_consumer_processing_duration_seconds"
                    "Time to handle one record, including storage retries." in
  reg ← MustRegister reg [consumer_events; duration; consumer_retries];
  Some (Consumer.zero_Metrics, reg).

Definition relay_published : Desc :=
  NewCounter "parcellab_outbox_published_total" "Outbox events acknowledged by Kafka and marked published.".
Definition relay_failures : Desc :=
  NewCounter "parcellab_outbox_publish_failures_total" "Outbox publish attempts that failed (the event stays pending).".
Definition relay_pending : Desc :=
  NewGauge "parcellab_outbox_pending_events" "Outbox events not yet published, as of the last poll.".

Definition relay_NewMetrics (reg : Registry) : option (Relay.Metrics * Registry) :=
  let pollDuration := NewHistogram "parcellab_outbox_poll_duration_seconds"
                        "Time spent per relay poll, including publishing." in
  reg ← MustRegister reg [relay_published; relay_failures; relay_pending; pollDuration];
  Some (Relay.mkMetrics 0 0 None, reg).

Definition pricing_requests : Desc :=
  NewCounterVec "parcellab_pricing_requests_total"
    "Calls from the shipment service to the pricing service, by outcome (ok, rejected, unavailable, timeout, canceled)."
    ["outcome"].

Definition pricing_NewMetrics (reg : Registry) : option (Pricing.Metrics * Registry) :=
  let duration := NewHistogram "parcellab_pricing_request_duration_seconds" "Latency of pricing service calls." in
  reg ← MustRegister reg [pricing_requests; duration];
  Some (Pricing.mkMetrics (λ _, 0%Z) 0, reg).

Definition grpc_requests : Desc :=
  NewCounterVec "parcellab_grpc_requests_total"
    "gRPC requests handled by the shipment service, by method and status code." ["method"; "code"].

Definition shipmentapi_NewMetrics (reg : Registry) : option (ShipmentApi.Metrics * Registry) :=
  let duration := NewHistogramVec "parcellab_grpc_request_duration_seconds" "gRPC request latency by method." ["method"] in
  reg ← MustRegister reg [grpc_requests; duration];
  Some (ShipmentApi.mkMetrics (λ _ _, 0%Z) (λ _, 0%Z) [], reg).

(** What the run functions under cmd register. *)
Definition service_registry : option (Pricing.Metrics * ShipmentApi.Metrics * Registry) :=
  reg ← NewRegistry;
  '(pm, reg) ← pricing_NewMetrics reg;
  '(am, reg) ← shipmentapi_NewMetrics reg;
  Some (pm, am, reg).
Definition relay_registry : option (Relay.Metrics * Registry) := reg ← NewRegistry; relay_NewMetrics reg.
Definition consumer_registry : option (Consumer.Metrics * Registry) := reg ← NewRegistry; consumer_NewMetrics reg.

(** ** The page *)

Definition kind_text (k : MetricKind) : string :=
  match k with CounterKind => "counter" | GaugeKind => "gauge" | HistogramKind => "histogram" end.

Definition label_text (labels : list (string * string)) : string :=
  match labels with
  | [] => ""
  | _ => "{" +:+ Join "," ((λ p, p.1 +:+ "=" +:+ str1 GoUtf8.quote +:+ p.2 +:+ str1 GoUtf8.quote) <$> labels) +:+ "}"
  end.

Definition sample (d : Desc) (values : list string) (n : Z) : string :=
  d_name d +:+ label_text (zip (d_labels d) values) +:+ " " +:+ Sprint_float (float_of n).

(** A family without series is not on the page. *)
Definition family (samples : Desc → list string) (d : Desc) : list string :=
  match samples d with
  | [] => []
  | l => ("# HELP " +:+ d_name d +:+ " " +:+ d_help d) :: ("# TYPE " +:+ d_name d +:+ " " +:+ kind_text (d_kind d)) :: l
  end.

Definition page_lines (reg : Registry) (samples : Desc → list string) : list string :=
  concat (family samples <$> gather reg).

Fixpoint lines_text (l : list string) : string :=
  match l with
  | [] => ""
  | line :: l => line +:+ String newline (lines_text l)
  end.

Definition page (reg : Registry) (samples : Desc → list string) : string := lines_text (page_lines reg samples).

(** The series of each process: those of a counter with labels that were counted. *)
Definition counted {A} (d : Desc) (values : A → list string) (count : A → Z) (l : list A) : list string :=
  (λ a, sample d (values a) (count a)) <$> filter (λ a, (0 < count a)%Z) l.

Definition outcomes : list Outcome :=
  [OutcomeConflict; OutcomeDuplicate; OutcomeFailed; OutcomeMalformed; OutcomeProcessed; OutcomeUnsupported].

Definition consumer_samples (m : Consumer.Metrics) (d : Desc) : list string :=
  if bool_decide (d_name d = d_name consumer_events)
  then counted d (λ o, [outcome_string o]) (mt_events m) outcomes
  else if bool_decide (d_name d = d_name consumer_retries) then [sample d [] (mt_retries m)]
  else measured d.

Definition relay_samples (m : Relay.Metrics) (d : Desc) : list string :=
  if bool_decide (d_name d = d_name relay_published) then [sample d [] (mt_published m)]
  else if bool_decide (d_name d = d_name relay_failures) then [sample d [] (mt_failures m)]
  else if bool_decide (d_name d = d_name relay_pending) then [sample d [] (default 0%Z (mt_pending m))]
  else measured d.

Definition pricing_outcome_string (o : outcome) : string :=
  match o with
  | outcomeOK => "ok" | outcomeRejected => "rejected" | outcomeUnavailable => "unavailable"
  | outcomeTimeout => "timeout" | outcomeCanceled => "canceled"
  end.

Definition pricing_outcomes : list outcome :=
  [outcomeCanceled; outcomeOK; outcomeRejected; outcomeTimeout; outcomeUnavailable].

Definition Code_String (c : Code) : string :=
  match c with
  | OK => "OK" | Canceled => "Canceled" | Unknown => "Unknown" | InvalidArgument => "InvalidArgument"
  | DeadlineExceeded => "DeadlineExceeded" | NotFound => "NotFound" | AlreadyExists => "AlreadyExists"
  | PermissionDenied => "PermissionDenied" | ResourceExhausted => "ResourceExhausted"
  | FailedPrecondition => "FailedPrecondition" | Aborted => "Aborted" | OutOfRange => "OutOfRange"
  | Unimplemented => "Unimplemented" | Internal => "Internal" | Unavailable => "Unavailable"
  | DataLoss => "DataLoss" | Unauthenticated => "Unauthenticated"
  end.

Definition codes : list Code :=
  [Aborted; AlreadyExists; Canceled; DataLoss; DeadlineExceeded; FailedPrecondition; Internal; InvalidArgument;
   NotFound; OK; OutOfRange; PermissionDenied; ResourceExhausted; Unauthenticated; Unavailable; Unimplemented; Unknown].

(** [methods] are the methods called so far. *)
Definition service_samples (methods : list string) (pm : Pricing.Metrics) (am : ShipmentApi.Metrics) (d : Desc) : list string :=
  if bool_decide (d_name d = d_name pricing_requests)
  then counted d (λ o, [pricing_outcome_string o]) (Pricing.mt_requests pm) pricing_outcomes
  else if bool_decide (d_name d = d_name grpc_requests)
  then counted d (λ p, [p.1; Code_String p.2]) (λ p, ShipmentApi.mt_requests am p.1 p.2) (list_prod methods codes)
  else measured d.

(** *** pricing/app/main.py, [Metrics.new] *)

Definition service_quotes : Desc :=
  NewCounterVec "pricing_quotes_total" "Quote requests by outcome (ok, invalid)." ["outcome"].
Definition service_duration : Desc :=
  NewHistogram "pricing_quote_duration_seconds" "Time spent answering POST /quote.".
Definition Metrics_new : list Desc := [service_quotes; service_duration].

(** prometheus_client: the page of a registry has the header lines of every counter
    registered on it, also of one without series; a name that ends in [_total] is
    the one it is printed under. *)
Class PrometheusClient := {
  generate_latest : list Desc → PricingService.Metrics → string;
  generate_help reg m d : d ∈ reg → d_kind d = CounterKind → (∃ base, d_name d = base +:+ "_total") →
    ∃ before after, generate_latest reg m = before +:+ "# HELP " +:+ d_name d +:+ " " +:+ d_help d +:+ after
}.

(** ** Registering *)

Lemma Register_inv reg d reg' :
  Register reg d = Some reg' → reg' = reg ++ [d] ∧ d_name d ∉ d_name <$> reg.
Proof.
  unfold Register. destruct (_ && _) eqn:E; [|done]. intros [= <-]. split; [done|].
  apply andb_true_iff in E as [_ E]. by apply bool_decide_eq_true in E.
Qed.

Lemma MustRegister_inv reg ds reg' :
  NoDup (d_name <$> reg) → MustRegister reg ds = Some reg' → reg' = reg ++ ds ∧ NoDup (d_name <$> reg').
Proof.
  revert reg. induction ds as [|d ds IH]; intros reg Hnd.
  { intros [= <-]. by rewrite app_nil_r. }
  cbn [MustRegister]. intros (reg1 & [-> Hn]%Register_inv & H)%bind_Some.
  apply IH in H as [-> Hnd'].
  - split; [by rewrite <- app_assoc|done].
  - rewrite fmap_app. apply list.NoDup_app. split; [done|]. split; [|apply list.NoDup_singleton].
    intros x Hx ->%list_elem_of_singleton. done.
Qed.

Lemma MustRegister_fresh reg ds :
  forallb (λ d, valid_name (d_name d) && forallb valid_name (d_labels d)) ds = true →
  NoDup (d_name <$> ds) → (∀ d, d ∈ ds → d_name d ∉ d_name <$> reg) →
  MustRegister reg ds = Some (reg ++ ds).
Proof.
  revert reg. induction ds as [|d ds IH]; intros reg Hv Hnd Hf; [by rewrite app_nil_r|].
  cbn in Hv, Hnd. apply andb_true_iff in Hv as [Hd Hv]. apply list.NoDup_cons in Hnd as [Hn Hnd].
  cbn [MustRegister]. unfold Register. rewrite Hd, bool_decide_eq_true_2 by (apply Hf; left). cbn.
  rewrite IH; [by rewrite <- app_assoc|done|done|].
  intros d' Hd'. rewrite fmap_app, elem_of_app. intros [Hin|Hin%list_elem_of_singleton].
  - revert Hin. apply Hf. by right.
  - apply Hn. rewrite <- Hin. by apply list_elem_of_fmap_2.
Qed.

Lemma prefix_text p r : String.prefix p (p +:+ r) = true.
Proof.
  induction p as [|c p IH]; [by destruct r|]. rewrite str_app_cons. cbn.
  destruct (ascii_dec c c); [done|by destruct n].
Qed.

Definition runtime : Registry := NewGoCollector ++ NewProcessCollector.

Lemma NewRegistry_ok : NewRegistry = Some runtime ∧ NoDup (d_name <$> runtime).
Proof.
  unfold NewRegistry, runtime. destruct runtime_registers as [reg E].
  destruct (MustRegister_inv [] _ _ base.NoDup_nil_2 E) as [-> Hnd]. by split.
Qed.

(** The program's own names are not those of the runtime's collectors. *)
Definition own_name (s : string) : bool := negb (String.prefix "go_" s) && negb (String.prefix "process_" s).

Lemma own_fresh s : own_name s = true → s ∉ d_name <$> runtime.
Proof.
  unfold own_name. rewrite andb_true_iff, !negb_true_iff. intros [H1 H2] (d & -> & Hd)%list_elem_of_fmap.
  destruct (runtime_named _ Hd) as [(r & [E|E]) _]; rewrite E, prefix_text in *; done.
Qed.

(** Registering the program's own metrics after what is there. *)
Lemma own_registers reg ds :
  forallb (λ d, valid_name (d_name d) && forallb valid_name (d_labels d)) ds = true →
  bool_decide (NoDup (d_name <$> ds)) = true →
  forallb (λ d, own_name (d_name d) && bool_decide (d_name d ∉ d_name <$> reg)) ds = true →
  MustRegister (runtime ++ reg) ds = Some (runtime ++ reg ++ ds).
Proof.
  intros Hv Hnd%bool_decide_eq_true Hf. rewrite MustRegister_fresh; [by rewrite <- app_assoc|done|done|].
  intros d Hd. rewrite forallb_forall in Hf. apply list_elem_of_In, Hf, andb_true_iff in Hd as [Ho Hr].
  apply bool_decide_eq_true in Hr. rewrite fmap_app, elem_of_app. intros [Hin|Hin]; [|done].
  by apply own_fresh in Hin.
Qed.

Lemma registered_NoDup reg ds :
  NoDup (d_name <$> (runtime ++ reg)) → MustRegister (runtime ++ reg) ds = Some (runtime ++ reg ++ ds) →
  NoDup (d_name <$> (runtime ++ reg ++ ds)).
Proof. intros Hnd H. by apply MustRegister_inv in H as [_ ?]. Qed.

(** ** Reading the page *)

Lemma Contains_mid a sub b : Contains (a +:+ sub +:+ b) sub = true.
Proof.
  induction a as [|c a IH].
  - rewrite str_app_nil_l. destruct (sub +:+ b) as [|c t] eqn:E; cbn [Contains]; rewrite <- E, prefix_text; done.
  - rewrite str_app_cons. cbn [Contains]. rewrite IH. apply orb_true_r.
Qed.

Lemma lines_text_app l l' : lines_text (l ++ l') = lines_text l +:+ lines_text l'.
Proof.
  induction l as [|x l IH]; [by rewrite str_app_nil_l|]. cbn [lines_text app]. rewrite IH.
  by rewrite <- str_app_assoc.
Qed.

Lemma page_lines_elem reg samples d : d ∈ reg → ∃ l1 l2, page_lines reg samples = l1 ++ family samples d ++ l2.
Proof.
  intros Hd. rewrite <- (gather_perm reg) in Hd. unfold page_lines.
  apply list_elem_of_split in Hd as (l1 & l2 & ->).
  rewrite fmap_app, concat_app. cbn. by eexists _, _.
Qed.

(** A family with series is on the page. *)
Lemma page_contains reg samples d : d ∈ reg → samples d ≠ [] → Contains (page reg samples) (d_name d) = true.
Proof.
  intros Hd Hs. destruct (page_lines_elem reg samples d Hd) as (l1 & l2 & E). unfold page. rewrite E.
  unfold family. destruct (samples d) as [|x l]; [done|]. cbn [app].
  rewrite lines_text_app. cbn [lines_text]. rewrite <- !str_app_assoc.
  rewrite (str_app_assoc (lines_text l1) "# HELP "). apply Contains_mid.
Qed.

Lemma Split_lines l : Forall (λ x, no_byte newline x = true) l → Split newline (lines_text l) = l ++ [""].
Proof.
  induction 1 as [|x l Hx Hl IH]; [done|]. cbn [lines_text]. rewrite Split_app by done. by rewrite IH.
Qed.

Lemma no_byte_app c s t : no_byte c (s +:+ t) = no_byte c s && no_byte c t.
Proof.
  induction s as [|d s IH]; [by rewrite str_app_nil_l|]. rewrite str_app_cons. cbn.
  fold (no_byte c (s +:+ t)) (no_byte c s). by rewrite IH, andb_assoc.
Qed.

Lemma read_series_skip p l l' :
  Forall (λ x, strip p x = None) l → read_series p (l ++ l') = read_series p l'.
Proof. induction 1 as [|x l Hx Hl IH]; [done|]. cbn [app read_series]. unfold CutPrefix. by rewrite Hx. Qed.

Lemma read_series_hit p v l : read_series p ((p +:+ v) :: l) = Sscanf_g v.
Proof. cbn [read_series]. unfold CutPrefix. by rewrite strip_text. Qed.

(** As many as a float64 tells apart. *)
Definition exact_count (n : Z) : Prop := (0 <= n < 2 ^ 53)%Z.

(** ** The consumer's counters *)

Definition consumer_own : list Desc :=
  [consumer_events;
   NewHistogram "parcellab_consumer_processing_duration_seconds" "Time to handle one record, including storage retries.";
   consumer_retries].

Lemma consumer_registry_ok :
  consumer_registry = Some (Consumer.zero_Metrics, runtime ++ consumer_own) ∧
  NoDup (d_name <$> (runtime ++ consumer_own)).
Proof.
  destruct NewRegistry_ok as [E Hnd]. rewrite <- (app_nil_r runtime) in Hnd.
  pose proof (own_registers [] consumer_own eq_refl eq_refl eq_refl) as R. cbn [app] in R.
  unfold consumer_registry, consumer_NewMetrics. rewrite E. cbn [mbind option_bind].
  fold consumer_own. rewrite app_nil_r in R. rewrite R. split; [done|].
  apply (registered_NoDup [] consumer_own Hnd). by rewrite app_nil_r.
Qed.

Lemma sample_events o n :
  sample consumer_events [outcome_string o] n = outcome_prefix (outcome_string o) +:+ Sprint_float (float_of n).
Proof. by destruct o. Qed.

(** No other line of the page begins like a series of the events counter. *)
Lemma strip_runtime o d line r :
  d ∈ runtime → line = d_name d +:+ r → strip (outcome_prefix o) line = None.
Proof. intros Hd ->. destruct (runtime_named _ Hd) as [(n & [-> | ->]) _]; reflexivity. Qed.

Lemma header_lines o samples d line :
  line ∈ family samples d → line ∉ samples d → strip (outcome_prefix o) line = None.
Proof.
  unfold family. destruct (samples d) as [|x l]; [by intros ?%elem_of_nil|].
  intros [->|[->|Hin]%elem_of_cons]%elem_of_cons Hn; [reflexivity|reflexivity|done].
Qed.

Lemma other_family o m d :
  d ∈ runtime ++ consumer_own → d_name d ≠ d_name consumer_events →
  Forall (λ line, strip (outcome_prefix o) line = None) (family (consumer_samples m) d).
Proof.
  intros Hd Hne. apply list.Forall_forall. intros line Hin.
  destruct (decide (line ∈ consumer_samples m d)) as [Hs|Hs]; [|by eapply header_lines].
  unfold consumer_samples in Hs. rewrite bool_decide_eq_false_2 in Hs by done.
  case_bool_decide as Hr.
  - apply list_elem_of_singleton in Hs as ->. unfold sample. rewrite Hr. reflexivity.
  - apply measured_named in Hs as (r & ->). apply elem_of_app in Hd as [Hd|Hd].
    + by eapply strip_runtime.
    + repeat (apply elem_of_cons in Hd as [->|Hd]; [try done; reflexivity|]). by apply elem_of_nil in Hd.
Qed.

Lemma outcome_apart o o' v : o ≠ o' → strip (outcome_prefix (outcome_string o)) (outcome_prefix (outcome_string o') +:+ v) = None.
Proof. intros Hne. destruct o, o'; try done; reflexivity. Qed.

(** The family of the events counter answers for each outcome. *)
Lemma read_counted o count l l' :
  NoDup l → exact_count (count o) →
  read_series (outcome_prefix (outcome_string o)) (counted consumer_events (λ o, [outcome_string o]) count l ++ l') =
    if bool_decide (o ∈ l ∧ 0 < count o)%Z then Ok (float_of (count o))
    else read_series (outcome_prefix (outcome_string o)) l'.
Proof.
  intros Hnd Hc. induction l as [|o' l IH]; [by rewrite bool_decide_eq_false_2 by (by intros [?%elem_of_nil _])|].
  apply list.NoDup_cons in Hnd as [Hn Hnd]. specialize (IH Hnd). unfold counted in *.
  assert (o ≠ o' ∨ (count o <= 0)%Z → bool_decide (o ∈ o' :: l ∧ (0 < count o)%Z) = bool_decide (o ∈ l ∧ (0 < count o)%Z)) as Hsame.
  { intros Hor. apply bool_decide_ext. rewrite elem_of_cons. split; [|naive_solver].
    intros [[->|Hin] Hp]; [|done]. destruct Hor; [done|lia]. }
  destruct (decide (0 < count o')%Z) as [Hp|Hp].
  - rewrite list.filter_cons_True by done. cbn [fmap list_fmap app]. rewrite sample_events.
    destruct (decide (o = o')) as [->|Hne].
    + rewrite read_series_hit, (proj1 (whole_number_read _ Hc)).
      by rewrite bool_decide_eq_true_2 by (split; [left|done]).
    + cbn [read_series]. unfold CutPrefix. rewrite outcome_apart by done. rewrite IH, Hsame by auto. done.
  - rewrite list.filter_cons_False by done. rewrite IH, Hsame; [done|].
    destruct (decide (o = o')) as [->|]; [right; lia|by left].
Qed.

Lemma family_one_line samples d :
  no_byte newline (d_name d) = true → no_byte newline (d_help d) = true →
  Forall (λ x, no_byte newline x = true) (samples d) →
  Forall (λ x, no_byte newline x = true) (family samples d).
Proof.
  intros Hn Hh Hs. unfold family. destruct (samples d) as [|x l]; [constructor|].
  constructor; [|constructor; [|done]]; rewrite !no_byte_app, Hn, ?Hh; [done|by destruct (d_kind d)].
Qed.

Lemma consumer_one_line m d :
  (∀ o, exact_count (mt_events m o)) → exact_count (mt_retries m) → d ∈ runtime ++ consumer_own →
  Forall (λ x, no_byte newline x = true) (family (consumer_samples m) d).
Proof.
  intros He Hr Hd.
  assert (no_byte newline (d_name d) = true ∧ no_byte newline (d_help d) = true) as [Hn Hh].
  { apply elem_of_app in Hd as [Hd|Hd]; [by apply runtime_named|].
    repeat (apply elem_of_cons in Hd as [->|Hd]; [done|]). by apply elem_of_nil in Hd. }
  apply family_one_line; [done|done|]. unfold consumer_samples.
  case_bool_decide as E1; [|case_bool_decide as E2].
  - apply list.Forall_forall. intros line (o & -> & _)%list_elem_of_fmap.
    unfold sample. rewrite !no_byte_app, Hn, (proj2 (whole_number_read _ (He o))).
    apply elem_of_app in Hd as [Hd|Hd].
    { exfalso. apply (own_fresh (d_name consumer_events) eq_refl). rewrite <- E1. by apply list_elem_of_fmap_2. }
    repeat (apply elem_of_cons in Hd as [->|Hd]; [first [discriminate E1 | by destruct o]|]). by apply elem_of_nil in Hd.
  - constructor; [|constructor]. unfold sample. rewrite !no_byte_app, Hn, (proj2 (whole_number_read _ Hr)).
    rewrite zip_with_nil_r. done.
  - apply list.Forall_forall. intros line. by apply measured_line.
Qed.

Lemma page_one_line m :
  (∀ o, exact_count (mt_events m o)) → exact_count (mt_retries m) →
  Forall (λ x, no_byte newline x = true) (page_lines (runtime ++ consumer_own) (consumer_samples m)).
Proof.
  intros He Hr. apply list.Forall_forall. intros line Hin. unfold page_lines in Hin.
  apply list_elem_of_In, in_concat in Hin as (l & Hl%list_elem_of_In & Hin%list_elem_of_In).
  apply list_elem_of_fmap in Hl as (d & -> & Hd). rewrite gather_perm in Hd.
  pose proof (consumer_one_line m d He Hr Hd) as Hf. rewrite list.Forall_forall in Hf. by apply Hf.
Qed.

(** The events family between families that say nothing about it. *)
Lemma page_lines_events m o :
  ∃ l1 l2, page_lines (runtime ++ consumer_own) (consumer_samples m) =
      l1 ++ family (consumer_samples m) consumer_events ++ l2 ∧
    Forall (λ line, strip (outcome_prefix o) line = None) l1 ∧
    Forall (λ line, strip (outcome_prefix o) line = None) l2.
Proof.
  set (reg := runtime ++ consumer_own). destruct consumer_registry_ok as [_ Hnd]. fold reg in Hnd.
  assert (consumer_events ∈ gather reg) as Hin by (rewrite gather_perm; apply elem_of_app; right; left).
  assert (NoDup (d_name <$> gather reg)) as Hnd'.
  { eapply NoDup_Permutation_proper; [apply fmap_Permutation, gather_perm|done]. }
  unfold page_lines. apply list_elem_of_split in Hin as (d1 & d2 & E). rewrite E in *.
  exists (concat (family (consumer_samples m) <$> d1)), (concat (family (consumer_samples m) <$> d2)).
  rewrite fmap_app, concat_app. split; [done|].
  assert (∀ d, d ∈ d1 ∨ d ∈ d2 → d ∈ reg ∧ d_name d ≠ d_name consumer_events) as Hother.
  { intros d Hd. split.
    - rewrite <- (gather_perm reg), E, elem_of_app, elem_of_cons. naive_solver.
    - rewrite fmap_app in Hnd'. cbn in Hnd'. apply list.NoDup_app in Hnd' as (_ & H1 & [H2 _]%list.NoDup_cons).
      intros Heq. destruct Hd as [Hd|Hd].
      + apply (H1 (d_name d)); [by apply list_elem_of_fmap_2|]. rewrite Heq. left.
      + apply H2. change (d_name consumer_events ∈ d_name <$> d2). rewrite <- Heq. by apply list_elem_of_fmap_2. }
  split; apply list.Forall_forall; intros line Hl;
    apply list_elem_of_In, in_concat in Hl as (l & Hl%list_elem_of_In & Hin%list_elem_of_In);
    apply list_elem_of_fmap in Hl as (d & -> & Hd); destruct (Hother d) as [Hr Hne]; auto;
    pose proof (other_family o m d Hr Hne) as Hf; rewrite list.Forall_forall in Hf; by apply Hf.
Qed.

(** The smoke test reads the counter of an outcome off the consumer's page. *)
Lemma read_outcome m o :
  (∀ o, exact_count (mt_events m o)) → exact_count (mt_retries m) →
  read_series (outcome_prefix (outcome_string o))
    (Split newline (page (runtime ++ consumer_own) (consumer_samples m))) = Ok (float_of (mt_events m o)).
Proof.
  intros He Hr. unfold page. rewrite Split_lines by by apply page_one_line.
  destruct (page_lines_events m (outcome_string o)) as (l1 & l2 & -> & H1 & H2).
  rewrite <- !app_assoc, read_series_skip by done.
  assert (consumer_samples m consumer_events = counted consumer_events (λ o, [outcome_string o]) (mt_events m) outcomes) as Es by done.
  assert (read_series (outcome_prefix (outcome_string o))
    (counted consumer_events (λ o, [outcome_string o]) (mt_events m) outcomes ++ l2 ++ [""]) = Ok (float_of (mt_events m o))) as Hread.
  { rewrite read_counted; [|by apply (bool_decide_unpack _); vm_compute|apply He].
    case_bool_decide as Hp; [done|]. rewrite read_series_skip by done.
    assert (mt_events m o = 0%Z) as ->; [|done].
    specialize (He o). unfold exact_count in He. destruct (decide (0 < mt_events m o)%Z); [|lia].
    exfalso. apply Hp. split; [|done]. destruct o; set_solver. }
  unfold family. rewrite Es.
  destruct (counted _ _ _ _) as [|x l] eqn:Ec; [exact Hread|].
  cbn [app]. cbn [read_series]. exact Hread.
Qed.

(** ** The other processes *)

Definition relay_own : list Desc :=
  [relay_published; relay_failures; relay_pending;
   NewHistogram "parcellab_outbox_poll_duration_seconds" "Time spent per relay poll, including publishing."].

Lemma relay_registry_ok :
  relay_registry = Some (Relay.mkMetrics 0 0 None, runtime ++ relay_own) ∧ NoDup (d_name <$> (runtime ++ relay_own)).
Proof.
  destruct NewRegistry_ok as [E Hnd]. rewrite <- (app_nil_r runtime) in Hnd.
  pose proof (own_registers [] relay_own eq_refl eq_refl eq_refl) as R. cbn [app] in R.
  unfold relay_registry, relay_NewMetrics. rewrite E. cbn [mbind option_bind].
  fold relay_own. rewrite app_nil_r in R. rewrite R. split; [done|].
  apply (registered_NoDup [] relay_own Hnd). by rewrite app_nil_r.
Qed.

Definition pricing_own : list Desc :=
  [pricing_requests; NewHistogram "parcellab_pricing_request_duration_seconds" "Latency of pricing service calls."].
Definition grpc_own : list Desc :=
  [grpc_requests; NewHistogramVec "parcellab_grpc_request_duration_seconds" "gRPC request latency by method." ["method"]].

Lemma service_registry_ok :
  service_registry = Some (Pricing.mkMetrics (λ _, 0%Z) 0, ShipmentApi.mkMetrics (λ _ _, 0%Z) (λ _, 0%Z) [],
                           runtime ++ pricing_own ++ grpc_own) ∧
  NoDup (d_name <$> (runtime ++ pricing_own ++ grpc_own)).
Proof.
  destruct NewRegistry_ok as [E Hnd]. rewrite <- (app_nil_r runtime) in Hnd.
  pose proof (own_registers [] pricing_own eq_refl eq_refl eq_refl) as R1. cbn [app] in R1.
  pose proof (own_registers pricing_own grpc_own eq_refl eq_refl eq_refl) as R2.
  unfold service_registry, pricing_NewMetrics, shipmentapi_NewMetrics. rewrite E. cbn [mbind option_bind].
  fold pricing_own. rewrite app_nil_r in R1. rewrite R1. cbn [mbind option_bind]. fold grpc_own. rewrite R2.
  split; [done|]. apply registered_NoDup; [|done].
  apply (registered_NoDup [] pricing_own Hnd). by rewrite app_nil_r.
Qed.

Lemma counted_some {A} d (values : A → list string) count l a :
  a ∈ l → (0 < count a)%Z → counted d values count l ≠ [].
Proof.
  intros Ha Hc. unfold counted. intros H%fmap_nil_inv.
  assert (a ∈ filter (λ a, (0 < count a)%Z) l) as Hin by (by apply list_elem_of_filter).
  rewrite H in Hin. by apply elem_of_nil in Hin.
Qed.

Lemma codes_all c : c ∈ codes.
Proof. apply (bool_decide_unpack _). destruct c; vm_compute; exact I. Qed.
Lemma outcomes_all o : o ∈ outcomes.
Proof. apply (bool_decide_unpack _). destruct o; vm_compute; exact I. Qed.
Lemma pricing_outcomes_all o : o ∈ pricing_outcomes.
Proof. apply (bool_decide_unpack _). destruct o; vm_compute; exact I. Qed.

(** The page the pricing service answers with. *)
Lemma quotes_on_page {IPy : PrometheusClient} {IF : FastAPI} {W} {ICl : Clock W} {IT : Time_ns W} settings req (w : W) m :
  rq_method req = "GET" → rq_path req = "/metrics" →
  ∃ resp, correlate (generate_latest Metrics_new) settings req w m = (resp, w, m) ∧
    rs_status_code resp = 200%Z ∧ Contains (rs_body resp) (d_name service_quotes) = true.
Proof.
  intros Hm Hp. unfold correlate, call_next. rewrite Hm, Hp. cbn. eexists. split; [done|]. split; [done|]. cbn.
  destruct (generate_help Metrics_new m service_quotes) as (a & b & ->); [left|done|by exists "pricing_quotes"|].
  rewrite (str_app_assoc a "# HELP "). apply Contains_mid.
Qed.

(** C30: no process in Go registers a metric twice, so none panics while it starts;
    each of the five series the smoke test looks for is registered by the process
    it asks: the pages of the Go services show them from the first request, record
    or poll on, and GET /metrics of the pricing service always does; and as long
    as the counts are below 2^53 the counter the test reads off the consumer's page
    is the consumer's count of that outcome, zero while there was none. *)
Theorem smoke_series_are_registered {IPy : PrometheusClient} {IF : FastAPI} {W} {ICl : Clock W} {IT : Time_ns W} cfg :
  metric_targets cfg =
    [(sk_ShipmentMgmt cfg, d_name grpc_requests); (sk_ShipmentMgmt cfg, d_name pricing_requests);
     (sk_RelayMgmt cfg, d_name relay_published); (sk_ConsumerMgmt cfg, d_name consumer_events);
     (sk_PricingURL cfg, d_name service_quotes)] ∧
  (∃ pm am reg, service_registry = Some (pm, am, reg) ∧ NoDup (d_name <$> reg) ∧
     ∀ methods pm am, 
       (∀ o, (0 < Pricing.mt_requests pm o)%Z →
          Contains (page reg (service_samples methods pm am)) (d_name pricing_requests) = true) ∧
       (∀ me c, me ∈ methods → (0 < ShipmentApi.mt_requests am me c)%Z →
          Contains (page reg (service_samples methods pm am)) (d_name grpc_requests) = true)) ∧
  (∃ m reg, relay_registry = Some (m, reg) ∧ NoDup (d_name <$> reg) ∧
     ∀ m, Contains (page reg (relay_samples m)) (d_name relay_published) = true) ∧
  (∃ m reg, consumer_registry = Some (m, reg) ∧ NoDup (d_name <$> reg) ∧
     ∀ m,
       (∀ o, (0 < mt_events m o)%Z → Contains (page reg (consumer_samples m)) (d_name consumer_events) = true) ∧
       ((∀ o, exact_count (mt_events m o)) → exact_count (mt_retries m) → ∀ o,
          read_series (outcome_prefix (outcome_string o)) (Split newline (page reg (consumer_samples m)))
          = Ok (float_of (mt_events m o)))) ∧
  (∀ settings req (w : W) m, rq_method req = "GET" → rq_path req = "/metrics" →
     ∃ resp, correlate (generate_latest Metrics_new) settings req w m = (resp, w, m) ∧
       rs_status_code resp = 200%Z ∧ Contains (rs_body resp) (d_name service_quotes) = true).
Proof.
  split; [done|]. split; [|split; [|split; [|intros; by apply quotes_on_page]]].
  - destruct service_registry_ok as [E Hnd]. eexists _, _, _. split; [exact E|]. split; [exact Hnd|].
    intros methods pm am. split.
    + intros o Ho. apply page_contains; [rewrite !elem_of_app; right; left; left|].
      cbn. by eapply (counted_some _ _ _ _ o); [apply pricing_outcomes_all|].
    + intros me c Hme Hc. apply page_contains; [rewrite !elem_of_app; right; right; left|].
      cbn. eapply (counted_some _ _ _ _ (me, c)); [|done].
      apply list_elem_of_In, in_prod; apply list_elem_of_In; [done|apply codes_all].
  - destruct relay_registry_ok as [E Hnd]. eexists _, _. split; [exact E|]. split; [exact Hnd|].
    intros m. by apply page_contains; [rewrite !elem_of_app; right; left|].
  - destruct consumer_registry_ok as [E Hnd]. eexists _, _. split; [exact E|]. split; [exact Hnd|].
    intros m. split; [|intros He Hr o; by apply read_outcome].
    intros o Ho. apply page_contains; [rewrite !elem_of_app; right; left|].
    eapply (counted_some _ _ _ _ o); [apply outcomes_all|done].
Qed.

End registry.

(** ** A reference instance *)

Definition ref_Collectors : Collectors.
Proof.
  refine {| NewGoCollector := [NewGauge "go_goroutines" "Number of goroutines that currently exist."];
            NewProcessCollector := [NewGauge "process_open_fds" "Number of open file descriptors."];
            measured := λ d, [d_name d +:+ "_count 0"]; gather := λ l, rev l |}.
  - intros l. symmetry. apply Permutation_rev.
  - eexists. vm_compute. reflexivity.
  - intros d Hd. repeat (apply elem_of_cons in Hd as [->|Hd]; [split; [|done]|]); [| |by apply elem_of_nil in Hd].
    + exists "goroutines". by left.
    + exists "open_fds". by right.
  - intros d line ->%list_elem_of_singleton. by eexists.
  - intros d line Hn ->%list_elem_of_singleton. by rewrite no_byte_app, Hn.
Defined.

Section examples.
#[local] Existing Instance ref_Collectors.

(** A million and a half duplicates, printed with an exponent. *)
Definition ex_counts : Consumer.Metrics :=
  Consumer.mkMetrics (λ o, match o with OutcomeDuplicate => 1500000 | OutcomeProcessed => 7 | _ => 0 end)%Z 1500007 0.

#[local] Existing Instances ref_Clock ref_FastAPI.
#[local] Instance ex_Time_ns : Time_ns Z := {| time_ns := λ w, (1700000000000000000 + w)%Z |}.
#[local] Instance ex_PrometheusClient : PrometheusClient.
Proof.
  refine {| generate_latest := λ reg m,
    foldr (λ d out, "# HELP " +:+ d_name d +:+ " " +:+ d_help d +:+ String newline out) "" reg |}.
  intros reg m d Hd _ _. induction reg as [|d' reg IH]; [by apply elem_of_nil in Hd|].
  apply elem_of_cons in Hd as [->|Hd]; cbn [foldr].
  - exists "". eexists. rewrite str_app_nil_l. reflexivity.
  - destruct (IH Hd) as (a & b & E). rewrite E.
    exists ("# HELP " +:+ d_name d' +:+ " " +:+ d_help d' +:+ String newline a), b.
    by rewrite <- !str_app_assoc, str_app_cons.
Defined.

Example ex_page :
  page relay_own (relay_samples (Relay.mkMetrics 3 0 (Some 2%Z))) =
  lines_text
    ["# HELP parcellab_outbox_poll_duration_seconds Time spent per relay poll, including publishing.";
     "# TYPE parcellab_outbox_poll_duration_seconds histogram";
     "parcellab_outbox_poll_duration_seconds_count 0";
     "# HELP parcellab_outbox_pending_events Outbox events not yet published, as of the last poll.";
     "# TYPE parcellab_outbox_pending_events gauge";
     "parcellab_outbox_pending_events 2";
     "# HELP parcellab_outbox_publish_failures_total Outbox publish attempts that failed (the event stays pending).";
     "# TYPE parcellab_outbox_publish_failures_total counter";
     "parcellab_outbox_publish_failures_total 0";
     "# HELP parcellab_outbox_published_total Outbox events acknowledged by Kafka and marked published.";
     "# TYPE parcellab_outbox_published_total counter";
     "parcellab_outbox_published_total 3"].
Proof. vm_compute. reflexivity. Qed.

(** The counts, read off the page, and the page of the pricing service. *)
Lemma smoke_series_are_registered_witness :
  ∃ m reg, consumer_registry = Some (m, reg) ∧
    read_series (outcome_prefix "duplicate") (Split newline (page reg (consumer_samples ex_counts))) = Ok (float_of 1500000) ∧
    read_series (outcome_prefix "conflict") (Split newline (page reg (consumer_samples ex_counts))) = Ok (float_of 0) ∧
    Contains (rs_body (correlate (generate_latest Metrics_new) (mkSettings 0 "INFO")
      (mkPyRequest "GET" "/metrics" "" []) 0%Z zero_QuoteMetrics).1.1) "pricing_quotes_total" = true.
Proof.
  assert (∀ o, exact_count (mt_events ex_counts o)) as He by (intros []; vm_compute; split; congruence).
  assert (exact_count (mt_retries ex_counts)) as Hr by (vm_compute; split; congruence).
  destruct (smoke_series_are_registered (W := Z) (read_smokeConfig (NewEnvFrom ∅)).1)
    as (_ & _ & _ & (m & reg & E & _ & H) & Hp).
  exists m, reg. split; [exact E|].
  split; [exact (proj2 (H ex_counts) He Hr OutcomeDuplicate)|].
  split; [exact (proj2 (H ex_counts) He Hr OutcomeConflict)|].
  destruct (Hp (mkSettings 0 "INFO") (mkPyRequest "GET" "/metrics" "" []) 0%Z zero_QuoteMetrics eq_refl eq_refl)
    as (resp & -> & _ & Hc). exact Hc.
Defined.

End examples.
