(* ===== verification/Stack.v ===== *)
(** * The smoke test against the modelled program

    A stack in one process: the service of ShipmentApi behind the dispatch of Grpc,
    priced by PricingService through the client of Pricing, the relay and the
    consumer on one database and one topic, and pages of metrics.
    The smoke test runs against it from [main], and passes. *)
From S2P Require Import Prelude GoErrors GoStrconv GoStrings GoUtf8 Json GoTime GoDuration GoContext Observability Domain Events Jsonb Database Storage Broker Relay Pricing PricingService Consumer ShipmentApi Grpc Config App Smoke SmokeFacts Registry.

(** ** The world *)

(** What is outside the database. *)
Record Outside := mkOutside {
  ou_now : Z;
  ou_topic : list KRecord;
  (** The consumer's committed offset, and its counters. *)
  ou_offset : nat;
  ou_events : Consumer.Metrics;
  (** The counters of the pricing service. *)
  ou_quotes : PricingService.Metrics;
  ou_out : list string
}.

(** The relay and the consumer work during every call, or only while the test
    sleeps; the test looks at a clock of its own. *)
Record Stack := mkStack { sk_now : Z; sk_eager : bool; sk_st : St Outside }.

Definition on_topic (f : list KRecord → list KRecord) (o : Outside) : Outside :=
  mkOutside (ou_now o) (f (ou_topic o)) (ou_offset o) (ou_events o) (ou_quotes o) (ou_out o).
Definition say_outside (line : string) (o : Outside) : Outside :=
  mkOutside (ou_now o) (ou_topic o) (ou_offset o) (ou_events o) (ou_quotes o) (ou_out o ++ [line]).
Definition at_time (t : Z) (o : Outside) : Outside :=
  mkOutside (Z.max t (ou_now o)) (ou_topic o) (ou_offset o) (ou_events o) (ou_quotes o) (ou_out o).
Definition outside (s : Stack) : Outside := st_ext (sk_st s).

Section stack.
#[local] Existing Instances ref_PgScan ref_Pgconn ref_GrpcStatus ref_GoMap ref_FastAPI ref_Collectors.

Definition Outside_Clock : Clock Outside.
Proof.
  refine {| now := ou_now; wait_until := at_time; pick_done := λ _, true |}; intros; cbn; lia.
Defined.
#[local] Existing Instance Outside_Clock.
#[local] Instance Outside_Kgo : Kgo Outside := {|
  kclient := (); NewClient := λ _ o, (Ok (), o); client_Ping := λ _ _ o, (None, o); client_Close := λ _ o, o;
  ProduceSync := λ _ _ rec o, (None, on_topic (λ l, l ++ [rec]) o) |}.
#[local] Instance Outside_Rand : Rand Outside := ref_Rand Outside.
#[local] Instance Outside_Wall : WallClock Outside := {| wall_now := λ o, (mkTime 1700000000 123456000 7200, o) |}.

(** The pricing service, and the service's client of it. *)
Definition quotes_page (m : PricingService.Metrics) : string :=
  "pricing_quotes_total{outcome=" +:+ str1 GoUtf8.quote +:+ "ok" +:+ str1 GoUtf8.quote +:+ "} " +:+ Itoa (quotes_ok m) +:+ ".0" +:+ nl.
Definition pricing_base : string := "http://pricing:8000".
#[local] Instance Outside_Time_ns : Time_ns Outside := {| time_ns := λ o, (1700000000000000000 + ou_now o)%Z |}.

Definition with_quotes (m : PricingService.Metrics) (o : Outside) : Outside :=
  mkOutside (ou_now o) (ou_topic o) (ou_offset o) (ou_events o) m (ou_out o).

Definition ask_pricing (ctx : Context) (req : HttpRequest) (o : Outside) : res Response * Outside :=
  let (r, n) := deliver quotes_page (mkSettings 0 "INFO") pricing_base ctx req (mkNet o (ou_quotes o)) in
  (r, with_quotes (net_quotes n) (net_w n)).

#[local] Instance Outside_Http : Http Outside := {|
  response := Response; StatusCode := rs_status_code; Status := λ r, Itoa (rs_status_code r);
  NewRequest_err := λ _, None; http_Do := ask_pricing;
  ReadAll_limit := λ _ limit r o, (Ok (String.substring 0 (Z.to_nat limit) (rs_body r)), o);
  Body_Close := λ _ o, o |}.
#[local] Instance Outside_Pricer : Pricer Outside :=
  client_Pricer (mkClient pricing_base 2000000000) (Pricing.mkMetrics (λ _, 0%Z) 0).
#[local] Instance Outside_Pool : Pool Outside := ref_Pool Outside (mkTime 1700000100 0 0).

(** ** The services *)

Definition the_publisher : Broker.Publisher Outside := mkPublisher (() : kclient (W := Outside)) 5.

(** One poll of the relay. *)
Definition relay_once (st : St Outside) : St Outside :=
  let IPb := kafka_PublisherI the_publisher in
  (outbox_ProcessPending Background 10 publishBatch st).2.

(** The records after the committed offset, each handled and committed; a failure
    leaves the rest. *)
Fixpoint consume_all (recs : list KRecord) (st : St Outside) : St Outside :=
  match recs with
  | [] => st
  | rec :: recs =>
      let o := st_ext st in
      match Handle (mkRetryPolicy 3 0) Background (mkRecord 0 (Z.of_nat (ou_offset o)) (k_Value rec)) st (ou_events o) with
      | Some (_, None, st, m) =>
          let o := st_ext st in
          consume_all recs (mkSt (mkOutside (ou_now o) (ou_topic o) (S (ou_offset o)) m (ou_quotes o) (ou_out o)) (st_db st))
      | _ => st
      end
  end.

Definition background (s : Stack) : Stack :=
  let st := relay_once (sk_st s) in
  mkStack (sk_now s) (sk_eager s) (consume_all (drop (ou_offset (st_ext st)) (ou_topic (st_ext st))) st).

(** A call takes a nanosecond. *)
Definition tick (s : Stack) : Stack :=
  let s := mkStack (sk_now s + 1) (sk_eager s) (sk_st s) in
  if sk_eager s then background s else s.

Definition ask {A} (f : St Outside → A * St Outside) (s : Stack) : A * Stack :=
  let s := tick s in
  let (a, st) := f (sk_st s) in (a, mkStack (sk_now s) (sk_eager s) st).

(** ** The interfaces of the test *)

Definition sleep_until (t : Z) (s : Stack) : Stack :=
  background (mkStack (Z.max t (sk_now s)) (sk_eager s) (sk_st s)).

Definition Stack_Clock : Clock Stack.
Proof.
  refine {| now := sk_now; wait_until := sleep_until; pick_done := λ _, true |}; intros; cbn; lia.
Defined.
#[local] Existing Instance Stack_Clock.

Definition metadata (oc : OutgoingContext) : option (gmap string (list string)) :=
  Some (list_to_map ((λ p, (p.1, [p.2])) <$> oc_metadata oc)).

#[local] Instance Stack_ClientConn : ClientConn Stack := {|
  conn := string;
  grpc_NewClient := λ addr s, (Ok addr, s);
  conn_Close := λ _ s, s;
  Invoke := λ _ oc m req,
    ask (λ st, (serve_call (metadata oc) "abcdefgh" m Background (Ok req) st (ShipmentApi.mkMetrics (λ _ _, 0%Z) (λ _, 0%Z) [])).1);
  Health_Check := λ _ _ _, ask (λ st, (Ok HEALTH_SERVING, st));
  HealthStatus_String := Itoa |}.

(** The consumer's own page. *)
Definition consumer_page (m : Consumer.Metrics) : string :=
  match consumer_registry with Some (_, reg) => Registry.page reg (consumer_samples m) | None => "" end.

Definition targets_page : string :=
  let s text := JStr text in
  json_print (JObj [("data", JObj [("activeTargets", JArr
    [JObj [("labels", JObj [("job", s "relay")]); ("health", s "up")];
     JObj [("labels", JObj [("job", s "consumer")]); ("health", s "unknown")]])])]).

Definition page (url : string) (o : Outside) : string :=
  if bool_decide (url = "http://dispatch-consumer:8080/metrics") then consumer_page (ou_events o)
  else if bool_decide (url = "http://prometheus:9090/api/v1/targets?state=active") then targets_page
  else "parcellab_grpc_requests_total parcellab_pricing_requests_total parcellab_outbox_published_total".

Definition answer_url (ctx : Context) (req : HttpRequest) (o : Outside) : res Response * Outside :=
  match strip pricing_base (hr_url req) with
  | Some _ => ask_pricing ctx req o
  | None => (Ok (mkResponse 200 (page (hr_url req) o) []), o)
  end.

#[local] Instance Stack_Http : Http Stack := {|
  response := Response; StatusCode := rs_status_code; Status := λ r, Itoa (rs_status_code r);
  NewRequest_err := λ _, None; http_Do := λ ctx req, ask (on_ext (answer_url ctx req));
  ReadAll_limit := λ _ _ r s, (Ok (rs_body r), s); Body_Close := λ _ s, s |}.

#[local] Instance Stack_Kgo : Kgo Stack := {|
  kclient := (); NewClient := λ _ s, (Ok (), s); client_Ping := λ _ _ s, (None, s); client_Close := λ _ s, s;
  ProduceSync := λ _ _ rec, ask (on_ext (λ o, (None, on_topic (λ l, l ++ [rec]) o))) |}.

Definition fetched (l : list KRecord) : list Fetched := imap (λ i rec, mkFetched rec 0 (Z.of_nat i)) l.

#[local] Instance Stack_KafkaReader : KafkaReader Stack := {|
  kreader := (); reader_New := λ _ _ s, (Ok (), s); reader_Close := λ _ s, s;
  PollFetches := λ _ _ s, ask (λ st, ((false, fetched (ou_topic (st_ext st))), st)) (sleep_until (sk_now s + 1) s) |}.

#[local] Instance Stack_Stdout : Stdout Stack := {|
  stdout_write := λ line s, mkStack (sk_now s) (sk_eager s) (mkSt (say_outside line (outside s)) (st_db (sk_st s))) |}.
#[local] Instance Stack_Wall : WallClock Stack := {| wall_now := λ s, (mkTime 1700000000 123456000 7200, s) |}.
#[local] Instance Stack_Writer : LogWriter Stack := {| write_line := λ _ s, (None, s) |}.

Lemma ask_time {A} (f : St Outside → A * St Outside) s : (sk_now (ask f s).2 = sk_now s + 1)%Z.
Proof. unfold ask, tick. cbn. destruct (sk_eager s); cbn; by destruct (f _). Qed.

Lemma Stack_laws : smoke_laws (W := Stack).
Proof.
  split; intros; cbn -[ask]; rewrite ?ask_time; cbn; lia.
Qed.

(** ** Runs *)

Definition fresh (eager : bool) : Stack := mkStack 0 eager (mkSt (mkOutside 0 [] 0 zero_Metrics zero_QuoteMetrics []) empty_DB).

Definition verdict (eager : bool) (timeout : string) (fuel : nat) : option (Z * list string) :=
  match smoke_main fuel Background (NewEnvFrom {[ "SMOKE_STEP_TIMEOUT" := timeout ]}) (fresh eager) with
  | Some (status, s) => Some (status, ou_out (outside s))
  | None => None
  end.

(** The passed run, with services that are quick and with services that work only
    while the test waits. *)
Example stack_passes :
  (λ eager, fst <$> verdict eager "45s" 10) <$> [true; false] = [Some 0%Z; Some 0%Z].
Proof. vm_compute. reflexivity. Qed.

Example stack_report :
  (λ r, List.nth 7 r.2 "") <$> verdict false "45s" 10 =
    Some (passed_text 7 "replaying the event creates no second dispatch"
            "duplicate counter 0 -> 1, dispatch still dsp_3031323334353637").
Proof. vm_compute. reflexivity. Qed.

(** A timeout of zero is refused, and when it ends before the relay got to run the
    test fails at the topic. *)
Example stack_times_out : fst <$> verdict false "0s" 10 = Some 1%Z ∧ fst <$> verdict false "1ns" 10 = Some 1%Z.
Proof. split; vm_compute; reflexivity. Qed.

Lemma smoke_verdict_witness :
  let env := NewEnvFrom {[ "SMOKE_STEP_TIMEOUT" := "1us" ]} in
  ∃ s cc st, smoke_main 1001 Background env (fresh true) = Some (0%Z, s) ∧
    evidence (read_smokeConfig env).1 cc st 0 (sk_now s).
Proof.
  intros env.
  destruct (smoke_verdict 1001 Background env (fresh true) Stack_laws) as (status & s & E & _ & He).
  - apply (bool_decide_unpack _). vm_compute. exact I.
  - assert (status = 0%Z) as ->.
    { apply (f_equal (fmap fst)) in E. vm_compute in E. congruence. }
    destruct (He eq_refl) as (cc & st & H). exists s, cc, st. split; [exact E|exact H].
Defined.

End stack.
