(* ===== verification/Binaries.v ===== *)
(** * src/cmd: the service, the relay, the consumer, the migrator and replay

    Each binary reads its configuration, opens what it needs, defers the
    cleanups, and runs its main loop beside the management server.  [deferred]
    is Go's [defer]; what ends a [select] is decided by the moments at which its
    channels become ready.  The world is the [St] of the Store; the libraries
    behind it work on its outer part. *)
From S2P Require Import Prelude GoErrors GoStrconv GoStrings GoUtf8 GoTime GoDuration GoContext Observability Domain Events Jsonb Database Storage Migrate Broker Relay Pricing Consumer ShipmentApi Config App.

(** ** Configurations *)

Record relayConfig := mkrelayConfig {
  rc_MgmtAddr : string;
  rc_DatabaseURL : string;
  rc_Publisher : PublisherConfig;
  rc_Relay : Relay.Config
}.

Definition relayConfig_Validate (c : relayConfig) : option goerr :=
  match PublisherConfig_Validate (rc_Publisher c) with
  | Some err => Some err
  | None => Relay.Config_Validate (rc_Relay c)
  end.

Definition read_relayConfig (e : Env) : relayConfig * Env :=
  let mgmt := env_String "MGMT_ADDR" ":8080" e in
  let dsn := env_DatabaseURL e in
  let brokers := env_Brokers e in
  let (delivery, e) := env_Duration "RELAY_PUBLISH_TIMEOUT" (10 * Second) e in
  let (poll, e) := env_Duration "RELAY_POLL_INTERVAL" (500 * Millisecond) e in
  let (batch, e) := env_Int "RELAY_BATCH_SIZE" 100 e in
  (mkrelayConfig mgmt dsn (mkPublisherConfig brokers delivery) (Relay.mkConfig poll batch), e).

Record consumerConfig := mkconsumerConfig {
  cc_MgmtAddr : string;
  cc_DatabaseURL : string;
  cc_Consumer : Consumer.Config
}.

Definition read_consumerConfig (e : Env) : consumerConfig * Env :=
  let mgmt := env_String "MGMT_ADDR" ":8080" e in
  let dsn := env_DatabaseURL e in
  let brokers := env_Brokers e in
  let (record, e) := env_Duration "CONSUMER_RECORD_TIMEOUT" (15 * Second) e in
  let (attempts, e) := env_Int "CONSUMER_MAX_ATTEMPTS" 5 e in
  let (backoff, e) := env_Duration "CONSUMER_BACKOFF" (500 * Millisecond) e in
  (mkconsumerConfig mgmt dsn (Consumer.mkConfig brokers (mkRetryPolicy attempts backoff) record), e).

Record serviceConfig := mkserviceConfig {
  sc_GRPCAddr : string;
  sc_MgmtAddr : string;
  sc_DatabaseURL : string;
  sc_PricingURL : string;
  sc_PricingTimeout : Z
}.

Definition serviceConfig_Validate (c : serviceConfig) : option goerr :=
  if (sc_PricingTimeout c <=? 0)%Z then Some (errorf ("PRICING_TIMEOUT " +:+ Duration_String (sc_PricingTimeout c) +:+ ": must be positive")) else None.

Definition read_serviceConfig (e : Env) : serviceConfig * Env :=
  let grpc := env_String "GRPC_ADDR" ":50051" e in
  let mgmt := env_String "MGMT_ADDR" ":8080" e in
  let dsn := env_DatabaseURL e in
  let pricing := env_String "PRICING_URL" "http://pricing:8000" e in
  let (timeout, e) := env_Duration "PRICING_TIMEOUT" (2 * Second) e in
  (mkserviceConfig grpc mgmt dsn pricing timeout, e).

(** The time of the first failure that stops start-up: [Env.Err], then
    [Validate]. *)
Definition config_error (env : Env) (invalid : option goerr) : option goerr :=
  match env_Err env with Some err => Some err | None => invalid end.

(** ** defer and select *)

Section defer.
Context {S : Type}.

Definition deferred {A} (cleanup : S → S) (body : S → option (A * S)) (s : S) : option (A * S) :=
  match body s with
  | Some (a, s) => Some (a, cleanup s)
  | None => None
  end.

End defer.

(** The case of a [select] that becomes ready first; among those that do at the
    same moment [tie] decides. *)
Definition earliest {A} (l : list (Z * A)) : option (Z * list A) :=
  foldr (λ p acc,
    match acc with
    | None => Some (p.1, [p.2])
    | Some (t, as_) =>
        if (p.1 <? t)%Z then Some (p.1, [p.2])
        else if (p.1 =? t)%Z then Some (t, p.2 :: as_) else Some (t, as_)
    end) None l.

(** google.golang.org/grpc, serving side, over a listener of [Network]. *)
Class GrpcServer (W : Type) := {
  (** Requests are served up to the moment. *)
  serve_until : Z → W → W;
  (** When the requests in flight are done, if they ever are. *)
  in_flight_done : W → option Z;
  finish_graceful : W → W;
  grpc_Stop : W → W;
  health_Serving : W → W;
  health_Shutdown : W → W;
  tie : W → nat
}.

(** The database a migrator's connection works on, next to the rest. *)
Class MigratorWorld (W S : Type) := {
  mig_acquire : Context → W → Conn S;
  mig_release : Conn S → W → W
}.

(** A part of the world as the whole. *)
Definition ext_only {W A} (f : W → option (A * W)) (st : St W) : option (A * St W) :=
  match f (st_ext st) with
  | Some (a, w) => Some (a, mkSt w (st_db st))
  | None => None
  end.
Definition ext_do {W} (f : W → W) (st : St W) : St W := mkSt (f (st_ext st)) (st_db st).

#[export] Instance St_Ledger {W} {IL : Ledger W} : Ledger (St W) := {| held := λ st, held (st_ext st) |}.

Section binaries.
Context {IJ : Jsonb} {IS : PgScan} {IP : Pgconn} {W : Type} {IC : Clock W} {IW : LogWriter W}
  {IX : Pgxpool W} {IN : Network W} {IK : Kgo W} {IM : GoMap} {IR : Rand W}
  (IPool : pgpool → Pool W) (metrics_page : W → Response * W).

Definition ready_check (store : Store W) : ReadinessCheck W := App.Ping store.

(** The part every server process shares: the Store, open as long as the rest
    runs, and the management server. *)
Definition with_store {A} (ctx : Context) (dsn : string) (rest : Store W → St W → option (option goerr * A * St W))
    (none : A) (st : St W) : option (option goerr * A * St W) :=
  match ext_only (OpenStore ctx dsn) st with
  | None => None
  | Some (Err err, st) => Some (Some err, none, st)
  | Some (Ok store, st) => deferred (ext_do (pool_Close (st_pool store))) (rest store) st
  end.

Definition with_management {A} (ctx : Context) (addr : string) (grace : Z) (store : Store W)
    (rest : Management W → St W → option (option goerr * A * St W)) (none : A) (st : St W)
    : option (option goerr * A * St W) :=
  match on_ext (ListenManagement ctx addr (ready_check store) metrics_page) st with
  | (Err err, st) => Some (Some err, none, st)
  | (Ok mgmt, st) => deferred (ext_do (shutdownManagement ctx grace mgmt)) (rest mgmt) st
  end.

(** [select { case err := <-runErr; case err := <-mgmt.Failed() }] around a loop
    started with a context that [stopRun] cancels: when the management server
    fails first the loop is stopped and waited for. *)
Definition run_beside {A} (mgmt : Management W) (loop : Context → St W → option (option goerr * A * St W))
    (ctx : Context) (st : St W) : option (option goerr * A * St W) :=
  match loop (cancelled_at (fst <$> mg_failed mgmt) ctx) st with
  | None => None
  | Some (err, a, st) =>
      Some (match mg_failed mgmt with
            | Some (t, failure) =>
                if (t <? now st)%Z || ((t =? now st)%Z && pick_done st) then Some failure else err
            | None => err
            end, a, st)
  end.

(** ** cmd/outbox-relay *)

Definition relay_shutdownGrace : Z := 5 * Second.
Definition kafkaWait : Z := 24 * 60 * Minute.

(** One attempt to reach Kafka, after a look at the backlog. *)
Definition connect_publisher (store : Store W) (cfg : PublisherConfig) (ctx : Context) (s : St W * Relay.Metrics)
    : res (Broker.Publisher W) * (St W * Relay.Metrics) :=
  let (m, st) := let IPo := IPool (st_pool store) in ObserveBacklog ctx s.1 s.2 in
  let (p, st) := on_ext (NewPublisher ctx cfg) st in
  (p, (st, m)).

Definition relay_loop (fuel : nat) (cfg : relayConfig) (store : Store W) (p : Broker.Publisher W) (m : Relay.Metrics)
    (ctx : Context) (st : St W) : option (option goerr * Relay.Metrics * St W) :=
  let IPo := IPool (st_pool store) in
  let IPb := kafka_PublisherI p in
  match Relay.Run fuel (rc_Relay cfg) ctx st m with
  | (Some _, _, _) => None
  | (None, st, m) => Some (None, m, st)
  end.

Definition relay_main (fuel : nat) (ctx : Context) (cfg : relayConfig) (store : Store W) (mgmt : Management W)
    (st : St W) : option (option goerr * Relay.Metrics * St W) :=
  match Retry_assign ctx "kafka" kafkaWait (connect_publisher store (rc_Publisher cfg)) (st, Relay.mkMetrics 0 0 None) with
  | None => None
  | Some (Err err, (st, m)) => Some (Some err, m, st)
  | Some (Ok publisher, (st, m)) =>
      deferred (ext_do (client_Close (p_client publisher)))
        (run_beside mgmt (relay_loop fuel cfg store publisher m) ctx) st
  end.

Definition relay_run (fuel : nat) (ctx : Context) (a : App) (st : St W) : option (option goerr * Relay.Metrics * St W) :=
  let zero := Relay.mkMetrics 0 0 None in
  let (cfg, env) := read_relayConfig (app_Env a) in
  match config_error env (relayConfig_Validate cfg) with
  | Some err => Some (Some err, zero, st)
  | None =>
      with_store ctx (rc_DatabaseURL cfg) (λ store,
        with_management ctx (rc_MgmtAddr cfg) relay_shutdownGrace store (relay_main fuel ctx cfg store) zero) zero st
  end.

(** ** cmd/dispatch-consumer *)

Section consumer_main.
Context {IKC : KafkaConsumer (St W)}.

Definition consumer_loop (fuel : nat) (cfg : Consumer.Config) (store : Store W) (ctx : Context) (st : St W)
    : option (option goerr * Consumer.Metrics * St W) :=
  let IPo := IPool (st_pool store) in
  match Consumer.Run fuel cfg ctx st Consumer.zero_Metrics with
  | Some (inl err, st, m) => Some (err, m, st)
  | _ => None
  end.

Definition consumer_main (fuel : nat) (ctx : Context) (cfg : consumerConfig) (store : Store W) (mgmt : Management W)
    (st : St W) : option (option goerr * Consumer.Metrics * St W) :=
  match ext_only (Config.Retry ctx "kafka" kafkaWait (λ ctx, Broker.Ping ctx (Consumer.Brokers (cc_Consumer cfg)))) st with
  | None => None
  | Some (Some err, st) => Some (Some err, Consumer.zero_Metrics, st)
  | Some (None, st) => run_beside mgmt (consumer_loop fuel (cc_Consumer cfg) store) ctx st
  end.

Definition consumer_run (fuel : nat) (ctx : Context) (a : App) (st : St W)
    : option (option goerr * Consumer.Metrics * St W) :=
  let (cfg, env) := read_consumerConfig (app_Env a) in
  match config_error env (Consumer.Config_Validate (cc_Consumer cfg)) with
  | Some err => Some (Some err, Consumer.zero_Metrics, st)
  | None =>
      with_store ctx (cc_DatabaseURL cfg) (λ store,
        with_management ctx (cc_MgmtAddr cfg) relay_shutdownGrace store (consumer_main fuel ctx cfg store)
          Consumer.zero_Metrics) Consumer.zero_Metrics st
  end.

End consumer_main.

(** ** cmd/shipment-service *)

Section service_main.
Context {IG : GrpcServer W}.

Definition service_shutdownGrace : Z := 10 * Second.

(** [gracefulStop]: the requests in flight finish, or are cut off when the
    context ends.  It is called with a [ShutdownContext] only, which always
    ends, so that the last case, a wait forever, does not arise. *)
Definition gracefulStop (ctx : Context) (w : W) : W :=
  match in_flight_done w, ctx_done ctx with
  | Some td, Some (tc, _) =>
      if (td <? tc)%Z || ((td =? tc)%Z && negb (pick_done w)) then finish_graceful (wait_until td w)
      else grpc_Stop (wait_until tc w)
  | Some td, None => finish_graceful (wait_until td w)
  | None, Some (tc, _) => grpc_Stop (wait_until tc w)
  | None, None => w
  end.

Definition service_stop (ctx : Context) (w : W) : W :=
  let w := health_Shutdown w in
  gracefulStop (ShutdownContext ctx service_shutdownGrace w) w.

(** What the last [select] of [run] waits for, with the moment each comes. *)
Definition service_cases (ctx : Context) (lis : listener) (mgmt : Management W) : list (Z * option goerr) :=
  (match ctx_done ctx with Some (t, _) => [(t, None)] | None => [] end) ++
  (match Serve_ends lis with Some (t, err) => [(t, Some (wrapf "gRPC server: " err))] | None => [] end) ++
  (match mg_failed mgmt with Some (t, err) => [(t, Some err)] | None => [] end).

(** [None] when the process serves forever. *)
Definition service_select (ctx : Context) (lis : listener) (mgmt : Management W) (w : W) : option (option goerr * W) :=
  match earliest (service_cases ctx lis mgmt) with
  | None => None
  | Some (t, results) =>
      let w := serve_until t w in
      Some (default None (results !! (tie w mod length results)), w)
  end.

Definition service_main (ctx : Context) (cfg : serviceConfig) (mgmt : Management W) (st : St W)
    : option (option goerr * () * St W) :=
  match on_ext (Listen (sc_GRPCAddr cfg)) st with
  | (Err err, st) => Some (Some (wrapf ("listen gRPC " +:+ sc_GRPCAddr cfg +:+ ": ") err), (), st)
  | (Ok lis, st) =>
      deferred (ext_do (service_stop ctx))
        (λ st, match ext_only (service_select ctx lis mgmt) (ext_do health_Serving st) with
               | Some (err, st) => Some (err, (), st)
               | None => None
               end) st
  end.

Definition service_run (ctx : Context) (a : App) (st : St W) : option (option goerr * () * St W) :=
  let (cfg, env) := read_serviceConfig (app_Env a) in
  match config_error env (serviceConfig_Validate cfg) with
  | Some err => Some (Some err, (), st)
  | None =>
      with_store ctx (sc_DatabaseURL cfg) (λ store,
        with_management ctx (sc_MgmtAddr cfg) service_shutdownGrace store (service_main ctx cfg) ()) () st
  end.

End service_main.

(** ** cmd/migrate *)

Section migrate_main.
Context {Sch : Type} (apply : string → Sch → res Sch) (files : gmap string string) {IMW : MigratorWorld W Sch}.

Definition migrate_main (ctx : Context) (a : App) (st : St W) : option (option goerr * () * St W) :=
  let dsn := env_DatabaseURL (app_Env a) in
  match env_Err (app_Env a) with
  | Some err => Some (Some err, (), st)
  | None =>
      with_store ctx dsn (λ _ st,
        let (r, c) := Migrate apply files (mig_acquire ctx (st_ext st)) in
        Some (err_of r, (), ext_do (mig_release c) st)) () st
  end.

End migrate_main.

(** ** cmd/replay *)

(** [os.Args] after the name of the program; any other number of arguments, or
    an empty one, is a usage error with status 2. *)
Definition replay_args (args : list string) : option string :=
  match args with
  | [id] => if bool_decide (id = "") then None else Some id
  | _ => None
  end.

Definition read_replayConfig (e : Env) : PublisherConfig * Env :=
  let brokers := env_Brokers e in
  let (delivery, e) := env_Duration "RELAY_PUBLISH_TIMEOUT" (10 * Second) e in
  (mkPublisherConfig brokers delivery, e).

(** Reading the event again and publishing it, with the message that went out. *)
Definition replay_event (ctx : Context) (cfg : PublisherConfig) (store : Store W) (id : string) (st : St W)
    : option (option goerr * option Message * St W) :=
  let IPo := IPool (st_pool store) in
  match GetOutboxEvent id st with
  | (Err err, st) => Some (Some (wrapf "load event: " err), None, st)
  | (Ok evt, st) =>
      match MessageFor evt with
      | Err err => Some (Some (wrapf "event is not publishable: " err), None, st)
      | Ok msg =>
          match on_ext (NewPublisher ctx cfg) st with
          | (Err err, st) => Some (Some err, None, st)
          | (Ok publisher, st) =>
              deferred (ext_do (client_Close (p_client publisher)))
                (λ st, let (err, st) := on_ext (Broker.Publish publisher ctx msg) st in Some (err, Some msg, st)) st
          end
      end
  end.

(** [errors.Join(a.Env.Err(), pubCfg.Validate())] reports both. *)
Definition replay_run (id : string) (ctx : Context) (a : App) (st : St W)
    : option (option goerr * option Message * St W) :=
  let dsn := env_DatabaseURL (app_Env a) in
  let (cfg, env) := read_replayConfig (app_Env a) in
  match errors_Join (option_list (env_Err env) ++ option_list (PublisherConfig_Validate cfg)) with
  | Some err => Some (Some err, None, st)
  | None => with_store ctx dsn (λ store, replay_event ctx cfg store id) None st
  end.

End binaries.
