(* ===== verification/Processes.v ===== *)
(** * What the processes keep and release

    The life of each binary as a whole: nothing stays open when it returns, on
    whatever path, a wrong configuration is refused before anything is opened,
    and a replay publishes exactly the stored event.  The laws of the libraries
    ([world_laws]) say which calls open and close what. *)
From S2P Require Import Prelude GoErrors GoStrconv GoStrings GoUtf8 GoTime GoDuration GoContext Observability Domain Events Jsonb Database Storage Migrate Broker Relay Pricing Consumer ShipmentApi Config App Binaries.

Section processes.
Context {IJ : Jsonb} {IS : PgScan} {IP : Pgconn} {W : Type} {IC : Clock W} {IW : LogWriter W}
  {IX : Pgxpool W} {IN : Network W} {IK : Kgo W} {IM : GoMap} {IR : Rand W} {IL : Ledger W}
  (IPool : pgpool → Pool W) (metrics_page : W → Response * W).
Implicit Types (st : St W).

(** What the libraries document: connecting, listening and creating a client
    open something when they succeed, the matching calls close it, and nothing
    else does either. *)
Record world_laws : Prop := mk_world_laws {
  wl_wait t w : held (wait_until t w) = held w;
  wl_rand : quiet_on rand8;
  wl_new_pool ctx cfg : opens RPool (NewWithConfig ctx cfg);
  wl_ping_pool ctx pool : quiet_on (pool_Ping ctx pool);
  wl_close_pool pool : closes RPool (pool_Close pool);
  wl_listen addr : opens RListener (Listen addr);
  wl_shutdown ctx lis : closes RListener (λ w, (http_Shutdown ctx lis w).2);
  wl_new_client brokers : opens RKafka (NewClient brokers);
  wl_ping_client ctx c : quiet_on (client_Ping ctx c);
  wl_close_client c : closes RKafka (client_Close c);
  wl_produce ctx c rec : quiet_on (ProduceSync ctx c rec)
}.

Hypothesis laws : world_laws.

(** A part of a process that leaves open what was open, when it returns. *)
Definition releases {B} (run : St W → option (B * St W)) : Prop :=
  ∀ st b st', run st = Some (b, st') → held st' = held st.

Lemma closes_ext r (f : W → W) : closes r f → closes r (ext_do f : St W → St W).
Proof. intros Hf st h. apply Hf. Qed.

Lemma deferred_releases {B} r cleanup (body : St W → option (B * St W)) st h b st' :
  closes r cleanup → releases body → held st = r :: h →
  deferred cleanup body st = Some (b, st') → held st' = h.
Proof.
  unfold deferred. intros Hc Hb Hst. destruct (body st) as [[b1 st1]|] eqn:E; [|done]. intros [= <- <-].
  apply Hc. by rewrite (Hb _ _ _ E).
Qed.

Lemma Retry_keeps {A} {IC' : Clock A} {IL' : Ledger A} ctx what timeout (fn : Context → A → option goerr * A) w r w' :
  (∀ t w, held (wait_until t w) = held w) → (∀ ctx, quiet_on (fn ctx)) →
  Config.Retry ctx what timeout fn w = Some (r, w') → held w' = held w.
Proof.
  intros Hw Hfn E. unfold Config.Retry in E.
  eapply (retry_loop_inv (λ s, held s = held w) (λ s, held s = held w)) in E; [by destruct r| | |done].
  - intros c s Hs. specialize (Hfn c s). destruct (fn c s) as [[?|] ?]; cbn in Hfn; congruence.
  - intros t s Hs. by rewrite Hw.
Qed.

Lemma Retry_assign_keeps {A X} {IC' : Clock A} {IL' : Ledger A} rs ctx what timeout
    (fn : Context → A → res X * A) w x w' :
  (∀ t w, held (wait_until t w) = held w) → (∀ ctx, opens rs (fn ctx)) →
  Retry_assign ctx what timeout fn w = Some (x, w') → held w' = if is_ok x then rs :: held w else held w.
Proof.
  intros Hw Hfn. unfold Retry_assign, Config.Retry.
  destruct (retry_loop _ _ _ _ _ _) as [[err [w1 y]]|] eqn:E; [|done]. cbn.
  eapply (retry_loop_inv (λ s, held s.1 = held w ∧ s.2 = None)
    (λ s, held s.1 = rs :: held w ∧ is_Some s.2)) in E; [| | |done].
  - cbn in E. destruct err as [err|]; destruct E as [Eh Ey].
    + by intros [= <- <-].
    + destruct Ey as [z ->]. by intros [= <- <-].
  - intros c [w2 y2] [Hh Hy]. unfold assigning. cbn in *. specialize (Hfn c w2).
    destruct (fn c w2) as [[z|e] w3]; cbn in *; rewrite Hfn, Hh; by split.
  - intros t [w2 y2] [Hh Hy]. cbn in *. by rewrite Hw.
Qed.

Lemma Open_law ctx dsn : opens RPool (Open ctx dsn).
Proof. apply Open_opens; apply laws. Qed.

Lemma with_store_releases {A} ctx dsn (rest : Store W → St W → option (option goerr * A * St W)) none :
  (∀ store, releases (rest store)) → releases (with_store ctx dsn rest none).
Proof.
  intros Hr st b st'. unfold with_store, ext_only, OpenStore.
  destruct (Retry_assign _ _ _ _ (st_ext st)) as [[r w]|] eqn:E; [|done].
  apply Retry_assign_keeps with (rs := RPool) in E; [|apply laws|intros c; apply Open_law].
  destruct r as [pool|err]; cbn in E.
  - intros Hd. eapply (deferred_releases RPool _ _ (mkSt w (st_db st))); [|apply Hr|exact E|exact Hd].
    apply closes_ext, laws.
  - by intros [= <- <-].
Qed.

Lemma with_management_releases {A} ctx addr grace store (rest : Management W → St W → option (option goerr * A * St W)) none :
  (∀ mgmt, releases (rest mgmt)) → releases (with_management metrics_page ctx addr grace store rest none).
Proof.
  intros Hr st b st'. unfold with_management, on_ext, ListenManagement.
  pose proof (wl_listen laws addr (st_ext st)) as Hl. destruct (Listen addr (st_ext st)) as [[lis|err] w]; cbn in *.
  - intros Hd. eapply (deferred_releases RListener _ _ (mkSt w (st_db st))); [|apply Hr|exact Hl|exact Hd].
    apply closes_ext.
    intros w0 h Hh. unfold shutdownManagement, Management_Shutdown. cbn. by apply laws.
  - by intros [= <- <-].
Qed.

Lemma run_beside_releases {A} mgmt (loop : Context → St W → option (option goerr * A * St W)) ctx :
  (∀ ctx, releases (loop ctx)) → releases (run_beside mgmt loop ctx).
Proof.
  intros Hl st b st'. unfold run_beside. destruct (loop _ st) as [[[err a] st1]|] eqn:E; [|done].
  intros [= <- <-]. by apply Hl in E.
Qed.

(** *** The Store and its transactions *)

Definition tx_quiet {A} (m : TX W A) : Prop := ∀ t, held (tx_ext (m t).2) = held (tx_ext t).

Lemma tx_quiet_ret {A} (a : A) : tx_quiet (tx_ret a).
Proof. by intros t. Qed.
Lemma tx_quiet_fail {A} e : tx_quiet (@tx_fail W A e).
Proof. by intros t. Qed.
Lemma tx_quiet_bind {A B} (m : TX W A) (f : A → TX W B) :
  tx_quiet m → (∀ a, tx_quiet (f a)) → tx_quiet (tx_bind m f).
Proof.
  intros Hm Hf t. unfold tx_bind. specialize (Hm t). destruct (m t) as [[a|e] t1]; cbn in *; [|done].
  by rewrite Hf.
Qed.
Lemma tx_quiet_map_err {A} f (m : TX W A) : tx_quiet m → tx_quiet (tx_map_err f m).
Proof. intros Hm t. unfold tx_map_err. specialize (Hm t). by destruct (m t). Qed.
Lemma tx_quiet_try {A} (m : TX W A) : tx_quiet m → tx_quiet (tx_try m).
Proof. intros Hm t. unfold tx_try. specialize (Hm t). by destruct (m t). Qed.
Lemma tx_quiet_do {A} (f : W → A * W) : quiet_on f → tx_quiet (tx_do f).
Proof. intros Hf t. unfold tx_do. specialize (Hf (tx_ext t)). by destruct (f (tx_ext t)). Qed.
Lemma tx_quiet_exec {A} (stmt : Stmt A) : tx_quiet (exec stmt).
Proof. intros t. destruct (exec_cases stmt t) as (fs & _ & [(e & -> & _)|(a & db & -> & _)]); done. Qed.

Hint Resolve tx_quiet_ret tx_quiet_fail tx_quiet_bind tx_quiet_map_err tx_quiet_try tx_quiet_do tx_quiet_exec : core.

Lemma BeginFunc_quiet {IPo : Pool W} {A} (body : TX W A) : tx_quiet body → quiet_on (BeginFunc body).
Proof.
  intros Hb st. destruct (BeginFunc body st) as [r st'] eqn:E. cbn.
  apply BeginFunc_cases in E as [(e & _ & -> & _)|(nw & lk & fs & r' & t & _ & Hr & He & _)]; [done|].
  specialize (Hb (mkTx nw lk fs (st_ext st) (st_db st))). rewrite Hr in Hb. cbn in *. by rewrite He.
Qed.

Lemma Query_quiet {IPo : Pool W} {A} (stmt : Stmt A) : quiet_on (Query stmt).
Proof.
  intros st. destruct (Query stmt st) as [r st'] eqn:E. cbn.
  apply Query_cases in E as [(e & _ & -> & _)|(nw & a & _ & _ & He)]; [done|]. by rewrite He.
Qed.

Lemma classified_quiet {A} (f : St W → res A * St W) : quiet_on f → quiet_on (λ st, classified (f st)).
Proof. intros Hf st. exact (Hf st). Qed.

Lemma record_tx_quiet req : tx_quiet (record_tx req).
Proof.
  unfold record_tx. apply tx_quiet_bind; [auto|]. intros rows. case_bool_decide; [auto|].
  apply tx_quiet_bind; [apply tx_quiet_do, laws|]. intros rnd. apply tx_quiet_bind; [auto|].
  intros [at_|e]; [auto|]. destruct (isUniqueViolation e); auto.
Qed.

Lemma publish_loop_quiet {IPb : PublisherI W} ctx batch acc :
  (∀ ctx msg, quiet_on (publish ctx msg)) → quiet_on (publish_loop ctx batch acc).
Proof.
  intros Hp. revert acc. induction batch as [|evt batch IH]; intros acc w; cbn; [done|].
  destruct (MessageFor evt) as [msg|]; [|done].
  match goal with |- context [publish ?c msg w] => specialize (Hp c msg w); destruct (publish c msg w) as [[e|] w1] end;
    cbn in *; [done|]. by rewrite IH.
Qed.

Lemma process_tx_quiet limit (publish : PublishFunc W) :
  (∀ batch, quiet_on (publish batch)) → tx_quiet (process_tx limit publish).
Proof.
  intros Hp. unfold process_tx. apply tx_quiet_bind.
  { intros t. unfold claimPending. apply tx_quiet_bind; auto. }
  intros [|evt batch]; [auto|]. apply tx_quiet_bind; [auto|]. intros result.
  apply tx_quiet_bind; [unfold mark_tx; destruct (pr_Published result); auto|]. intros _.
  apply tx_quiet_bind; [unfold fail_tx; case_bool_decide; auto|auto].
Qed.

Lemma ProcessPending_quiet {IPo : Pool W} limit (publish : PublishFunc W) :
  (∀ batch, quiet_on (publish batch)) → quiet_on (ProcessPending limit publish).
Proof. intros Hp. apply classified_quiet, BeginFunc_quiet, process_tx_quiet, Hp. Qed.

Lemma select_timer_quiet ctx d st : held (select_timer ctx d st).2 = held st.
Proof.
  assert (∀ t st, held (wait_until t st) = held st) as Hw by (intros; apply laws).
  unfold select_timer. repeat case_match; simplify_eq/=; apply laws.
Qed.

(** *** The relay *)

#[local] Instance var_Ledger {X} : Ledger (St W * X) := {| held := λ s, held s.1 |}.

Lemma on_ext_opens {A} r (f : W → res A * W) st :
  opens r f → held (on_ext f st).2 = if is_ok (on_ext f st).1 then r :: held st else held st.
Proof.
  intros Hf. specialize (Hf (st_ext st)). unfold on_ext. by destruct (f (st_ext st)) as [[a|e] w].
Qed.

Lemma NewPublisher_opens ctx cfg : opens RKafka (NewPublisher ctx cfg).
Proof.
  intros w. unfold NewPublisher. destruct (PublisherConfig_Validate cfg); [done|].
  pose proof (wl_new_client laws (pc_Brokers cfg) w) as Hn.
  destruct (NewClient _ w) as [[c|e] w1]; cbn in *; [|done].
  pose proof (wl_ping_client laws ctx c w1) as Hp. destruct (client_Ping ctx c w1) as [[e|] w2]; cbn in *; [|congruence].
  apply (wl_close_client laws c w2). congruence.
Qed.

Lemma Publish_quiet p ctx msg : quiet_on (Broker.Publish p ctx msg).
Proof.
  intros w. unfold Broker.Publish. pose proof (wl_produce laws (WithTimeout ctx (p_timeout p) w) (p_client p) (record_of msg) w).
  by destruct (ProduceSync _ _ _ w).
Qed.

Lemma ObserveBacklog_quiet {IPo : Pool W} ctx st m : held (ObserveBacklog ctx st m).2 = held st.
Proof.
  unfold ObserveBacklog. cbn. unfold CountPending, classified.
  pose proof (Query_quiet count_pending st) as Hq. by destruct (Query count_pending st) as [[n|e] st1].
Qed.

Lemma relay_step_quiet {IPo : Pool W} {IPb : PublisherI W} cfg ctx backoff st m :
  (∀ ctx msg, quiet_on (publish ctx msg)) →
  held (Relay.run_step cfg ctx backoff st m).1.2 = held st.
Proof.
  intros Hp. unfold run_step, poll.
  pose proof (ObserveBacklog_quiet ctx st m) as Ho. destruct (ObserveBacklog ctx st m) as [m1 st1]. cbn [snd] in Ho.
  cbn [outbox_ProcessPending store_Outbox].
  pose proof (ProcessPending_quiet (BatchSize cfg) (publishBatch ctx)
    (λ batch, publish_loop_quiet ctx batch [] Hp) st1) as Hq.
  destruct (ProcessPending _ _ st1) as [r st2]. cbn in Hq.
  destruct (ctx_Err ctx st2); [by cbn; rewrite Hq|].
  destruct (after_poll cfg r backoff) as [[wait b] n]. unfold sleep.
  destruct (wait <=? 0)%Z.
  - destruct (ctx_Err ctx st2); cbn; by rewrite Hq.
  - pose proof (select_timer_quiet ctx wait st2) as Hs. destruct (select_timer ctx wait st2) as [[e|] st3]; cbn in *;
      by rewrite Hs, Hq.
Qed.

Lemma relay_loop_releases fuel cfg store p m ctx : releases (relay_loop IPool fuel cfg store p m ctx).
Proof.
  intros st b st'. unfold relay_loop, Relay.Run. cbv zeta.
  set (IPo := IPool (st_pool store)). set (IPb := kafka_PublisherI p).
  generalize (PollInterval (rc_Relay cfg)) as backoff. revert st m.
  induction fuel as [|fuel IH]; intros st m backoff; cbn [run_loop]; [done|].
  pose proof (relay_step_quiet (rc_Relay cfg) ctx backoff st m (Publish_quiet p)) as Hs.
  destruct (run_step (rc_Relay cfg) ctx backoff st m) as [[[b1|] st1] m1]; cbn in Hs.
  - intros H. rewrite (IH _ _ _ H). exact Hs.
  - intros [= <- <-]. exact Hs.
Qed.

Lemma relay_main_releases fuel ctx cfg store mgmt : releases (relay_main IPool fuel ctx cfg store mgmt).
Proof.
  intros st b st'. unfold relay_main.
  destruct (Retry_assign _ _ _ _ _) as [[r [st1 m1]]|] eqn:E; [|done].
  apply Retry_assign_keeps with (rs := RKafka) in E.
  - destruct r as [p|err]; cbn in E.
    + intros Hd. eapply (deferred_releases RKafka _ _ st1); [| |exact E|exact Hd].
      * apply closes_ext, laws.
      * apply run_beside_releases. intros c. apply relay_loop_releases.
    + by intros [= <- <-].
  - intros t [st0 m0]. apply laws.
  - intros c [st0 m0]. unfold connect_publisher. cbn [fst snd].
    pose proof (@ObserveBacklog_quiet (IPool (st_pool store)) c st0 m0) as Ho.
    destruct (ObserveBacklog c st0 m0) as [m2 st2]. cbn [snd] in Ho.
    pose proof (on_ext_opens RKafka (NewPublisher c (rc_Publisher cfg)) st2 (NewPublisher_opens c _)) as Hn.
    destruct (on_ext _ st2) as [p st3]. cbn in *. by rewrite Hn, Ho.
Qed.

Lemma relay_run_releases fuel ctx a : releases (relay_run IPool metrics_page fuel ctx a).
Proof.
  intros st b st'. unfold relay_run. destruct (read_relayConfig (app_Env a)) as [cfg env].
  destruct (config_error env _); [by intros [= <- <-]|].
  apply with_store_releases. intros store. apply with_management_releases. intros mgmt. apply relay_main_releases.
Qed.

(** *** The consumer *)

Section consumer_releases.
Context {IKC : KafkaConsumer (St W)}.

(** The same of the consuming client. *)
Record consumer_laws : Prop := mk_consumer_laws {
  cl_new cfg st : held (consumer_New cfg st).2 = match (consumer_New cfg st).1 with None => RKafka :: held st | Some _ => held st end;
  cl_ping ctx : quiet_on (A := option goerr) (W := St W) (consumer_Ping ctx);
  cl_poll ctx n : quiet_on (A := Fetches) (W := St W) (PollRecords ctx n);
  cl_commit ctx rec : quiet_on (A := option goerr) (W := St W) (CommitRecords ctx rec);
  cl_allow st : held (AllowRebalance st) = held st;
  cl_close : closes (W := St W) RKafka consumer_Close
}.

Hypothesis claws : consumer_laws.

Lemma RecordDispatch_quiet {IPo : Pool W} req : quiet_on (W := St W) (RecordDispatch req).
Proof. apply classified_quiet, BeginFunc_quiet, record_tx_quiet. Qed.

Lemma attempts_quiet {IPo : Pool W} fuel retry ctx req attempt st m o err st' m' :
  attempts fuel retry ctx req attempt st m = Some (o, err, st', m') → held st' = held st.
Proof.
  revert attempt st m. induction fuel as [|fuel IH]; intros attempt st m; cbn [attempts]; [done|].
  cbn [store_RecordDispatch store_DispatchStore]. pose proof (RecordDispatch_quiet req st) as Hr.
  destruct (RecordDispatch req st) as [r st1]. cbn [snd] in Hr.
  destruct r as [[d []]|e]; [by intros [= <- <- <- <-]..|].
  destruct (Is e ErrDispatchConflict); [by intros [= <- <- <- <-]|].
  destruct (ctx_Err ctx st1); [by intros [= <- <- <- <-]|].
  destruct (MaxAttempts retry <=? attempt)%Z; [by intros [= <- <- <- <-]|].
  match goal with |- context [select_timer ctx ?d st1] => pose proof (select_timer_quiet ctx d st1) as Hs;
    destruct (select_timer ctx d st1) as [[e1|] st2] end; cbn in *.
  - intros [= <- <- <- <-]. cbn in *. congruence.
  - intros H%IH. cbn in *. congruence.
Qed.

Lemma Handle_quiet {IPo : Pool W} retry ctx rec st m o err st' m' :
  Handle retry ctx rec st m = Some (o, err, st', m') → held st' = held st.
Proof.
  unfold Handle. intros ([[[o1 e1] st1] m1] & Hh & [= _ _ <- _])%bind_Some. unfold handle in Hh.
  destruct (Decode (rec_Value rec)) as [evt|e].
  - by apply attempts_quiet in Hh.
  - by injection Hh as _ _ <- _.
Qed.

Lemma processRecord_quiet {IPo : Pool W} cfg ctx rec st m err st' m' :
  processRecord cfg ctx rec st m = Some (err, st', m') → held st' = held st.
Proof.
  unfold processRecord. intros ([[[o e] st1] m1] & Hh & H)%bind_Some. apply Handle_quiet in Hh.
  destruct e as [e|]; [injection H as _ <- _; done|]. revert H.
  match goal with |- context [CommitRecords ?c rec st1] => pose proof (cl_commit claws c rec st1) as Hc;
    destruct (CommitRecords c rec st1) as [[e|] st2] end; intros [= _ <- _]; cbn in *; congruence.
Qed.

Lemma processFetches_quiet {IPo : Pool W} cfg ctx recs st m err st' m' :
  processFetches cfg ctx recs st m = Some (err, st', m') → held st' = held st.
Proof.
  revert st m. induction recs as [|rec recs IH]; intros st m; cbn [processFetches]; [by intros [= <- <- <-]|].
  intros ([[e st1] m1] & E%processRecord_quiet & H)%bind_Some.
  destruct e; [by injection H as _ <- _|]. apply IH in H. cbn in *. congruence.
Qed.

Lemma consume_quiet {IPo : Pool W} fuel cfg ctx st m r st' m' :
  consume fuel cfg ctx st m = Some (r, st', m') → held st' = held st.
Proof.
  revert st m. induction fuel as [|fuel IH]; intros st m; cbn [consume];
    (destruct (ctx_Err ctx st); [by intros [= <- <- <-]|]); [by intros [= <- <- <-]|].
  pose proof (cl_poll claws ctx 1 st) as Hp. destruct (PollRecords ctx 1 st) as [f st1]. cbn [snd] in Hp.
  destruct (f_closed f); [by intros [= <- <- <-]|].
  intros ([[e st2] m2] & E%processFetches_quiet & H)%bind_Some.
  pose proof (cl_allow claws st2) as Ha. cbv zeta in H.
  destruct e as [e|]; [destruct (ctx_Err ctx (AllowRebalance st2))|];
    [apply IH in H|injection H as _ <- _|apply IH in H]; cbn in *; congruence.
Qed.

Lemma consumer_loop_releases fuel cfg store ctx : releases (consumer_loop IPool fuel cfg store ctx).
Proof.
  intros st [err m] st'. unfold consumer_loop. cbv zeta. set (IPo := IPool (st_pool store)).
  destruct (Consumer.Run fuel cfg ctx st zero_Metrics) as [[[[err1|] st1] m1]|] eqn:E; [|done..].
  intros [= <- <- <-]. unfold Consumer.Run in E.
  destruct (Consumer.Config_Validate cfg); [by injection E as <- <- <-|].
  pose proof (cl_new claws cfg st) as Hn. destruct (consumer_New cfg st) as [[e|] st2]; cbn [fst snd] in Hn;
    [by injection E as <- <- <-|].
  pose proof (cl_ping claws ctx st2) as Hp. destruct (consumer_Ping ctx st2) as [[e|] st3]; cbn [fst snd] in Hp.
  - injection E as <- <- <-. apply (cl_close claws). congruence.
  - apply bind_Some in E as ([[r st4] m4] & Ec%consume_quiet & E). destruct r as [err2|]; [|done].
    injection E as _ <- _. apply (cl_close claws). congruence.
Qed.

Lemma Ping_quiet ctx brokers : quiet_on (Broker.Ping ctx brokers).
Proof.
  intros w. unfold Broker.Ping. pose proof (wl_new_client laws brokers w) as Hn.
  destruct (NewClient brokers w) as [[c|e] w1]; cbn in *; [|done].
  pose proof (wl_ping_client laws ctx c w1) as Hp. destruct (client_Ping ctx c w1) as [e w2]. cbn in *.
  apply (wl_close_client laws c w2). congruence.
Qed.

Lemma consumer_run_releases fuel ctx a : releases (consumer_run IPool metrics_page fuel ctx a).
Proof.
  intros st b st'. unfold consumer_run. destruct (read_consumerConfig (app_Env a)) as [cfg env].
  destruct (config_error env _); [by intros [= <- <-]|].
  apply with_store_releases. intros store. apply with_management_releases. intros mgmt st1 b1 st2.
  unfold consumer_main, ext_only. destruct (Config.Retry _ _ _ _ (st_ext st1)) as [[r w]|] eqn:E; [|done].
  apply Retry_keeps in E; [|apply laws|intros c; apply Ping_quiet].
  destruct r as [err|]; [by intros [= <- <-]|].
  intros H. assert (held st2 = held (mkSt w (st_db st1))) as ->; [|exact E].
  eapply run_beside_releases; [|exact H]. intros c. apply consumer_loop_releases.
Qed.

End consumer_releases.

(** *** The service *)

Section service_releases.
Context {IG : GrpcServer W}.

Record service_laws : Prop := mk_service_laws {
  sl_serve t w : held (serve_until t w) = held w;
  sl_graceful : closes RListener finish_graceful;
  sl_stop : closes RListener grpc_Stop;
  sl_serving w : held (health_Serving w) = held w;
  sl_shutdown w : held (health_Shutdown w) = held w
}.

Hypothesis slaws : service_laws.

(** The stop is bounded: the context of [gracefulStop] always ends. *)
Lemma service_stop_closes ctx : closes RListener (service_stop ctx).
Proof.
  intros w h Hw. unfold service_stop, gracefulStop.
  destruct (WithTimeout_done (WithoutCancel ctx) service_shutdownGrace (health_Shutdown w)) as (t & e & Hd & _).
  unfold ShutdownContext. rewrite Hd.
  assert (∀ t, held (wait_until t (health_Shutdown w)) = RListener :: h) as Hh.
  { intros t0. rewrite (wl_wait laws), (sl_shutdown slaws). exact Hw. }
  destruct (in_flight_done _); [case_match|]; by apply slaws.
Qed.

Lemma service_run_releases ctx a : releases (service_run metrics_page ctx a).
Proof.
  intros st b st'. unfold service_run. destruct (read_serviceConfig (app_Env a)) as [cfg env].
  destruct (config_error env _); [by intros [= <- <-]|].
  apply with_store_releases. intros store. apply with_management_releases. intros mgmt st1 b1 st2.
  unfold service_main, on_ext. pose proof (wl_listen laws (sc_GRPCAddr cfg) (st_ext st1)) as Hl.
  destruct (Listen _ (st_ext st1)) as [[lis|err] w]; cbn in Hl; [|by intros [= <- <-]].
  intros Hd. eapply (deferred_releases RListener _ _ (mkSt w (st_db st1))); [| |exact Hl|exact Hd].
  - apply closes_ext, service_stop_closes.
  - intros st3 b3 st4. unfold ext_only, service_select. cbn. destruct (earliest _) as [[t rs]|]; [|done].
    intros [= <- <-]. cbn. by rewrite (sl_serve slaws), (sl_serving slaws).
Qed.

End service_releases.

(** *** The processes that run once *)

Hypothesis open_time : ∀ ctx dsn w, (now w ≤ now (Open ctx dsn w).2)%Z.

Lemma with_store_returns {A} ctx dsn (rest : Store W → St W → option (option goerr * A * St W)) none st :
  (∀ store, releases (rest store)) → (∀ store st, is_Some (rest store st)) →
  ∃ b st', with_store ctx dsn rest none st = Some (b, st') ∧ held st' = held st.
Proof.
  intros Hr Hs. assert (is_Some (with_store ctx dsn rest none st)) as [[b st'] E].
  { destruct (OpenStore_opens (wl_wait laws) (wl_new_pool laws) (wl_ping_pool laws) (wl_close_pool laws) ctx dsn
      (st_ext st) (λ c w, open_time c dsn w)) as (r & w & E & _).
    unfold with_store, ext_only. rewrite E. destruct r as [store|err]; [|by eexists].
    unfold deferred. destruct (Hs store (mkSt w (st_db st))) as [[b st'] ->]. by eexists. }
  exists b, st'. split; [exact E|]. by eapply with_store_releases.
Qed.

Section migrate_releases.
Context {Sch : Type} (apply : string → Sch → res Sch) (files : gmap string string) {IMW : MigratorWorld W Sch}.
Hypothesis mig_quiet : ∀ c w, held (mig_release c w) = held w.

Lemma migrate_main_releases ctx a st :
  ∃ b st', migrate_main apply files ctx a st = Some (b, st') ∧ held st' = held st.
Proof.
  unfold migrate_main. destruct (env_Err (app_Env a)); [by eexists _, _|].
  apply with_store_returns.
  - intros store st1 b st2. destruct (Migrate apply files _) as [r c]. intros [= <- <-]. cbn. apply mig_quiet.
  - intros store st1. destruct (Migrate apply files _) as [r c]. by eexists.
Qed.

End migrate_releases.

Lemma GetOutboxEvent_quiet {IPo : Pool W} id st : held (GetOutboxEvent id st).2 = held st.
Proof.
  destruct (GetOutboxEvent id st) as [r st1] eqn:E. apply GetOutboxEvent_cases in E as (_ & E & _).
  cbn. by rewrite E.
Qed.

Lemma replay_run_releases id ctx a st :
  ∃ b st', replay_run IPool id ctx a st = Some (b, st') ∧ held st' = held st.
Proof.
  unfold replay_run. destruct (read_replayConfig (app_Env a)) as [cfg env].
  destruct (errors_Join _); [by eexists _, _|]. apply with_store_returns.
  - intros store st1 b st2. unfold replay_event. cbv zeta. set (IPo := IPool (st_pool store)).
    pose proof (GetOutboxEvent_quiet id st1) as Hg. destruct (GetOutboxEvent id st1) as [[evt|e] st3]; cbn in Hg;
      [|by intros [= <- <-]].
    destruct (MessageFor evt) as [msg|e]; [|by intros [= <- <-]].
    pose proof (on_ext_opens RKafka (NewPublisher ctx cfg) st3 (NewPublisher_opens ctx cfg)) as Hn.
    destruct (on_ext _ st3) as [[p|e] st4]; cbn in Hn; [|intros [= <- <-]; cbn; congruence].
    intros Hd. transitivity (held st3); [|exact Hg].
    eapply (deferred_releases RKafka _ _ st4); [| |exact Hn|exact Hd]; [apply closes_ext, laws|].
    intros st5 b5 st6. unfold on_ext. pose proof (Publish_quiet p ctx msg (st_ext st5)) as Hp.
    destruct (Broker.Publish p ctx msg _) as [err w]. intros [= <- <-]. exact Hp.
  - intros store st1. unfold replay_event. cbv zeta. destruct (GetOutboxEvent id st1) as [[evt|e] st3]; [|by eexists].
    destruct (MessageFor evt) as [msg|e]; [|by eexists]. destruct (on_ext _ st3) as [[p|e] st4]; [|by eexists].
    unfold deferred. destruct (on_ext _ st4) as [err st5]. by eexists.
Qed.

(** ** Properties *)

(** C38: no process leaks: whenever the relay, the consumer or the service
    returns, on whatever path (a refused configuration, a dependency that stayed
    away, a port in use, a failure of the loop or of the management server, a
    signal), everything it opened has been closed again, the latest first; the
    migrator and replay moreover always return. *)
Theorem processes_release_everything
    {IKC : KafkaConsumer (St W)} {IG : GrpcServer W} {Sch} (apply : string → Sch → res Sch) files
    {IMW : MigratorWorld W Sch} :
  consumer_laws → service_laws → (∀ c w, held (mig_release c w) = held w) →
  (∀ fuel ctx a, releases (relay_run IPool metrics_page fuel ctx a)) ∧
  (∀ fuel ctx a, releases (consumer_run IPool metrics_page fuel ctx a)) ∧
  (∀ ctx a, releases (service_run metrics_page ctx a)) ∧
  (∀ ctx a st, ∃ b st', migrate_main apply files ctx a st = Some (b, st') ∧ held st' = held st) ∧
  (∀ id ctx a st, ∃ b st', replay_run IPool id ctx a st = Some (b, st') ∧ held st' = held st).
Proof.
  intros Hc Hs Hm. split_and!.
  - apply relay_run_releases.
  - intros. by apply consumer_run_releases.
  - intros. by apply service_run_releases.
  - intros. by apply migrate_main_releases.
  - apply replay_run_releases.
Qed.

End processes.

Section startup.
Context {IJ : Jsonb} {IS : PgScan} {IP : Pgconn} {W : Type} {IC : Clock W}
  {IX : Pgxpool W} {IN : Network W} {IK : Kgo W} {IM : GoMap} {IR : Rand W}
  (IPool : pgpool → Pool W) (metrics_page : W → Response * W).
Implicit Types (st : St W).

Lemma config_error_None env invalid : config_error env invalid = None ↔ errs env = [] ∧ invalid = None.
Proof. unfold config_error, env_Err, errors_Join. destruct (errs env); naive_solver. Qed.

Lemma PublisherConfig_Validate_nil c :
  PublisherConfig_Validate c = None ↔ pc_Brokers c ≠ [] ∧ (0 < pc_DeliveryTimeout c)%Z.
Proof.
  unfold PublisherConfig_Validate. destruct (pc_Brokers c); cbn; [naive_solver|].
  destruct (Z.leb_spec (pc_DeliveryTimeout c) 0); naive_solver lia.
Qed.

Lemma Relay_Validate_nil c :
  Relay.Config_Validate c = None ↔ (0 < PollInterval c ∧ 0 < BatchSize c)%Z.
Proof.
  unfold Relay.Config_Validate.
  destruct (Z.leb_spec (PollInterval c) 0), (Z.leb_spec (BatchSize c) 0); split; intros; try done; lia.
Qed.

(** C40: a wrong environment stops a process before it touches anything: the
    relay, the consumer and the service return the error of the environment or
    else of the validation with the world unchanged; and they start exactly when
    every variable parses and the values are in their ranges, for the relay
    positive timeouts, interval and batch size, for the consumer at least one
    attempt and retries that fit a positive record timeout, and for the service
    a positive pricing timeout. *)
Theorem startup_refuses_bad_configuration a :
  (let (cfg, env) := read_relayConfig (app_Env a) in
   let e := config_error env (relayConfig_Validate cfg) in
   (∀ err fuel ctx st, e = Some err →
      relay_run IPool metrics_page fuel ctx a st = Some (Some err, Relay.mkMetrics 0 0 None, st)) ∧
   (e = None ↔ errs env = [] ∧ pc_Brokers (rc_Publisher cfg) ≠ [] ∧ (0 < pc_DeliveryTimeout (rc_Publisher cfg) ∧
      0 < PollInterval (rc_Relay cfg) ∧ 0 < BatchSize (rc_Relay cfg))%Z)) ∧
  (let (cfg, env) := read_consumerConfig (app_Env a) in
   let e := config_error env (Consumer.Config_Validate (cc_Consumer cfg)) in
   (∀ {IKC : KafkaConsumer (St W)} err fuel ctx st, e = Some err →
      consumer_run IPool metrics_page fuel ctx a st = Some (Some err, zero_Metrics, st)) ∧
   (e = None → errs env = [] ∧ (1 ≤ MaxAttempts (Consumer.Retry (cc_Consumer cfg)) ∧
      0 ≤ Backoff (Consumer.Retry (cc_Consumer cfg)) ∧
      0 < RecordTimeout (cc_Consumer cfg) ≤ maxRecordTimeout ∧
      MaxWait (Consumer.Retry (cc_Consumer cfg)) < RecordTimeout (cc_Consumer cfg))%Z)) ∧
  (let (cfg, env) := read_serviceConfig (app_Env a) in
   let e := config_error env (serviceConfig_Validate cfg) in
   (∀ {IG : GrpcServer W} err ctx st, e = Some err →
      service_run metrics_page ctx a st = Some (Some err, (), st)) ∧
   (e = None ↔ errs env = [] ∧ (0 < sc_PricingTimeout cfg)%Z)).
Proof.
  split_and!.
  - unfold relay_run. destruct (read_relayConfig (app_Env a)) as [cfg env]. cbn zeta. split.
    + by intros err fuel ctx st ->.
    + rewrite config_error_None. unfold relayConfig_Validate.
      destruct (PublisherConfig_Validate (rc_Publisher cfg)) eqn:Ep.
      * split; [naive_solver|]. intros (_ & H1 & H2 & _).
        rewrite (proj2 (PublisherConfig_Validate_nil _)) in Ep; [done|by split].
      * apply PublisherConfig_Validate_nil in Ep. rewrite Relay_Validate_nil. naive_solver.
  - unfold consumer_run. destruct (read_consumerConfig (app_Env a)) as [cfg env]. cbn zeta. split.
    + by intros IKC err fuel ctx st ->.
    + intros [He Hv]%config_error_None. apply Consumer.Config_Validate_nil in Hv as (Hr & Ht & Hm).
      apply RetryPolicy_Validate_nil in Hr. naive_solver.
  - unfold service_run. destruct (read_serviceConfig (app_Env a)) as [cfg env]. cbn zeta. split.
    + by intros IG err ctx st ->.
    + rewrite config_error_None. unfold serviceConfig_Validate.
      destruct (Z.leb_spec (sc_PricingTimeout cfg) 0); split; intros [? ?]; try done; lia.
Qed.

Lemma with_store_db {A} ctx dsn (rest : Store W → St W → option (option goerr * A * St W)) none st b st' (P : option goerr * A → Prop) :
  with_store ctx dsn rest none st = Some (b, st') →
  (∀ err, P (Some err, none)) →
  (∀ store st1 b1 st2, st_db st1 = st_db st → rest store st1 = Some (b1, st2) → P b1 ∧ st_db st2 = st_db st) →
  P b ∧ st_db st' = st_db st.
Proof.
  intros H Hn Hr. unfold with_store, ext_only in H. destruct (OpenStore ctx dsn (st_ext st)) as [[[store|err] w]|]; [| |done].
  - unfold deferred in H. destruct (rest store _) as [[b1 st1]|] eqn:E; [|done]. injection H as <- <-. cbn.
    by apply Hr in E.
  - injection H as <- <-. by split.
Qed.

(** What a replay did. *)
Definition replayed (id : string) (ctx : Context) (db : DB) (b : option goerr * option Message) : Prop :=
  match b.2 with
  | None => b.1 ≠ None
  | Some msg => ∃ row evt p w,
      outbox_events db !! id = Some row ∧ Decode (or_payload row) = Ok evt ∧
      msg = {| m_Topic := Topic; m_Key := or_shipment_id row; m_Value := or_payload row;
               m_Headers := list_to_map [(HeaderEventType, e_EventType evt);
                                         (HeaderSchemaVersion, Itoa (e_SchemaVersion evt));
                                         (HeaderCorrelationID, e_CorrelationID evt)] |} ∧
      b.1 = (Broker.Publish p ctx msg w).1
  end.

(** C39: a replay is a deliberate duplicate and nothing else: it changes no
    table; a message goes out only for a stored event that decodes, keyed by the
    row's shipment, with the stored payload unchanged and the event's own type,
    version and correlation ID as headers; and it reports success exactly when
    that message was acknowledged. *)
Theorem replay_publishes_stored_event id ctx a st err sent st' :
  replay_run IPool id ctx a st = Some ((err, sent), st') →
  st_db st' = st_db st ∧ replayed id ctx (st_db st) (err, sent).
Proof.
  intros H. unfold replay_run in H. destruct (read_replayConfig (app_Env a)) as [cfg env].
  destruct (errors_Join _); [by injection H as <- <- <-|]. apply and_comm.
  refine (with_store_db _ _ _ _ _ (err, sent) st' (replayed id ctx (st_db st)) H _ _);
    [done|].
  intros store st1 [err1 sent1] st2 Hst. unfold replay_event. cbv zeta. set (IPo := IPool (st_pool store)). unfold replayed.
  destruct (GetOutboxEvent id st1) as [r st3] eqn:Eg. apply GetOutboxEvent_cases in Eg as (Hdb & _ & Hr).
  destruct r as [evt|e]; [|intros [= <- <- <-]; cbn; split; [done|congruence]].
  destruct Hr as (row & Hr & ->). rewrite Hst in Hr. unfold MessageFor. cbn.
  destruct (Decode (or_payload row)) as [evt|e] eqn:Ed; [|intros [= <- <- <-]; cbn; split; [done|congruence]].
  unfold on_ext. destruct (NewPublisher ctx cfg (st_ext st3)) as [[p|e] w]; cbn;
    [|intros [= <- <- <-]; cbn; split; [done|congruence]].
  unfold deferred. cbn. destruct (Broker.Publish p ctx _ w) as [err2 w2] eqn:Ep.
  intros Hx. injection Hx as <- <- <-. cbn. split; [|congruence].
  exists row, evt, p, w. rewrite Ep. by split_and!.
Qed.

End startup.

(** ** A small world

    A clock and the ledger; everything answers at once.  The management port
    fails after two seconds, which is how the server processes end here. *)
Record World := mkWorld { w_now : Z; w_held : list Resource }.

Definition w_push (r : Resource) (w : World) : World := mkWorld (w_now w) (r :: w_held w).
Definition w_pop (w : World) : World := mkWorld (w_now w) (tail (w_held w)).

Section world.
Definition World_Clock : Clock World.
Proof.
  refine {| now := w_now; wait_until := λ t w, mkWorld (Z.max t (w_now w)) (w_held w); pick_done := λ _, true |};
    intros; cbn; lia.
Defined.
#[local] Existing Instances World_Clock ref_PgScan ref_Pgconn ref_GoMap.
#[local] Instance World_Ledger : Ledger World := {| held := w_held |}.
#[local] Instance World_Writer : LogWriter World := {| write_line := λ _ w, (None, w) |}.
#[local] Instance World_Rand : Rand World := ref_Rand World.
#[local] Instance World_Pgxpool : Pgxpool World := {|
  pgconfig := Z; pgpool := (); ParseConfig := λ _, Ok 4%Z; set_MaxConns := λ n _, n;
  NewWithConfig := λ _ _ w, (Ok (), w_push RPool w); pool_Ping := λ _ _ w, (None, w); pool_Close := λ _, w_pop |}.
#[local] Instance World_Network : Network World := {|
  listener := string; Listen := λ addr w, (Ok addr, w_push RListener w);
  Serve_ends := λ addr, if bool_decide (addr = ":8080") then Some (2 * Second, EOther "accept: closed")%Z else None;
  http_Shutdown := λ _ _ w, (None, w_pop w) |}.
#[local] Instance World_Kgo : Kgo World := {|
  kclient := (); NewClient := λ _ w, (Ok (), w_push RKafka w); client_Ping := λ _ _ w, (None, w);
  client_Close := λ _, w_pop; ProduceSync := λ _ _ _ w, (None, w) |}.
#[local] Instance World_Consumer : KafkaConsumer (St World) := {|
  consumer_New := λ _ st, (None, ext_do (w_push RKafka) st); consumer_Ping := λ _ st, (None, st);
  PollRecords := λ _ _ st, (mkFetches false [], wait_until (now st + 30 * Second) st);
  CommitRecords := λ _ _ st, (None, st); AllowRebalance := λ st, st; consumer_Close := ext_do w_pop |}.
#[local] Instance World_Grpc : GrpcServer World := {|
  serve_until := λ t w, wait_until t w; in_flight_done := λ w, Some (w_now w + Second)%Z;
  finish_graceful := w_pop; grpc_Stop := w_pop; health_Serving := λ w, w; health_Shutdown := λ w, w; tie := λ _, 0 |}.
#[local] Instance World_Migrator : MigratorWorld World (list string) := {|
  mig_acquire := λ _ _, mkConn zero_Time [] (mkMigDB None [] false) []; mig_release := λ _ w, w |}.
Definition World_Pool : pgpool (W := World) → Pool World := λ _, ref_Pool World (mkTime 1700000100 0 0).

Lemma World_laws : world_laws.
Proof. split; repeat intro; cbn in *; try done; match goal with H : w_held _ = _ |- _ => by rewrite H end. Qed.

Definition world0 : St World := mkSt (mkWorld 0 []) empty_DB.
Definition the_page (w : World) : Response * World := (healthz, w).
Definition the_app (values : gmap string string) : App := new_app (W := World) "test" (NewEnvFrom values).

(** A relay until the management server fails. *)
Lemma processes_release_everything_witness :
  ∃ m st, relay_run World_Pool the_page 10 Background (the_app ∅) world0 =
    Some (Some (wrapf "management server: " (EOther "accept: closed")), m, st) ∧ held st = [].
Proof.
  pose proof (processes_release_everything (W := World) World_Pool the_page World_laws
    (λ ctx dsn w, Z.le_refl (w_now w)) (λ _ s, Ok s) ∅) as H.
  destruct H as (Hrelay & _).
  - split; repeat intro; cbn in *; try done; match goal with H : w_held _ = _ |- _ => by rewrite H end.
  - split; repeat intro; cbn in *; try done; match goal with H : w_held _ = _ |- _ => by rewrite H end.
  - done.
  - destruct (relay_run (W := World) World_Pool the_page 10 Background (the_app ∅) world0) as [[[err m] st]|] eqn:E.
    + exists m, st. assert (err = Some (wrapf "management server: " (EOther "accept: closed"))) as ->.
      { revert E. vm_compute. by intros [= <- _ _]. }
      split; [reflexivity|]. exact (Hrelay 10 Background (the_app ∅) world0 _ _ E).
    + exfalso. revert E. vm_compute. discriminate.
Defined.

(** The consumer and the service stop the same way; a bad variable stops the
    relay at once. *)
Example ex_consumer : ∃ m st, consumer_run World_Pool the_page 10 Background (the_app ∅) world0 =
  Some (Some (wrapf "management server: " (EOther "accept: closed")), m, st) ∧ held st = [].
Proof. eexists _, _. split; vm_compute; reflexivity. Qed.

Example ex_service : ∃ st, service_run the_page Background (the_app ∅) world0 =
  Some (Some (wrapf "management server: " (EOther "accept: closed")), (), st) ∧ held st = [] ∧ now st = (3 * Second)%Z.
Proof. eexists. split; [|split]; vm_compute; reflexivity. Qed.

Example ex_bad_batch :
  relay_run World_Pool the_page 10 Background (the_app {["RELAY_BATCH_SIZE" := "0"]}) world0 =
    Some (Some (errorf "batch size 0: must be positive"), Relay.mkMetrics 0 0 None, world0).
Proof. vm_compute. reflexivity. Qed.

(** Replaying the event of a stored shipment. *)
Definition ex_stored : St World := mkSt (mkWorld 0 []) (st_db ex_backlog).

Lemma replay_publishes_stored_event_witness :
  ∃ msg st, replay_run World_Pool (NewEventID "a") Background (the_app ∅) ex_stored = Some (None, Some msg, st) ∧
    st_db st = st_db ex_stored ∧ ∃ row, outbox_events (st_db ex_stored) !! NewEventID "a" = Some row ∧
      m_Value msg = or_payload row.
Proof.
  destruct (replay_run (W := World) World_Pool (NewEventID "a") Background (the_app ∅) ex_stored) as [[[[err|] [msg|]] st]|] eqn:E.
  3: { destruct (replay_publishes_stored_event (W := World) World_Pool _ _ _ _ _ _ _ E) as [Hdb H].
       exists msg, st. split; [reflexivity|]. split; [exact Hdb|].
       destruct H as (row & evt & p & w & Hr & _ & -> & _). exists row. split; [exact Hr|reflexivity]. }
  all: exfalso; revert E; vm_compute; discriminate.
Defined.

End world.
