(* ===== verification/Ports.v ===== *)
(** * tools/ports

    The pure part of the command that picks host ports for the Compose stack:
    reading port assignments with the regular expression of the source, choosing
    a port for every service with probes as a parameter, and rendering .env. *)
From S2P Require Import Prelude GoErrors GoStrconv GoStrings GoUtf8 GoContext.

(** ** Assignments *)

(** [\s] *)
Definition is_space (c : ascii) : bool := between 9 10 c || between 12 13 c || Ascii.eqb c " ".
(** [[A-Z0-9_]] *)
Definition is_name_byte (c : ascii) : bool := is_upper c || is_digit c || Ascii.eqb c "_".

(** [[A-Z][A-Z0-9_]*_PORT], for a string of name bytes. *)
Definition port_name (name : string) : bool :=
  match name with
  | EmptyString => false
  | String c r =>
      is_upper c && (5 <=? String.length r) && bool_decide (str_drop (String.length r - 5) r = "_PORT")
  end.

(** [assignment.FindStringSubmatch], the three groups: the pattern
    [^\s*(#?)\s*([A-Z][A-Z0-9_]*_PORT)\s*=\s*(\d+)\s*$].  The classes that follow
    each other are disjoint, so no match is lost by taking as much as possible. *)
Definition FindStringSubmatch (line : string) : option (string * string * string) :=
  let s := skip is_space line in
  let (hash, s) := match s with String "#" s => ("#", s) | _ => ("", s) end in
  let (name, s) := span is_name_byte (skip is_space s) in
  if port_name name then
    match skip is_space s with
    | String "=" s =>
        let (digits, s) := span is_digit (skip is_space s) in
        if bool_decide (digits ≠ "") && bool_decide (skip is_space s = "") then Some (hash, name, digits)
        else None
    | _ => None
    end
  else None.

Record PortSpec := mkPortSpec { ps_Name : string; ps_Default : Z }.

Inductive Reason := ReasonFree | ReasonOurs | ReasonTaken.

#[export] Instance Reason_eq_dec : EqDecision Reason.
Proof. solve_decision. Defined.

Record Choice := mkChoice { c_Name : string; c_Desired : Z; c_Chosen : Z; c_Reason : Reason }.

Definition Changed (c : Choice) : bool := negb (c_Chosen c =? c_Desired c)%Z.

(** The loop of [ParseSpecs]. *)
Fixpoint specs_of (lines : list string) (seen : gset string) : res (list PortSpec) :=
  match lines with
  | [] => Ok []
  | line :: lines =>
      match FindStringSubmatch line with
      | None => specs_of lines seen
      | Some (_, name, digits) =>
          if bool_decide (name ∈ seen) then specs_of lines seen
          else
            match Atoi digits with
            | Err err => Err (wrapf (name +:+ ": ") err)
            | Ok port =>
                specs ← specs_of lines ({[name]} ∪ seen);
                Ok (mkPortSpec name port :: specs)
            end
      end
  end.

(** A value and the scanner's error: callers drop the value if there is one. *)
Definition with_err {A} (e : option goerr) (a : A) : res A :=
  match e with None => Ok a | Some e => Err e end.

Definition ParseSpecs (r : Reader) : res (list PortSpec) :=
  let (lines, err) := ScanLines r in
  specs ← specs_of lines ∅;
  with_err err specs.

(** The loop of [ParseOverrides]. *)
Fixpoint overrides_of (lines : list string) (overrides : gmap string Z) : res (gmap string Z) :=
  match lines with
  | [] => Ok overrides
  | line :: lines =>
      match FindStringSubmatch line with
      | None => overrides_of lines overrides
      | Some (hash, name, digits) =>
          if bool_decide (hash = "#") then overrides_of lines overrides
          else
            match Atoi digits with
            | Err err => Err (wrapf (name +:+ ": ") err)
            | Ok port => overrides_of lines (<[name := port]> overrides)
            end
      end
  end.

Definition ParseOverrides (r : Reader) : res (gmap string Z) :=
  let (lines, err) := ScanLines r in
  overrides ← overrides_of lines ∅;
  with_err err overrides.

(** ** Choosing *)

Definition maxPort : Z := 65535.

(** The port a spec asks for. *)
Definition want (overrides : gmap string Z) (s : PortSpec) : Z :=
  default (ps_Default s) (overrides !! ps_Name s).

(** The loop of [desiredPorts]. *)
Fixpoint desired_of (specs : list PortSpec) (overrides : gmap string Z)
    (desired : gmap string Z) (owner : gmap Z string) : res (gmap string Z) :=
  match specs with
  | [] => Ok desired
  | s :: specs =>
      let port := want overrides s in
      if (port <? 1)%Z || (maxPort <? port)%Z then
        Err (EOther (ps_Name s +:+ "=" +:+ Itoa port +:+ ": port must be between 1 and " +:+ Itoa maxPort))
      else
        match owner !! port with
        | Some other =>
            Err (EOther (other +:+ " and " +:+ ps_Name s +:+ " both want port " +:+ Itoa port
                         +:+ "; give one of them a different value in .env"))
        | None => desired_of specs overrides (<[ps_Name s := port]> desired) (<[port := ps_Name s]> owner)
        end
  end.

Definition desiredPorts (specs : list PortSpec) (overrides : gmap string Z) : res (gmap string Z) :=
  desired_of specs overrides ∅ ∅.

(** The ports that specs want: the values of [desired]. *)
Definition reserved_of (desired : gmap string Z) : gset Z := list_to_set (map_to_list desired).*2.

Section choose.
Context {W : Type}.

Record Selection := mkSelection {
  Overrides : gmap string Z;
  Ours : gmap Z bool;
  Free : Z → W → res bool * W;
  Limit : Z
}.

Definition ours (sel : Selection) (port : Z) : bool := default false (Ours sel !! port).

(** The loop of [nextFree] from [port]; [fuel] is the number of ports up to the
    largest one. *)
Fixpoint next_free (fuel : nat) (port start : Z) (reserved : gset Z) (sel : Selection) (w : W) : res Z * W :=
  let none := Err (EOther ("no free port within " +:+ Itoa (Limit sel) +:+ " above " +:+ Itoa start)) in
  match fuel with
  | O => (none, w)
  | S fuel =>
      if (port <=? wrap64 (start + Limit sel))%Z && (port <=? maxPort)%Z then
        if bool_decide (port ∈ reserved) then next_free fuel (port + 1) start reserved sel w
        else
          match Free sel port w with
          | (Err err, w) => (Err err, w)
          | (Ok true, w) => (Ok port, w)
          | (Ok false, w) => next_free fuel (port + 1) start reserved sel w
          end
      else (none, w)
  end.

Definition nextFree (start : Z) (reserved : gset Z) (sel : Selection) (w : W) : res Z * W :=
  next_free (S (Z.to_nat (maxPort - start))) (start + 1) start reserved sel w.

(** The loop of [Choose]. *)
Fixpoint choose_loop (specs : list PortSpec) (desired : gmap string Z) (reserved : gset Z) (sel : Selection)
    (w : W) : res (list Choice) * W :=
  match specs with
  | [] => (Ok [], w)
  | s :: specs =>
      let port := default 0%Z (desired !! ps_Name s) in
      let continue c reserved w :=
        match choose_loop specs desired reserved sel w with
        | (Ok l, w) => (Ok (c :: l), w)
        | (Err err, w) => (Err err, w)
        end in
      if ours sel port then continue (mkChoice (ps_Name s) port port ReasonOurs) reserved w
      else
        match Free sel port w with
        | (Err err, w) => (Err (wrapf (ps_Name s +:+ ": ") err), w)
        | (Ok true, w) => continue (mkChoice (ps_Name s) port port ReasonFree) reserved w
        | (Ok false, w) =>
            match nextFree port reserved sel w with
            | (Err err, w) => (Err (wrapf (ps_Name s +:+ ": ") err), w)
            | (Ok alt, w) => continue (mkChoice (ps_Name s) port alt ReasonTaken) ({[alt]} ∪ reserved) w
            end
        end
  end.

Definition Choose (specs : list PortSpec) (sel : Selection) (w : W) : res (list Choice) * W :=
  match desiredPorts specs (Overrides sel) with
  | Err err => (Err err, w)
  | Ok desired => choose_loop specs desired (reserved_of desired) sel w
  end.

End choose.
Arguments Selection : clear implicits.

(** ** Rendering *)

Definition updates_of (choices : list Choice) : gmap string Z :=
  foldl (λ m c, if Changed c then <[c_Name c := c_Chosen c]> m else m) ∅ choices.

Definition assign (name : string) (port : Z) : string := name +:+ "=" +:+ Itoa port.

(** A line of the file with the update of its variable, if it has one. *)
Definition render_line (updates : gmap string Z) (line : string) : string :=
  match FindStringSubmatch line with
  | Some (_, name, _) => match updates !! name with Some port => assign name port | None => line end
  | None => line
  end.

(** The variables the lines assign. *)
Definition names_of (lines : list string) : gset string :=
  list_to_set (omap (λ line, (λ m, m.1.2) <$> FindStringSubmatch line) lines).

Definition RenderEnv (existing : string) (choices : list Choice) : string :=
  let updates := updates_of choices in
  if bool_decide (updates = ∅) then existing
  else
    let lines := if bool_decide (existing = "") then [] else Split newline (TrimRight newline existing) in
    let missing := sort_Strings (filter (λ name, name ∉ names_of lines) (map_to_list updates).*1) in
    Join newline ((render_line updates <$> lines) ++
      ((λ name, assign name (default 0%Z (updates !! name))) <$> missing)) +:+ str1 newline.

(** ** Lemmas *)

(** *** The pattern *)

(** The lines the pattern describes, with its groups. *)
Definition assignment_line (hash name digits line : string) : Prop :=
  ∃ w1 w2 w3 w4 w5,
    line = w1 +:+ hash +:+ w2 +:+ name +:+ w3 +:+ "=" +:+ w4 +:+ digits +:+ w5 ∧
    Forall (λ w, str_forall is_space w = true) [w1; w2; w3; w4; w5] ∧
    (hash = "" ∨ hash = "#") ∧ port_name name = true ∧ str_forall is_name_byte name = true ∧
    digits ≠ "" ∧ str_forall is_digit digits = true.

Definition starts (p : ascii → bool) (s : string) : Prop :=
  match s with String c _ => p c = true | EmptyString => False end.

(** Two byte classes have nothing in common. *)
Definition disjoint_bytes (p q : ascii → bool) : Prop := ∀ c, p c = true → q c = false.

Ltac all_bytes := intros [[] [] [] [] [] [] [] []]; by vm_compute.

Lemma space_not_name : disjoint_bytes is_space is_name_byte.
Proof. all_bytes. Qed.
Lemma space_not_digit : disjoint_bytes is_space is_digit.
Proof. all_bytes. Qed.
Lemma name_not_space : disjoint_bytes is_name_byte is_space.
Proof. all_bytes. Qed.
Lemma digit_not_space : disjoint_bytes is_digit is_space.
Proof. all_bytes. Qed.

Lemma span_stops p q s t :
  str_forall p s = true → starts q t → disjoint_bytes q p → span p (s +:+ t) = (s, t).
Proof. intros Hs Ht Hd. apply span_app; [done|]. destruct t as [|c t]; [done|]. by apply Hd. Qed.

Lemma skip_stops p q s t :
  str_forall p s = true → starts q t → disjoint_bytes q p → skip p (s +:+ t) = t.
Proof. intros. unfold skip. by erewrite span_stops. Qed.

Lemma starts_app p s t : s ≠ "" → str_forall p s = true → starts p (s +:+ t).
Proof. destruct s as [|c s]; [done|]. intros _ [Hc _]%andb_true_iff. done. Qed.

(** What follows a name or the digits: spaces and then something else. *)
Lemma span_then_spaces p w c t s :
  disjoint_bytes is_space p → p c = false → str_forall is_space w = true → str_forall p s = true →
  span p (s +:+ w +:+ String c t) = (s, w +:+ String c t).
Proof.
  intros Hd Hc Hw Hs. apply span_app; [done|]. destruct w as [|d w]; [done|].
  simpl in Hw. apply andb_true_iff in Hw as [Hdw _]. simpl. by apply Hd.
Qed.

Lemma port_name_starts name : port_name name = true → str_forall is_name_byte name = true →
  ∃ c r, name = String c r ∧ is_upper c = true.
Proof.
  destruct name as [|c r]; [done|]. unfold port_name. intros [[Hc _]%andb_true_iff _]%andb_true_iff _.
  by exists c, r.
Qed.

Lemma FindStringSubmatch_complete hash name digits line :
  assignment_line hash name digits line → FindStringSubmatch line = Some (hash, name, digits).
Proof.
  intros (w1 & w2 & w3 & w4 & w5 & -> & Hw & Hh & Hpn & Hn & Hd & Hdig).
  apply Forall_cons_1 in Hw as [Hw1 Hw]. apply Forall_cons_1 in Hw as [Hw2 Hw].
  apply Forall_cons_1 in Hw as [Hw3 Hw]. apply Forall_cons_1 in Hw as [Hw4 Hw].
  apply Forall_cons_1 in Hw as [Hw5 _].
  destruct (port_name_starts name Hpn Hn) as (c & r & Ename & Hc).
  set (rest := w3 +:+ "=" +:+ w4 +:+ digits +:+ w5).
  assert (starts is_name_byte (name +:+ rest)) as Hs1 by (apply starts_app; [by rewrite Ename|done]).
  assert (∃ s0, skip is_space (w1 +:+ hash +:+ w2 +:+ name +:+ rest) = s0 ∧
    (let (hash', s) := match s0 with String "#" s => ("#", s) | _ => ("", s0) end in
     hash' = hash ∧ skip is_space s = name +:+ rest)) as (s0 & E0 & E1).
  { destruct Hh as [->| ->].
    - exists (name +:+ rest). split.
      + change (skip is_space (w1 +:+ w2 +:+ name +:+ rest) = name +:+ rest). rewrite (str_app_assoc w1 w2).
        eapply skip_stops; [|done|apply name_not_space]. rewrite str_forall_app. by apply andb_true_iff.
      + assert (skip is_space (name +:+ rest) = name +:+ rest) as Hskip.
        { rewrite <- (str_app_nil_l (name +:+ rest)) at 1. by eapply skip_stops; [|done|apply name_not_space]. }
        rewrite Ename in *. clear -Hc Hskip. rewrite str_app_cons in *.
        destruct c as [[] [] [] [] [] [] [] []]; by vm_compute in Hc || (split; [reflexivity|exact Hskip]).
    - exists ("#" +:+ w2 +:+ name +:+ rest). split.
      + apply (skip_stops is_space (λ c, Ascii.eqb c "#")); [done|done|]. all_bytes.
      + split; [done|]. by apply (skip_stops is_space is_name_byte w2 (name +:+ rest) Hw2 Hs1 name_not_space). }
  unfold FindStringSubmatch. rewrite E0.
  destruct (match s0 with String "#" s => ("#", s) | _ => ("", s0) end) as [hash' s]. destruct E1 as [-> E1].
  rewrite E1. unfold rest. change ("=" +:+ w4 +:+ digits +:+ w5) with (String "=" (w4 +:+ digits +:+ w5)).
  rewrite span_then_spaces by (done || apply space_not_name). rewrite Hpn.
  rewrite (skip_stops is_space (λ c, Ascii.eqb c "=")) by (done || all_bytes).
  rewrite (skip_stops is_space is_digit w4) by (done || apply digit_not_space || by apply starts_app).
  rewrite (span_app is_digit digits w5);
    [|done|destruct w5 as [|e w5]; [done|apply space_not_digit; by apply andb_true_iff in Hw5 as [? _]]].
  rewrite bool_decide_eq_true_2 by done. cbn.
  assert (skip is_space w5 = "") as ->.
  { unfold skip. rewrite <- (str_app_nil_r w5). by rewrite span_app. }
  done.
Qed.

Lemma skip_spec p s : ∃ w, s = w +:+ skip p s ∧ str_forall p w = true.
Proof. exists (span p s).1. destruct (span_spec p s) as (H & Hp & _). done. Qed.

Lemma FindStringSubmatch_sound line hash name digits :
  FindStringSubmatch line = Some (hash, name, digits) → assignment_line hash name digits line.
Proof.
  unfold FindStringSubmatch. destruct (skip_spec is_space line) as (w1 & E1 & Hw1).
  destruct (match skip is_space line with String "#" s => ("#", s) | _ => ("", skip is_space line) end)
    as [hash' s1] eqn:Eh.
  assert (skip is_space line = hash' +:+ s1 ∧ (hash' = "" ∨ hash' = "#")) as [E2 Hhash].
  { destruct (skip is_space line) as [|c s]; [injection Eh as <- <-; by auto|].
    destruct c as [[] [] [] [] [] [] [] []]; injection Eh as <- <-; by auto. }
  destruct (skip_spec is_space s1) as (w2 & E3 & Hw2).
  destruct (span_spec is_name_byte (skip is_space s1)) as (E4 & Hn & _).
  destruct (span is_name_byte (skip is_space s1)) as [name' s2]. cbn [fst snd] in *.
  destruct (port_name name') eqn:Hpn; [|done].
  destruct (skip_spec is_space s2) as (w3 & E5 & Hw3).
  destruct (skip is_space s2) as [|c s3]; [done|].
  destruct (decide (c = "="%char)) as [->|Hne];
    [|intros H; exfalso; revert H; destruct c as [[] [] [] [] [] [] [] []]; done].
  destruct (skip_spec is_space s3) as (w4 & E6 & Hw4).
  destruct (span_spec is_digit (skip is_space s3)) as (E7 & Hd & _).
  destruct (span is_digit (skip is_space s3)) as [digits' s4]. cbn [fst snd] in *.
  destruct (skip_spec is_space s4) as (w5 & E8 & Hw5).
  destruct (bool_decide_reflect (digits' ≠ "")) as [Hne|]; [|done].
  destruct (bool_decide_reflect (skip is_space s4 = "")) as [He|]; [|done].
  intros [= -> -> ->]. rewrite He, str_app_nil_r in E8. subst s4.
  exists w1, w2, w3, w4, w5. split_and!; try done; [|by repeat apply Forall_cons_2].
  by rewrite E1, E2, E3, E4, E5, E6, E7.
Qed.

(** A carriage return at the end of a line does not matter. *)
Lemma FindStringSubmatch_drop_cr line : FindStringSubmatch (drop_cr line) = FindStringSubmatch line.
Proof.
  destruct (drop_cr_cases line) as [->|E]; [done|].
  destruct (FindStringSubmatch line) as [[[h n] d]|] eqn:El.
  - apply FindStringSubmatch_sound in El as (w1 & w2 & w3 & w4 & w5 & El & Hw & Hrest).
    apply FindStringSubmatch_complete.
    destruct (decide (w5 = "")) as [->|Hne].
    + exfalso. destruct Hrest as (_ & _ & _ & Hne & Hdig). destruct (str_snoc d Hne) as (u & c & ->).
      rewrite str_app_nil_r in El. rewrite E, !str_app_assoc in El. apply str_snoc_inj in El as [_ <-].
      rewrite str_forall_app in Hdig. apply andb_true_iff in Hdig as [_ Hc]. done.
    + destruct (str_snoc w5 Hne) as (u & c & ->). exists w1, w2, w3, w4, u. split; [|split; [|done]].
      * rewrite E, !str_app_assoc in El. apply str_snoc_inj in El as [-> _]. by rewrite !str_app_assoc.
      * repeat (apply Forall_cons_1 in Hw as [? Hw]; apply Forall_cons_2; [done|]).
        apply Forall_cons_1 in Hw as [Hu _]. rewrite str_forall_app in Hu.
        apply andb_true_iff in Hu as [Hu _]. by apply Forall_cons_2.
  - destruct (FindStringSubmatch (drop_cr line)) as [[[h n] d]|] eqn:Ed; [|done]. exfalso.
    apply FindStringSubmatch_sound in Ed as (w1 & w2 & w3 & w4 & w5 & Ed & Hw & Hrest).
    assert (FindStringSubmatch line = Some (h, n, d)); [|congruence].
    apply FindStringSubmatch_complete. exists w1, w2, w3, w4, (w5 +:+ str1 carriage_return).
    split; [|split; [|done]].
    + rewrite E, Ed. by rewrite <- !str_app_assoc.
    + repeat (apply Forall_cons_1 in Hw as [? Hw]; apply Forall_cons_2; [try done|]); [|done].
      rewrite str_forall_app. by apply andb_true_iff.
Qed.

Definition valid_name (name : string) : bool := port_name name && str_forall is_name_byte name.

Lemma FindStringSubmatch_name line hash name digits :
  FindStringSubmatch line = Some (hash, name, digits) → valid_name name = true.
Proof.
  intros (_ & _ & _ & _ & _ & _ & _ & _ & H1 & H2 & _)%FindStringSubmatch_sound.
  unfold valid_name. by rewrite H1, H2.
Qed.

Lemma FindStringSubmatch_assign name port :
  valid_name name = true → (0 ≤ port)%Z →
  FindStringSubmatch (assign name port) = Some ("", name, Itoa port).
Proof.
  intros [Hp Hn]%andb_true_iff Hport. destruct (Itoa_natural port Hport) as [Hd He].
  apply FindStringSubmatch_complete. exists "", "", "", "", "".
  split_and!; try done; [by rewrite str_app_nil_r|by repeat apply Forall_cons_2|by left].
Qed.

(** *** Reading back what was rendered *)

Lemma overrides_of_app l l' m :
  overrides_of (l ++ l') m = overrides_of l m ≫= overrides_of l'.
Proof.
  revert m. induction l as [|x l IH]; intros m; [done|]. simpl.
  destruct (FindStringSubmatch x) as [[[h n] d]|]; [|done].
  case_bool_decide; [done|]. by destruct (Atoi d).
Qed.

Lemma overrides_of_blank k m : overrides_of (replicate k "") m = Ok m.
Proof. by induction k. Qed.

Lemma overrides_of_drop_last l m : overrides_of (drop_last_empty l) m = overrides_of l m.
Proof.
  destruct (drop_last_empty_cases l) as [->|E]; [done|]. rewrite E at 2. rewrite overrides_of_app.
  by destruct (overrides_of (drop_last_empty l) m).
Qed.

Lemma overrides_of_drop_cr l m : overrides_of (drop_cr <$> l) m = overrides_of l m.
Proof.
  revert m. induction l as [|x l IH]; intros m; [done|]. simpl. rewrite FindStringSubmatch_drop_cr.
  destruct (FindStringSubmatch x) as [[[h n] d]|]; [|done].
  case_bool_decide; [done|]. by destruct (Atoi d).
Qed.

(** The trailing newlines of a file assign nothing. *)
Lemma overrides_of_trim s m :
  overrides_of (raw_lines s) m = overrides_of (Split newline (TrimRight newline s)) m.
Proof.
  destruct (raw_lines_trim s) as [k ->]. rewrite overrides_of_drop_last, overrides_of_app.
  destruct (overrides_of (Split newline (TrimRight newline s)) m); [|done]. simpl. apply overrides_of_blank.
Qed.

Lemma ParseOverrides_lines s m :
  ParseOverrides (mkReader s None) = Ok m ↔
  Forall (λ x, String.length x < MaxScanTokenSize) (raw_lines s) ∧ overrides_of (raw_lines s) ∅ = Ok m.
Proof.
  unfold ParseOverrides, ScanLines. cbn [rd_data rd_err]. split.
  - destruct (fitting (raw_lines s)) as [l ok] eqn:E. rewrite overrides_of_drop_cr.
    intros (m' & Hm & H)%res_bind_ok. destruct ok; [|done]. apply fitting_ok in E as [-> Hf].
    split; [done|]. injection H as <-. done.
  - intros [Hf Hm]. rewrite fitting_all by done. rewrite overrides_of_drop_cr, Hm. done.
Qed.

Definition valid_updates (updates : gmap string Z) : Prop :=
  map_Forall (λ name port, valid_name name = true ∧ (0 ≤ port ≤ max_int64)%Z) updates.

Lemma Atoi_Itoa port : (0 ≤ port ≤ max_int64)%Z → Atoi (Itoa port) = Ok port.
Proof. intros H. apply ParseInt_Itoa, int64_ok_iff. unfold max_int64 in H. lia. Qed.

Lemma names_of_cons line lines :
  names_of (line :: lines) =
    match FindStringSubmatch line with
    | Some (_, name, _) => {[name]} ∪ names_of lines
    | None => names_of lines
    end.
Proof. unfold names_of. simpl. by destruct (FindStringSubmatch line) as [[[h n] d]|]. Qed.

Lemma overrides_of_assign name port lines m :
  valid_name name = true → (0 ≤ port ≤ max_int64)%Z →
  overrides_of (assign name port :: lines) m = overrides_of lines (<[name := port]> m).
Proof.
  intros Hn Hp. cbn [overrides_of]. rewrite FindStringSubmatch_assign by (done || lia).
  rewrite bool_decide_eq_false_2 by done. by rewrite Atoi_Itoa.
Qed.

(** One line. *)
Definition override_of (line : string) (m : gmap string Z) : res (gmap string Z) :=
  match FindStringSubmatch line with
  | None => Ok m
  | Some (hash, name, digits) =>
      if bool_decide (hash = "#") then Ok m
      else map_err (wrapf (name +:+ ": ")) ((λ port, <[name := port]> m) <$> Atoi digits)
  end.

Lemma overrides_of_cons line lines m :
  overrides_of (line :: lines) m = override_of line m ≫= overrides_of lines.
Proof.
  cbn [overrides_of]. unfold override_of. destruct (FindStringSubmatch line) as [[[h n] d]|]; [|done].
  case_bool_decide; [done|]. by destruct (Atoi d).
Qed.

(** The maps agree outside the updates. *)
Definition agree_off (updates m m1 : gmap string Z) : Prop := ∀ n, updates !! n = None → m1 !! n = m !! n.

Lemma override_of_line line m m' n :
  override_of line m = Ok m' → n ∉ names_of [line] → m' !! n = m !! n.
Proof.
  unfold override_of. rewrite names_of_cons. destruct (FindStringSubmatch line) as [[[h name] d]|]; [|by intros [= <-]].
  intros Ho Hn. case_bool_decide; [by injection Ho as <-|]. destruct (Atoi d); [|done]. injection Ho as <-.
  rewrite lookup_insert_ne; [done|set_solver].
Qed.

(** A line that is kept does the same to both maps. *)
Lemma override_of_agree updates line m m1 m' :
  agree_off updates m m1 → override_of line m = Ok m' →
  ∃ m1', override_of line m1 = Ok m1' ∧ agree_off updates m' m1'.
Proof.
  unfold override_of. intros Hm. destruct (FindStringSubmatch line) as [[[h name] d]|]; [|intros [= <-]; by exists m1].
  case_bool_decide; [intros [= <-]; by exists m1|]. destruct (Atoi d) as [port|]; [|done]. intros [= <-].
  exists (<[name := port]> m1). split; [done|]. intros n Hn. rewrite !lookup_insert. case_decide; [done|by apply Hm].
Qed.

(** A rendered line assigns its update, if it has one, and otherwise what it
    assigned before. *)
Lemma override_of_render updates line m m1 m' :
  valid_updates updates → agree_off updates m m1 → override_of line m = Ok m' →
  ∃ m1', override_of (render_line updates line) m1 = Ok m1' ∧ agree_off updates m' m1' ∧
    ∀ n, is_Some (updates !! n) → m1' !! n = if bool_decide (n ∈ names_of [line]) then updates !! n else m1 !! n.
Proof.
  intros Hv Hm Ho. rewrite names_of_cons. unfold render_line.
  destruct (FindStringSubmatch line) as [[[h name] d]|] eqn:Ef;
    [destruct (updates !! name) as [port|] eqn:Eu|].
  - destruct (Hv _ _ Eu) as [Hn Hp]. exists (<[name := port]> m1). split; [|split].
    + unfold override_of. rewrite FindStringSubmatch_assign by (done || lia). by rewrite Atoi_Itoa.
    + intros n Hn'. rewrite lookup_insert_ne by congruence. rewrite (Hm n Hn'). symmetry.
      eapply override_of_line; [done|]. rewrite names_of_cons, Ef. set_solver.
    + intros n Hn'. rewrite lookup_insert. repeat case_decide; case_bool_decide; subst; try done; set_solver.
  - destruct (override_of_agree updates line m m1 m' Hm Ho) as (m1' & E & Hm'). exists m1'. split_and!; try done.
    intros n [port Hn]. assert (n ∉ names_of [line]) as Hni.
    { rewrite names_of_cons, Ef. intros [->%elem_of_singleton|Hc]%elem_of_union; [congruence|by apply not_elem_of_empty in Hc]. }
    rewrite names_of_cons, Ef in Hni. rewrite bool_decide_eq_false_2 by done.
    apply (override_of_line line m1 m1' n E). by rewrite names_of_cons, Ef.
  - destruct (override_of_agree updates line m m1 m' Hm Ho) as (m1' & E & Hm'). exists m1'. split_and!; try done.
    intros n Hn. rewrite bool_decide_eq_false_2 by done.
    apply (override_of_line line m1 m1' n E). by rewrite names_of_cons, Ef.
Qed.

Lemma names_of_app_cons line lines : names_of (line :: lines) = names_of [line] ∪ names_of lines.
Proof. rewrite !names_of_cons. destruct (FindStringSubmatch line) as [[[h n] d]|]; set_solver. Qed.

(** Rendered lines assign the updates where a line of the variable was, and what
    they assigned before otherwise. *)
Lemma overrides_of_render updates lines m m1 m' :
  valid_updates updates → agree_off updates m m1 → overrides_of lines m = Ok m' →
  ∃ m2, overrides_of (render_line updates <$> lines) m1 = Ok m2 ∧ agree_off updates m' m2 ∧
    ∀ n, is_Some (updates !! n) → m2 !! n = if bool_decide (n ∈ names_of lines) then updates !! n else m1 !! n.
Proof.
  intros Hv. revert m m1. induction lines as [|line lines IH]; intros m m1 Hm Ho.
  - injection Ho as <-. exists m1. split_and!; try done.
  - rewrite overrides_of_cons in Ho. apply res_bind_ok in Ho as (m0 & H0 & Ho).
    destruct (override_of_render updates line m m1 m0 Hv Hm H0) as (m10 & E1 & Hm10 & H1).
    destruct (IH m0 m10 Hm10 Ho) as (m2 & E2 & Hm2 & H2). exists m2. rewrite fmap_cons, overrides_of_cons, E1.
    split_and!; try done. intros n Hn. rewrite H2, H1, (names_of_app_cons line lines) by done.
    rewrite (bool_decide_ext _ _ (elem_of_union _ _ _)), bool_decide_or.
    by destruct (bool_decide (n ∈ names_of [line])), (bool_decide (n ∈ names_of lines)).
Qed.

Lemma overrides_of_appended updates names m :
  valid_updates updates → Forall (λ n, is_Some (updates !! n)) names →
  ∃ m2, overrides_of ((λ n, assign n (default 0%Z (updates !! n))) <$> names) m = Ok m2 ∧
    ∀ n, m2 !! n = if bool_decide (n ∈ names) then updates !! n else m !! n.
Proof.
  intros Hv Hf. revert m. induction Hf as [|x l [p Hx] Hf IH]; intros m.
  - exists m. split; [done|]. intros n. rewrite bool_decide_eq_false_2; [done|]. by apply not_elem_of_nil.
  - destruct (Hv _ _ Hx) as [Hn Hp]. rewrite fmap_cons, Hx, overrides_of_assign by done.
    destruct (IH (<[x := default 0%Z (Some p)]> m)) as (m2 & E & H2). exists m2. split; [exact E|].
    intros n. rewrite H2, (bool_decide_ext _ _ (elem_of_cons l n x)), bool_decide_or, lookup_insert.
    destruct (bool_decide_reflect (n = x)) as [->|Hne].
    + rewrite decide_True by done. rewrite Hx. by destruct (bool_decide (x ∈ l)).
    + by rewrite decide_False by congruence.
Qed.

Lemma updates_of_lookup choices n :
  NoDup (c_Name <$> choices) →
  ∀ p, updates_of choices !! n = Some p ↔
    ∃ c, c ∈ choices ∧ Changed c = true ∧ c_Name c = n ∧ c_Chosen c = p.
Proof.
  unfold updates_of. intros Hnd.
  assert (∀ m : gmap string Z, (∀ c, c ∈ choices → m !! c_Name c = None) → ∀ p,
    foldl (λ m c, if Changed c then <[c_Name c := c_Chosen c]> m else m) m choices !! n = Some p ↔
    m !! n = Some p ∨ ∃ c, c ∈ choices ∧ Changed c = true ∧ c_Name c = n ∧ c_Chosen c = p) as H.
  { induction choices as [|c choices IH]; intros m Hm p.
    - simpl. split; [by left|]. intros [H|(c & Hc & _)]; [done|by apply not_elem_of_nil in Hc].
    - rewrite fmap_cons in Hnd. apply list.NoDup_cons in Hnd as [Hni Hnd]. simpl. rewrite (IH Hnd).
      + destruct (Changed c) eqn:Ec.
        * rewrite lookup_insert_Some. split.
          -- intros [[[<- <-]|[Hne Hp]]|(d & Hd & ?)]; [right; exists c; set_solver|by left|right; exists d; set_solver].
          -- intros [Hp|(d & [->|Hd]%elem_of_cons & Hch & Hn & Hp)]; [|by left; left|right; by exists d].
             left. right. split; [|done]. intros <-. rewrite Hm in Hp; [done|by left].
        * split; [intros [Hp|(d & Hd & ?)]; [by left|right; exists d; set_solver]|].
          intros [Hp|(d & [->|Hd]%elem_of_cons & Hch & Hn & Hp)]; [by left|congruence|right; by exists d].
      + intros d Hd. destruct (Changed c); [|by apply Hm; right].
        rewrite lookup_insert_ne; [by apply Hm; right|]. intros Heq. apply Hni. rewrite Heq.
        by apply list_elem_of_fmap_2. }
  intros p. rewrite H by (intros; apply lookup_empty). rewrite lookup_empty. naive_solver.
Qed.

(** What a name and a port have to satisfy for the file to be readable again. *)
Definition choice_ok (c : Choice) : Prop :=
  valid_name (c_Name c) = true ∧ (Z.of_nat (String.length (c_Name c)) ≤ 65000)%Z ∧ (1 ≤ c_Chosen c ≤ maxPort)%Z.

Lemma name_no_newline : ∀ c, is_name_byte c = true → negb (Ascii.eqb c newline) = true.
Proof. all_bytes. Qed.
Lemma digit_no_newline : ∀ c, is_digit c = true → negb (Ascii.eqb c newline) = true.
Proof. all_bytes. Qed.

Lemma str_forall_impl (p q : ascii → bool) s :
  (∀ c, p c = true → q c = true) → str_forall p s = true → str_forall q s = true.
Proof.
  intros Hpq. induction s as [|c s IH]; [done|]. simpl. intros [Hc Hs]%andb_true_iff.
  by rewrite (Hpq _ Hc), IH.
Qed.

Lemma MaxScan_Z : Z.of_nat MaxScanTokenSize = 65536%Z.
Proof. unfold MaxScanTokenSize. by rewrite Z2Nat.id. Qed.

(** A line [Scan] yields whole. *)
Definition line_ok (line : string) : Prop :=
  no_byte newline line = true ∧ String.length line < MaxScanTokenSize.

Lemma assign_ok c : choice_ok c → line_ok (assign (c_Name c) (c_Chosen c)).
Proof.
  intros ([_ Hn]%andb_true_iff & Hl & Hp). unfold maxPort in Hp.
  destruct (Itoa_natural (c_Chosen c)) as [Hd _]; [lia|]. split.
  - unfold no_byte, assign. rewrite !str_forall_app.
    rewrite (str_forall_impl _ _ _ name_no_newline Hn), (str_forall_impl _ _ _ digit_no_newline Hd). done.
  - unfold assign. rewrite !str_app_length. apply Nat2Z.inj_lt. rewrite MaxScan_Z, !Nat2Z.inj_add.
    assert (String.length (Itoa (c_Chosen c)) ≤ 20) as Hi; [|simpl; lia].
    unfold Itoa, dec. rewrite (proj2 (Z.ltb_ge (c_Chosen c) 0)) by lia.
    etrans; [apply dec_digits_length|]. simpl.
    assert (Z.log2 (c_Chosen c) < 16)%Z by (apply Z.log2_lt_pow2; lia). lia.
Qed.

(** The lines [RenderEnv] starts from. *)
Definition env_lines (existing : string) : list string :=
  if bool_decide (existing = "") then [] else Split newline (TrimRight newline existing).

Lemma env_lines_overrides existing m :
  overrides_of (env_lines existing) m = overrides_of (raw_lines existing) m.
Proof. unfold env_lines. case_bool_decide; [by subst|]. by rewrite overrides_of_trim. Qed.

Lemma env_lines_ok existing :
  Forall (λ x, String.length x < MaxScanTokenSize) (raw_lines existing) → Forall line_ok (env_lines existing).
Proof.
  intros Hf. unfold env_lines. case_bool_decide; [constructor|].
  apply list.Forall_forall. intros x Hx. split.
  - pose proof (Split_no_byte newline (TrimRight newline existing)) as Hn. rewrite list.Forall_forall in Hn. by apply Hn.
  - destruct (raw_lines_trim existing) as [k Hk]. rewrite Hk in Hf. rewrite list.Forall_forall in Hf.
    destruct (decide (x = "")) as [->|Hne]; [apply Nat2Z.inj_lt; by rewrite MaxScan_Z|].
    apply Hf. destruct (drop_last_empty_cases (Split newline (TrimRight newline existing) ++ replicate k "")) as [->|E];
      [apply elem_of_app; by left|].
    assert (x ∈ drop_last_empty (Split newline (TrimRight newline existing) ++ replicate k "") ++ [""]) as Hin
      by (rewrite <- E; apply elem_of_app; by left).
    apply elem_of_app in Hin as [?|?%list_elem_of_singleton]; done.
Qed.

Lemma updates_valid choices :
  NoDup (c_Name <$> choices) → Forall choice_ok choices → valid_updates (updates_of choices).
Proof.
  intros Hnd Hf n p (c & Hc & _ & <- & <-)%updates_of_lookup; [|done].
  rewrite list.Forall_forall in Hf. destruct (Hf c Hc) as (? & _ & ?). unfold max_int64, maxPort in *. split; [done|lia].
Qed.

(** A rendered line can be read again. *)
Lemma render_line_ok choices line :
  NoDup (c_Name <$> choices) → Forall choice_ok choices → line_ok line → line_ok (render_line (updates_of choices) line).
Proof.
  intros Hnd Hf Hl. unfold render_line. destruct (FindStringSubmatch line) as [[[h n] d]|]; [|done].
  destruct (updates_of choices !! n) as [p|] eqn:E; [|done].
  apply updates_of_lookup in E as (c & Hc & _ & <- & <-); [|done].
  rewrite list.Forall_forall in Hf. by apply assign_ok, Hf.
Qed.

Lemma missing_elem (updates : gmap string Z) (names : gset string) n :
  n ∈ sort_Strings (filter (λ name, name ∉ names) (map_to_list updates).*1) ↔ is_Some (updates !! n) ∧ n ∉ names.
Proof.
  rewrite sort_Strings_perm, list_elem_of_filter, list_elem_of_fmap. split.
  - intros [Hn ([n' p] & -> & Hp%elem_of_map_to_list)]. split; [by eexists|done].
  - intros [[p Hp] Hn]. split; [done|]. exists (n, p). by rewrite elem_of_map_to_list.
Qed.

(** What [ParseOverrides] reads from a rendered file. *)
Lemma RenderEnv_overrides existing choices ov :
  NoDup (c_Name <$> choices) → Forall choice_ok choices →
  ParseOverrides (mkReader existing None) = Ok ov →
  ∃ ov', ParseOverrides (mkReader (RenderEnv existing choices) None) = Ok ov' ∧
    ∀ n, ov' !! n = match updates_of choices !! n with Some p => Some p | None => ov !! n end.
Proof.
  intros Hnd Hf Hov. pose proof Hov as [Hfit Hlines]%ParseOverrides_lines.
  pose proof (updates_valid choices Hnd Hf) as Hv. unfold RenderEnv. cbn zeta. fold (env_lines existing).
  case_bool_decide as Hemp.
  { exists ov. split; [done|]. intros n. by rewrite Hemp, lookup_empty. }
  set (updates := updates_of choices) in *.
  set (missing := sort_Strings (filter (λ name, name ∉ names_of (env_lines existing)) (map_to_list updates).*1)).
  assert (Forall (λ n, is_Some (updates !! n)) missing) as Hmis.
  { apply list.Forall_forall. intros n Hn. by apply missing_elem in Hn as [? _]. }
  rewrite <- env_lines_overrides in Hlines.
  destruct (overrides_of_render updates (env_lines existing) ∅ ∅ ov Hv) as (m1 & E1 & Hoff & Hon); [done|done|].
  destruct (overrides_of_appended updates missing m1 Hv Hmis) as (m2 & E2 & H2).
  set (lines := (render_line updates <$> env_lines existing) ++ _).
  assert (Forall line_ok lines) as Hok.
  { apply list.Forall_app. split.
    - apply list.Forall_fmap. eapply list.Forall_impl; [by apply env_lines_ok|]. intros l Hl. by apply render_line_ok.
    - apply list.Forall_fmap. apply list.Forall_forall. intros n Hn. simpl.
      apply missing_elem in Hn as [[p Hp] _]. rewrite Hp. simpl. unfold updates in Hp.
      apply updates_of_lookup in Hp as (c & Hc & _ & <- & <-); [|done].
      rewrite list.Forall_forall in Hf. by apply assign_ok, Hf. }
  assert (lines ≠ []) as Hne.
  { apply map_choose in Hemp as (n & p & Hp). intros Hnil%app_eq_nil. destruct Hnil as [He%fmap_nil_inv Hm%fmap_nil_inv].
    assert (n ∈ missing) as Hin; [|rewrite Hm in Hin; by apply not_elem_of_nil in Hin].
    apply missing_elem. rewrite He. split; [by eexists|by apply not_elem_of_empty]. }
  exists m2. split.
  - apply ParseOverrides_lines. rewrite raw_lines_text; [|done|by eapply list.Forall_impl; [exact Hok|intros l []]].
    split; [by eapply list.Forall_impl; [exact Hok|intros l []]|].
    unfold lines. by rewrite overrides_of_app, E1.
  - intros n. rewrite H2. destruct (updates !! n) as [p|] eqn:En.
    + case_bool_decide as Hin; [done|]. rewrite Hon by (by rewrite En). rewrite bool_decide_eq_true_2; [done|].
      destruct (decide (n ∈ names_of (env_lines existing))); [done|]. exfalso. apply Hin, missing_elem.
      split; [by rewrite En|done].
    + rewrite bool_decide_eq_false_2; [by apply Hoff|]. intros [[p Hp] _]%missing_elem. congruence.
Qed.

(** *** The ports asked for *)

Definition in_port_range (port : Z) : Prop := (1 ≤ port ≤ maxPort)%Z.

(** What [desiredPorts] accepts. *)
Definition wants_ok (specs : list PortSpec) (overrides : gmap string Z) : Prop :=
  Forall in_port_range (want overrides <$> specs) ∧ NoDup (want overrides <$> specs).

Lemma desired_of_spec specs overrides desired owner :
  match desired_of specs overrides desired owner with
  | Ok d => wants_ok specs overrides ∧ (∀ s, s ∈ specs → owner !! want overrides s = None) ∧
      (NoDup (ps_Name <$> specs) →
       (∀ s, s ∈ specs → d !! ps_Name s = Some (want overrides s)) ∧
       ∀ n, n ∉ ps_Name <$> specs → d !! n = desired !! n)
  | Err _ => ¬ (wants_ok specs overrides ∧ ∀ s, s ∈ specs → owner !! want overrides s = None)
  end.
Proof.
  unfold wants_ok. revert desired owner. induction specs as [|s specs IH]; intros desired owner.
  - simpl. split; [split; constructor|]. split; [intros s Hs; by apply not_elem_of_nil in Hs|].
    intros _. split; [intros s Hs; by apply not_elem_of_nil in Hs|done].
  - cbn [desired_of]. rewrite !fmap_cons.
    destruct ((want overrides s <? 1)%Z || (maxPort <? want overrides s)%Z) eqn:Er.
    { intros [[Hf _] _]. apply Forall_cons_1 in Hf as [[H1 H2] _].
      apply orb_true_iff in Er as [Er|Er]; apply Z.ltb_lt in Er; lia. }
    apply orb_false_iff in Er as [E1%Z.ltb_ge E2%Z.ltb_ge].
    destruct (owner !! want overrides s) as [other|] eqn:Eo.
    { intros [_ Hall]. specialize (Hall s ltac:(by left)). congruence. }
    specialize (IH (<[ps_Name s := want overrides s]> desired) (<[want overrides s := ps_Name s]> owner)).
    destruct (desired_of specs _ _ _) as [d|e].
    + destruct IH as ((Hf & Hnd) & Ho & Hd). split; [split|split].
      * by apply Forall_cons_2.
      * apply list.NoDup_cons. split; [|done]. intros ([s'] & Hs')%list_elem_of_fmap.
        destruct Hs' as [Heq Hin]. specialize (Ho _ Hin). rewrite <- Heq, lookup_insert_eq in Ho. done.
      * intros s' [->|Hin]%elem_of_cons; [done|]. specialize (Ho _ Hin). by apply lookup_insert_None in Ho as [? _].
      * intros [Hni Hnn]%list.NoDup_cons. destruct (Hd Hnn) as [Hin Hout]. split.
        -- intros s' [->|Hs']%elem_of_cons; [|by apply Hin]. by rewrite Hout, lookup_insert_eq.
        -- intros n Hn. apply not_elem_of_cons in Hn as [Hn1 Hn2]. rewrite Hout by done.
           by rewrite lookup_insert_ne.
    + intros [[Hf Hnd] Ho]. apply IH. apply Forall_cons_1 in Hf as [_ Hf]. apply list.NoDup_cons in Hnd as [Hni Hnd].
      split; [done|]. intros s' Hs'. apply lookup_insert_None. split; [by apply Ho; right|].
      intros Heq. apply Hni. rewrite Heq. by apply list_elem_of_fmap_2.
Qed.

Lemma desiredPorts_ok specs overrides d :
  desiredPorts specs overrides = Ok d → NoDup (ps_Name <$> specs) →
  wants_ok specs overrides ∧ (∀ s, s ∈ specs → d !! ps_Name s = Some (want overrides s)) ∧
  ∀ p, p ∈ reserved_of d ↔ p ∈ want overrides <$> specs.
Proof.
  intros E Hnd. unfold desiredPorts in E. pose proof (desired_of_spec specs overrides ∅ ∅) as H.
  rewrite E in H. destruct H as (Hw & _ & H). destruct (H Hnd) as [Hin Hout]. split; [done|]. split; [done|].
  intros p. unfold reserved_of. rewrite elem_of_list_to_set, !list_elem_of_fmap. split.
  - intros ([n q] & -> & Hq%elem_of_map_to_list). simpl.
    destruct (decide (n ∈ ps_Name <$> specs)) as [(s & -> & Hs)%list_elem_of_fmap|Hn].
    + exists s. rewrite Hin in Hq by done. by injection Hq.
    + rewrite Hout, lookup_empty in Hq by done. done.
  - intros (s & -> & Hs). exists (ps_Name s, want overrides s). split; [done|]. apply elem_of_map_to_list. by apply Hin.
Qed.

Lemma desiredPorts_iff specs overrides : is_ok (desiredPorts specs overrides) = true ↔ wants_ok specs overrides.
Proof.
  pose proof (desired_of_spec specs overrides ∅ ∅) as H. unfold desiredPorts.
  destruct (desired_of specs overrides ∅ ∅); simpl.
  - split; [by intros _; destruct H|done].
  - split; [done|]. intros Hw. exfalso. apply H. split; [done|]. intros; apply lookup_empty.
Qed.

(** *** The search *)

Section choose_facts.
Context {W : Type} (sel : Selection W).
Implicit Types (w : W).

(** Some probe of the port gave this answer. *)
Definition probed (port : Z) (free : bool) : Prop := ∃ w w', Free sel port w = (Ok free, w').

Definition search_end (start : Z) : Z := Z.min (wrap64 (start + Limit sel)) maxPort.

Lemma next_free_spec fuel port start reserved w r w' :
  next_free fuel port start reserved sel w = (r, w') → (maxPort - port < Z.of_nat fuel)%Z →
  match r with
  | Ok p => (port ≤ p ≤ search_end start)%Z ∧ p ∉ reserved ∧ probed p true ∧
      ∀ q, (port ≤ q < p)%Z → q ∈ reserved ∨ probed q false
  | Err e => (∃ q w1 w2, Free sel q w1 = (Err e, w2)) ∨
      ∀ q, (port ≤ q ≤ search_end start)%Z → q ∈ reserved ∨ probed q false
  end.
Proof.
  unfold search_end. revert port w. induction fuel as [|fuel IH]; intros port w; cbn [next_free].
  { intros [= <- <-] Hf. right. intros q Hq. lia. }
  destruct ((port <=? wrap64 (start + Limit sel))%Z && (port <=? maxPort)%Z) eqn:Er.
  2:{ intros [= <- <-] _. right. intros q Hq. exfalso.
      apply andb_false_iff in Er as [Er|Er]; apply Z.leb_gt in Er; lia. }
  apply andb_true_iff in Er as [E1%Z.leb_le E2%Z.leb_le].
  assert (∀ w0, port ∈ reserved ∨ probed port false →
    next_free fuel (port + 1) start reserved sel w0 = (r, w') → (maxPort - port < Z.of_nat (S fuel))%Z →
    match r with
    | Ok p => (port ≤ p ≤ Z.min (wrap64 (start + Limit sel)) maxPort)%Z ∧ p ∉ reserved ∧ probed p true ∧
        ∀ q, (port ≤ q < p)%Z → q ∈ reserved ∨ probed q false
    | Err e => (∃ q w1 w2, Free sel q w1 = (Err e, w2)) ∨
        ∀ q, (port ≤ q ≤ Z.min (wrap64 (start + Limit sel)) maxPort)%Z → q ∈ reserved ∨ probed q false
    end) as Hstep.
  { intros w0 Hp Hn Hf. apply IH in Hn; [|lia]. destruct r as [p|e].
    - destruct Hn as (Hb & Hr & Hfree & Hq). split; [lia|]. split_and!; try done.
      intros q Hlt. destruct (decide (q = port)) as [->|]; [done|]. apply Hq. lia.
    - destruct Hn as [Hn|Hq]; [by left|]. right. intros q Hlt.
      destruct (decide (q = port)) as [->|]; [done|]. apply Hq. lia. }
  case_bool_decide as Hres; [by apply Hstep; left|].
  destruct (Free sel port w) as [[[]|e] w1] eqn:Ef.
  - intros [= <- <-] _. split; [lia|]. split; [done|]. split; [by exists w, w1|]. intros q Hq. lia.
  - apply Hstep. right. by exists w, w1.
  - intros [= <- <-] _. left. by exists port, w, w1.
Qed.

Lemma nextFree_spec start reserved w r w' :
  nextFree start reserved sel w = (r, w') → (1 ≤ start ≤ maxPort)%Z →
  match r with
  | Ok p => (start < p ≤ search_end start)%Z ∧ p ∉ reserved ∧ probed p true ∧
      ∀ q, (start < q < p)%Z → q ∈ reserved ∨ probed q false
  | Err e => (∃ q w1 w2, Free sel q w1 = (Err e, w2)) ∨
      ∀ q, (start < q ≤ search_end start)%Z → q ∈ reserved ∨ probed q false
  end.
Proof.
  intros E Hs. apply next_free_spec in E; [|lia]. destruct r as [p|e].
  - destruct E as (Hb & Hr & Hf & Hq). split; [lia|]. split_and!; try done. intros q Hlt. apply Hq. lia.
  - destruct E as [E|Hq]; [by left|]. right. intros q Hlt. apply Hq. lia.
Qed.

(** Why a port was chosen, when the ports of [others] were not to be had. *)
Definition justified (others : Z → Prop) (c : Choice) : Prop :=
  match c_Reason c with
  | ReasonOurs => c_Chosen c = c_Desired c ∧ ours sel (c_Desired c) = true
  | ReasonFree => c_Chosen c = c_Desired c ∧ ours sel (c_Desired c) = false ∧ probed (c_Desired c) true
  | ReasonTaken => ours sel (c_Desired c) = false ∧ probed (c_Desired c) false ∧
      (c_Desired c < c_Chosen c ≤ search_end (c_Desired c))%Z ∧ probed (c_Chosen c) true ∧
      ∀ q, (c_Desired c < q < c_Chosen c)%Z → others q ∨ probed q false
  end.

Lemma justified_mono (P Q : Z → Prop) c : (∀ q, P q → Q q) → justified P c → justified Q c.
Proof.
  unfold justified. intros HPQ. destruct (c_Reason c); try done.
  intros (H1 & H2 & H3 & H4 & Hq). refine (conj H1 (conj H2 (conj H3 (conj H4 _)))).
  intros q Hlt. destruct (Hq q Hlt); auto.
Qed.

(** Ports kept and ports moved. *)
Definition placed (reserved : gset Z) (c : Choice) : Prop :=
  c_Chosen c = c_Desired c ∨ c_Chosen c ∉ reserved.

(** What [Choose] promises of its result, when the ports of [reserved] are not to
    be given away. *)
Definition chosen_ok (reserved : gset Z) (names : list string) (ports : list Z) (l : list Choice) : Prop :=
  c_Name <$> l = names ∧ c_Desired <$> l = ports ∧
  NoDup (c_Chosen <$> l) ∧ Forall (placed reserved) l ∧ Forall (λ c, in_port_range (c_Chosen c)) l ∧
  Forall (justified (λ q, q ∈ reserved ∨ q ∈ c_Chosen <$> l)) l.

Lemma chosen_cons reserved r1 c l names ports :
  placed reserved c → in_port_range (c_Chosen c) → justified (λ q, q ∈ reserved) c →
  (∀ q, q ∈ r1 ↔ q = c_Chosen c ∨ q ∈ reserved) →
  c_Desired c ∉ ports → Forall (λ p, p ∈ reserved) ports → c_Desired c ∈ reserved →
  chosen_ok r1 names ports l → chosen_ok reserved (c_Name c :: names) (c_Desired c :: ports) (c :: l).
Proof.
  intros Hp Hr Hj Hr1 Hni Hports Hres (Hn & Hd & Hnd & Hpl & Hrl & Hjl). unfold chosen_ok.
  rewrite !fmap_cons, Hn, Hd. split_and!; try done.
  - apply list.NoDup_cons. split; [|done]. intros (c1 & Heq & Hc1)%list_elem_of_fmap.
    rewrite list.Forall_forall in Hpl. destruct (Hpl _ Hc1) as [Hsame|Hnot];
      [|apply Hnot, Hr1; by left].
    assert (c_Desired c1 ∈ ports) as Hdes by (rewrite <- Hd; by apply list_elem_of_fmap_2).
    destruct Hp as [Hkeep|Hmoved].
    + apply Hni. by rewrite <- Hkeep, Heq, Hsame.
    + apply Hmoved. rewrite Heq, Hsame. rewrite list.Forall_forall in Hports. by apply Hports.
  - apply Forall_cons_2; [done|]. eapply list.Forall_impl; [exact Hpl|].
    intros c1 [?|Hnot]; [by left|]. right. intros Hin. apply Hnot, Hr1. by right.
  - by apply Forall_cons_2.
  - apply Forall_cons_2.
    + eapply justified_mono; [|exact Hj]. by left.
    + eapply list.Forall_impl; [exact Hjl|]. intros c1. apply justified_mono.
      intros q [[->|Hq]%Hr1|Hq]; [right; by left|by left|right; by right].
Qed.

Lemma choose_loop_spec specs desired reserved w l w' :
  choose_loop specs desired reserved sel w = (Ok l, w') →
  let port s := default 0%Z (desired !! ps_Name s) in
  Forall (λ s, in_port_range (port s) ∧ port s ∈ reserved) specs → NoDup (port <$> specs) →
  chosen_ok reserved (ps_Name <$> specs) (port <$> specs) l.
Proof.
  cbn zeta. revert reserved w l w'. induction specs as [|s specs IH]; intros reserved w l w'.
  { intros [= <- <-] _ _. by repeat constructor. }
  cbn [choose_loop]. rewrite !fmap_cons. set (port := default 0%Z (desired !! ps_Name s)).
  intros E Hf Hnd. apply Forall_cons_1 in Hf as [[Hrange Hres] Hf]. apply list.NoDup_cons in Hnd as [Hni Hnd].
  assert (∀ c r1 w1, c_Name c = ps_Name s → c_Desired c = port → placed reserved c → in_port_range (c_Chosen c) →
    justified (λ q, q ∈ reserved) c → (∀ q, q ∈ r1 ↔ q = c_Chosen c ∨ q ∈ reserved) →
    match choose_loop specs desired r1 sel w1 with
    | (Ok l, w2) => (Ok (c :: l), w2)
    | (Err err, w2) => (Err err, w2)
    end = (Ok l, w') →
    chosen_ok reserved (ps_Name s :: (ps_Name <$> specs))
      (port :: ((λ s, default 0%Z (desired !! ps_Name s)) <$> specs)) l) as Hcont.
  { intros c r1 w1 <- Hd Hp Hr Hj Hr1 E1.
    destruct (choose_loop specs desired r1 sel w1) as [[l1|e] w2] eqn:El; [|done]. injection E1 as <- <-.
    rewrite <- Hd. eapply chosen_cons; try done; [by rewrite Hd| |by rewrite Hd|].
    - apply list.Forall_fmap. eapply list.Forall_impl; [exact Hf|]. by intros x [_ ?].
    - eapply IH; [exact El| |done]. eapply list.Forall_impl; [exact Hf|].
      intros x [? ?]. split; [done|]. apply Hr1. by right. }
  assert (∀ q, q ∈ reserved ↔ q = port ∨ q ∈ reserved) as Hsame by (split; [by right|by intros [->|?]]).
  destruct (ours sel port) eqn:Eo.
  { by apply (Hcont (mkChoice (ps_Name s) port port ReasonOurs) reserved w); [..|exact Hsame|exact E]; try done; left. }
  destruct (Free sel port w) as [[[]|e] w1] eqn:Ef; [| |done].
  { apply (Hcont (mkChoice (ps_Name s) port port ReasonFree) reserved w1); [..|exact Hsame|exact E]; try done; [by left|].
    refine (conj eq_refl (conj Eo _)). by exists w, w1. }
  destruct (nextFree port reserved sel w1) as [[alt|e] w2] eqn:En; [|done].
  apply nextFree_spec in En as (Hb & Hr & Hfree & Hq); [|done].
  apply (Hcont (mkChoice (ps_Name s) port alt ReasonTaken) ({[alt]} ∪ reserved) w2); [..|exact E]; try done.
  - by right.
  - unfold in_port_range, search_end in *. simpl. lia.
  - refine (conj Eo (conj _ (conj Hb (conj Hfree Hq)))). by exists w, w1.
  - intros q. by rewrite elem_of_union, elem_of_singleton.
Qed.

End choose_facts.

(** *** The specs of a template *)

Lemma str_app3_length a b c : String.length b ≤ String.length (a +:+ b +:+ c).
Proof. rewrite !str_app_length. lia. Qed.

Lemma FindStringSubmatch_length line hash name digits :
  FindStringSubmatch line = Some (hash, name, digits) → String.length name ≤ String.length line.
Proof.
  intros (w1 & w2 & w3 & w4 & w5 & -> & _)%FindStringSubmatch_sound. rewrite !str_app_length. lia.
Qed.

Lemma specs_of_spec lines seen specs :
  specs_of lines seen = Ok specs →
  NoDup (ps_Name <$> specs) ∧
  Forall (λ s, ps_Name s ∉ seen ∧ valid_name (ps_Name s) = true ∧
    ∃ line, line ∈ lines ∧ String.length (ps_Name s) ≤ String.length line) specs.
Proof.
  revert seen specs. induction lines as [|line lines IH]; intros seen specs; cbn [specs_of].
  { intros [= <-]. split; constructor. }
  assert (∀ seen, specs_of lines seen = Ok specs →
    NoDup (ps_Name <$> specs) ∧
    Forall (λ s, ps_Name s ∉ seen ∧ valid_name (ps_Name s) = true ∧
      ∃ l, l ∈ line :: lines ∧ String.length (ps_Name s) ≤ String.length l) specs) as Hskip.
  { intros seen0 [Hnd Hf]%IH. split; [done|]. eapply list.Forall_impl; [exact Hf|].
    intros s (? & ? & l & ? & ?). split_and!; try done. exists l. split; [by right|done]. }
  destruct (FindStringSubmatch line) as [[[h n] d]|] eqn:Ef; [|apply Hskip].
  case_bool_decide as Hseen; [apply Hskip|]. destruct (Atoi d) as [port|]; [|done].
  intros (rest & Hrest & [= <-])%res_bind_ok. destruct (IH _ _ Hrest) as [Hnd Hf].
  rewrite fmap_cons. split.
  - apply list.NoDup_cons. split; [|done]. intros (s & Heq & Hs)%list_elem_of_fmap.
    rewrite list.Forall_forall in Hf. destruct (Hf _ Hs) as (Hns & _). apply Hns.
    apply elem_of_union. left. apply elem_of_singleton. by rewrite <- Heq.
  - apply Forall_cons_2.
    + split; [done|]. split; [by eapply FindStringSubmatch_name|]. exists line. split; [by left|].
      by eapply FindStringSubmatch_length.
    + eapply list.Forall_impl; [exact Hf|]. intros s (Hns & ? & l & ? & ?). split; [|split; [done|]].
      * intros Hin. apply Hns. apply elem_of_union. by right.
      * exists l. split; [by right|done].
Qed.

Lemma ParseSpecs_names r specs :
  ParseSpecs r = Ok specs → NoDup (ps_Name <$> specs) ∧ Forall (λ s, valid_name (ps_Name s) = true) specs.
Proof.
  unfold ParseSpecs. destruct (ScanLines r) as [lines err].
  intros (specs' & [Hnd Hf]%specs_of_spec & H)%res_bind_ok. destruct err; [done|]. injection H as <-.
  split; [done|]. eapply list.Forall_impl; [exact Hf|]. by intros s (_ & ? & _).
Qed.

(** *** The choices *)

Lemma Choose_spec {W} (specs : list PortSpec) (sel : Selection W) w choices w' :
  NoDup (ps_Name <$> specs) → Choose specs sel w = (Ok choices, w') →
  c_Name <$> choices = ps_Name <$> specs ∧ c_Desired <$> choices = want (Overrides sel) <$> specs ∧
  NoDup (c_Chosen <$> choices) ∧ Forall (λ c, in_port_range (c_Chosen c)) choices ∧
  Forall (justified sel (λ q, q ∈ want (Overrides sel) <$> specs ∨ q ∈ c_Chosen <$> choices)) choices.
Proof.
  intros Hnd. unfold Choose. destruct (desiredPorts specs (Overrides sel)) as [d|e] eqn:Ed; [|done].
  intros E. destruct (desiredPorts_ok _ _ _ Ed Hnd) as ([Hr Hw] & Hd & Hres).
  assert ((λ s, default 0%Z (d !! ps_Name s)) <$> specs = want (Overrides sel) <$> specs) as Hwant.
  { apply list_fmap_ext. intros i s Hs%list_elem_of_lookup_2. by rewrite Hd. }
  apply choose_loop_spec in E as (Hn & Hdes & Hndc & _ & Hrc & Hj).
  - rewrite <- Hwant. split_and!; try done. eapply list.Forall_impl; [exact Hj|]. intros c. apply justified_mono.
    intros q [Hq|Hq]; [left; rewrite Hwant; by apply Hres|by right].
  - apply list.Forall_forall. intros s Hs. rewrite Hd by done. simpl. split.
    + rewrite list.Forall_forall in Hr. apply Hr. by apply list_elem_of_fmap_2.
    + apply Hres. by apply list_elem_of_fmap_2.
  - by rewrite Hwant.
Qed.

(** The update of a choice, found by its name. *)
Lemma updates_of_choice choices c :
  NoDup (c_Name <$> choices) → c ∈ choices →
  updates_of choices !! c_Name c = if Changed c then Some (c_Chosen c) else None.
Proof.
  intros Hnd Hc. destruct (Changed c) eqn:Ech.
  - apply updates_of_lookup; [done|]. by exists c.
  - destruct (updates_of choices !! c_Name c) as [p|] eqn:E; [|done].
    apply updates_of_lookup in E as (c' & Hc' & Hch & Hn & _); [|done].
    apply list_elem_of_lookup in Hc as [i Hi]. apply list_elem_of_lookup in Hc' as [j Hj].
    assert (i = j) as <-; [|congruence].
    eapply NoDup_lookup; [exact Hnd|by rewrite list_lookup_fmap, Hi|by rewrite list_lookup_fmap, Hj, <- Hn].
Qed.

(** Reading back the file rendered from a file: every spec wants what was chosen
    for it. *)
Lemma rendered_wants specs existing choices ov :
  NoDup (ps_Name <$> specs) →
  Forall (λ s, valid_name (ps_Name s) = true ∧ (Z.of_nat (String.length (ps_Name s)) ≤ 65000)%Z) specs →
  c_Name <$> choices = ps_Name <$> specs → c_Desired <$> choices = want ov <$> specs →
  Forall (λ c, in_port_range (c_Chosen c)) choices →
  ParseOverrides (mkReader existing None) = Ok ov →
  ∃ ov', ParseOverrides (mkReader (RenderEnv existing choices) None) = Ok ov' ∧
    want ov' <$> specs = c_Chosen <$> choices ∧
    ∀ n, n ∉ ps_Name <$> specs → ov' !! n = ov !! n.
Proof.
  intros Hnd Hnames Hn Hd Hr Hov.
  assert (NoDup (c_Name <$> choices)) as Hndc by by rewrite Hn.
  destruct (RenderEnv_overrides existing choices ov Hndc) as (ov' & Eov & Hlk); [|done|].
  { apply list.Forall_forall. intros c Hc. rewrite list.Forall_forall in Hr.
    pose proof (proj1 (list.Forall_forall _ _) Hnames) as Hnames'.
    assert (c_Name c ∈ ps_Name <$> specs) as (s & Heq & Hs)%list_elem_of_fmap
      by (rewrite <- Hn; by apply list_elem_of_fmap_2).
    destruct (Hnames' s Hs). unfold choice_ok. rewrite Heq. by split_and!; try apply (Hr c Hc). }
  exists ov'. split; [done|]. split.
  - apply list_eq. intros i. rewrite !list_lookup_fmap.
    apply (f_equal (λ l, l !! i)) in Hn. apply (f_equal (λ l, l !! i)) in Hd.
    rewrite !list_lookup_fmap in Hn. rewrite !list_lookup_fmap in Hd.
    destruct (choices !! i) as [c|] eqn:Ec, (specs !! i) as [s|] eqn:Es; try done. simpl in *.
    apply (inj Some) in Hn, Hd. f_equal. unfold want at 1. rewrite <- Hn, Hlk.
    rewrite updates_of_choice by (done || by eapply list_elem_of_lookup_2).
    destruct (Changed c) eqn:Ech; [done|]. unfold Changed in Ech. apply negb_false_iff, Z.eqb_eq in Ech.
    rewrite Ech, Hd. unfold want. by rewrite Hn.
  - intros n Hni. rewrite Hlk. destruct (updates_of choices !! n) as [p|] eqn:Eu; [|done].
    apply updates_of_lookup in Eu as (c & Hc & _ & <- & _); [|done]. exfalso. apply Hni.
    rewrite <- Hn. by apply list_elem_of_fmap_2.
Qed.

(** *** What the probes leave alone *)

Section preserved.
Context {W : Type} (P : W → Prop) (sel : Selection W).
Hypothesis Free_keeps : ∀ port w, P w → P (Free sel port w).2.

Lemma next_free_keeps fuel port start reserved w : P w → P (next_free fuel port start reserved sel w).2.
Proof.
  revert port w. induction fuel as [|fuel IH]; intros port w Hw; cbn [next_free]; [done|].
  destruct (_ && _); [|done]. case_bool_decide; [by apply IH|].
  pose proof (Free_keeps port w Hw). destruct (Free sel port w) as [[[]|err] w1]; cbn in *; [done|by apply IH|done].
Qed.

Lemma nextFree_keeps start reserved w : P w → P (nextFree start reserved sel w).2.
Proof. apply next_free_keeps. Qed.

Lemma Choose_keeps specs w : P w → P (Choose specs sel w).2.
Proof.
  unfold Choose. destruct (desiredPorts specs (Overrides sel)) as [desired|e]; [|done].
  generalize (reserved_of desired). revert w. induction specs as [|s specs IH]; intros w reserved Hw; cbn [choose_loop]; [done|].
  assert (∀ c reserved w, P w → P (match choose_loop specs desired reserved sel w with
    | (Ok l, w) => (Ok (c :: l), w) | (Err err, w) => (Err err, w) end).2) as Hgo.
  { intros c r w1 Hw1. specialize (IH w1 r Hw1). by destruct (choose_loop specs desired r sel w1) as [[?|?] ?]. }
  destruct (ours sel _); [by apply Hgo|]. pose proof (Free_keeps (default 0%Z (desired !! ps_Name s)) w Hw).
  destruct (Free sel _ w) as [[[]|err] w1]; cbn [fst snd] in *; [by apply Hgo| |done].
  pose proof (nextFree_keeps (default 0%Z (desired !! ps_Name s)) reserved w1 H) as Hn.
  destruct (nextFree _ _ _ w1) as [[alt|err] w2]; [by apply Hgo|done].
Qed.

End preserved.

(** ** Properties *)

(** C27: when [Choose] succeeds, every service got a port of its own: the choices
    are those of the specs in order, their desired ports are the overrides or the
    defaults, the chosen ports are valid and pairwise distinct, a desired port is
    kept exactly when it is ours or was probed free, and a port that was taken is
    replaced by a free one above it, within the limit, such that every port in
    between is wanted by a spec, given to a spec, or was probed taken. *)
Theorem Choose_assigns {W} (specs : list PortSpec) (sel : Selection W) w choices w' :
  NoDup (ps_Name <$> specs) → Choose specs sel w = (Ok choices, w') →
  c_Name <$> choices = ps_Name <$> specs ∧ c_Desired <$> choices = want (Overrides sel) <$> specs ∧
  NoDup (c_Chosen <$> choices) ∧ Forall (λ c, in_port_range (c_Chosen c)) choices ∧
  Forall (justified sel (λ q, q ∈ want (Overrides sel) <$> specs ∨ q ∈ c_Chosen <$> choices)) choices.
Proof. apply Choose_spec. Qed.

(** A configuration [Choose] cannot use is rejected before any port is probed,
    and it is rejected exactly when a desired port is out of range or two specs
    want the same one. *)
Theorem Choose_rejects_first {W} (specs : list PortSpec) (sel : Selection W) w :
  (∃ e, desiredPorts specs (Overrides sel) = Err e ∧ Choose specs sel w = (Err e, w)) ↔
  ¬ (Forall in_port_range (want (Overrides sel) <$> specs) ∧ NoDup (want (Overrides sel) <$> specs)).
Proof.
  pose proof (desiredPorts_iff specs (Overrides sel)) as H. unfold wants_ok in H. rewrite <- H. unfold Choose.
  destruct (desiredPorts specs (Overrides sel)) as [d|e]; simpl.
  - split; [by intros (e & ? & _)|by intros []].
  - split; [done|]. intros _. by exists e.
Qed.

(** C28: a second run keeps what the first one wrote: with the file [RenderEnv]
    makes of the choices, reading it back succeeds and every spec then wants the
    port that was chosen for it, whatever else the file holds. *)
Theorem rendered_ports_are_read_back {W} (specs : list PortSpec) (sel : Selection W) existing w choices w' :
  NoDup (ps_Name <$> specs) →
  Forall (λ s, valid_name (ps_Name s) = true ∧ (Z.of_nat (String.length (ps_Name s)) ≤ 65000)%Z) specs →
  ParseOverrides (mkReader existing None) = Ok (Overrides sel) →
  Choose specs sel w = (Ok choices, w') →
  ∃ overrides, ParseOverrides (mkReader (RenderEnv existing choices) None) = Ok overrides ∧
    want overrides <$> specs = c_Chosen <$> choices ∧
    ∀ n, n ∉ ps_Name <$> specs → overrides !! n = Overrides sel !! n.
Proof.
  intros Hnd Hnames Hov E. apply Choose_spec in E as (Hn & Hd & _ & Hr & _); [|done]. by eapply rendered_wants.
Qed.

(** When a port changes, the newlines at the end of the file do not survive:
    files that differ in them only render to the same text, although the doc
    comment of [RenderEnv] says that everything but the changed lines is
    preserved byte for byte. *)
Theorem RenderEnv_trims_newlines existing choices k :
  existing ≠ "" → (∃ c, c ∈ choices ∧ Changed c = true) → NoDup (c_Name <$> choices) →
  RenderEnv (existing +:+ bytes_of newline k) choices = RenderEnv existing choices.
Proof.
  intros He (c & Hc & Hch) Hnd. unfold RenderEnv. cbn zeta.
  assert (updates_of choices ≠ ∅) as Hu.
  { intros Hemp. assert (updates_of choices !! c_Name c = Some (c_Chosen c)) as Hl
      by (apply updates_of_lookup; [done|by exists c]).
    by rewrite Hemp, lookup_empty in Hl. }
  rewrite !bool_decide_eq_false_2 by (done || by destruct existing). by rewrite TrimRight_bytes.
Qed.

(** ** Examples *)

Section examples.

Definition ex_specs : list PortSpec :=
  [mkPortSpec "SHIPMENT_MGMT_PORT" 8080; mkPortSpec "RELAY_MGMT_PORT" 8081; mkPortSpec "CONSUMER_MGMT_PORT" 8082].

(** 8080 is taken. *)
Definition ex_selection : Selection () :=
  mkSelection ∅ ∅ (λ p w, (Ok (negb (p =? 8080)%Z), w)) 10.

Definition ex_choices : list Choice :=
  [mkChoice "SHIPMENT_MGMT_PORT" 8080 8083 ReasonTaken; mkChoice "RELAY_MGMT_PORT" 8081 8081 ReasonFree;
   mkChoice "CONSUMER_MGMT_PORT" 8082 8082 ReasonFree].

Lemma ex_chosen : Choose ex_specs ex_selection () = (Ok ex_choices, ()).
Proof. vm_compute. reflexivity. Qed.

Lemma ex_names : NoDup (ps_Name <$> ex_specs).
Proof. apply (bool_decide_unpack _). vm_compute. exact I. Qed.

Definition ex_env : string := "# ports" +:+ str1 newline +:+ "#SHIPMENT_MGMT_PORT=8080" +:+ str1 newline.

Example ex_rendered :
  RenderEnv ex_env ex_choices = "# ports" +:+ str1 newline +:+ "SHIPMENT_MGMT_PORT=8083" +:+ str1 newline.
Proof. vm_compute. reflexivity. Qed.

Lemma Choose_assigns_witness : NoDup (c_Chosen <$> ex_choices).
Proof.
  exact (proj1 (proj2 (proj2 (Choose_assigns ex_specs ex_selection () ex_choices () ex_names ex_chosen)))).
Defined.

Lemma rendered_ports_are_read_back_witness :
  ∃ overrides, ParseOverrides (mkReader (RenderEnv ex_env ex_choices) None) = Ok overrides ∧
    want overrides <$> ex_specs = [8083; 8081; 8082]%Z.
Proof.
  destruct (rendered_ports_are_read_back ex_specs ex_selection ex_env () ex_choices () ex_names)
    as (ov & H1 & H2 & _).
  - repeat constructor; vm_compute; discriminate.
  - vm_compute. reflexivity.
  - apply ex_chosen.
  - exists ov. split; [exact H1|exact H2].
Defined.

Lemma RenderEnv_trims_newlines_witness :
  RenderEnv (ex_env +:+ bytes_of newline 2) ex_choices = RenderEnv ex_env ex_choices.
Proof.
  apply RenderEnv_trims_newlines.
  - discriminate.
  - exists (mkChoice "SHIPMENT_MGMT_PORT" 8080 8083 ReasonTaken). split; [left|reflexivity].
  - apply (bool_decide_unpack _). vm_compute. exact I.
Defined.

End examples.
