(* ===== verification/PortsMain.v ===== *)
(** * tools/ports, the command

    Everything around the choice: the root of the repository, the rejection of
    ports set in the environment, the two files, the ports Compose reports as
    published, the probe, the report, [run] with its exit status, and [main] with
    its flag.  The operating system is the interface [Machine]: environment
    variables, files, the output of the compose command and connection attempts. *)
From S2P Require Import Prelude GoErrors GoStrconv GoStrings GoUtf8 GoPath Json GoContext GoTime GoFlag Broker Ports.

Definition host : string := "127.0.0.1".
Definition envFile : string := ".env".
Definition templFile : string := ".env.example".
Definition searchLimit : Z := 200.
Definition psTimeout : Z := 30 * Second.

Definition ErrNotExist : goerr := ESentinel "fs.ErrNotExist" "file does not exist".
Definition ECONNREFUSED : goerr := ESentinel "syscall.ECONNREFUSED" "connection refused".

Fixpoint rejectEnvironmentPorts (specs : list PortSpec) (lookup : string → option string) : option goerr :=
  match specs with
  | [] => None
  | s :: specs =>
      match lookup (ps_Name s) with
      | Some v =>
          Some (EOther (ps_Name s +:+ "=" +:+ Quote v +:+ " is set in the environment; ports are configured only in "
                        +:+ envFile +:+ " (unset it, or move the value there)"))
      | None => rejectEnvironmentPorts specs lookup
      end
  end.

(** ** What Compose publishes *)

Record Publisher := mkPublisher { pb_URL : string; pb_PublishedPort : Z }.

(** A slice of publishers: its elements, and what the array behind it still holds
    after them, which decoding into the slice again would fill in. *)
Record Publishers := mkPublishers { pb_elems : list Publisher; pb_stale : list Publisher }.
Definition zero_Publisher : Publisher := mkPublisher "" 0.

(** A field that is no pointer: [null] leaves it as it was. *)
Definition keep_null {A} (old : A) (new : option (option A)) : option A :=
  default old <$> new.

Definition publisher_step (p : Publisher) (k : string) (v : json) : option Publisher :=
  let 'mkPublisher u pp := p in
  if names k "URL" then (λ x, mkPublisher x pp) <$> keep_null u (dec_string v)
  else if names k "PublishedPort" then (λ x, mkPublisher u x) <$> keep_null pp (dec_int 64 v)
  else Some p.

Definition dec_publisher (p : Publisher) (v : json) : option Publisher :=
  match v with
  | JNull => Some p
  | JObj ms => dec_members publisher_step p ms
  | _ => None
  end.

(** The elements of an array, each decoded into the one that was at its place;
    the array grows with zero elements. *)
Fixpoint dec_elems (old : list Publisher) (vs : list json) : option Publishers :=
  match vs with
  | [] => Some (mkPublishers [] old)
  | v :: vs =>
      p ← dec_publisher (default zero_Publisher (head old)) v;
      ps ← dec_elems (tail old) vs;
      Some (mkPublishers (p :: pb_elems ps) (pb_stale ps))
  end.

(** [null] and an empty array start a new slice. *)
Definition dec_publishers (ps : Publishers) (v : json) : option Publishers :=
  match v with
  | JNull | JArr [] => Some (mkPublishers [] [])
  | JArr vs => dec_elems (pb_elems ps ++ pb_stale ps) vs
  | _ => None
  end.

(** [composeContainer] is its [Publishers]. *)
Definition container_step (c : Publishers) (k : string) (v : json) : option Publishers :=
  if names k "Publishers" then dec_publishers c v else Some c.

Definition zero_container : Publishers := mkPublishers [] [].

Definition dec_container (v : json) : option Publishers :=
  match v with
  | JNull => Some zero_container
  | JObj ms => dec_members container_step zero_container ms
  | _ => None
  end.

Definition json_err : goerr := EOther "json: cannot unmarshal".
Definition or_json_err {A} (o : option A) : res A := match o with Some a => Ok a | None => Err json_err end.

Definition Unmarshal_containers (text : string) : res (list Publishers) :=
  or_json_err (v ← json_parse text;
               match v with
               | JNull => Some []
               | JArr vs => mapM dec_container vs
               | _ => None
               end).

Definition Unmarshal_container (line : string) : res Publishers :=
  or_json_err (json_parse line ≫= dec_container).

(** One container per line, blank lines skipped. *)
Fixpoint containers_of (lines : list string) : res (list Publishers) :=
  match lines with
  | [] => Ok []
  | line :: lines =>
      if bool_decide (TrimSpace line = "") then containers_of lines
      else
        c ← Unmarshal_container line;
        cs ← containers_of lines;
        Ok (c :: cs)
  end.

Definition is_published (p : Publisher) : bool := bool_decide (pb_URL p = host) && negb (pb_PublishedPort p =? 0)%Z.

Definition ports_of (cs : list Publishers) : gmap Z bool :=
  list_to_map ((λ p, (pb_PublishedPort p, true)) <$> filter (λ p, is_published p = true) (cs ≫= pb_elems)).

Definition parsePublished (raw : string) : res (gmap Z bool) :=
  let text := TrimSpace raw in
  if bool_decide (text = "") then Ok ∅
  else
    cs ← (match text with
          | String "[" _ => Unmarshal_containers text
          | _ => containers_of (Split newline text)
          end);
    Ok (ports_of cs).

(** ** The report *)

Fixpoint spaces (n : nat) : string :=
  match n with
  | O => ""
  | S n => String " " (spaces n)
  end.

(** [%-*s]: padded to a number of runes. *)
Definition pad_right (width : nat) (s : string) : string := s +:+ spaces (width - length (runes s)).

Definition note (c : Choice) : string :=
  match c_Reason c with
  | ReasonFree => "free"
  | ReasonOurs => "published by this stack"
  | ReasonTaken => "in use by another process -> " +:+ Itoa (c_Chosen c)
  end.

Definition printChoices (choices : list Choice) : string :=
  let width := foldr max 0 ((λ c, String.length (c_Name c)) <$> choices) in
  foldr (λ c out, "  " +:+ pad_right width (c_Name c) +:+ "  " +:+ pad_right 5 (Itoa (c_Desired c))
                  +:+ " " +:+ note c +:+ str1 newline +:+ out) "" choices.

(** ** The command *)

Class Machine (W : Type) := {
  LookupEnv : W → string → option string;
  Getwd : W → res string;
  Stat : W → string → option goerr;
  (** [os.Open] with what can be read from the file, and [os.ReadFile]. *)
  OpenFile : W → string → res Reader;
  ReadFile : W → string → res string;
  WriteFile : string → string → W → option goerr * W;
  (** The output of a command run in a directory. *)
  Command_Output : Context → string → list string → W → res string * W;
  (** [dialer.DialContext] with its timeout; a connection is closed at once. *)
  dial : Context → Z → W → option goerr * W
}.

(** What [run] returns, and what it printed on its writer and on the standard
    error. *)
Record RunResult := mkRunResult { o_code : Z; o_err : option goerr; o_out : string; o_stderr : string }.

Section main.
Context {W : Type} {IC : Clock W} {IM : Machine W}.

(** The loop of [repoRoot]: each parent is a shorter path. *)
Fixpoint root_from (fuel : nat) (dir : string) (w : W) : res string :=
  match Stat w (path_Join [dir; templFile]) with
  | None => Ok dir
  | Some _ =>
      let parent := Dir dir in
      let none := Err (EOther (templFile +:+ " not found in " +:+ dir +:+ " or any parent")) in
      if bool_decide (parent = dir) then none
      else match fuel with O => none | S fuel => root_from fuel parent w end
  end.

Definition repoRoot (w : W) : res string :=
  dir ← Getwd w;
  root_from (String.length dir) dir w.

Definition composeCommand (w : W) : list string :=
  let v := TrimSpace (default "" (LookupEnv w "COMPOSE")) in
  if negb (bool_decide (v = "")) then Fields v else ["docker"; "compose"].

Definition readSpecs (path : string) (w : W) : res (list PortSpec) :=
  r ← OpenFile w path;
  specs ← map_err (wrapf (path +:+ ": ")) (ParseSpecs r);
  match specs with
  | [] => Err (EOther (path +:+ " defines no *_PORT variables"))
  | _ => Ok specs
  end.

(** The content of .env, empty when there is no such file, and its ports. *)
Definition readEnv (path : string) (w : W) : res (string * gmap string Z) :=
  match ReadFile w path with
  | Err err => if Is err ErrNotExist then Ok ("", ∅) else Err err
  | Ok data =>
      overrides ← map_err (wrapf (path +:+ ": ")) (ParseOverrides (mkReader data None));
      Ok (data, overrides)
  end.

(** The ports, none of them beside an error when they cannot be determined. *)
Definition publishedPorts (ctx : Context) (dir : string) (compose : list string) (w : W)
    : (gmap Z bool * option goerr) * W :=
  let ctx := WithTimeout ctx psTimeout w in
  match Command_Output ctx dir (compose ++ ["ps"; "--format"; "json"]) w with
  | (Err err, w) => ((∅, Some err), w)
  | (Ok out, w) =>
      match parsePublished out with
      | Ok ports => ((ports, None), w)
      | Err err => ((∅, Some err), w)
      end
  end.

(** What [run] prints when Compose did not answer. *)
Definition notice (err : option goerr) : string :=
  match err with
  | Some err => "ports: could not list this project's containers (" +:+ Error err +:+ "); treating none as ours"
                +:+ str1 newline
  | None => ""
  end.

Definition prober (ctx : Context) (port : Z) (w : W) : res bool * W :=
  match dial ctx port w with
  | (None, w) => (Ok false, w)
  | (Some err, w) =>
      if Is err ECONNREFUSED then (Ok true, w)
      else
        match ctx_Err ctx w with
        | Some e => (Err e, w)
        | None => (Err (wrapf ("probing " +:+ host +:+ ":" +:+ Itoa port +:+ ": ") err), w)
        end
  end.

Definition conflicts (choices : list Choice) : nat := length (filter (λ c, Changed c = true) choices).

(** After the choice: the report, and .env when ports changed. *)
Definition finish (ctx : Context) (root : string) (checkOnly : bool) (existing : string) (choices : list Choice) (stderr : string)
    (w : W) : RunResult * W :=
  let out := printChoices choices in
  let n := conflicts choices in
  let failed err := mkRunResult 1 (Some err) out stderr in
  if checkOnly then
    if (n =? 0)%nat then (mkRunResult 0 None (out +:+ "all ports available" +:+ str1 newline) stderr, w)
    else (mkRunResult 1 None (out +:+ Itoa (Z.of_nat n) +:+ " port(s) in use; `make up` will pick the alternatives above"
                            +:+ str1 newline) stderr, w)
  else if (n =? 0)%nat then (mkRunResult 0 None out stderr, w)
  else
    match ctx_Err ctx w with
    | Some err => (failed err, w)
    | None =>
        match (if bool_decide (existing = "") then ReadFile w (path_Join [root; templFile]) else Ok existing) with
        | Err err => (failed err, w)
        | Ok existing =>
            match WriteFile (path_Join [root; envFile]) (RenderEnv existing choices) w with
            | (Some err, w) => (failed err, w)
            | (None, w) =>
                (mkRunResult 0 None (out +:+ "wrote " +:+ Itoa (Z.of_nat n) +:+ " alternative port(s) to " +:+ envFile
                                   +:+ "; `make urls` shows the result" +:+ str1 newline) stderr, w)
            end
        end
    end.

Definition run (ctx : Context) (checkOnly : bool) (w : W) : RunResult * W :=
  let failed err stderr := mkRunResult 1 (Some err) "" stderr in
  match repoRoot w with
  | Err err => (failed err "", w)
  | Ok root =>
      match readSpecs (path_Join [root; templFile]) w with
      | Err err => (failed err "", w)
      | Ok specs =>
          match rejectEnvironmentPorts specs (LookupEnv w) with
          | Some err => (failed err "", w)
          | None =>
              match readEnv (path_Join [root; envFile]) w with
              | Err err => (failed err "", w)
              | Ok (existing, overrides) =>
                  let '(ours, err, w) := publishedPorts ctx root (composeCommand w) w in
                  match Choose specs (mkSelection overrides ours (prober ctx) searchLimit) w with
                  | (Err e, w) => (failed e (notice err), w)
                  | (Ok choices, w) => finish ctx root checkOnly existing choices (notice err) w
                  end
              end
          end
      end
  end.

Definition ports_flags : list BoolFlag := [mkBoolFlag "check" "report only; exit 1 if any port is taken"].

(** [main], from the program's name and its arguments: the exit status, and what is
    printed on the standard output and on the standard error. *)
Definition main (program : string) (args : list string) (w : W) : Z * string * string * W :=
  match Parse program ports_flags args with
  | inr (code, stderr) => (code, "", stderr, w)
  | inl (set, _) =>
      let (r, w) := run (WithTimeout Background (2 * Minute) w) (flag_value "check" false set) w in
      match o_err r with
      | Some err => (1%Z, o_out r, o_stderr r +:+ "ports: " +:+ Error err +:+ str1 newline, w)
      | None => (o_code r, o_out r, o_stderr r, w)
      end
  end.

End main.
