(* ===== verification/PortsFacts.v ===== *)
(** * What the port chooser leaves on disk

    The search for the root of the repository, which file a run writes, and that
    the file it leaves makes every service want the port that was chosen. *)
From S2P Require Import Prelude GoErrors GoStrconv GoStrings GoUtf8 GoPath Json GoContext GoTime Broker Ports PortsMain.

Lemma template_proper : proper templFile.
Proof. by vm_compute. Qed.
Lemma envFile_proper : proper envFile.
Proof. by vm_compute. Qed.

(** A directory by the names of its path. *)
Definition directory (l : list string) : string := unparse true l.

Lemma directory_file l x : Forall proper l → proper x → path_Join [directory l; x] = directory (l ++ [x]).
Proof.
  intros Hl Hx. unfold directory. rewrite (path_Join_name _ l); [|by apply unparse_nonempty|by apply elements_unparse|done|done].
  by rewrite rooted_unparse.
Qed.

Lemma Base_directory l x : Forall proper l → proper x → Base (path_Join [directory l; x]) = x.
Proof. intros Hl Hx. rewrite directory_file by done. by apply Base_unparse. Qed.

Lemma directory_inj_length l : Forall proper l → length l ≤ String.length (directory l).
Proof.
  intros _. unfold directory. cbn. induction l as [|x [|y l] IH]; cbn in *; [lia..|].
  rewrite str_app_length. cbn. lia.
Qed.

Lemma directory_up l x : Forall proper (l ++ [x]) → Dir (directory (l ++ [x])) = directory l ∧ directory l ≠ directory (l ++ [x]).
Proof.
  intros [Hl [Hx _]%Forall_cons_1]%Forall_app. split; [by apply Dir_unparse|]. intros E.
  apply (f_equal elements) in E. unfold directory in E.
  rewrite !elements_unparse in E by (done || by apply Forall_app; auto).
  apply (f_equal length) in E. rewrite length_app in E. cbn in E. lia.
Qed.

Section facts.
Context {W : Type} {IC : Clock W} {IM : Machine W}.
Implicit Types (w : W).

(** The nearest directory, upwards, that has the template. *)
Definition is_root (l : list string) (k : nat) w : Prop :=
  k ≤ length l ∧ Stat w (path_Join [directory (take k l); templFile]) = None ∧
  ∀ j, k < j ≤ length l → Stat w (path_Join [directory (take j l); templFile]) ≠ None.

Lemma root_from_spec fuel l w :
  Forall proper l → length l ≤ fuel →
  match root_from fuel (directory l) w with
  | Ok root => ∃ k, root = directory (take k l) ∧ is_root l k w
  | Err err => err = EOther (templFile +:+ " not found in / or any parent") ∧
      ∀ j, j ≤ length l → Stat w (path_Join [directory (take j l); templFile]) ≠ None
  end.
Proof.
  revert fuel. induction l as [|x l IH] using rev_ind; intros fuel Hl Hf.
  - assert (Dir (directory []) = directory []) as Hd by by vm_compute.
    destruct (Stat w (path_Join [directory []; templFile])) eqn:Es.
    + assert (root_from fuel (directory []) w = Err (EOther (templFile +:+ " not found in / or any parent"))) as ->.
      { destruct fuel; cbn [root_from]; rewrite Es, Hd, bool_decide_eq_true_2 by done; reflexivity. }
      split; [done|]. intros j _. rewrite take_nil. congruence.
    + assert (root_from fuel (directory []) w = Ok (directory [])) as ->.
      { destruct fuel; cbn [root_from]; by rewrite Es. }
      exists 0. split; [done|]. split; [done|]. split; [exact Es|cbn; lia].
  - rewrite length_app in Hf. cbn in Hf. destruct fuel as [|fuel]; [lia|]. cbn [root_from].
    destruct (Stat w _) eqn:Es.
    + destruct (directory_up l x Hl) as [-> Hne]. rewrite bool_decide_eq_false_2 by done.
      apply Forall_app in Hl as [Hl _]. specialize (IH fuel Hl ltac:(lia)).
      assert (∀ j, j ≤ length l → take j (l ++ [x]) = take j l) as Htake by (intros; by apply take_app_le).
      destruct (root_from fuel (directory l) w).
      * destruct IH as (k & -> & Hk & Hs & Hj). exists k. split; [by rewrite Htake|].
        split; [rewrite length_app; lia|]. rewrite Htake by done. split; [done|]. rewrite length_app. cbn [length].
        intros j Hjk. destruct (decide (j ≤ length l)); [rewrite Htake by done; apply Hj; lia|].
        rewrite take_ge by (rewrite length_app; cbn; lia). congruence.
      * destruct IH as [He IH]. split; [exact He|]. rewrite length_app. cbn [length]. intros j Hj. destruct (decide (j ≤ length l)); [rewrite Htake by done; by apply IH|].
        rewrite take_ge by (rewrite length_app; cbn; lia). congruence.
    + exists (length (l ++ [x])). rewrite take_ge by done. split; [done|]. split; [done|].
      rewrite take_ge by done. split; [done|]. lia.
Qed.

(** The message of a failed search names the last directory it looked in, the root,
    and not where it started. *)
Lemma repoRoot_message l w err :
  Getwd w = Ok (directory l) → Forall proper l → repoRoot w = Err err → Error err = ".env.example not found in / or any parent".
Proof.
  intros Hg Hl. unfold repoRoot. rewrite Hg. unfold mbind, res_bind. intros E.
  pose proof (root_from_spec (String.length (directory l)) l w Hl (directory_inj_length l Hl)) as H.
  rewrite E in H. by destruct H as [-> _].
Qed.

(** [Getwd] gives a rooted path of names. *)
Lemma repoRoot_spec l w root :
  Getwd w = Ok (directory l) → Forall proper l → repoRoot w = Ok root → ∃ k, root = directory (take k l) ∧ is_root l k w.
Proof.
  intros Hg Hl. unfold repoRoot. rewrite Hg. unfold mbind, res_bind. intros E.
  pose proof (root_from_spec (String.length (directory l)) l w Hl (directory_inj_length l Hl)) as H.
  by rewrite E in H.
Qed.

(** ** Files *)

Definition same_file (p : string) w w' : Prop := ReadFile w' p = ReadFile w p ∧ OpenFile w' p = OpenFile w p.

(** Commands and probes change no file; a write changes the one it is given, and
    its content is read back. *)
Record machine_laws : Prop := mk_machine_laws {
  ml_command ctx dir args w p : same_file p w (Command_Output ctx dir args w).2;
  ml_dial ctx port w p : same_file p w (dial ctx port w).2;
  ml_other p q c w : q ≠ p → same_file q w (WriteFile p c w).2;
  ml_written p c w w' : WriteFile p c w = (None, w') → ReadFile w' p = Ok c
}.

Hypothesis laws : machine_laws.

Lemma same_file_refl p w : same_file p w w.
Proof. done. Qed.
Lemma same_file_trans p w1 w2 w3 : same_file p w1 w2 → same_file p w2 w3 → same_file p w1 w3.
Proof. intros [??] [??]. split; congruence. Qed.

Lemma publishedPorts_same ctx dir cmd w p : same_file p w (publishedPorts ctx dir cmd w).2.
Proof.
  unfold publishedPorts. pose proof (ml_command laws (WithTimeout ctx psTimeout w) dir (cmd ++ ["ps"; "--format"; "json"]) w p).
  destruct (Command_Output _ _ _ w) as [[out|?] ?]; [by destruct (parsePublished out)|done].
Qed.

Lemma prober_same ctx port w p : same_file p w (prober ctx port w).2.
Proof.
  unfold prober. pose proof (ml_dial laws ctx port w p). destruct (dial ctx port w) as [[err|] w1]; [|done].
  destruct (Is err ECONNREFUSED); [done|]. by destruct (ctx_Err ctx w1).
Qed.

Lemma Choose_same ctx specs ov ours w p :
  same_file p w (Choose specs (mkSelection ov ours (prober ctx) searchLimit) w).2.
Proof.
  apply (Choose_keeps (λ w', same_file p w w')); [|done]. intros port w1 Hw1. cbn.
  eapply same_file_trans; [exact Hw1|apply prober_same].
Qed.

(** No port changed. *)
Lemma unchanged_wants choices ov specs :
  c_Desired <$> choices = want ov <$> specs →
  (conflicts choices = 0 ↔ c_Chosen <$> choices = want ov <$> specs).
Proof.
  intros <-. unfold conflicts. induction choices as [|c cs IH]; [done|].
  destruct (Changed c) eqn:Ec.
  - rewrite list.filter_cons_True by done. cbn. split; [done|]. intros [= E _]. unfold Changed in Ec.
    by rewrite E, Z.eqb_refl in Ec.
  - rewrite list.filter_cons_False by (by rewrite Ec). unfold Changed in Ec. apply negb_false_iff, Z.eqb_eq in Ec.
    rewrite !fmap_cons, Ec. split; [intros H%IH; by f_equal|]. intros [= H]. by apply IH.
Qed.

Lemma readEnv_written path w d ov : ReadFile w path = Ok d → ParseOverrides (mkReader d None) = Ok ov → readEnv path w = Ok (d, ov).
Proof. unfold readEnv. intros -> E. cbn. by rewrite E. Qed.

Lemma readEnv_same path w w' : same_file path w w' → readEnv path w' = readEnv path w.
Proof. unfold readEnv. by intros [-> _]. Qed.

Lemma readSpecs_names path w specs :
  readSpecs path w = Ok specs → NoDup (ps_Name <$> specs) ∧ Forall (λ s, valid_name (ps_Name s) = true) specs.
Proof.
  unfold readSpecs. intros (r & _ & (l & E & H)%res_bind_ok)%res_bind_ok.
  destruct (ParseSpecs r) as [l'|] eqn:Ep; [|done]. injection E as ->.
  destruct l; [done|]. injection H as <-. by eapply ParseSpecs_names.
Qed.

(** What .env says, or nothing: the values in force before the choice. *)
Lemma readEnv_overrides path w existing ov :
  readEnv path w = Ok (existing, ov) → ParseOverrides (mkReader existing None) = Ok ov.
Proof.
  unfold readEnv. destruct (ReadFile w path) as [d|err].
  - intros (m & E & [= <- <-])%res_bind_ok. by destruct (ParseOverrides _) as [?|?]; [injection E as ->|].
  - destruct (Is err ErrNotExist); [|done]. by intros [= <- <-].
Qed.

(** The template keeps its defaults in comments. *)
Definition template_commented (path : string) w : Prop :=
  ∀ d, ReadFile w path = Ok d → ParseOverrides (mkReader d None) = Ok ∅.

(** What a run decided, and what it left. *)
Record settled (checkOnly : bool) (root : string) (specs : list PortSpec) (ov : gmap string Z) (choices : list Choice)
    (r : RunResult) w w' : Prop := mk_settled {
  se_names : c_Name <$> choices = ps_Name <$> specs;
  se_desired : c_Desired <$> choices = want ov <$> specs;
  se_distinct : NoDup (c_Chosen <$> choices);
  se_range : Forall (λ c, in_port_range (c_Chosen c)) choices;
  se_report : ∃ verdict, o_out r = printChoices choices +:+ verdict;
  se_check : checkOnly = true → (o_code r = 0%Z ↔ c_Chosen <$> choices = want ov <$> specs) ∧ ∀ p, same_file p w w';
  se_write : checkOnly = false → o_code r = 0%Z ∧
    (Forall (λ s, Z.of_nat (String.length (ps_Name s)) ≤ 65000)%Z specs →
     (ov = ∅ → template_commented (path_Join [root; templFile]) w) →
     ∃ data ov', readEnv (path_Join [root; envFile]) w' = Ok (data, ov') ∧ want ov' <$> specs = c_Chosen <$> choices);
  se_kept : c_Chosen <$> choices = want ov <$> specs → ∀ p, same_file p w w'
}.

(** The choices of a run: what [Choose] gives for the services of the template, the
    ports of .env, those Compose publishes and the probe. *)
Definition chosen (ctx : Context) (root : string) (specs : list PortSpec) (ov : gmap string Z) (choices : list Choice)
    (stderr : string) w : Prop :=
  ∃ ours nerr w1 w2, publishedPorts ctx root (composeCommand w) w = (ours, nerr, w1) ∧ stderr = notice nerr ∧
    Choose specs (mkSelection ov ours (prober ctx) searchLimit) w1 = (Ok choices, w2).

Lemma finish_settled ctx root checkOnly specs existing ov choices stderr w w0 r w' :
  NoDup (ps_Name <$> specs) → Forall (λ s, valid_name (ps_Name s) = true) specs →
  readEnv (path_Join [root; envFile]) w0 = Ok (existing, ov) →
  c_Name <$> choices = ps_Name <$> specs → c_Desired <$> choices = want ov <$> specs →
  NoDup (c_Chosen <$> choices) → Forall (λ c, in_port_range (c_Chosen c)) choices →
  (∀ p, same_file p w0 w) → finish ctx root checkOnly existing choices stderr w = (r, w') →
  (∀ p, p ≠ path_Join [root; envFile] → same_file p w0 w') ∧
  (o_err r = None → settled checkOnly root specs ov choices r w0 w').
Proof.
  intros Hnd Hv Henv Hn Hd Hdist Hr Hsame. unfold finish. pose proof (unchanged_wants choices ov specs Hd) as Hc.
  destruct checkOnly.
  { destruct (conflicts choices =? 0) eqn:E0; intros [= <- <-]; (split; [by intros|]); intros _; split; try done; cbn;
      [by eexists|intros _; split; [|done]|by eexists|intros _; split; [|done]].
    - apply Nat.eqb_eq in E0. split; [intros _; by apply Hc|done].
    - apply Nat.eqb_neq in E0. split; [done|]. by intros ?%Hc. }
  destruct (conflicts choices =? 0) eqn:E0.
  { apply Nat.eqb_eq, Hc in E0. intros [= <- <-]. split; [by intros|]. intros _. split; try done; [exists ""; by rewrite str_app_nil_r|].
    intros _. split; [done|]. intros _ _. exists existing, ov. split; [|done]. by rewrite (readEnv_same _ w0) by done. }
  destruct (ctx_Err ctx w); [intros [= <- <-]; by split|].
  destruct (if bool_decide (existing = "") then _ else _) as [base|err] eqn:Eb; [|intros [= <- <-]; by split].
  destruct (WriteFile _ _ w) as [[err|] w1] eqn:Ew; intros [= <- <-].
  { split; [|done]. intros p Hp. eapply same_file_trans; [apply Hsame|].
    pose proof (ml_other laws _ _ (RenderEnv base choices) w Hp) as H. by rewrite Ew in H. }
  split.
  { intros p Hp. eapply same_file_trans; [apply Hsame|].
    pose proof (ml_other laws _ _ (RenderEnv base choices) w Hp) as H. by rewrite Ew in H. }
  apply Nat.eqb_neq in E0. intros _. split; try done; [by eexists| |by intros ?%Hc].
  intros _. split; [done|]. intros Hlen Htempl.
  assert (ParseOverrides (mkReader base None) = Ok ov) as Hbase.
  { pose proof (readEnv_overrides _ _ _ _ Henv) as Hov. case_bool_decide as Hex; [|by injection Eb as <-].
    rewrite Hex in Hov. vm_compute in Hov. injection Hov as <-.
    destruct (Hsame (path_Join [root; templFile])) as [Hrd _]. rewrite Hrd in Eb. exact (Htempl eq_refl _ Eb). }
  destruct (rendered_wants specs base choices ov Hnd) as (ov' & Eov & Hw & _); try done.
  { apply list.Forall_forall. intros s Hs. rewrite list.Forall_forall in Hv, Hlen. split; [by apply Hv|by apply Hlen]. }
  exists (RenderEnv base choices), ov'. split; [|done]. apply readEnv_written; [|done]. by eapply ml_written.
Qed.

Lemma finish_stderr ctx root checkOnly existing choices stderr w r w' :
  finish ctx root checkOnly existing choices stderr w = (r, w') → o_stderr r = stderr.
Proof. unfold finish. intros H. repeat (case_match; simplify_eq/=; try done). Qed.

(** C32: what a run of the port chooser leaves behind: it works in the nearest
    directory upwards that has the template; it writes no file but the .env next
    to that template, and with -check or when every port is kept no file at all; and
    when it returns without an error no port is set in the environment, the ports
    are the ones [Choose] gives for the template, the .env as it was, the ports
    Compose publishes and the probe, one per service, valid and distinct, the
    report lists them, -check answers 0 exactly when every wanted port can be
    kept, and otherwise the .env it leaves makes every service want exactly the
    port that was chosen for it, also when it was written for the first time from
    a template whose defaults are comments. *)
Theorem run_settles_ports ctx checkOnly l w r w' :
  Getwd w = Ok (directory l) → Forall proper l → run ctx checkOnly w = (r, w') →
  (∃ err, repoRoot w = Err err ∧ o_err r = Some err ∧ w' = w) ∨
  ∃ k, let root := directory (take k l) in is_root l k w ∧
    (∀ p, p ≠ path_Join [root; envFile] → same_file p w w') ∧
    (o_err r = None → ∃ specs existing ov choices,
       readSpecs (path_Join [root; templFile]) w = Ok specs ∧ rejectEnvironmentPorts specs (LookupEnv w) = None ∧
       readEnv (path_Join [root; envFile]) w = Ok (existing, ov) ∧
       chosen ctx root specs ov choices (o_stderr r) w ∧
       settled checkOnly root specs ov choices r w w').
Proof.
  intros Hg Hl. unfold run. destruct (repoRoot w) as [root|err] eqn:Er; [|intros [= <- <-]; left; by exists err].
  destruct (repoRoot_spec l w root Hg Hl Er) as (k & -> & Hk). intros H. right. exists k. cbv zeta. split; [done|].
  destruct (readSpecs _ w) as [specs|err] eqn:Es; [|by injection H as <- <-].
  destruct (rejectEnvironmentPorts _ _) eqn:Ej; [by injection H as <- <-|].
  destruct (readEnv _ w) as [[existing ov]|err] eqn:Ee; [|by injection H as <- <-].
  pose proof (λ p, publishedPorts_same ctx (directory (take k l)) (composeCommand w) w p) as Hp.
  destruct (publishedPorts _ _ _ w) as [[ours nerr] w1] eqn:Epp. cbn [snd] in Hp.
  pose proof (λ p, Choose_same ctx specs ov ours w1 p) as Hc.
  destruct (Choose specs _ w1) as [[choices|err] w2] eqn:Ec; cbn [snd] in Hc.
  - destruct (readSpecs_names _ _ _ Es) as [Hnd Hv]. 
    destruct (Choose_spec _ _ _ _ _ Hnd Ec) as (Hn & Hd & Hdist & Hr & _).
    destruct (finish_settled ctx (directory (take k l)) checkOnly specs existing ov choices (notice nerr) w2 w r w') as [H1 H2]; try done.
    { intros p. by eapply same_file_trans. }
    split; [exact H1|]. intros Hr0. exists specs, existing, ov, choices. split_and!; [done..| |by apply H2].
    exists ours, nerr, w1, w2. split; [done|]. split; [by eapply finish_stderr|done].
  - injection H as <- <-. split; [|done]. intros p _. by eapply same_file_trans.
Qed.

End facts.

(** ** A machine with two services, one of whose ports is taken *)

Section example.
#[local] Existing Instance ref_Clock.

Record Disk := mkDisk { dk_now : Z; dk_files : gmap string string }.

Definition read_disk (d : Disk) (p : string) : res string :=
  match dk_files d !! p with Some s => Ok s | None => Err ErrNotExist end.

Definition Disk_Clock : Clock Disk.
Proof.
  refine {| now := dk_now; wait_until := λ t d, mkDisk (Z.max t (dk_now d)) (dk_files d); pick_done := λ _, true |};
    intros; cbn; lia.
Defined.
#[local] Existing Instance Disk_Clock.

#[local] Instance Disk_Machine : Machine Disk := {|
  LookupEnv := λ _ _, None;
  Getwd := λ _, Ok "/home/dev/parcellab/tools";
  Stat := λ d p, err_of (read_disk d p);
  OpenFile := λ d p, (λ s, mkReader s None) <$> read_disk d p;
  ReadFile := read_disk;
  WriteFile := λ p c d, (None, mkDisk (dk_now d) (<[p := c]> (dk_files d)));
  Command_Output := λ _ _ _ d, (Err (EOther "no such command"), d);
  dial := λ _ port d, (if (port =? 5000)%Z || (port =? 5002)%Z then None else Some ECONNREFUSED, d) |}.

Lemma Disk_laws : machine_laws (W := Disk).
Proof.
  split; intros; cbn; try done.
  - split; cbn; unfold read_disk; cbn; by rewrite lookup_insert_ne.
  - cbn in *. simplify_eq. unfold read_disk. cbn. by rewrite lookup_insert_eq.
Qed.

Definition ex_template : string := "#A_PORT=5000" +:+ str1 newline +:+ "#B_PORT=5001" +:+ str1 newline.
Definition ex_disk : Disk := mkDisk 0 {[ "/home/dev/parcellab/.env.example" := ex_template ]}.

(** The template is found one directory up, the taken port moves past the one the
    other service wants and past a taken one, the failed command is reported, and a
    check afterwards is content; a flag that is not defined is refused. *)
Example disk_runs :
  let '(code, _, stderr, d) := main "ports" [] ex_disk in
  code = 0%Z ∧
  stderr = "ports: could not list this project's containers (no such command); treating none as ours" +:+ str1 newline ∧ dk_files d !! "/home/dev/parcellab/.env" =
    Some ("A_PORT=5003" +:+ str1 newline +:+ "#B_PORT=5001" +:+ str1 newline) ∧
  (main "ports" ["-check"] ex_disk).1.1.1 = 1%Z ∧ (main "ports" ["-check=true"] d).1.1.1 = 0%Z ∧
  (main "ports" ["-verbose"] ex_disk).1.1.1 = 2%Z.
Proof. vm_compute. by split_and!. Qed.

Lemma run_settles_ports_witness :
  let (r, d) := run Background false ex_disk in
  o_err r = None ∧ ∃ specs ov choices, settled false "/home/dev/parcellab" specs ov choices r ex_disk d ∧
    chosen Background "/home/dev/parcellab" specs ov choices (o_stderr r) ex_disk.
Proof.
  destruct (run Background false ex_disk) as [r d] eqn:E.
  assert (o_err r = None) as Hr.
  { apply (f_equal fst) in E. cbn [fst] in E. rewrite <- E. vm_compute. reflexivity. }
  split; [exact Hr|].
  destruct (run_settles_ports Disk_laws Background false ["home"; "dev"; "parcellab"; "tools"] ex_disk r d)
    as [(err & H & _)|(k & (Hk & Hs & Hbelow) & _ & H)].
  - reflexivity.
  - apply (bool_decide_unpack _). vm_compute. exact I.
  - exact E.
  - vm_compute in H. discriminate H.
  - destruct (H Hr) as (specs & existing & ov & choices & _ & _ & _ & Hch & Hset).
    assert (k = 3) as ->.
    { destruct k as [|[|[|[|[|k]]]]]; [vm_compute in Hs; discriminate Hs..|reflexivity|vm_compute in Hs; discriminate Hs|].
      exfalso. cbn in Hk. lia. }
    exists specs, ov, choices. split; [exact Hset|exact Hch].
Defined.

End example.
