(* ===== verification/Programs.v ===== *)
(** * The transactions of the Store as programs

    internal/storage/store.go once more, with the statements of each transaction
    as data: what a session sends to the server one at a time, while other
    sessions send theirs.  [transactions_are_programs] shows that interpreting
    these programs in one go is what Storage models. *)
From S2P Require Import Prelude GoErrors GoUtf8 GoTime Domain Jsonb GoContext Database Storage.

(** ** Statements *)

Inductive Op :=
  | InsertShipment (id : string) (weight amount : Z) (currency : string) (created_at : Time)
  | InsertOutbox (event_id shipment_id event_type payload : string) (created_at : Time)
  | InsertProcessed (event_id : string)
  | InsertDispatch (dispatch_id shipment_id event_id : string) (amount : Z) (currency : string)
  | SelectPending (limit : Z)
  | MarkPublished (ids : list string)
  | RecordFailure (id last_error : string).

#[export] Instance Op_eq_dec : EqDecision Op.
Proof. solve_decision. Defined.

(** What the server answers. *)
Definition Answer (o : Op) : Type :=
  match o with
  | InsertProcessed _ => Z
  | InsertDispatch _ _ _ _ _ => Time
  | SelectPending _ => list (string * OutboxRow)
  | _ => ()
  end.

(** ** Programs

    [Exec] sends a statement; an error of it ends the transaction with what the
    function makes of that error.  [Rand8] draws from crypto/rand, [Publish] calls
    the function the batch was claimed for. *)
Inductive Prog (A : Type) : Type :=
  | Ret (a : A)
  | Exec (o : Op) (h : goerr → goerr) (k : Answer o → Prog A)
  | Rand8 (k : string → Prog A)
  | Publish (batch : list OutboxEvent) (k : PublishResult → Prog A).
Arguments Ret {A} _.
Arguments Exec {A} _ _ _.
Arguments Rand8 {A} _.
Arguments Publish {A} _ _.

(** The program without its result: what the server sees. *)
Fixpoint forget {A} (p : Prog A) : Prog () :=
  match p with
  | Ret _ => Ret ()
  | Exec o h k => Exec o h (λ a, forget (k a))
  | Rand8 k => Rand8 (λ w, forget (k w))
  | Publish b k => Publish b (λ r, forget (k r))
  end.

Section programs.
Context {IJ : Jsonb} {IS : PgScan}.

Definition stmt_of (locked : gset string) (o : Op) : Stmt (Answer o) :=
  match o with
  | InsertShipment id w a c t => insert_shipment id w a c t
  | InsertOutbox e s ty p t => insert_outbox e s ty p t
  | InsertProcessed e => insert_processed e
  | InsertDispatch d s e a c => insert_dispatch d s e a c
  | SelectPending limit => select_pending locked limit
  | MarkPublished ids => mark_published ids
  | RecordFailure id msg => record_failure id msg
  end.

Definition create_prog (shipment : Shipment) (evt : OutboxEvent) : Prog () :=
  Exec (InsertShipment (s_ID shipment) (s_WeightGrams shipment) (AmountCents (s_Price shipment))
          (Currency (s_Price shipment)) (s_CreatedAt shipment)) (wrapf "insert shipment: ") (λ _,
  Exec (InsertOutbox (oe_EventID evt) (oe_ShipmentID evt) (oe_EventType evt) (oe_Payload evt)
          (s_CreatedAt shipment)) (wrapf "insert outbox event: ") (λ _,
  Ret ())).

(** What [ProcessPending] does with the result of the publisher. *)
Definition fail_prog (result : PublishResult) : Prog PublishResult :=
  if bool_decide (pr_Failed result = "") then Ret result
  else Exec (RecordFailure (pr_Failed result) (from_option Error "" (pr_Err result)))
         (wrapf "record publish failure: ") (λ _, Ret result).

Definition settle_prog (result : PublishResult) : Prog PublishResult :=
  match pr_Published result with
  | [] => fail_prog result
  | ids => Exec (MarkPublished ids) (wrapf "mark published: ") (λ _, fail_prog result)
  end.

Definition batch_prog (rows : list (string * OutboxRow)) : Prog PublishResult :=
  match scanOutboxEvent <$> rows with
  | [] => Ret zero_PublishResult
  | batch => Publish batch settle_prog
  end.

Definition process_prog (limit : Z) : Prog PublishResult :=
  Exec (SelectPending limit) claim_err batch_prog.

Definition dispatch_err (req : DispatchRequest) (e : goerr) : goerr :=
  if isUniqueViolation e then
    EWrap (Error ErrDispatchConflict +:+ ": shipment " +:+ rq_ShipmentID req
           +:+ ", event " +:+ rq_EventID req) [ErrDispatchConflict]
  else wrapf "insert dispatch: " e.

Definition dispatch_prog (req : DispatchRequest) (rnd : string) : Prog (Dispatch * bool) :=
  let id := NewDispatchID rnd in
  Exec (InsertDispatch id (rq_ShipmentID req) (rq_EventID req) (rq_AmountCents req) (rq_Currency req))
    (dispatch_err req) (λ at_, Ret (mkDispatch DispatchDispatched id (rq_EventID req) at_, false)).

Definition record_prog (req : DispatchRequest) : Prog (Dispatch * bool) :=
  Exec (InsertProcessed (rq_EventID req)) (wrapf "insert processed_event: ") (λ rows : Z,
    if bool_decide (rows = 0%Z) then Ret (zero_Dispatch, true)
    else Rand8 (dispatch_prog req)).

(** ** Running a program without interruption *)

Section run.
Context {W : Type} {IR : Rand W} (publish : PublishFunc W).

Fixpoint run_prog {A} (p : Prog A) : TX W A :=
  match p with
  | Ret a => tx_ret a
  | Exec o h k =>
      a <-- tx_map_err h (λ t, exec (stmt_of (tx_locked t) o) t);;
      run_prog (k a)
  | Rand8 k => w <-- tx_do rand8;; run_prog (k w)
  | Publish batch k => r <-- tx_do (publish batch);; run_prog (k r)
  end.

Lemma run_create shipment evt t : run_prog (create_prog shipment evt) t = create_tx shipment evt t.
Proof.
  unfold create_prog, create_tx. cbn [run_prog stmt_of]. unfold tx_bind, tx_map_err, tx_ret.
  destruct (exec _ t) as [[[]|e] t1]; [|done]. cbn [map_err].
  by destruct (exec _ t1) as [[[]|e] t2].
Qed.

Lemma tx_bind_ext {A B} (m m' : TX W A) (f g : A → TX W B) t :
  m t = m' t → (∀ a t, f a t = g a t) → tx_bind m f t = tx_bind m' g t.
Proof. intros Hm Hf. unfold tx_bind. rewrite Hm. by destruct (m' t) as [[a|e] t1]. Qed.

Lemma tx_bind_assoc {A B C} (m : TX W A) (f : A → TX W B) (g : B → TX W C) t :
  tx_bind (tx_bind m f) g t = tx_bind m (λ a, tx_bind (f a) g) t.
Proof. unfold tx_bind. by destruct (m t) as [[a|e] t1]. Qed.

Lemma run_settle result t :
  run_prog (settle_prog result) t = (mark_tx result;;; fail_tx result;;; tx_ret result) t.
Proof.
  assert (∀ t, run_prog (fail_prog result) t = (fail_tx result;;; tx_ret result) t) as Hfail.
  { clear t. intros t. unfold fail_prog, fail_tx. by case_bool_decide. }
  unfold settle_prog, mark_tx. destruct (pr_Published result) as [|id ids]; [apply Hfail|].
  by apply tx_bind_ext.
Qed.

Lemma run_process limit t : run_prog (process_prog limit) t = process_tx limit publish t.
Proof.
  unfold process_prog, process_tx, claimPending. cbn [run_prog stmt_of].
  trans (tx_bind (rows <-- tx_map_err claim_err (exec (select_pending (tx_locked t) limit));;
                  tx_ret (scanOutboxEvent <$> rows))
           (λ batch, match batch with
                     | [] => tx_ret zero_PublishResult
                     | _ => r <-- tx_do (publish batch);; run_prog (settle_prog r)
                     end) t).
  - rewrite tx_bind_assoc. apply tx_bind_ext; [done|]. intros rows t1. unfold batch_prog.
    cbn [tx_bind tx_ret]. by destruct (scanOutboxEvent <$> rows).
  - apply tx_bind_ext; [done|]. intros [|evt batch] t1; [done|].
    apply tx_bind_ext; [done|]. apply run_settle.
Qed.

Lemma run_record req t : run_prog (record_prog req) t = record_tx req t.
Proof.
  apply tx_bind_ext; [done|]. intros rows t1. case_bool_decide; [done|].
  apply tx_bind_ext; [done|]. intros w t2. cbn [run_prog stmt_of dispatch_prog].
  unfold tx_bind, tx_map_err, tx_try, tx_ret, dispatch_err, tx_fail.
  destruct (exec _ t2) as [[at_|e] t3]; [done|]. cbn [map_err].
  by destruct (isUniqueViolation e).
Qed.

(** A result that is forgotten was there. *)
Lemma run_forget {A} (p : Prog A) t t' :
  run_prog (forget p) t = (Ok (), t') → ∃ a, run_prog p t = (Ok a, t').
Proof.
  revert t. induction p as [a|o h k IH|k IH|b k IH]; intros t.
  - intros [= <-]. by exists a.
  - cbn [forget run_prog]. unfold tx_bind. destruct (tx_map_err _ _ t) as [[a|e] t1]; [apply IH|done].
  - cbn [forget run_prog]. unfold tx_bind. destruct (tx_do _ t) as [[a|e] t1]; [apply IH|done].
  - cbn [forget run_prog]. unfold tx_bind. destruct (tx_do _ t) as [[a|e] t1]; [apply IH|done].
Qed.

End run.

(** The programs above are the transactions of the Store: run statement by
    statement without interruption, with any failing statements, random bytes and
    publisher, each ends as the transaction body of the same operation does. *)
Theorem transactions_are_programs {W} {IR : Rand W} (publish : PublishFunc W) (t : tx W) :
  (∀ shipment evt, run_prog publish (create_prog shipment evt) t = create_tx shipment evt t) ∧
  (∀ limit, run_prog publish (process_prog limit) t = process_tx limit publish t) ∧
  (∀ req, run_prog publish (record_prog req) t = record_tx req t).
Proof. split_and!; intros; [apply run_create|apply run_process|apply run_record]. Qed.

End programs.
