(* ===== verification/System.v ===== *)
(** * The running system

    All components together as a step relation: the service creating shipments,
    relays that each hold a claimed batch in an open transaction, a Kafka topic
    of partitions that only grow, and the consumer group with its committed
    offsets.  Every step runs the definitions of the component files; a step that
    fails half way and leaves nothing behind is no step, and a process may stop
    between any two steps: an open batch is then rolled back although Kafka has
    some of its events, a handled record is handled again.  Several relays and,
    around a rebalance, several consumers may work at once. *)
From S2P Require Import Prelude GoErrors GoStrconv GoUtf8 GoTime Domain Events Jsonb GoContext Database Storage Broker Relay Consumer ShipmentApi.

Record LogRecord := mkLogRecord { lr_key : string; lr_value : string }.

(** A relay between claiming a batch and ending its transaction. *)
Record RelayTx := mkRelayTx {
  rt_done : list OutboxEvent;
  rt_todo : list OutboxEvent;
  rt_failed : option (OutboxEvent * goerr)
}.

Definition rt_ids (t : RelayTx) : list string := oe_EventID <$> (rt_done t ++ rt_todo t).

(** What [publishBatch] returns for it. *)
Definition rt_result (t : RelayTx) : PublishResult :=
  mkPublishResult (oe_EventID <$> rt_done t)
    (match rt_failed t with Some (evt, _) => oe_EventID evt | None => "" end)
    (snd <$> rt_failed t).

Record Sys := mkSys {
  sy_db : DB;
  sy_relays : gmap nat RelayTx;
  (** The topic, by partition. *)
  sy_log : nat → list LogRecord;
  (** The group's committed offsets. *)
  sy_offset : nat → nat;
  (** The record at the committed offset was handled without an error. *)
  sy_handled : nat → bool
}.

Definition sys_init : Sys := mkSys empty_DB ∅ (λ _, []) (λ _, 0) (λ _, false).

Definition fn_set {A} (p : nat) (a : A) (f : nat → A) : nat → A := λ q, if decide (q = p) then a else f q.

(** The rows locked by the relays other than [i]. *)
Definition locked_rows (relays : gmap nat RelayTx) (i : nat) : gset string :=
  list_to_set (concat ((λ t, rt_ids t.2) <$> map_to_list (delete i relays))).

(** The bytes of the system's randomness that a transaction draws. *)
#[export] Instance bytes_Rand : Rand string := {| rand8 := λ w, (w, w) |}.

Section system.
Context {IJ : Jsonb} {IS : PgScan} (partition_of : string → nat).

Definition append (log : nat → list LogRecord) (msg : Message) : nat → list LogRecord :=
  let p := partition_of (m_Key msg) in
  fn_set p (log p ++ [mkLogRecord (m_Key msg) (m_Value msg)]) log.

(** A transaction body on the tables of the system, at some time and with some
    eight random bytes. *)
Definition runs {A} (body : TX string A) (locked : gset string) (db : DB) (a : A) (db' : DB) : Prop :=
  ∃ now w t, String.length w = 8 ∧ body (mkTx now locked [] w db) = (Ok a, t) ∧ tx_db t = db'.

Inductive sys_step : Sys → Sys → Prop :=
  (** [Server.CreateShipment] with a valid price. *)
  | step_create s rnd rnd' weight price at_ cid evt db' :
      good_input cid at_ price → String.length rnd = 8 → String.length rnd' = 8 →
      let shipment := mkShipment (NewShipmentID rnd) weight price (UTC at_) in
      newOutboxEvent rnd' shipment cid = Ok evt →
      runs (create_tx shipment evt) ∅ (sy_db s) () db' →
      sys_step s (mkSys db' (sy_relays s) (sy_log s) (sy_offset s) (sy_handled s))
  (** A relay claims a batch; sessions outside the system may hold locks too. *)
  | step_claim s i limit locked batch db' :
      sy_relays s !! i = None → locked_rows (sy_relays s) i ⊆ locked →
      runs (claimPending limit) locked (sy_db s) batch db' →
      sys_step s (mkSys db' (<[i := mkRelayTx [] batch None]> (sy_relays s)) (sy_log s) (sy_offset s) (sy_handled s))
  (** Kafka acknowledges the next event of a batch. *)
  | step_ack s i don evt todo msg :
      sy_relays s !! i = Some (mkRelayTx don (evt :: todo) None) → MessageFor evt = Ok msg →
      sys_step s (mkSys (sy_db s) (<[i := mkRelayTx (don ++ [evt]) todo None]> (sy_relays s))
                    (append (sy_log s) msg) (sy_offset s) (sy_handled s))
  (** Publishing the next event fails; the broker may have written it. *)
  | step_fail s i don evt todo err log' :
      sy_relays s !! i = Some (mkRelayTx don (evt :: todo) None) →
      log' = sy_log s ∨ (∃ msg, MessageFor evt = Ok msg ∧ log' = append (sy_log s) msg) →
      sys_step s (mkSys (sy_db s) (<[i := mkRelayTx don (evt :: todo) (Some (evt, err))]> (sy_relays s))
                    log' (sy_offset s) (sy_handled s))
  (** The batch ended and its transaction commits. *)
  | step_commit s i t db' :
      sy_relays s !! i = Some t → rt_todo t = [] ∨ rt_failed t ≠ None →
      runs (mark_tx (rt_result t);;; fail_tx (rt_result t)) ∅ (sy_db s) () db' →
      sys_step s (mkSys db' (delete i (sy_relays s)) (sy_log s) (sy_offset s) (sy_handled s))
  (** The transaction is rolled back, or its relay dies. *)
  | step_rollback s i :
      sys_step s (mkSys (sy_db s) (delete i (sy_relays s)) (sy_log s) (sy_offset s) (sy_handled s))
  (** An operator replays an event. *)
  | step_replay s id row msg :
      outbox_events (sy_db s) !! id = Some row → MessageFor (scanOutboxEvent (id, row)) = Ok msg →
      sys_step s (mkSys (sy_db s) (sy_relays s) (append (sy_log s) msg) (sy_offset s) (sy_handled s))
  (** A consumer's transaction for any record of the topic; only the member the
      partition is assigned to moves on from it. *)
  | step_record s p k rec evt r db' (mine : bool) :
      sy_log s p !! k = Some rec → Decode (lr_value rec) = Ok evt →
      runs (record_tx (request_of evt)) ∅ (sy_db s) r db' →
      (mine = true → k = sy_offset s p) →
      sys_step s (mkSys db' (sy_relays s) (sy_log s) (sy_offset s)
                    (if mine then fn_set p true (sy_handled s) else sy_handled s))
  (** The offset of a handled record is committed. *)
  | step_offset s p :
      sy_handled s p = true →
      sys_step s (mkSys (sy_db s) (sy_relays s) (sy_log s)
                    (fn_set p (S (sy_offset s p)) (sy_offset s)) (fn_set p false (sy_handled s)))
  (** A consumer dies, or loses a partition, before the commit. *)
  | step_consumer_crash s p :
      sys_step s (mkSys (sy_db s) (sy_relays s) (sy_log s) (sy_offset s) (fn_set p false (sy_handled s))).

Definition reachable : Sys → Prop := rtc sys_step sys_init.

(** ** The invariant *)

(** The record carries the event of an outbox row. *)
Definition record_of_row (db : DB) (id : string) (rec : LogRecord) : Prop :=
  ∃ row, outbox_events db !! id = Some row ∧ lr_value rec = or_payload row ∧ lr_key rec = or_shipment_id row.

Definition in_log (log : nat → list LogRecord) (db : DB) (id : string) : Prop :=
  ∃ p k rec, log p !! k = Some rec ∧ record_of_row db id rec.

(** A dispatch agrees with the event it was made for and with its shipment. *)
Definition dispatch_matches (db : DB) (_ : string) (d : DispatchRow) : Prop :=
  ∃ row s, outbox_events db !! dr_event_id d = Some row ∧ or_shipment_id row = dr_shipment_id d ∧
    shipments db !! dr_shipment_id d = Some s ∧
    dr_amount_cents d = sr_amount_cents s ∧ dr_currency d = sr_currency s.

(** The event in a relay's hands is the one of its row. *)
Definition holds_row (db : DB) (evt : OutboxEvent) : Prop :=
  ∃ row, outbox_events db !! oe_EventID evt = Some row ∧
    oe_Payload evt = or_payload row ∧ oe_ShipmentID evt = or_shipment_id row.

Record sys_ok (s : Sys) : Prop := mk_sys_ok {
  so_db : db_ok (sy_db s);
  so_outbox : outbox_wf (sy_db s);
  so_linked : linked (sy_db s);
  so_dispatches : map_Forall (dispatch_matches (sy_db s)) (dispatches (sy_db s));
  so_processed : ∀ ev, is_Some (processed_events (sy_db s) !! ev) → is_Some (outbox_events (sy_db s) !! ev);
  so_log : ∀ p k rec, sy_log s p !! k = Some rec →
    p = partition_of (lr_key rec) ∧ ∃ id, record_of_row (sy_db s) id rec;
  so_published : ∀ id row, outbox_events (sy_db s) !! id = Some row → ¬ pending row →
    in_log (sy_log s) (sy_db s) id;
  so_relays : ∀ i t, sy_relays s !! i = Some t →
    Forall (holds_row (sy_db s)) (rt_done t ++ rt_todo t) ∧
    (∀ evt, evt ∈ rt_done t → in_log (sy_log s) (sy_db s) (oe_EventID evt));
  so_offset : ∀ p k, k < sy_offset s p → ∃ rec evt, sy_log s p !! k = Some rec ∧
    Decode (lr_value rec) = Ok evt ∧ is_Some (processed_events (sy_db s) !! e_EventID evt);
  so_handled : ∀ p, sy_handled s p = true → ∃ rec evt, sy_log s p !! sy_offset s p = Some rec ∧
    Decode (lr_value rec) = Ok evt ∧ is_Some (processed_events (sy_db s) !! e_EventID evt)
}.

(** *** What a change of the tables preserves *)

(** Rows of the outbox keep what was published of them, and nothing the other
    tables refer to disappears. *)
Definition grows (db db' : DB) : Prop :=
  (∀ id row, outbox_events db !! id = Some row → ∃ row', outbox_events db' !! id = Some row' ∧
     or_payload row' = or_payload row ∧ or_shipment_id row' = or_shipment_id row) ∧
  shipments db ⊆ shipments db' ∧ processed_events db ⊆ processed_events db'.

Lemma grows_refl db : grows db db.
Proof. split; [|done]. intros id row Hr. by exists row. Qed.

Lemma record_of_row_grows db db' id rec : grows db db' → record_of_row db id rec → record_of_row db' id rec.
Proof.
  intros (Ho & _) (row & Hr & Hv & Hk). destruct (Ho _ _ Hr) as (row' & Hr' & Hp & Hs).
  exists row'. split_and!; [done|congruence..].
Qed.

Lemma in_log_grows db db' log id : grows db db' → in_log log db id → in_log log db' id.
Proof. intros Hg (p & k & rec & Hl & Hr). exists p, k, rec. eauto using record_of_row_grows. Qed.

Lemma holds_row_grows db db' evt : grows db db' → holds_row db evt → holds_row db' evt.
Proof.
  intros (Ho & _) (row & Hr & Hv & Hk). destruct (Ho _ _ Hr) as (row' & Hr' & Hp & Hs).
  exists row'. split_and!; [done|congruence..].
Qed.

Lemma processed_grows db db' ev :
  grows db db' → is_Some (processed_events db !! ev) → is_Some (processed_events db' !! ev).
Proof. intros (_ & _ & Hp) [t Ht]. exists t. by eapply lookup_weaken. Qed.

Lemma dispatch_matches_grows db db' id d :
  grows db db' → dispatch_matches db id d → dispatch_matches db' id d.
Proof.
  intros (Ho & Hs & _) (row & s & Hr & Hsid & Hsh & Ha & Hc).
  destruct (Ho _ _ Hr) as (row' & Hr' & Hp & Hs'). exists row', s.
  split_and!; try done; [congruence|by eapply lookup_weaken].
Qed.

(** The log and the offsets under a change of the tables. *)
Lemma log_grows s db' :
  sys_ok s → grows (sy_db s) db' →
  (∀ p k rec, sy_log s p !! k = Some rec →
    p = partition_of (lr_key rec) ∧ ∃ id, record_of_row db' id rec) ∧
  (∀ i t, sy_relays s !! i = Some t →
    Forall (holds_row db') (rt_done t ++ rt_todo t) ∧
    (∀ evt, evt ∈ rt_done t → in_log (sy_log s) db' (oe_EventID evt))) ∧
  (∀ p k, k < sy_offset s p → ∃ rec evt, sy_log s p !! k = Some rec ∧
    Decode (lr_value rec) = Ok evt ∧ is_Some (processed_events db' !! e_EventID evt)) ∧
  (∀ p, sy_handled s p = true → ∃ rec evt, sy_log s p !! sy_offset s p = Some rec ∧
    Decode (lr_value rec) = Ok evt ∧ is_Some (processed_events db' !! e_EventID evt)).
Proof.
  intros [] Hg. split_and!.
  - intros p k rec Hl. destruct (so_log0 _ _ _ Hl) as [Hp [id Hid]]. eauto using record_of_row_grows.
  - intros i t Ht. destruct (so_relays0 _ _ Ht) as [Hf Hd]. split.
    + eapply list.Forall_impl; [exact Hf|]. intros evt. by apply holds_row_grows.
    + intros evt He. eauto using in_log_grows.
  - intros p k Hk. destruct (so_offset0 _ _ Hk) as (rec & evt & ? & ? & ?). eauto 6 using processed_grows.
  - intros p Hh. destruct (so_handled0 _ Hh) as (rec & evt & ? & ? & ?). eauto 6 using processed_grows.
Qed.

(** A step that only changes the tables keeps the invariant when it keeps the
    part about the tables and the published events stay in the log. *)
Lemma sys_ok_db s db' :
  sys_ok s → grows (sy_db s) db' → db_ok db' → outbox_wf db' → linked db' →
  map_Forall (dispatch_matches db') (dispatches db') →
  (∀ ev, is_Some (processed_events db' !! ev) → is_Some (outbox_events db' !! ev)) →
  (∀ id row, outbox_events db' !! id = Some row → ¬ pending row → in_log (sy_log s) db' id) →
  sys_ok (mkSys db' (sy_relays s) (sy_log s) (sy_offset s) (sy_handled s)).
Proof.
  intros Hok Hg H1 H2 H3 H4 H5 H6. destruct (log_grows s db' Hok Hg) as (L1 & L2 & L3 & L4).
  by split.
Qed.

(** *** Creating a shipment *)

Lemma created_grows shipment evt db db' : created shipment evt db db' → grows db db'.
Proof.
  intros (Hs & He & _ & _ & c & p & _ & _ & ->). split_and!; simpl; [|by apply insert_subseteq|done].
  intros id row Hr. exists row. split; [|done].
  rewrite lookup_insert_ne; [done|]. intros <-. by rewrite Hr in He.
Qed.

Lemma step_create_ok s shipment evt rnd rnd' weight price at_ cid db' :
  sys_ok s → good_input cid at_ price →
  shipment = mkShipment (NewShipmentID rnd) weight price (UTC at_) →
  newOutboxEvent rnd' shipment cid = Ok evt → created shipment evt (sy_db s) db' → db_ok db' →
  sys_ok (mkSys db' (sy_relays s) (sy_log s) (sy_offset s) (sy_handled s)).
Proof.
  intros Hok Hgood -> Hevt Hc Hdb. pose proof (created_grows _ _ _ _ Hc) as Hg.
  pose proof Hc as (_ & _ & _ & _ & c & p & _ & _ & E).
  destruct Hok as [] eqn:Eok. apply sys_ok_db; try done.
  - by eapply created_wf.
  - rewrite E. intros ev Hev. by apply so_linked0.
  - intros id d Hd. eapply dispatch_matches_grows; [done|]. rewrite E in Hd. by apply so_dispatches0.
  - intros ev Hev. rewrite E in Hev. simpl in Hev. apply so_processed0 in Hev as [row Hr].
    destruct Hg as (Ho & _). destruct (Ho _ _ Hr) as (row' & ? & _). by exists row'.
  - intros id row Hr Hn. eapply in_log_grows; [done|]. rewrite E in Hr. simpl in Hr.
    apply lookup_insert_Some in Hr as [[_ <-]|[_ Hr]]; [by destruct Hn|]. by eapply so_published0.
Qed.

(** *** The topic only grows *)

Lemma append_lookup log msg p k rec :
  append log msg p !! k = Some rec →
  log p !! k = Some rec ∨ (p = partition_of (m_Key msg) ∧ rec = mkLogRecord (m_Key msg) (m_Value msg)).
Proof.
  unfold append, fn_set. case_decide as Hp; [subst|by left].
  intros [?|[_ Hs]]%lookup_app_Some; [by left|right; split; [done|]].
  by apply list_lookup_singleton_Some in Hs as [_ ?].
Qed.

Lemma append_old log msg p k rec : log p !! k = Some rec → append log msg p !! k = Some rec.
Proof. unfold append, fn_set. case_decide as Hp; [subst|done]. apply lookup_app_l_Some. Qed.

Lemma append_new log msg :
  append log msg (partition_of (m_Key msg)) !! length (log (partition_of (m_Key msg)))
  = Some (mkLogRecord (m_Key msg) (m_Value msg)).
Proof. unfold append, fn_set. rewrite decide_True by done. by rewrite list_lookup_middle. Qed.

Lemma in_log_append log msg db id : in_log log db id → in_log (append log msg) db id.
Proof. intros (p & k & rec & Hl & Hr). exists p, k, rec. eauto using append_old. Qed.

Lemma MessageFor_ok evt msg :
  MessageFor evt = Ok msg → m_Key msg = oe_ShipmentID evt ∧ m_Value msg = oe_Payload evt.
Proof. unfold MessageFor. destruct (Decode _); [|done]. by intros [= <-]. Qed.

Lemma held_record db evt msg :
  holds_row db evt → MessageFor evt = Ok msg →
  record_of_row db (oe_EventID evt) (mkLogRecord (m_Key msg) (m_Value msg)).
Proof.
  intros (row & Hr & Hp & Hs) [Hk Hv]%MessageFor_ok. exists row. split; [done|]. simpl. split; congruence.
Qed.

(** A step that appends a held event to the topic. *)
Lemma sys_ok_append s evt msg :
  sys_ok s → holds_row (sy_db s) evt → MessageFor evt = Ok msg →
  sys_ok (mkSys (sy_db s) (sy_relays s) (append (sy_log s) msg) (sy_offset s) (sy_handled s)) ∧
  in_log (append (sy_log s) msg) (sy_db s) (oe_EventID evt).
Proof.
  intros [] Hh Hm. pose proof (held_record _ _ _ Hh Hm) as Hr. split.
  - split; try done; cbn [sy_db sy_log sy_relays sy_offset sy_handled].
    + intros p k rec [Hl|[-> ->]]%append_lookup; [by eapply so_log0|]. split; [done|by eexists].
    + intros id row Hrow Hn. apply in_log_append. by eapply so_published0.
    + intros i t Ht. destruct (so_relays0 i t Ht) as [Hf Hd]. split; [done|].
      intros e He. by apply in_log_append, Hd.
    + intros p k Hk. destruct (so_offset0 p k Hk) as (rec & e & Hl & ?).
      exists rec, e. split; [by apply append_old|done].
    + intros p Hp. destruct (so_handled0 p Hp) as (rec & e & Hl & ?).
      exists rec, e. split; [by apply append_old|done].
  - eexists _, _, _. split; [apply append_new|exact Hr].
Qed.

(** A step that changes what the relays hold. *)
Lemma sys_ok_relays s relays :
  sys_ok s →
  (∀ i t, relays !! i = Some t →
    Forall (holds_row (sy_db s)) (rt_done t ++ rt_todo t) ∧
    (∀ evt, evt ∈ rt_done t → in_log (sy_log s) (sy_db s) (oe_EventID evt))) →
  sys_ok (mkSys (sy_db s) relays (sy_log s) (sy_offset s) (sy_handled s)).
Proof. intros [] Hr. by split. Qed.

Lemma relays_insert s (i : nat) t j t' :
  sys_ok s →
  Forall (holds_row (sy_db s)) (rt_done t ++ rt_todo t) →
  (∀ evt, evt ∈ rt_done t → in_log (sy_log s) (sy_db s) (oe_EventID evt)) →
  <[i := t]> (sy_relays s) !! j = Some t' →
  Forall (holds_row (sy_db s)) (rt_done t' ++ rt_todo t') ∧
  (∀ evt, evt ∈ rt_done t' → in_log (sy_log s) (sy_db s) (oe_EventID evt)).
Proof.
  intros [] Hf Hd. rewrite lookup_insert. case_decide; [by intros [= <-]|by eapply so_relays0].
Qed.

(** *** Ending a batch *)

Lemma commit_step result locked db db' :
  runs (mark_tx result;;; fail_tx result) locked db () db' →
  db_ok db → db_ok db' ∧ ∃ now, outbox_step (settle now result) db db'.
Proof.
  intros (now & w & t & _ & Hb & <-) Hok. unfold tx_bind in Hb.
  destruct (mark_tx result _) as [[u|e] t1] eqn:Em; [|done].
  assert (tx_keeps (mark_tx (W := string) result)) as Hk1.
  { unfold mark_tx. destruct (pr_Published result);
      [apply keeps_ret|apply keeps_map_err, keeps_exec, mark_published_keeps]. }
  assert (tx_keeps (fail_tx (W := string) result)) as Hk2.
  { unfold fail_tx. case_bool_decide;
      [apply keeps_ret|apply keeps_map_err, keeps_exec, record_failure_keeps]. }
  split.
  - eapply Hk2; [|exact Hb]. eapply Hk1; [|exact Em]. done.
  - exists now. apply mark_tx_ok in Em as (_ & _ & Hm). apply fail_tx_ok in Hb as (_ & _ & Hf).
    exact (outbox_step_trans _ _ _ _ _ Hm Hf).
Qed.

Lemma outbox_step_grows now result db db' :
  outbox_step (settle now result) db db' → grows db db'.
Proof.
  intros (Hs & Hp & _ & Ho). split_and!; [|by rewrite Hs|by rewrite Hp].
  intros id row Hr. exists (settle now result id row). rewrite Ho, Hr.
  destruct (settle_same now result id row) as (? & ? & _). done.
Qed.

Lemma outbox_step_wf now result db db' :
  outbox_step (settle now result) db db' → outbox_wf db → outbox_wf db'.
Proof.
  intros (Hs & _ & _ & Ho) [Hf Hu]. split.
  - intros id row Hr. rewrite Ho in Hr. apply fmap_Some in Hr as (row0 & Hr & ->).
    destruct (Hf _ _ Hr) as (Ht & e & sr & Hd & He & Hsid & Hsh & Hrest).
    destruct (settle_same now result id row0) as (Ep & Es & Et & _).
    split; [by rewrite Et|]. exists e, sr. rewrite Ep, Es, Hs. done.
  - intros i j r r' Hi Hj. rewrite Ho in Hi, Hj.
    apply fmap_Some in Hi as (r0 & Hi & ->). apply fmap_Some in Hj as (r0' & Hj & ->).
    rewrite (proj1 (proj2 (settle_same now result i r0))),
      (proj1 (proj2 (settle_same now result j r0'))). by apply Hu.
Qed.

(** *** Recording a dispatch *)

(** What a record of the topic says: its event, the row it comes from and the
    shipment. *)
Lemma log_event s p k rec evt :
  sys_ok s → sy_log s p !! k = Some rec → Decode (lr_value rec) = Ok evt →
  ∃ row sr, outbox_events (sy_db s) !! e_EventID evt = Some row ∧
    or_shipment_id row = e_ShipmentID evt ∧ shipments (sy_db s) !! e_ShipmentID evt = Some sr ∧
    ed_WeightGrams (e_Data evt) = sr_weight_grams sr ∧
    ed_AmountCents (e_Data evt) = sr_amount_cents sr ∧
    ed_Currency (e_Data evt) = sr_currency sr ∧ isCurrencyCode (ed_Currency (e_Data evt)) = true.
Proof.
  intros [] Hl Hd. destruct (so_log0 _ _ _ Hl) as (_ & id & row & Hr & Hv & _).
  destruct (proj1 so_outbox0 _ _ Hr) as (_ & e & sr & Hde & Hid & Hsid & Hsh & Hw & Ha & Hc).
  rewrite Hv, Hde in Hd. apply (inj Ok) in Hd as <-. exists row, sr.
  rewrite Hid, Hsid. split_and!; try done.
  pose proof (Decode_wire_spec) as Hspec. unfold Decode in Hde.
  destruct (Unmarshal_wire (or_payload row)) as [w|]; [|done].
  specialize (Hspec w). rewrite Hde in Hspec. destruct Hspec as ((_ & _ & _ & _ & _ & _ & Hm) & _).
  by apply isCurrencyCode_spec.
Qed.

(** No two dispatches for one shipment, hence none in the way of an event that
    was not processed. *)
Lemma no_conflict s p k rec evt :
  sys_ok s → sy_log s p !! k = Some rec → Decode (lr_value rec) = Ok evt →
  processed_events (sy_db s) !! e_EventID evt = None →
  dispatch_of (sy_db s) (e_ShipmentID evt) = None.
Proof.
  intros Hok Hl Hd Hp. destruct (log_event s p k rec evt Hok Hl Hd) as (row & sr & Hr & Hsid & _).
  destruct Hok as []. apply dispatch_of_None. intros id d Hdi Heq.
  destruct (so_dispatches0 _ _ Hdi) as (row' & sr' & Hr' & Hsid' & _).
  assert (dr_event_id d = e_EventID evt) as He.
  { apply (proj2 so_outbox0 _ _ row' row Hr' Hr). congruence. }
  destruct (ok_dispatches _ so_db0 _ _ Hdi) as (_ & [t Ht] & _). rewrite He in Ht. congruence.
Qed.

Lemma recorded_grows req d db db' : recorded req d db db' → grows db db'.
Proof.
  intros (Hp & _ & _ & _ & _ & c & _ & ->). split_and!; simpl; [|done|by apply insert_subseteq].
  intros id row Hr. by exists row.
Qed.

Lemma recorded_sys_ok s p k rec evt d db' :
  sys_ok s → sy_log s p !! k = Some rec → Decode (lr_value rec) = Ok evt →
  recorded (request_of evt) d (sy_db s) db' → db_ok db' →
  sys_ok (mkSys db' (sy_relays s) (sy_log s) (sy_offset s) (sy_handled s)).
Proof.
  intros Hok Hl Hd Hrec Hdb. pose proof (recorded_grows _ _ _ _ Hrec) as Hg.
  destruct (log_event s p k rec evt Hok Hl Hd) as (row & sr & Hr & Hsid & Hsh & _ & Ha & Hc & Hcur).
  pose proof Hrec as (Hp & Hn & Hdi & _ & _ & c & Hch & E). simpl in *.
  rewrite currency_char3 in Hch by done. apply (inj Ok) in Hch as <-.
  pose proof Hok as []. apply sys_ok_db; try done.
  - destruct so_outbox0 as [Hf Hu]. rewrite E. split; [|exact Hu]. exact Hf.
  - eapply recorded_linked; [exact Hrec|done].
  - rewrite E. intros id di Hi. simpl in Hi. apply lookup_insert_Some in Hi as [[_ <-]|[_ Hi]].
    + exists row, sr. simpl. split_and!; congruence.
    + exact (so_dispatches0 _ _ Hi).
  - rewrite E. simpl. intros ev. rewrite lookup_insert_is_Some. intros [<-|[_ Hev]]; [by exists row|].
    by apply so_processed0.
  - rewrite E. intros id r Hir Hnp. destruct (so_published0 id r Hir Hnp) as (q & j & rc & ? & ?).
    by exists q, j, rc.
Qed.

Lemma record_step s p k rec evt r db' :
  sys_ok s → sy_log s p !! k = Some rec → Decode (lr_value rec) = Ok evt →
  runs (record_tx (request_of evt)) ∅ (sy_db s) r db' →
  sys_ok (mkSys db' (sy_relays s) (sy_log s) (sy_offset s) (sy_handled s)) ∧
  is_Some (processed_events db' !! e_EventID evt).
Proof.
  intros Hok Hl Hd (now & w & t & _ & Hb & <-).
  assert (db_ok (tx_db t)) as Hdb by (eapply record_tx_keeps; [|exact Hb]; by destruct Hok).
  apply record_tx_spec in Hb; [|by constructor]. destruct r as [d []]; simpl in Hb.
  - destruct Hb as (_ & Hp & E). rewrite E. split; [by destruct Hok; split|done].
  - split; [by eapply recorded_sys_ok|]. apply recorded_ok in Hb as [Hp _]. by eexists.
Qed.

(** ** The invariant holds in every reachable state *)

Lemma sys_init_ok : sys_ok sys_init.
Proof.
  split; simpl.
  - apply empty_DB_ok.
  - split; [apply map_Forall_empty|]. intros i j r r' Hi. simpl in Hi. by apply lookup_empty_Some in Hi.
  - intros ev [t Ht]. simpl in Ht. by apply lookup_empty_Some in Ht.
  - apply map_Forall_empty.
  - intros ev [t Ht]. by apply lookup_empty_Some in Ht.
  - intros p k rec Hl. by rewrite lookup_nil in Hl.
  - intros id row Hr. by apply lookup_empty_Some in Hr.
  - intros i t Ht. by apply lookup_empty_Some in Ht.
  - intros p k Hk. lia.
  - done.
Qed.

(** *** One step of each kind *)

(** A relay's transaction after a step, with the topic as it is then. *)
Lemma with_relay_ok s log' i t :
  sys_ok (mkSys (sy_db s) (sy_relays s) log' (sy_offset s) (sy_handled s)) →
  Forall (holds_row (sy_db s)) (rt_done t ++ rt_todo t) →
  (∀ evt, evt ∈ rt_done t → in_log log' (sy_db s) (oe_EventID evt)) →
  sys_ok (mkSys (sy_db s) (<[i := t]> (sy_relays s)) log' (sy_offset s) (sy_handled s)).
Proof.
  intros Hok Hf Hd. apply (sys_ok_relays (mkSys (sy_db s) (sy_relays s) log' (sy_offset s) (sy_handled s))); [done|].
  intros j t'. by apply (relays_insert _ _ _ _ _ Hok).
Qed.

Lemma claim_ok s i limit locked batch db' :
  sys_ok s → runs (claimPending limit) locked (sy_db s) batch db' →
  sys_ok (mkSys db' (<[i := mkRelayTx [] batch None]> (sy_relays s)) (sy_log s) (sy_offset s) (sy_handled s)).
Proof.
  intros Hok (now & w & t & _ & Hb & <-). apply claimPending_ok in Hb as (E & _ & _ & ->). rewrite E.
  apply with_relay_ok; [by destruct s| |]; simpl.
  - apply list.Forall_forall. intros evt ([id row] & -> & Hin)%list_elem_of_fmap.
    destruct (claimed_facts locked limit (sy_db s)) as (_ & _ & _ & Hf & _). destruct (Hf _ _ Hin) as [Hr _]. by exists row.
  - intros evt He. by apply not_elem_of_nil in He.
Qed.

(** The event in turn is one of the outbox. *)
Lemma in_turn s i don evt todo :
  sys_ok s → sy_relays s !! i = Some (mkRelayTx don (evt :: todo) None) →
  holds_row (sy_db s) evt ∧ Forall (holds_row (sy_db s)) (don ++ evt :: todo) ∧
  ∀ e, e ∈ don → in_log (sy_log s) (sy_db s) (oe_EventID e).
Proof.
  intros Hok Hi. destruct (so_relays _ Hok _ _ Hi) as [Hf Hdone]. split; [|by split].
  apply list.Forall_app in Hf as [_ Hf]. by inversion Hf.
Qed.

Lemma ack_ok s i don evt todo msg :
  sys_ok s → sy_relays s !! i = Some (mkRelayTx don (evt :: todo) None) → MessageFor evt = Ok msg →
  sys_ok (mkSys (sy_db s) (<[i := mkRelayTx (don ++ [evt]) todo None]> (sy_relays s)) (append (sy_log s) msg)
            (sy_offset s) (sy_handled s)).
Proof.
  intros Hok Hi Hm. destruct (in_turn _ _ _ _ _ Hok Hi) as (Hh & Hf & Hdone).
  destruct (sys_ok_append s evt msg Hok Hh Hm) as [Hok' Hin]. apply with_relay_ok; [done| |]; simpl.
  - by rewrite <- app_assoc.
  - intros e [He| ->%list_elem_of_singleton]%elem_of_app; [|done]. by apply in_log_append, Hdone.
Qed.

Lemma fail_ok s i don evt todo err log' :
  sys_ok s → sy_relays s !! i = Some (mkRelayTx don (evt :: todo) None) →
  log' = sy_log s ∨ (∃ msg, MessageFor evt = Ok msg ∧ log' = append (sy_log s) msg) →
  sys_ok (mkSys (sy_db s) (<[i := mkRelayTx don (evt :: todo) (Some (evt, err))]> (sy_relays s)) log'
            (sy_offset s) (sy_handled s)).
Proof.
  intros Hok Hi Hlog. destruct (in_turn _ _ _ _ _ Hok Hi) as (Hh & Hf & Hdone).
  destruct Hlog as [->|(msg & Hm & ->)]; [apply with_relay_ok; [by destruct s|done..]|].
  apply with_relay_ok; [by apply (sys_ok_append s evt msg)|done|]. intros e He. by apply in_log_append, Hdone.
Qed.

Lemma without_relay_ok s i :
  sys_ok s → sys_ok (mkSys (sy_db s) (delete i (sy_relays s)) (sy_log s) (sy_offset s) (sy_handled s)).
Proof.
  intros Hok. apply sys_ok_relays; [done|]. intros j t' [_ Hj]%lookup_delete_Some. exact (so_relays _ Hok _ _ Hj).
Qed.

Lemma commit_ok s i t db' :
  sys_ok s → sy_relays s !! i = Some t → runs (mark_tx (rt_result t);;; fail_tx (rt_result t)) ∅ (sy_db s) () db' →
  sys_ok (mkSys db' (delete i (sy_relays s)) (sy_log s) (sy_offset s) (sy_handled s)).
Proof.
  intros Hok Hi Hrun. destruct (commit_step _ _ _ _ Hrun (so_db _ Hok)) as (Hdb & now & Hst).
  pose proof (outbox_step_grows _ _ _ _ Hst) as Hg. destruct (so_relays _ Hok _ _ Hi) as [_ Hdone].
  apply (without_relay_ok (mkSys db' (sy_relays s) (sy_log s) (sy_offset s) (sy_handled s))).
  pose proof Hok as []. pose proof Hst as (Es & Ep & Ed & Ho). apply sys_ok_db; try done.
  - by eapply outbox_step_wf.
  - intros ev. rewrite Ep, Ed. apply so_linked0.
  - rewrite Ed. intros id d Hd. eapply dispatch_matches_grows; [exact Hg|]. by apply so_dispatches0.
  - intros ev. rewrite Ep. intros [row Hr]%so_processed0. rewrite Ho, Hr. by eexists.
  - intros id row Hr Hnp. eapply in_log_grows; [exact Hg|]. rewrite Ho in Hr.
    apply fmap_Some in Hr as (row0 & Hr & ->).
    destruct (decide (id ∈ oe_EventID <$> rt_done t)) as [(evt & -> & He)%list_elem_of_fmap|Hni].
    + by apply Hdone.
    + apply (so_published0 _ _ Hr). intros Hpend. apply Hnp. by apply settle_pending.
Qed.

Lemma handle_ok s p k rec evt r db' (mine : bool) :
  sys_ok s → sy_log s p !! k = Some rec → Decode (lr_value rec) = Ok evt →
  runs (record_tx (request_of evt)) ∅ (sy_db s) r db' → (mine = true → k = sy_offset s p) →
  sys_ok (mkSys db' (sy_relays s) (sy_log s) (sy_offset s) (if mine then fn_set p true (sy_handled s) else sy_handled s)).
Proof.
  intros Hok Hl Hd Hrun Hmine. destruct (record_step _ _ _ _ _ _ _ Hok Hl Hd Hrun) as [Hok' Hp]. destruct mine; [|done].
  rewrite (Hmine eq_refl) in Hl. destruct Hok' as []. split; try done; cbn in *.
  intros q. unfold fn_set. case_decide as Hq; [subst; by eauto|]. by apply so_handled0.
Qed.

Lemma crash_ok s p :
  sys_ok s → sys_ok (mkSys (sy_db s) (sy_relays s) (sy_log s) (sy_offset s) (fn_set p false (sy_handled s))).
Proof.
  intros Hok. pose proof Hok as []. split; try done; cbn.
  intros q. unfold fn_set. case_decide as Hq; [done|]. by apply so_handled0.
Qed.

Lemma offset_ok s p :
  sys_ok s → sy_handled s p = true →
  sys_ok (mkSys (sy_db s) (sy_relays s) (sy_log s) (fn_set p (S (sy_offset s p)) (sy_offset s)) (fn_set p false (sy_handled s))).
Proof.
  intros Hok Hh. pose proof Hok as []. split; try done; cbn.
  - intros q k. unfold fn_set at 1. case_decide as Hq; [subst q|by apply so_offset0].
    intros Hk. destruct (decide (k = sy_offset s p)) as [->|Hne]; [by apply so_handled0|].
    apply so_offset0. lia.
  - intros q. unfold fn_set. case_decide as Hq; [done|]. by apply so_handled0.
Qed.

Lemma sys_step_ok s s' : sys_ok s → sys_step s s' → sys_ok s'.
Proof.
  intros Hok Hstep. destruct Hstep as
    [s rnd rnd' weight price at_ cid evt db' Hgood _ _ shipment Hevt (now & w & t & _ & Hb & <-)
    |s i limit locked batch db' _ _ Hrun
    |s i don evt todo msg Hi Hm
    |s i don evt todo err log' Hi Hlog
    |s i t db' Hi _ Hrun
    |s i
    |s id row msg Hr Hm
    |s p k rec evt r db' mine Hl Hd Hrun Hmine
    |s p Hh
    |s p].
  - eapply step_create_ok; [done|exact Hgood|reflexivity|exact Hevt| |].
    + by apply create_tx_spec in Hb.
    + eapply create_tx_keeps; [|exact Hb]. by destruct Hok.
  - by eapply claim_ok.
  - by apply ack_ok.
  - by apply fail_ok.
  - by eapply commit_ok.
  - by apply without_relay_ok.
  - apply (sys_ok_append s (scanOutboxEvent (id, row)) msg Hok); [|done]. by exists row.
  - by eapply handle_ok.
  - by apply offset_ok.
  - by apply crash_ok.
Qed.

Lemma reachable_ok s : reachable s → sys_ok s.
Proof. apply (rtc_ind_r sys_ok); [apply sys_init_ok|]. intros s1 s2 _ Hst Hok. by eapply sys_step_ok. Qed.

(** *** Recording never fails by itself *)

Lemma insert_processed_run id now db :
  text_ok id = true → processed_events db !! id = None →
  insert_processed id now db = Ok (1%Z, set_processed <[id := pg_timestamptz now]> db).
Proof. intros Ht Hp. unfold insert_processed, pg_text. rewrite Ht. cbn. by rewrite Hp. Qed.

Lemma insert_dispatch_run did sid eid a c now db :
  text_ok did = true → text_ok sid = true → text_ok eid = true → pg_char3 c = Ok c → (0 ≤ a)%Z →
  dispatches db !! did = None → dispatch_of db sid = None →
  is_Some (shipments db !! sid) → is_Some (processed_events db !! eid) →
  ∃ a_db, insert_dispatch did sid eid a c now db = Ok a_db.
Proof.
  intros H1 H2 H3 H4 H5 H6 H7 H8 H9. eexists. unfold insert_dispatch, pg_text, has_shipment.
  apply Z.leb_le in H5. rewrite H1, H2, H3, H4. cbn. rewrite H5, H6, H7. cbn.
  rewrite !bool_decide_eq_true_2 by done. reflexivity.
Qed.

Lemma newID_text_ok prefix b :
  str_forall is_ascii prefix = true → str_forall (λ c, negb (Ascii.eqb c "000")) prefix = true →
  text_ok (newID prefix b) = true.
Proof.
  intros H1 H2. unfold text_ok. rewrite newID_valid by done. unfold newID.
  rewrite !str_forall_app, H2. simpl. apply EncodeToString_no_nul.
Qed.

Lemma record_runs {V} {IRV : Rand V} s p k rec evt now (w : V) :
  sys_ok s → sy_log s p !! k = Some rec → Decode (lr_value rec) = Ok evt →
  (processed_events (sy_db s) !! e_EventID evt = None → dispatches (sy_db s) !! NewDispatchID (rand8 w).1 = None) →
  ∃ r t, record_tx (request_of evt) (mkTx now ∅ [] w (sy_db s)) = (Ok r, t).
Proof.
  intros Hok Hl Hd Hfresh.
  destruct (log_event s p k rec evt Hok Hl Hd) as (row & sr & Hr & Hsid & Hsh & _ & Ha & Hc & Hcur).
  pose proof (ok_outbox _ (so_db _ Hok) _ _ Hr) as (Ht & _ & _).
  pose proof (ok_shipments _ (so_db _ Hok) _ _ Hsh) as (Hts & _ & Hpos).
  unfold record_tx, tx_bind, tx_map_err, tx_try, tx_do, exec. cbn [tx_faults tx_now tx_db request_of rq_EventID].
  destruct (processed_events (sy_db s) !! e_EventID evt) as [at_|] eqn:Ep.
  { unfold insert_processed, pg_text. rewrite Ht. cbn. rewrite Ep. cbn. by eexists _, _. }
  specialize (Hfresh eq_refl). rewrite insert_processed_run by done. cbn -[insert_dispatch].
  destruct (rand8 w) as [rnd w'] eqn:Er. cbn [fst] in Hfresh.
  destruct (insert_dispatch_run (NewDispatchID rnd) (e_ShipmentID evt) (e_EventID evt)
              (ed_AmountCents (e_Data evt)) (ed_Currency (e_Data evt)) now
              (set_processed <[e_EventID evt := pg_timestamptz now]> (sy_db s))) as [[a db] E]; try done.
  - by apply newID_text_ok.
  - by apply currency_char3.
  - by rewrite Ha.
  - by eapply no_conflict.
  - simpl. rewrite lookup_insert_eq. by eexists.
  - rewrite bool_decide_eq_false_2 by done. cbn -[insert_dispatch]. rewrite Er. cbn -[insert_dispatch]. rewrite E. cbn.
    by eexists _, _.
Qed.

(** ** Properties *)

(** C1: in every state the running system can reach, whatever fails, crashes,
    retries or is delivered twice along the way, a shipment has at most one
    dispatch, and a dispatch was made for the event of its shipment, at the price
    the shipment was created with and the event carries. *)
Theorem shipment_dispatched_once s :
  reachable s →
  (∀ i j d d', dispatches (sy_db s) !! i = Some d → dispatches (sy_db s) !! j = Some d' →
    dr_shipment_id d = dr_shipment_id d' → i = j ∧ d = d') ∧
  (∀ i d, dispatches (sy_db s) !! i = Some d →
    ∃ row sr evt, outbox_events (sy_db s) !! dr_event_id d = Some row ∧
      shipments (sy_db s) !! dr_shipment_id d = Some sr ∧ Decode (or_payload row) = Ok evt ∧
      e_EventID evt = dr_event_id d ∧ e_ShipmentID evt = dr_shipment_id d ∧
      dr_amount_cents d = sr_amount_cents sr ∧ dr_currency d = sr_currency sr ∧
      ed_AmountCents (e_Data evt) = sr_amount_cents sr ∧ ed_Currency (e_Data evt) = sr_currency sr).
Proof.
  intros []%reachable_ok. split.
  - intros i j d d' Hi Hj Heq. pose proof (ok_unique _ so_db0 _ _ _ _ Hi Hj Heq) as ->.
    split; [done|congruence].
  - intros i d Hd. destruct (so_dispatches0 _ _ Hd) as (row & sr & Hr & Hsid & Hsh & Ha & Hc).
    destruct (proj1 so_outbox0 _ _ Hr) as (_ & evt & sr' & Hde & Hid & He & Hsh' & _ & Ha' & Hc').
    rewrite Hsid in Hsh', He. rewrite Hsh' in Hsh. injection Hsh as ->.
    exists row, sr, evt. done.
Qed.

(** C2: no event is lost: in every reachable state an outbox row marked published
    has its record in the topic, in the partition of its shipment, and every
    record below the committed offset of its partition has its dispatch. *)
Theorem no_event_lost s :
  reachable s →
  (∀ id row, outbox_events (sy_db s) !! id = Some row → ¬ pending row →
    ∃ k, sy_log s (partition_of (or_shipment_id row)) !! k =
      Some (mkLogRecord (or_shipment_id row) (or_payload row))) ∧
  (∀ p k, k < sy_offset s p →
    ∃ rec evt i d, sy_log s p !! k = Some rec ∧ Decode (lr_value rec) = Ok evt ∧
      dispatches (sy_db s) !! i = Some d ∧
      dr_event_id d = e_EventID evt ∧ dr_shipment_id d = e_ShipmentID evt).
Proof.
  intros Hok%reachable_ok. split.
  - intros id row Hr Hn. destruct (so_published _ Hok _ _ Hr Hn) as (p & k & rec & Hl & row' & Hr' & Hv & Hk).
    destruct (so_log _ Hok _ _ _ Hl) as [-> _]. destruct rec as [key value]. simpl in *.
    rewrite Hr' in Hr. injection Hr as ->. exists k. by rewrite <- Hk, <- Hv.
  - intros p k Hk. destruct (so_offset _ Hok _ _ Hk) as (rec & evt & Hl & Hd & Hp).
    destruct (so_linked _ Hok _ Hp) as (i & d & Hi & Hev).
    exists rec, evt, i, d. split_and!; try done.
    destruct (so_dispatches _ Hok _ _ Hi) as (row & sr & Hr & Hsid & _).
    destruct (log_event _ _ _ _ _ Hok Hl Hd) as (row' & _ & Hr' & Hsid' & _). congruence.
Qed.

(** C3: the topic is never poisoned: in every reachable state each of its records
    decodes to an event keyed by its shipment, in the partition of that key, and
    the transaction that records it succeeds whenever the database does and the
    identifier drawn is new; no other event's dispatch is ever in its way. *)
Theorem topic_never_poisoned s p k rec :
  reachable s → sy_log s p !! k = Some rec →
  p = partition_of (lr_key rec) ∧
  ∃ evt, Decode (lr_value rec) = Ok evt ∧ e_ShipmentID evt = lr_key rec ∧
    (processed_events (sy_db s) !! e_EventID evt = None →
     dispatch_of (sy_db s) (e_ShipmentID evt) = None) ∧
    ∀ now w, dispatches (sy_db s) !! NewDispatchID w = None →
      ∃ r t, record_tx (request_of evt) (mkTx now ∅ [] w (sy_db s)) = (Ok r, t).
Proof.
  intros Hok%reachable_ok Hl. destruct (so_log _ Hok _ _ _ Hl) as (Hp & id & row & Hr & Hv & Hk).
  split; [done|]. destruct (proj1 (so_outbox _ Hok) _ _ Hr) as (_ & evt & sr & Hd & _ & He & _).
  rewrite <- Hv in Hd. exists evt. split; [done|]. split; [congruence|]. split.
  - by eapply no_conflict.
  - intros now w Hw. by eapply record_runs.
Qed.

End system.

(** ** A run *)

Section examples.
#[local] Existing Instances ref_PgScan.

Definition ex_now : Time := mkTime 1700000100 0 0.
Definition ex_tx {A} (body : TX string A) (db : DB) : res A * tx string :=
  body (mkTx ex_now ∅ [] "12345678" db).
Definition ex_after {A} (body : TX string A) (db : DB) : DB := tx_db (ex_tx body db).2.

(** A shipment created, published by the relay, and dispatched: each value is
    what the step before it returned. *)
Definition ex_shipment : Shipment := mkShipment (NewShipmentID "abcdefgh") 1500 (mkMoney 700 "EUR") (UTC ex_now).
Definition ex_evt : OutboxEvent :=
  from_res (mkOutboxEvent "" "" "" "" ex_now 0) (newOutboxEvent "ijklmnop" ex_shipment "req_1").
Definition ex_db1 : DB := ex_after (create_tx ex_shipment ex_evt) empty_DB.
Definition ex_claimed : list OutboxEvent := from_res [] (ex_tx (claimPending 10) ex_db1).1.
Definition ex_head : OutboxEvent := default ex_evt (head ex_claimed).
Definition ex_msg : Message := from_res (mkMessage "" "" "" ∅) (MessageFor ex_head).
Definition ex_result : PublishResult := mkPublishResult [oe_EventID ex_head] "" None.
Definition ex_db2 : DB := ex_after (claimPending 10) ex_db1.
Definition ex_db3 : DB := ex_after (mark_tx ex_result;;; fail_tx ex_result) ex_db2.
Definition ex_wire : ShipmentCreated := from_res (NewShipmentCreated "" ex_shipment "") (Decode (m_Value ex_msg)).
Definition ex_db4 : DB := ex_after (record_tx (request_of ex_wire)) ex_db3.

Lemma ex_runs {A} (body : TX string A) db :
  is_ok (ex_tx body db).1 = true → ∃ a, (ex_tx body db).1 = Ok a ∧ runs body ∅ db a (ex_after body db).
Proof.
  intros H. unfold ex_after, ex_tx in *. destruct (body _) as [[a|e] t] eqn:E; [|done].
  exists a. split; [done|]. eexists _, _, _. split; [|split; [exact E|reflexivity]]. reflexivity.
Qed.

Lemma ex_good : good_input "req_1" ex_now (mkMoney 700 "EUR").
Proof.
  split; [done|]. split; [done|]. split; [|done]. split; [done|].
  exists "E"%char, "U"%char, "R"%char. vm_compute. intuition discriminate.
Qed.

Lemma ex_create_step :
  sys_step (λ _, 0) sys_init (mkSys ex_db1 ∅ (λ _, []) (λ _, 0) (λ _, false)).
Proof.
  destruct (ex_runs (create_tx ex_shipment ex_evt) empty_DB) as ([] & _ & Hcreate); [vm_compute; reflexivity|].
  apply (step_create (λ _, 0) sys_init "abcdefgh" "ijklmnop" 1500 (mkMoney 700 "EUR") ex_now "req_1" ex_evt ex_db1);
    [apply ex_good|done|done| |exact Hcreate].
  apply from_res_ok. vm_compute. reflexivity.
Qed.

Lemma ex_reachable :
  ∃ s, reachable (λ _, 0) s ∧ sy_db s = ex_db4 ∧ sy_offset s 0 = 1 ∧
    sy_log s 0 = [mkLogRecord (m_Key ex_msg) (m_Value ex_msg)].
Proof.
  assert (ex_claimed = [ex_head]) as Eclaimed by (vm_compute; reflexivity).
  destruct (ex_runs (claimPending 10) ex_db1) as (batch & Eb & Hclaim); [vm_compute; reflexivity|].
  assert (batch = [ex_head]) as ->.
  { rewrite <- Eclaimed. unfold ex_claimed. rewrite Eb. reflexivity. }
  destruct (ex_runs (mark_tx ex_result;;; fail_tx ex_result) ex_db2) as ([] & _ & Hmark); [vm_compute; reflexivity|].
  destruct (ex_runs (record_tx (request_of ex_wire)) ex_db3) as (r & _ & Hrecord); [vm_compute; reflexivity|].
  eexists. split; [|split; [|split]].
  - unfold reachable.
    eapply rtc_l; [exact ex_create_step|].
    eapply rtc_l; [eapply (step_claim (λ _, 0) _ 0 10 ∅ [ex_head] ex_db2); [reflexivity|done|exact Hclaim]|].
    eapply rtc_l.
    { eapply (step_ack (λ _, 0) _ 0 [] ex_head [] ex_msg); [apply lookup_insert_eq|].
      apply from_res_ok. vm_compute. reflexivity. }
    eapply rtc_l.
    { eapply (step_commit (λ _, 0) _ 0); [apply lookup_insert_eq|by left|exact Hmark]. }
    eapply rtc_l.
    { eapply (step_record (λ _, 0) _ 0 0 _ ex_wire r _ true); [reflexivity| |exact Hrecord|done].
      apply from_res_ok. vm_compute. reflexivity. }
    eapply rtc_l; [apply (step_offset (λ _, 0) _ 0); reflexivity|]. apply rtc_refl.
  - reflexivity.
  - reflexivity.
  - reflexivity.
Qed.

Lemma shipment_dispatched_once_witness :
  ∃ d sr, dispatches ex_db4 !! NewDispatchID "12345678" = Some d ∧
    shipments ex_db4 !! dr_shipment_id d = Some sr ∧ dr_amount_cents d = sr_amount_cents sr.
Proof.
  destruct ex_reachable as (s & Hr & Hdb & _).
  assert (is_Some (dispatches ex_db4 !! NewDispatchID "12345678")) as [d Hd]
    by (vm_compute; eexists; reflexivity).
  pose proof Hd as Hd'. rewrite <- Hdb in Hd'.
  destruct (proj2 (shipment_dispatched_once (λ _, 0) s Hr) _ _ Hd') as (_ & sr & _ & _ & Hs & _ & _ & _ & Ha & _).
  rewrite Hdb in Hs. exists d, sr. exact (conj Hd (conj Hs Ha)).
Defined.

Lemma no_event_lost_witness :
  ∃ evt i d, Decode (m_Value ex_msg) = Ok evt ∧ dispatches ex_db4 !! i = Some d ∧
    dr_event_id d = e_EventID evt.
Proof.
  destruct ex_reachable as (s & Hr & Hdb & Ho & Hl).
  destruct (proj2 (no_event_lost (λ _, 0) s Hr) 0 0) as (rec & evt & i & d & Hrec & Hd & Hi & He & _);
    [by rewrite Ho; lia|].
  rewrite Hl in Hrec. apply (inj Some) in Hrec. rewrite <- Hrec in Hd. rewrite Hdb in Hi. exists evt, i, d. exact (conj Hd (conj Hi He)).
Defined.

Lemma topic_never_poisoned_witness :
  ∃ evt, Decode (m_Value ex_msg) = Ok evt ∧ e_ShipmentID evt = m_Key ex_msg.
Proof.
  destruct ex_reachable as (s & Hr & Hdb & Ho & Hl).
  destruct (topic_never_poisoned (λ _, 0) s 0 0 (mkLogRecord (m_Key ex_msg) (m_Value ex_msg)) Hr)
    as (_ & evt & Hd & Hs & _); [by rewrite Hl|].
  exists evt. exact (conj Hd Hs).
Defined.

End examples.
