(* ===== verification/Sessions.v ===== *)
(** * What a session writes before it commits

    A transaction reads the committed tables under its own rows ([overlay]); the
    rows a statement writes ([diff]) are its own until it commits.  A statement
    that another session's commit does not touch answers and writes the same
    before and after that commit ([stmt_stable]), so a whole transaction can be
    replayed on whatever was committed while it ran ([replay_stable]). *)
From S2P Require Import Prelude GoErrors GoUtf8 GoTime Domain Jsonb GoContext Database Storage Programs System.

#[export] Instance ShipmentRow_eq_dec : EqDecision ShipmentRow.
Proof. solve_decision. Defined.
#[export] Instance OutboxRow_eq_dec : EqDecision OutboxRow.
Proof. solve_decision. Defined.
#[export] Instance DispatchRow_eq_dec : EqDecision DispatchRow.
Proof. solve_decision. Defined.

(** ** Rows of one's own *)

Definition overlay (own db : DB) : DB :=
  mkDB (shipments own ∪ shipments db) (outbox_events own ∪ outbox_events db)
    (processed_events own ∪ processed_events db) (dispatches own ∪ dispatches db).

Definition diff_map {A} `{EqDecision A} (m' m : gmap string A) : gmap string A :=
  filter (λ p, m !! p.1 ≠ Some p.2) m'.

Definition diff (db' db : DB) : DB :=
  mkDB (diff_map (shipments db') (shipments db)) (diff_map (outbox_events db') (outbox_events db))
    (diff_map (processed_events db') (processed_events db))
    (diff_map (dispatches db') (dispatches db)).

(** Two sessions wrote different rows, with different keys in the unique columns. *)
Record apart (a b : DB) : Prop := mk_apart {
  ap_shipments : shipments a ##ₘ shipments b;
  ap_outbox : outbox_events a ##ₘ outbox_events b;
  ap_processed : processed_events a ##ₘ processed_events b;
  ap_dispatches : dispatches a ##ₘ dispatches b;
  ap_unique : ∀ i d j d', dispatches a !! i = Some d → dispatches b !! j = Some d' →
    dr_shipment_id d ≠ dr_shipment_id d'
}.

#[export] Instance apart_symmetric : Symmetric apart.
Proof.
  intros a b [H1 H2 H3 H4 H5]. split; try by symmetry.
  intros i d j d' Hi Hj Heq. by eapply H5.
Qed.

Lemma apart_empty_l b : apart empty_DB b.
Proof. split; try apply map_disjoint_empty_l. intros i d j d' Hi. cbn in Hi. by rewrite lookup_empty in Hi. Qed.

Lemma diff_map_Some {A} `{EqDecision A} (m' m : gmap string A) k x :
  diff_map m' m !! k = Some x ↔ m' !! k = Some x ∧ m !! k ≠ Some x.
Proof. apply map_lookup_filter_Some. Qed.

Lemma diff_map_same {A} `{EqDecision A} (m : gmap string A) : diff_map m m = ∅.
Proof.
  apply map_empty. intros k. apply eq_None_not_Some. intros [x Hx].
  by apply diff_map_Some in Hx as [Hk []].
Qed.

Lemma diff_map_update {A} `{EqDecision A} (u m : gmap string A) :
  (∀ k x, u !! k = Some x → m !! k ≠ Some x) → diff_map (u ∪ m) m = u.
Proof.
  intros Hu. apply map_eq. intros k. apply option_eq. intros x. rewrite diff_map_Some. split.
  - intros [[Hk|[_ Hk]]%lookup_union_Some_raw Hn]; [done|by destruct Hn].
  - intros Hk. split; [by apply lookup_union_Some_l|by apply Hu].
Qed.

Lemma diff_map_insert {A} `{EqDecision A} (m : gmap string A) k x :
  m !! k = None → diff_map (<[k:=x]> m) m = {[k := x]}.
Proof.
  intros Hk. rewrite insert_union_singleton_l. apply diff_map_update.
  intros k' x' [<- <-]%lookup_singleton_Some. by rewrite Hk.
Qed.

Lemma diff_same db : diff db db = empty_DB.
Proof. unfold diff. by rewrite !diff_map_same. Qed.

Lemma overlay_empty db : overlay empty_DB db = db.
Proof. destruct db. unfold overlay. cbn. by rewrite !map_empty_union. Qed.

Lemma overlay_assoc a b c : overlay a (overlay b c) = overlay (overlay a b) c.
Proof. unfold overlay. cbn. by rewrite !map_union_assoc. Qed.

(** ** What each statement writes *)

Definition wrote (o : Op) (v d : DB) : Prop :=
  match o with
  | InsertShipment id _ _ _ _ => ∃ row, d = mkDB {[id := row]} ∅ ∅ ∅ ∧ shipments v !! id = None
  | InsertOutbox id _ _ _ _ => ∃ row, d = mkDB ∅ {[id := row]} ∅ ∅ ∧ outbox_events v !! id = None
  | InsertProcessed id =>
      d = empty_DB ∨ ∃ t, d = mkDB ∅ ∅ {[id := t]} ∅ ∧ processed_events v !! id = None
  | InsertDispatch id sid _ _ _ =>
      ∃ row, d = mkDB ∅ ∅ ∅ {[id := row]} ∧ dispatches v !! id = None ∧ dr_shipment_id row = sid ∧
        dispatch_of v sid = None
  | SelectPending _ => d = empty_DB
  | MarkPublished ids => ∃ m, d = mkDB ∅ m ∅ ∅ ∧ ∀ k, is_Some (m !! k) → k ∈ ids ∧ is_Some (outbox_events v !! k)
  | RecordFailure id _ => ∃ m, d = mkDB ∅ m ∅ ∅ ∧ ∀ k, is_Some (m !! k) → k = id ∧ is_Some (outbox_events v !! k)
  end.

(** The rows a statement updates. *)
Definition upd_ids (o : Op) : list string :=
  match o with
  | MarkPublished ids => ids
  | RecordFailure id _ => [id]
  | _ => []
  end.

Definition is_select (o : Op) : bool := match o with SelectPending _ => true | _ => false end.

(** The tables [v1] are [v] with the rows [D] that somebody else committed. *)
Record extends (D v v1 : DB) : Prop := mk_extends {
  ex_shipments : ∀ k, shipments D !! k = None → shipments v1 !! k = shipments v !! k;
  ex_outbox : ∀ k, outbox_events D !! k = None → outbox_events v1 !! k = outbox_events v !! k;
  ex_processed : ∀ k, processed_events D !! k = None → processed_events v1 !! k = processed_events v !! k;
  ex_dispatches : ∀ k, dispatches D !! k = None → dispatches v1 !! k = dispatches v !! k;
  ex_dispatches_old : ∀ k d, dispatches v1 !! k = Some d → dispatches v !! k = Some d ∨ dispatches D !! k = Some d;
  ex_shipments_kept : ∀ k, is_Some (shipments v !! k) → is_Some (shipments v1 !! k);
  ex_processed_kept : ∀ k, is_Some (processed_events v !! k) → is_Some (processed_events v1 !! k)
}.

Lemma extends_commit D own C : extends D (overlay own C) (overlay own (overlay D C)).
Proof.
  split; cbn.
  - intros k Hk. by rewrite !lookup_union, Hk, (left_id_L None _).
  - intros k Hk. by rewrite !lookup_union, Hk, (left_id_L None _).
  - intros k Hk. by rewrite !lookup_union, Hk, (left_id_L None _).
  - intros k Hk. by rewrite !lookup_union, Hk, (left_id_L None _).
  - intros k d. rewrite !lookup_union.
    destruct (dispatches own !! k), (dispatches D !! k), (dispatches C !! k); simpl; auto.
  - intros k. rewrite !lookup_union.
    destruct (shipments own !! k), (shipments D !! k), (shipments C !! k); simpl; eauto.
  - intros k. rewrite !lookup_union.
    destruct (processed_events own !! k), (processed_events D !! k), (processed_events C !! k); simpl; eauto.
Qed.

Section statements.
Context {IJ : Jsonb} {IS : PgScan}.

Lemma pg_text_run s : text_ok s = true → pg_text s = Ok s.
Proof. intros H. by apply pg_text_ok. Qed.

(** Unfolds what a statement wrote. *)
Ltac written :=
  unfold diff, overlay, wrote; cbn;
  rewrite ?diff_map_same, ?map_empty_union, ?diff_map_insert by done;
  rewrite <- ?insert_union_singleton_l.

Lemma insert_shipment_writes id w a c t now v u v' :
  insert_shipment id w a c t now v = Ok (u, v') →
  v' = overlay (diff v' v) v ∧ wrote (InsertShipment id w a c t) v (diff v' v).
Proof. unfold insert_shipment. intros H. stmt_ok. written. eauto. Qed.

Lemma insert_outbox_writes e s ty p t now v u v' :
  insert_outbox e s ty p t now v = Ok (u, v') →
  v' = overlay (diff v' v) v ∧ wrote (InsertOutbox e s ty p t) v (diff v' v).
Proof.
  unfold insert_outbox. intros H. stmt_ok. destruct (jsonb_text p); [|done]. stmt_ok. written. eauto.
Qed.

Lemma insert_processed_writes e now v n v' :
  insert_processed e now v = Ok (n, v') →
  v' = overlay (diff v' v) v ∧ wrote (InsertProcessed e) v (diff v' v).
Proof.
  unfold insert_processed. intros H. stmt_ok. case_match; stmt_ok.
  - rewrite diff_same, overlay_empty. split; [done|by left].
  - written. eauto.
Qed.

Lemma insert_dispatch_writes d s e a c now v t v' :
  insert_dispatch d s e a c now v = Ok (t, v') →
  v' = overlay (diff v' v) v ∧ wrote (InsertDispatch d s e a c) v (diff v' v).
Proof. unfold insert_dispatch. intros H. stmt_ok. written. split; [done|]. eexists. eauto. Qed.

(** *** Updates *)

Definition updated (f : OutboxRow → OutboxRow) (ids : list string) (v : DB) : gmap string OutboxRow :=
  f <$> filter (λ p, p.1 ∈ ids) (outbox_events v).

Lemma update_outbox_diff f ids v v' :
  (∀ row, f row ≠ row) → update_outbox f ids v = Ok v' →
  diff v' v = mkDB ∅ (updated f ids v) ∅ ∅ ∧ v' = overlay (diff v' v) v.
Proof.
  intros Hf H. unfold update_outbox in H. stmt_ok.
  assert (diff (set_outbox (union (updated f ids v)) v) v = mkDB ∅ (updated f ids v) ∅ ∅) as E.
  { unfold diff. cbn. rewrite !diff_map_same. f_equal. apply diff_map_update.
    intros k x (row & <- & Hr)%lookup_fmap_Some Hk.
    apply map_lookup_filter_Some in Hr as [Hr _]. rewrite Hr in Hk. injection Hk as Hk.
    by apply (Hf row). }
  fold (updated f ids v). rewrite E. split; [done|]. unfold overlay. cbn. by rewrite !map_empty_union.
Qed.

Lemma updated_elem f ids v k :
  is_Some (updated f ids v !! k) → k ∈ ids ∧ is_Some (outbox_events v !! k).
Proof.
  intros [x (row & _ & [Hr Hk]%map_lookup_filter_Some)%lookup_fmap_Some]. eauto.
Qed.

Lemma mark_row_changes now row : mark_row now row ≠ row.
Proof. intros H%(f_equal or_attempts). cbn in H. lia. Qed.

Lemma fail_row_changes msg row : fail_row msg row ≠ row.
Proof. intros H%(f_equal or_attempts). cbn in H. lia. Qed.

(** Every statement writes its rows, and only them. *)
Lemma stmt_writes locked o now v a v' :
  stmt_of locked o now v = Ok (a, v') → v' = overlay (diff v' v) v ∧ wrote o v (diff v' v).
Proof.
  destruct o; cbn [stmt_of].
  - apply insert_shipment_writes.
  - apply insert_outbox_writes.
  - apply insert_processed_writes.
  - apply insert_dispatch_writes.
  - intros (-> & _)%select_pending_db. by rewrite diff_same, overlay_empty.
  - unfold mark_published. intros H. stmt_ok. apply update_outbox_diff in Hok as [E ?]; [|apply mark_row_changes].
    split; [done|]. rewrite E. eexists. split; [done|apply updated_elem].
  - unfold record_failure. intros H. stmt_ok. apply update_outbox_diff in Hok0 as [E ?]; [|apply fail_row_changes].
    split; [done|]. rewrite E. eexists. split; [done|].
    intros k [Hk%list_elem_of_singleton ?]%updated_elem. done.
Qed.

(** *** Stability *)

Lemma apart_shipment D id row : apart (mkDB {[id := row]} ∅ ∅ ∅) D → shipments D !! id = None.
Proof. intros [H _ _ _ _]. cbn in H. by apply map_disjoint_singleton_l in H. Qed.
Lemma apart_outbox D id row : apart (mkDB ∅ {[id := row]} ∅ ∅) D → outbox_events D !! id = None.
Proof. intros [_ H _ _ _]. cbn in H. by apply map_disjoint_singleton_l in H. Qed.
Lemma apart_processed D id t : apart (mkDB ∅ ∅ {[id := t]} ∅) D → processed_events D !! id = None.
Proof. intros [_ _ H _ _]. cbn in H. by apply map_disjoint_singleton_l in H. Qed.

Lemma apart_dispatch D v v1 id row :
  apart (mkDB ∅ ∅ ∅ {[id := row]}) D → extends D v v1 →
  dispatches v !! id = None → dispatch_of v (dr_shipment_id row) = None →
  dispatches v1 !! id = None ∧ dispatch_of v1 (dr_shipment_id row) = None.
Proof.
  intros [_ _ _ H Hu] Hx Hid Hof. cbn in H. apply map_disjoint_singleton_l in H.
  split; [by rewrite (ex_dispatches _ _ _ Hx)|].
  rewrite dispatch_of_None in Hof. apply dispatch_of_None. intros j d Hj Hs.
  apply (ex_dispatches_old _ _ _ Hx) in Hj as [Hj|Hj]; [by eapply Hof|].
  eapply (Hu id row j d); [apply lookup_singleton_eq|done|done].
Qed.

Lemma has_shipment_kept D v v1 id :
  extends D v v1 → is_Some (shipments v !! id) → has_shipment v1 id = true.
Proof. intros Hx H. apply has_shipment_true. by eapply ex_shipments_kept. Qed.

(** Runs a statement whose checks are known to pass. *)
Ltac check_passes :=
  rewrite ?andb_true_iff, ?Z.leb_le, ?negb_true_iff, ?bool_decide_eq_true, ?has_shipment_false, ?has_shipment_true;
  solve [lia | eauto].
Ltac stmt_run :=
  repeat (first
    [ rewrite pg_text_run by done
    | match goal with H : pg_char3 _ = Ok _ |- _ => rewrite H end
    | match goal with |- context [must ?s ?b] =>
        let Hb := fresh "Hb" in assert (b = true) as Hb by check_passes; rewrite Hb; clear Hb
      end ]; cbn).

Lemma insert_shipment_stable id w a c t now D v v1 u v' :
  insert_shipment id w a c t now v = Ok (u, v') → extends D v v1 → apart (diff v' v) D →
  ∃ v1', insert_shipment id w a c t now v1 = Ok (u, v1') ∧ diff v1' v1 = diff v' v.
Proof.
  intros H Hx Hap. destruct (insert_shipment_writes _ _ _ _ _ _ _ _ _ H) as [_ (row & Ed & Hn)].
  rewrite Ed in Hap. apply apart_shipment in Hap. rewrite <- (ex_shipments _ _ _ Hx) in Hn by done.
  unfold insert_shipment in *. stmt_ok. eexists. split; [stmt_run; reflexivity|]. by written.
Qed.

Lemma insert_outbox_stable e s ty p t now D v v1 u v' :
  insert_outbox e s ty p t now v = Ok (u, v') → extends D v v1 → apart (diff v' v) D →
  ∃ v1', insert_outbox e s ty p t now v1 = Ok (u, v1') ∧ diff v1' v1 = diff v' v.
Proof.
  intros H Hx Hap. destruct (insert_outbox_writes _ _ _ _ _ _ _ _ _ H) as [_ (row & Ed & Hn)].
  rewrite Ed in Hap. apply apart_outbox in Hap. rewrite <- (ex_outbox _ _ _ Hx) in Hn by done.
  pose proof (ex_shipments_kept _ _ _ Hx s) as Hk.
  unfold insert_outbox in *. stmt_ok. destruct (jsonb_text p); [|done]. stmt_ok.
  eexists. split; [stmt_run; reflexivity|]. by written.
Qed.

Lemma insert_processed_stable e now D v v1 n v' :
  insert_processed e now v = Ok (n, v') → extends D v v1 → apart (diff v' v) D →
  ∃ v1', insert_processed e now v1 = Ok (n, v1') ∧ diff v1' v1 = diff v' v.
Proof.
  unfold insert_processed. intros H Hx Hap. stmt_ok. rewrite pg_text_run by done. cbn.
  destruct (processed_events v !! e) as [t|] eqn:E; stmt_ok.
  - destruct (ex_processed_kept _ _ _ Hx e) as [t1 ->]; [by eexists|].
    eexists. split; [done|]. by rewrite !diff_same.
  - assert (processed_events v1 !! e = None) as E1.
    { rewrite <- E. apply (ex_processed _ _ _ Hx). apply apart_processed with (pg_timestamptz now).
      revert Hap. by written. }
    rewrite E1. eexists. split; [done|]. by written.
Qed.

Lemma insert_dispatch_stable d s e a c now D v v1 t v' :
  insert_dispatch d s e a c now v = Ok (t, v') → extends D v v1 → apart (diff v' v) D →
  ∃ v1', insert_dispatch d s e a c now v1 = Ok (t, v1') ∧ diff v1' v1 = diff v' v.
Proof.
  intros H Hx Hap.
  destruct (insert_dispatch_writes _ _ _ _ _ _ _ _ _ H) as [_ (row & Ed & Hn & <- & Hof)].
  rewrite Ed in Hap. destruct (apart_dispatch _ _ _ _ _ Hap Hx Hn Hof) as [Hn1 Hof1].
  pose proof (ex_shipments_kept _ _ _ Hx (dr_shipment_id row)) as Hk.
  pose proof (ex_processed_kept _ _ _ Hx e) as Hp.
  unfold insert_dispatch in *. stmt_ok.
  eexists. split; [stmt_run; reflexivity|]. by written.
Qed.

Lemma affected_stable (ids : list string) D v v1 :
  extends D v v1 → (∀ id, id ∈ ids → outbox_events D !! id = None) →
  filter (λ p : string * OutboxRow, p.1 ∈ ids) (outbox_events v1) =
  filter (λ p : string * OutboxRow, p.1 ∈ ids) (outbox_events v).
Proof.
  intros Hx Hids. apply map_eq. intros k. rewrite !map_lookup_filter.
  destruct (decide (k ∈ ids)) as [Hk|Hk].
  - by rewrite (ex_outbox _ _ _ Hx) by auto.
  - destruct (outbox_events v1 !! k), (outbox_events v !! k); cbn; by rewrite ?option_guard_False.
Qed.

Lemma update_outbox_stable f ids D v v1 v' :
  (∀ row, f row ≠ row) → update_outbox f ids v = Ok v' → extends D v v1 →
  (∀ id, id ∈ ids → outbox_events D !! id = None) →
  ∃ v1', update_outbox f ids v1 = Ok v1' ∧ diff v1' v1 = diff v' v.
Proof.
  intros Hf H Hx Hids. pose proof (affected_stable _ _ _ _ Hx Hids) as E.
  assert (∃ v1', update_outbox f ids v1 = Ok v1') as [v1' H1].
  { unfold update_outbox in *. rewrite E. destruct (must _ _); [by eexists|done]. }
  exists v1'. split; [done|].
  destruct (update_outbox_diff _ _ _ _ Hf H) as [-> _]. destruct (update_outbox_diff _ _ _ _ Hf H1) as [-> _].
  unfold updated. by rewrite E.
Qed.

(** A statement answers and writes the same after a commit that is apart from it. *)
Lemma stmt_stable o now D v v1 a v' :
  is_select o = false → stmt_of ∅ o now v = Ok (a, v') → extends D v v1 → apart (diff v' v) D →
  (∀ id, id ∈ upd_ids o → outbox_events D !! id = None) →
  ∃ v1', stmt_of ∅ o now v1 = Ok (a, v1') ∧ diff v1' v1 = diff v' v.
Proof.
  intros Hsel. destruct o; cbn [stmt_of is_select upd_ids] in *; try done.
  - eauto using insert_shipment_stable.
  - eauto using insert_outbox_stable.
  - eauto using insert_processed_stable.
  - eauto using insert_dispatch_stable.
  - unfold mark_published. intros H Hx _ Hids. stmt_ok.
    destruct (update_outbox_stable _ _ _ _ _ _ (mark_row_changes now) Hok Hx Hids) as (v1' & -> & E).
    by eexists.
  - unfold record_failure. intros H Hx _ Hids. stmt_ok. rewrite pg_text_run by done.
    destruct (update_outbox_stable _ _ _ _ _ _ (fail_row_changes last_error) Hok0 Hx Hids) as (v1' & E1 & E).
    cbn. rewrite E1. by eexists.
Qed.

(** ** Replaying a transaction *)

(** One step of a program on the committed tables [C], for a session that began
    at [now], draws [w] and holds the rows [L] locked. *)
Inductive wstep {A} (C : DB) (L : gset string) (now : Time) (w : string) : Prog A * DB → Prog A * DB → Prop :=
  | w_exec o h k own a v' :
      is_select o = false → (∀ id, id ∈ upd_ids o → id ∈ L) →
      stmt_of ∅ o now (overlay own C) = Ok (a, v') →
      wstep C L now w (Exec o h k, own) (k a, overlay (diff v' (overlay own C)) own)
  | w_rand k own : wstep C L now w (Rand8 k, own) (k w, own).

Definition replay {A} (C : DB) (L : gset string) (now : Time) (w : string) (p q : Prog A) (own : DB) : Prop :=
  rtc (wstep C L now w) (p, empty_DB) (q, own).

(** A program that only writes, and updates only the rows of [L]. *)
Inductive plain {A} (L : gset string) : Prog A → Prop :=
  | plain_ret a : plain L (Ret a)
  | plain_exec o h k :
      is_select o = false → (∀ id, id ∈ upd_ids o → id ∈ L) → (∀ a, plain L (k a)) → plain L (Exec o h k)
  | plain_rand k : (∀ w, plain L (k w)) → plain L (Rand8 k).

Lemma wrote_fresh o v d : wrote o v d → dispatches d ##ₘ dispatches v.
Proof.
  destruct o; cbn.
  all: try (intros (? & -> & ?); apply map_disjoint_empty_l).
  - intros [->|(? & -> & ?)]; apply map_disjoint_empty_l.
  - intros (row & -> & Hn & _). by apply map_disjoint_singleton_l.
  - intros ->. apply map_disjoint_empty_l.
Qed.

Lemma apart_overlay_inv d x D :
  dispatches d ##ₘ dispatches x → apart (overlay d x) D → apart d D ∧ apart x D.
Proof.
  intros Hd [H1 H2 H3 H4 H5]. cbn in *.
  apply map_disjoint_union_l in H1 as [? ?], H2 as [? ?], H3 as [? ?], H4 as [? ?].
  split; (split; [done..|]); intros i r j r' Hi Hj; (eapply H5; [|exact Hj]).
  - by apply lookup_union_Some_l.
  - by apply lookup_union_Some_r.
Qed.

Lemma apart_overlay d x D : apart d D → apart x D → apart (overlay d x) D.
Proof.
  intros [H1 H2 H3 H4 H5] [K1 K2 K3 K4 K5].
  split; cbn; try (by apply map_disjoint_union_l).
  intros i r j r' [Hi|[_ Hi]]%lookup_union_Some_raw Hj; [by eapply H5|by eapply K5].
Qed.

Lemma replay_stable {A} C D L now w (p q : Prog A) own :
  replay C L now w p q own → apart own D → (∀ id, id ∈ L → outbox_events D !! id = None) →
  replay (overlay D C) L now w p q own.
Proof.
  intros Hr Hap HL. change (apart (q, own).2 D) in Hap. unfold replay in *. revert Hr Hap.
  generalize (q, own). clear q own.
  apply (rtc_ind_r (λ s, apart s.2 D → rtc (wstep (overlay D C) L now w) (p, empty_DB) s)).
  - intros _. apply rtc_refl.
  - intros y z _ Hstep IH Hap. eapply rtc_r; [apply IH; clear IH|];
      destruct Hstep as [o h k x a v' Hsel Hids Hs|k x]; cbn [fst snd] in *; try done; [| |apply w_rand].
    all: destruct (stmt_writes _ _ _ _ _ _ Hs) as [_ Hw];
      pose proof (wrote_fresh _ _ _ Hw) as Hd; apply map_disjoint_union_r in Hd as [Hd _];
      apply apart_overlay_inv in Hap as [Hap1 Hap2]; [|done].
    + done.
    + destruct (stmt_stable _ _ _ _ _ _ _ Hsel Hs (extends_commit D x C) Hap1) as (v1' & Hs1 & Ed);
        [intros id Hid; by apply HL, Hids|].
      rewrite <- Ed. by apply w_exec.
Qed.

Lemma stmt_of_locked locked o : is_select o = false → stmt_of locked o = stmt_of ∅ o.
Proof. by destruct o. Qed.

(** What was replayed to its end is one run of the transaction. *)
Lemma replay_run {A} publish C L now w (p : Prog A) a own locked :
  replay C L now w p (Ret a) own →
  run_prog publish p (mkTx now locked [] w C) = (Ok a, mkTx now locked [] w (overlay own C)).
Proof.
  unfold replay. intros Hr. rewrite <- (overlay_empty C) at 1.
  remember (p, empty_DB) as s eqn:Es. remember (Ret a, own) as s' eqn:Es'.
  change p with (p, empty_DB).1. change empty_DB with (p, empty_DB).2 at 2. rewrite <- Es. clear Es p.
  induction Hr as [s|s y z Hstep Hr IH]; subst; [done|]. specialize (IH eq_refl).
  inversion Hstep as [o h k x b v' Hsel Hids Hs Ey Ez|k x Ey Ez]; subst; cbn [fst snd] in *.
  - cbn [run_prog]. unfold tx_bind, tx_map_err, exec. cbn [tx_faults tx_now tx_db tx_locked tx_ext tail].
    rewrite stmt_of_locked, Hs by done. cbn [map_err].
    destruct (stmt_writes _ _ _ _ _ _ Hs) as [-> _].
    by rewrite overlay_assoc.
  - cbn [run_prog]. unfold tx_bind, tx_do. cbn. exact IH.
Qed.

Lemma replay_refl {A} C L now w (p : Prog A) : replay C L now w p p empty_DB.
Proof. apply rtc_refl. Qed.

Lemma replay_exec {A} C L now w (p : Prog A) o h k own a v' :
  replay C L now w p (Exec o h k) own → is_select o = false → (∀ id, id ∈ upd_ids o → id ∈ L) →
  stmt_of ∅ o now (overlay own C) = Ok (a, v') →
  replay C L now w p (k a) (overlay (diff v' (overlay own C)) own).
Proof. intros Hr Hsel Hids Hs. eapply rtc_r; [exact Hr|]. by apply w_exec. Qed.

Lemma replay_rand {A} C L now w (p : Prog A) k own :
  replay C L now w p (Rand8 k) own → replay C L now w p (k w) own.
Proof. intros Hr. eapply rtc_r; [exact Hr|]. apply w_rand. Qed.

Lemma plain_inv {A} (L : gset string) (p : Prog A) :
  plain L p →
  match p with
  | Ret _ => True
  | Exec o h k => is_select o = false ∧ (∀ id, id ∈ upd_ids o → id ∈ L) ∧ ∀ a, plain L (k a)
  | Rand8 k => ∀ w, plain L (k w)
  | Publish _ _ => False
  end.
Proof. by intros []. Qed.

Lemma plain_create L shipment evt : plain L (forget (create_prog shipment evt)).
Proof. repeat (constructor; try done; intros). all: by apply elem_of_nil in H. Qed.

Lemma plain_record L req : plain L (forget (record_prog req)).
Proof.
  constructor; [done|by intros ? ?%elem_of_nil|]. intros rows. case_bool_decide; constructor.
  intros rnd. constructor; [done|by intros ? ?%elem_of_nil|constructor].
Qed.

Lemma plain_settle (L : gset string) result :
  (∀ id, id ∈ pr_Published result → id ∈ L) → (pr_Failed result ≠ "" → pr_Failed result ∈ L) →
  plain L (forget (settle_prog result)).
Proof.
  intros Hp Hf.
  assert (plain L (forget (fail_prog result))) as Hfail.
  { unfold fail_prog. case_bool_decide; constructor; [done| |constructor].
    intros id ->%list_elem_of_singleton. auto. }
  unfold settle_prog. destruct (pr_Published result); [done|]. by constructor.
Qed.

End statements.
