(* ===== verification/Isolation.v ===== *)
(** * Concurrent transactions

    System takes each transaction as one step.  Here they are what they are: many
    sessions of the service, of several relays and of consumers, each sending one
    statement at a time while the others send theirs.  As PostgreSQL documents for
    READ COMMITTED, the isolation the pool of store.go asks for:
    - a statement sees what is committed when it starts, under the session's own
      rows, and nothing another session has not committed;
    - an INSERT waits while another session has written a row with the same value
      in a unique column and has not ended, ON CONFLICT DO NOTHING too; an UPDATE
      waits for the rows others hold locked; a SELECT ... FOR UPDATE SKIP LOCKED
      passes over them and holds what it returns until its session ends;
    - COMMIT makes all rows of a session visible at once, anything else none.
    A session may fail between any two statements and may be rolled back or lose
    its process at any time.  [interleaving_is_serial] shows that every such
    interleaving is a run of System, [no_deadlock] that waiting always ends. *)
From S2P Require Import Prelude GoErrors GoUtf8 GoTime Domain Events Jsonb GoContext Database Storage Broker Relay Consumer ShipmentApi Programs System Sessions.

(** ** Sessions *)

(** What a session was opened for: [Server.CreateShipment] with a valid price,
    [Relay.PollOnce], [Handler.Handle] of a record of the topic. *)
Inductive Job :=
  | JCreate (rnd rnd' : string) (weight : Z) (price : Money) (at_ : Time) (cid : string) (evt : OutboxEvent)
  | JRelay (limit : Z)
  | JRecord (p k : nat) (rec : LogRecord) (evt : ShipmentCreated).

Record Session := mkSession {
  ss_now : Time;
  ss_bytes : string;
  ss_job : Job;
  ss_locks : gset string;
  ss_own : DB;
  (** How far the publisher is, or was, with the claimed batch. *)
  ss_sent : option RelayTx;
  (** What is left to do; [None] after a failure, until the rollback. *)
  ss_prog : option (Prog ())
}.

Record CSys := mkCSys {
  cs_db : DB;
  cs_sessions : gmap nat Session;
  cs_log : nat → list LogRecord;
  cs_offset : nat → nat;
  cs_handled : nat → bool
}.

Definition csys_init : CSys := mkCSys empty_DB ∅ (λ _, []) (λ _, 0) (λ _, false).

Definition created_shipment (rnd : string) (weight : Z) (price : Money) (at_ : Time) : Shipment :=
  mkShipment (NewShipmentID rnd) weight price (UTC at_).

Definition body_of {IS : PgScan} (job : Job) : Prog () :=
  match job with
  | JCreate rnd _ weight price at_ _ evt => forget (create_prog (created_shipment rnd weight price at_) evt)
  | JRelay limit => forget (process_prog limit)
  | JRecord _ _ _ evt => forget (record_prog (request_of evt))
  end.

Definition is_relay (job : Job) : bool := match job with JRelay _ => true | _ => false end.

(** ** Waiting *)

(** A statement has to wait for a session with these rows and locks. *)
Definition lock_conflict (o : Op) (own : DB) (locks : gset string) : bool :=
  match o with
  | InsertShipment id _ _ _ _ => bool_decide (is_Some (shipments own !! id))
  | InsertOutbox id _ _ _ _ => bool_decide (is_Some (outbox_events own !! id))
  | InsertProcessed id => bool_decide (is_Some (processed_events own !! id))
  | InsertDispatch id sid _ _ _ =>
      bool_decide (is_Some (dispatches own !! id)) || bool_decide (is_Some (dispatch_of own sid))
  | SelectPending _ => false
  | MarkPublished _ | RecordFailure _ _ => existsb (λ id, bool_decide (id ∈ locks)) (upd_ids o)
  end.

(** No other session is in the way of the statement. *)
Definition free (sessions : gmap nat Session) (i : nat) (o : Op) : bool :=
  forallb (λ p, negb (lock_conflict o (ss_own p.2) (ss_locks p.2))) (map_to_list (delete i sessions)).

Definition others_locks (sessions : gmap nat Session) (i : nat) : gset string :=
  ⋃ ((ss_locks ∘ snd) <$> map_to_list (delete i sessions)).

(** The rows a statement locks, on the tables it sees. *)
Definition acquires (o : Op) : Answer o → DB → gset string :=
  match o with
  | SelectPending _ => λ rows _, list_to_set rows.*1
  | MarkPublished _ | RecordFailure _ _ => λ _ v, list_to_set (upd_ids o) ∩ dom (outbox_events v)
  | _ => λ _ _, ∅
  end.

(** The publisher starts on the batch that was claimed. *)
Definition sent_after (p : Prog ()) (sent : option RelayTx) : option RelayTx :=
  match p with Publish batch _ => Some (mkRelayTx [] batch None) | _ => sent end.

Definition finished (t : RelayTx) : Prop := rt_todo t = [] ∨ rt_failed t ≠ None.

Definition with_sent (ss : Session) (t : RelayTx) : Session :=
  mkSession (ss_now ss) (ss_bytes ss) (ss_job ss) (ss_locks ss) (ss_own ss) (Some t) (ss_prog ss).
Definition with_prog (ss : Session) (p : option (Prog ())) : Session :=
  mkSession (ss_now ss) (ss_bytes ss) (ss_job ss) (ss_locks ss) (ss_own ss) (ss_sent ss) p.

Section isolation.
Context {IJ : Jsonb} {IS : PgScan} (partition_of : string → nat).

Definition job_ok (log : nat → list LogRecord) (job : Job) : Prop :=
  match job with
  | JCreate rnd rnd' weight price at_ cid evt =>
      good_input cid at_ price ∧ String.length rnd = 8 ∧ String.length rnd' = 8 ∧
      newOutboxEvent rnd' (created_shipment rnd weight price at_) cid = Ok evt
  | JRelay _ => True
  | JRecord p k rec evt => log p !! k = Some rec ∧ Decode (lr_value rec) = Ok evt
  end.

Definition set_session (s : CSys) (i : nat) (ss : Session) : CSys :=
  mkCSys (cs_db s) (<[i := ss]> (cs_sessions s)) (cs_log s) (cs_offset s) (cs_handled s).
Definition set_log (s : CSys) (log : nat → list LogRecord) : CSys :=
  mkCSys (cs_db s) (cs_sessions s) log (cs_offset s) (cs_handled s).

(** What one session does next. *)
Inductive session_step (s : CSys) (i : nat) : CSys → Prop :=
  (** BEGIN. *)
  | c_begin now bytes job :
      cs_sessions s !! i = None → String.length bytes = 8 → job_ok (cs_log s) job →
      session_step s i (set_session s i (mkSession now bytes job ∅ empty_DB None (Some (body_of job))))
  (** A statement; the rows it may not see as claimable include those that
      sessions outside the system hold. *)
  | c_exec ss o h k locked a v' :
      cs_sessions s !! i = Some ss → ss_prog ss = Some (Exec o h k) →
      free (cs_sessions s) i o = true → others_locks (cs_sessions s) i ⊆ locked →
      let v := overlay (ss_own ss) (cs_db s) in
      stmt_of locked o (ss_now ss) v = Ok (a, v') →
      session_step s i (set_session s i
        (mkSession (ss_now ss) (ss_bytes ss) (ss_job ss) (ss_locks ss ∪ acquires o a v)
           (overlay (diff v' v) (ss_own ss)) (sent_after (k a) (ss_sent ss)) (Some (k a))))
  | c_rand ss k :
      cs_sessions s !! i = Some ss → ss_prog ss = Some (Rand8 k) →
      session_step s i (set_session s i (with_prog ss (Some (k (ss_bytes ss)))))
  (** A statement's error, a lost connection, a cancelled context, a deadlock. *)
  | c_fail ss :
      cs_sessions s !! i = Some ss → session_step s i (set_session s i (with_prog ss None))
  (** Kafka acknowledges the next event of the batch. *)
  | c_ack ss batch k don evt todo msg :
      cs_sessions s !! i = Some ss → ss_prog ss = Some (Publish batch k) →
      ss_sent ss = Some (mkRelayTx don (evt :: todo) None) → MessageFor evt = Ok msg →
      session_step s i (set_log (set_session s i (with_sent ss (mkRelayTx (don ++ [evt]) todo None)))
                          (append partition_of (cs_log s) msg))
  (** Publishing it fails; the broker may have written it. *)
  | c_publish_fails ss batch k don evt todo err log' :
      cs_sessions s !! i = Some ss → ss_prog ss = Some (Publish batch k) →
      ss_sent ss = Some (mkRelayTx don (evt :: todo) None) →
      log' = cs_log s ∨ (∃ msg, MessageFor evt = Ok msg ∧ log' = append partition_of (cs_log s) msg) →
      session_step s i (set_log (set_session s i (with_sent ss (mkRelayTx don (evt :: todo) (Some (evt, err))))) log')
  (** The publisher returns. *)
  | c_published ss batch k t :
      cs_sessions s !! i = Some ss → ss_prog ss = Some (Publish batch k) →
      ss_sent ss = Some t → finished t →
      session_step s i (set_session s i (with_prog ss (Some (k (rt_result t)))))
  (** COMMIT; the partition of a record moves on only for the member that has it. *)
  | c_commit ss handled' :
      cs_sessions s !! i = Some ss → ss_prog ss = Some (Ret ()) →
      handled' = cs_handled s ∨
      (∃ p rec evt, ss_job ss = JRecord p (cs_offset s p) rec evt ∧ handled' = fn_set p true (cs_handled s)) →
      session_step s i (mkCSys (overlay (ss_own ss) (cs_db s)) (delete i (cs_sessions s))
                          (cs_log s) (cs_offset s) handled')
  (** ROLLBACK, or the end of its process. *)
  | c_rollback :
      session_step s i (mkCSys (cs_db s) (delete i (cs_sessions s)) (cs_log s) (cs_offset s) (cs_handled s)).

Inductive csys_step (s : CSys) : CSys → Prop :=
  | c_session i s' : session_step s i s' → csys_step s s'
  | c_replay id row msg :
      outbox_events (cs_db s) !! id = Some row → MessageFor (scanOutboxEvent (id, row)) = Ok msg →
      csys_step s (set_log s (append partition_of (cs_log s) msg))
  | c_offset p :
      cs_handled s p = true →
      csys_step s (mkCSys (cs_db s) (cs_sessions s) (cs_log s)
                     (fn_set p (S (cs_offset s p)) (cs_offset s)) (fn_set p false (cs_handled s)))
  | c_consumer_crash p :
      csys_step s (mkCSys (cs_db s) (cs_sessions s) (cs_log s) (cs_offset s) (fn_set p false (cs_handled s))).

Definition creachable : CSys → Prop := rtc csys_step csys_init.

(** ** The system the sessions implement

    The committed tables, and for each session that has a batch what it did with it. *)
Definition relay_of (ss : Session) : option RelayTx :=
  match ss_prog ss with Some _ => ss_sent ss | None => None end.

Definition abs (s : CSys) : Sys :=
  mkSys (cs_db s) (omap relay_of (cs_sessions s)) (cs_log s) (cs_offset s) (cs_handled s).

(** ** The invariant *)

Definition settle (t : RelayTx) : Prog () := forget (settle_prog (rt_result t)).

Definition holds_batch (ss : Session) (t : RelayTx) : Prop :=
  (∀ id, id ∈ rt_ids t → id ∈ ss_locks ss) ∧
  (∀ evt err, rt_failed t = Some (evt, err) → oe_EventID evt ∈ rt_ids t).

(** Where a session that has not failed can be. *)
Inductive phase (C : DB) (ss : Session) (p : Prog ()) : Prop :=
  | ph_writing :
      is_relay (ss_job ss) = false → ss_locks ss = ∅ → ss_sent ss = None →
      plain ∅ p → replay C ∅ (ss_now ss) (ss_bytes ss) (body_of (ss_job ss)) p (ss_own ss) → phase C ss p
  | ph_claiming :
      is_relay (ss_job ss) = true → ss_sent ss = None → ss_own ss = empty_DB →
      p = body_of (ss_job ss) → phase C ss p
  | ph_nothing :
      is_relay (ss_job ss) = true → ss_sent ss = None → ss_own ss = empty_DB → p = Ret () → phase C ss p
  | ph_publishing t batch :
      is_relay (ss_job ss) = true → ss_sent ss = Some t → ss_own ss = empty_DB → holds_batch ss t →
      p = Publish batch (λ r, forget (settle_prog r)) → phase C ss p
  | ph_settling t :
      is_relay (ss_job ss) = true → ss_sent ss = Some t → holds_batch ss t → finished t →
      plain (ss_locks ss) p →
      replay C (ss_locks ss) (ss_now ss) (ss_bytes ss) (settle t) p (ss_own ss) → phase C ss p.

Record session_ok (C : DB) (log : nat → list LogRecord) (ss : Session) : Prop := mk_session_ok {
  sk_bytes : String.length (ss_bytes ss) = 8;
  sk_job : job_ok log (ss_job ss);
  (** A locked row is pending: only the holder of the lock can mark it. *)
  sk_locks : ∀ id, id ∈ ss_locks ss → ∃ row, outbox_events C !! id = Some row ∧ pending row;
  (** An own row of the outbox is new, or locked. *)
  sk_own : ∀ id, is_Some (outbox_events (ss_own ss) !! id) → id ∈ ss_locks ss ∨ outbox_events C !! id = None;
  sk_phase : ∀ p, ss_prog ss = Some p → phase C ss p
}.

Record csys_ok (s : CSys) : Prop := mk_csys_ok {
  ck_sessions : ∀ i ss, cs_sessions s !! i = Some ss → session_ok (cs_db s) (cs_log s) ss;
  ck_apart : ∀ i j ss ss', i ≠ j → cs_sessions s !! i = Some ss → cs_sessions s !! j = Some ss' →
    apart (ss_own ss) (ss_own ss') ∧ ss_locks ss ## ss_locks ss'
}.

(** *** Waiting keeps sessions apart *)

Lemma others_locks_elem m i j ss id :
  j ≠ i → m !! j = Some ss → id ∈ ss_locks ss → id ∈ others_locks m i.
Proof.
  intros Hij Hj Hid. apply elem_of_union_list. exists (ss_locks ss). split; [|done].
  apply list_elem_of_fmap. exists (j, ss). split; [done|].
  apply elem_of_map_to_list. by rewrite lookup_delete_ne.
Qed.

Lemma free_spec m i o j ss :
  free m i o = true → j ≠ i → m !! j = Some ss → lock_conflict o (ss_own ss) (ss_locks ss) = false.
Proof.
  unfold free. rewrite forallb_forall. intros Hf Hij Hj. apply negb_true_iff.
  apply (Hf (j, ss)). apply list_elem_of_In, elem_of_map_to_list. by rewrite lookup_delete_ne.
Qed.

Lemma no_row {A} (o : option A) : bool_decide (is_Some o) = false → o = None.
Proof. rewrite bool_decide_eq_false. apply eq_None_not_Some. Qed.

Lemma apart_update m b : m ##ₘ outbox_events b → apart (mkDB ∅ m ∅ ∅) b.
Proof.
  intros H. split; cbn; try apply map_disjoint_empty_l; [done|].
  intros i d j d' Hi. by rewrite lookup_empty in Hi.
Qed.

Lemma update_apart (m : gmap string OutboxRow) (ids : list string) v b (locks : gset string) :
  (∀ k, is_Some (m !! k) → k ∈ ids ∧ is_Some (outbox_events v !! k)) →
  existsb (λ id, bool_decide (id ∈ locks)) ids = false →
  (∀ k, is_Some (outbox_events b !! k) → is_Some (outbox_events v !! k) → k ∈ locks) →
  apart (mkDB ∅ m ∅ ∅) b.
Proof.
  intros Hm Hf Hb. apply apart_update. apply map_disjoint_spec. intros k x y Hx Hy.
  destruct (Hm k) as [Hk Hv]; [by eexists|].
  assert (k ∈ locks) as Hl by (apply Hb; [by eexists|done]).
  apply not_true_iff_false in Hf as []. apply existsb_exists. exists k.
  split; [by apply list_elem_of_In|by apply bool_decide_eq_true].
Qed.

(** What a statement writes that did not have to wait for a session is apart
    from what that session wrote. *)
Lemma unblocked_apart o v d b locks :
  wrote o v d → lock_conflict o b locks = false →
  (∀ k, is_Some (outbox_events b !! k) → is_Some (outbox_events v !! k) → k ∈ locks) → apart d b.
Proof.
  intros Hw Hc Hb. destruct o; cbn [wrote lock_conflict upd_ids] in *.
  - destruct Hw as (row & -> & _). apply no_row in Hc.
    split; cbn; try apply map_disjoint_empty_l; [by apply map_disjoint_singleton_l|].
    intros i d j d' Hi. by rewrite lookup_empty in Hi.
  - destruct Hw as (row & -> & _). apply no_row in Hc. by apply apart_update, map_disjoint_singleton_l.
  - destruct Hw as [->|(t & -> & _)]; [apply apart_empty_l|]. apply no_row in Hc.
    split; cbn; try apply map_disjoint_empty_l; [by apply map_disjoint_singleton_l|].
    intros i d j d' Hi. by rewrite lookup_empty in Hi.
  - destruct Hw as (row & -> & _ & Hs & _). apply orb_false_iff in Hc as [Hc1 Hc2].
    apply no_row in Hc1, Hc2. rewrite dispatch_of_None in Hc2.
    split; cbn; try apply map_disjoint_empty_l; [by apply map_disjoint_singleton_l|].
    intros i d j d' [<- <-]%lookup_singleton_Some Hj Heq. eapply Hc2; [done|congruence].
  - subst. apply apart_empty_l.
  - destruct Hw as (m & -> & Hm). by eapply update_apart.
  - destruct Hw as (m & -> & Hm). eapply (update_apart _ [id]); [|done|done].
    intros k Hk. destruct (Hm k Hk) as [-> ?]. split; [by apply list_elem_of_singleton|done].
Qed.

Lemma wrote_outbox o v d k :
  wrote o v d → is_Some (outbox_events d !! k) → k ∈ upd_ids o ∨ outbox_events v !! k = None.
Proof.
  destruct o; cbn.
  - intros (? & -> & _) Hk. cbn in Hk. by rewrite lookup_empty in Hk; destruct Hk.
  - intros (? & -> & Hn) [y Hy]. cbn in Hy. apply lookup_singleton_Some in Hy as [<- _]. by right.
  - intros [->|(? & -> & _)] Hk; cbn in Hk; by rewrite lookup_empty in Hk; destruct Hk.
  - intros (? & -> & _) Hk. cbn in Hk. by rewrite lookup_empty in Hk; destruct Hk.
  - intros -> Hk. cbn in Hk. by rewrite lookup_empty in Hk; destruct Hk.
  - intros (m & -> & Hm) Hk. left. by apply Hm.
  - intros (m & -> & Hm) Hk. left. apply list_elem_of_singleton. by apply Hm.
Qed.

Lemma acquires_held o a v (L : gset string) :
  is_select o = false → (∀ id, id ∈ upd_ids o → id ∈ L) → L ∪ acquires o a v = L.
Proof.
  intros Hsel Hids. apply set_eq. intros id. rewrite elem_of_union. split; [|auto].
  intros [?|Hid]; [done|]. destruct o; cbn in *; try done; try set_solver.
Qed.

(** *** A commit of another session *)

Lemma committed_keeps C log ss ss' :
  session_ok C log ss → session_ok C log ss' → apart (ss_own ss) (ss_own ss') → ss_locks ss ## ss_locks ss' →
  session_ok (overlay (ss_own ss') C) log ss.
Proof.
  intros [Hb Hj Hl Ho Hp] [_ _ _ Ho' _] Hap Hdis.
  assert (∀ id, id ∈ ss_locks ss → outbox_events (ss_own ss') !! id = None) as Hfree.
  { intros id Hid. apply eq_None_not_Some. intros Hs. destruct (Ho' _ Hs) as [?|Hn]; [set_solver|].
    destruct (Hl _ Hid) as (x & Hx & _). congruence. }
  split; [done|done|..].
  - intros id Hid. cbn. rewrite lookup_union, (Hfree id Hid), (left_id_L None _). by apply Hl.
  - intros id Hid. destruct (Ho _ Hid) as [?|Hn]; [by left|right]. cbn.
    apply lookup_union_None. split; [|done]. destruct Hid as [x Hx].
    by eapply map_disjoint_Some_l; [apply (ap_outbox _ _ Hap)|].
  - intros p Hss. destruct (Hp p Hss) as [H1 H2 H3 H4 H5|H1 H2 H3 H4|H1 H2 H3 H4|t batch H1 H2 H3 H4 H5|t H1 H2 H3 H4 H5 H6].
    + apply ph_writing; try done. apply replay_stable; [done|done|]. set_solver.
    + by apply ph_claiming.
    + by apply ph_nothing.
    + by eapply ph_publishing.
    + eapply ph_settling; try done. by apply replay_stable.
Qed.

Lemma job_ok_log log log' job :
  (∀ p k rec, log p !! k = Some rec → log' p !! k = Some rec) → job_ok log job → job_ok log' job.
Proof. intros Hl. destruct job; [done..|]. intros [H ?]. split; [by apply Hl|done]. Qed.

Lemma session_ok_log C log log' ss :
  (∀ p k rec, log p !! k = Some rec → log' p !! k = Some rec) → session_ok C log ss → session_ok C log' ss.
Proof. intros Hl []. split; [done|by eapply job_ok_log|done..]. Qed.

(** *** One session changes *)

Lemma csys_ok_set s i ss :
  csys_ok s → session_ok (cs_db s) (cs_log s) ss →
  (∀ j ss', j ≠ i → cs_sessions s !! j = Some ss' →
     apart (ss_own ss) (ss_own ss') ∧ ss_locks ss ## ss_locks ss') →
  csys_ok (set_session s i ss).
Proof.
  intros [Hs Ha] Hok Hap. split; cbn.
  - intros j ss'. rewrite lookup_insert_Some. intros [[<- <-]|[_ Hj]]; [done|by eapply Hs].
  - intros j k ss1 ss2 Hjk. rewrite !lookup_insert_Some.
    intros [[<- <-]|[? Hj]] [[<- <-]|[? Hk]]; [done| | |by apply (Ha j k)].
    { by apply (Hap k). }
    destruct (Hap j ss1) as [H1 H2]; [done..|]. split; by symmetry.
Qed.

(** Nothing changes for the others when rows and locks stay. *)
Lemma csys_ok_same s i ss ss' :
  csys_ok s → cs_sessions s !! i = Some ss → ss_own ss' = ss_own ss → ss_locks ss' = ss_locks ss →
  session_ok (cs_db s) (cs_log s) ss' → csys_ok (set_session s i ss').
Proof.
  intros Hok Hi Ho Hl Hss. apply csys_ok_set; [done|done|].
  intros j ss2 Hij Hj. rewrite Ho, Hl. by eapply (ck_apart _ Hok i j).
Qed.

Lemma csys_ok_log s log' :
  (∀ p k rec, cs_log s p !! k = Some rec → log' p !! k = Some rec) → csys_ok s → csys_ok (set_log s log').
Proof.
  intros Hl [Hs Ha]. split; cbn; [|done]. intros i ss Hi. by eapply session_ok_log, Hs.
Qed.

Lemma csys_ok_delete s i db' off' handled' :
  csys_ok s → (∀ j ss, j ≠ i → cs_sessions s !! j = Some ss → session_ok db' (cs_log s) ss) →
  csys_ok (mkCSys db' (delete i (cs_sessions s)) (cs_log s) off' handled').
Proof.
  intros [Hs Ha] Hok. split; cbn.
  - intros j ss. rewrite lookup_delete_Some. intros [? Hj]. by eapply Hok.
  - intros j k ss1 ss2 Hjk. rewrite !lookup_delete_Some. intros [? Hj] [? Hk]. by apply (Ha j k).
Qed.

(** *** A statement *)

Definition after_exec (ss : Session) (o : Op) (k : Answer o → Prog ()) (C : DB) (a : Answer o) (v' : DB) : Session :=
  let v := overlay (ss_own ss) C in
  mkSession (ss_now ss) (ss_bytes ss) (ss_job ss) (ss_locks ss ∪ acquires o a v)
    (overlay (diff v' v) (ss_own ss)) (sent_after (k a) (ss_sent ss)) (Some (k a)).

(** The statement of a relay that claims. *)
Definition claims (C : DB) (ss : Session) (locked : gset string) (ss' : Session) : Prop :=
  ∃ limit rows, ss_job ss = JRelay limit ∧ ss_sent ss = None ∧ ss_own ss' = empty_DB ∧
    select_pending locked limit (ss_now ss) C = Ok (rows, C) ∧
    ss_locks ss' = ss_locks ss ∪ list_to_set rows.*1 ∧
    ss_sent ss' = match scanOutboxEvent <$> rows with
                  | [] => None
                  | batch => Some (mkRelayTx [] batch None)
                  end.

(** Any other statement. *)
Definition writes (ss : Session) (o : Op) (ss' : Session) : Prop :=
  is_select o = false ∧ (∀ id, id ∈ upd_ids o → id ∈ ss_locks ss) ∧
  ss_locks ss' = ss_locks ss ∧ ss_sent ss' = ss_sent ss.

Lemma sent_after_plain L p sent : plain L p → sent_after p sent = sent.
Proof. by destruct 1. Qed.

Lemma rt_ids_claimed rows : rt_ids (mkRelayTx [] (scanOutboxEvent <$> rows) None) = rows.*1.
Proof. unfold rt_ids. cbn [rt_done rt_todo app]. by rewrite <- list_fmap_compose. Qed.

Lemma claim_phase C ss limit rows locked :
  ss_job ss = JRelay limit → ss_sent ss = None → ss_own ss = empty_DB →
  select_pending locked limit (ss_now ss) C = Ok (rows, C) →
  let ss' := after_exec ss (SelectPending limit) (λ rows, forget (batch_prog rows)) C rows C in
  phase C ss' (forget (batch_prog rows)) ∧ claims C ss locked ss'.
Proof.
  intros Hj Hsent Hown Hs. cbn zeta. unfold after_exec. rewrite Hown, overlay_empty, diff_same, overlay_empty, Hsent.
  split.
  - unfold batch_prog. destruct (scanOutboxEvent <$> rows) as [|evt batch] eqn:E.
    + by apply ph_nothing; cbn; rewrite ?Hj.
    + eapply ph_publishing; cbn; [by rewrite Hj|done|done| |done]. split; [|done]. 
      rewrite <- E, rt_ids_claimed. intros id Hid. by apply elem_of_union_r, elem_of_list_to_set.
  - exists limit, rows. cbn. split_and!; try done. unfold batch_prog. by destruct (scanOutboxEvent <$> rows).
Qed.

Lemma exec_phase C log ss o h k locked a v' :
  session_ok C log ss → ss_prog ss = Some (Exec o h k) →
  stmt_of locked o (ss_now ss) (overlay (ss_own ss) C) = Ok (a, v') →
  let ss' := after_exec ss o k C a v' in
  phase C ss' (k a) ∧ (writes ss o ss' ∨ claims C ss locked ss').
Proof.
  intros Hok Hp Hs. cbn zeta. unfold after_exec.
  destruct (sk_phase _ _ _ Hok _ Hp) as [H1 H2 H3 H4 H5|H1 H2 H3 H4|? ? ? [=]|? ? ? ? ? ? [=]|t H1 H2 H3 H4 H5 H6].
  - apply plain_inv in H4 as (Hsel & Hids & Hk). rewrite stmt_of_locked in Hs by done.
    rewrite H2, acquires_held by done. rewrite (sent_after_plain ∅) by done. split.
    + apply ph_writing; try done. by eapply replay_exec.
    + left. rewrite <- H2 in Hids. by split_and!.
  - destruct (ss_job ss) as [|limit|] eqn:Hj; try done. cbn in H4.
    injection H4 as -> _ E. apply (Eqdep_dec.inj_pair2_eq_dec _ Op_eq_dec) in E. subst k.
    cbn [stmt_of] in Hs. rewrite H3, overlay_empty in Hs.
    pose proof (select_pending_db _ _ _ _ _ _ Hs) as (-> & _).
    destruct (claim_phase C ss limit a locked Hj H2 H3 Hs) as [P1 P2].
    unfold after_exec in P1, P2. rewrite H3, overlay_empty, Hj in *. split; [done|by right].
  - apply plain_inv in H5 as (Hsel & Hids & Hk). rewrite stmt_of_locked in Hs by done.
    rewrite acquires_held by done. rewrite (sent_after_plain (ss_locks ss)) by done. split.
    + eapply ph_settling; try done. by eapply replay_exec.
    + left. by split_and!.
Qed.

Lemma select_pending_ids locked limit nw db rows db' :
  select_pending locked limit nw db = Ok (rows, db') →
  ∀ id, id ∈ rows.*1 → (∃ row, outbox_events db !! id = Some row ∧ pending row) ∧ id ∉ locked.
Proof.
  intros (_ & _ & ->)%select_pending_db id ((id' & row) & -> & Hin)%list_elem_of_fmap. cbn.
  destruct (claimed_rows_perm locked limit db) as (rest & Hp & _).
  assert ((id', row) ∈ claimable locked db) as (Hr & Hpend & Hn)%claimable_elem.
  { rewrite <- Hp. apply elem_of_app. by left. }
  split; [by eexists|done].
Qed.

Lemma exec_session_ok C log ss o h k locked a v' :
  session_ok C log ss → ss_prog ss = Some (Exec o h k) →
  stmt_of locked o (ss_now ss) (overlay (ss_own ss) C) = Ok (a, v') →
  session_ok C log (after_exec ss o k C a v').
Proof.
  intros Hok Hp Hs. destruct (exec_phase _ _ _ _ _ _ _ _ _ Hok Hp Hs) as [Hph Hcase].
  split; [by apply Hok|by apply Hok|..].
  - intros id Hid. destruct Hcase as [(_ & _ & Hl & _)|(limit & rows & _ & _ & _ & Hsel & Hl & _)]; rewrite Hl in Hid.
    + by apply Hok.
    + apply elem_of_union in Hid as [?|Hid%elem_of_list_to_set]; [by apply Hok|].
      by apply (select_pending_ids _ _ _ _ _ _ Hsel).
  - intros id Hid. destruct Hcase as [(_ & Hids & Hl & _)|(limit & rows & _ & _ & Ho & _)].
    + rewrite Hl. cbn in Hid. destruct (stmt_writes _ _ _ _ _ _ Hs) as [_ Hw].
      rewrite lookup_union_is_Some in Hid. destruct Hid as [Hid|Hid]; [|by apply Hok].
      destruct (wrote_outbox _ _ _ _ Hw Hid) as [?|Hn]; [left; by apply Hids|right].
      cbn in Hn. by apply lookup_union_None in Hn as [_ ?].
    + rewrite Ho in Hid. cbn in Hid. rewrite lookup_empty in Hid. by destruct Hid.
  - cbn. by intros p [= <-].
Qed.

Lemma exec_keeps s i ss o h k locked a v' :
  csys_ok s → cs_sessions s !! i = Some ss → ss_prog ss = Some (Exec o h k) →
  free (cs_sessions s) i o = true → others_locks (cs_sessions s) i ⊆ locked →
  stmt_of locked o (ss_now ss) (overlay (ss_own ss) (cs_db s)) = Ok (a, v') →
  csys_ok (set_session s i (after_exec ss o k (cs_db s) a v')).
Proof.
  intros Hok Hi Hp Hfree Hlk Hs. pose proof (ck_sessions _ Hok _ _ Hi) as Hss.
  apply csys_ok_set; [done|by eapply exec_session_ok|]. intros j ss' Hij Hj.
  destruct (ck_apart _ Hok i j ss ss') as [Hap Hdis]; [done..|].
  destruct (exec_phase _ _ _ _ _ _ _ _ _ Hss Hp Hs)
    as [_ [(_ & _ & Hl & _)|(limit & rows & _ & _ & Ho & Hsel & Hl & _)]]; rewrite Hl.
  - split; [|done]. apply apart_overlay; [|done].
    destruct (stmt_writes _ _ _ _ _ _ Hs) as [_ Hw].
    eapply unblocked_apart; [exact Hw|by eapply free_spec|].
    intros id Hid Hv. pose proof (ck_sessions _ Hok _ _ Hj) as Hss'.
    destruct (sk_own _ _ _ Hss' _ Hid) as [?|Hn]; [done|exfalso].
    cbn in Hv. apply lookup_union_is_Some in Hv as [[x Hx]|[x Hx]]; [|congruence].
    destruct Hid as [y Hy]. by eapply map_disjoint_spec; [apply (ap_outbox _ _ Hap)|..].
  - rewrite Ho. split; [apply apart_empty_l|]. apply disjoint_union_l. split; [done|].
    intros id Hid%elem_of_list_to_set Hid'. apply (select_pending_ids _ _ _ _ _ _ Hsel) in Hid as [_ Hn].
    apply Hn, Hlk. by eapply others_locks_elem.
Qed.

(** *** The publisher *)

Lemma publish_phase C ss batch k :
  phase C ss (Publish batch k) →
  ∃ t, is_relay (ss_job ss) = true ∧ ss_sent ss = Some t ∧ ss_own ss = empty_DB ∧ holds_batch ss t ∧
    k = (λ r, forget (settle_prog r)).
Proof.
  intros [H1 H2 H3 H4 H5|H1 H2 H3 H4|? ? ? [=]|t b H1 H2 H3 H4 [= -> ->]|t H1 H2 H3 H4 H5 H6].
  - by apply plain_inv in H4.
  - by destruct (ss_job ss).
  - by exists t.
  - by apply plain_inv in H5.
Qed.

(** The publisher moves on in its batch. *)
Lemma sent_session_ok C log ss batch k t t' :
  session_ok C log ss → ss_prog ss = Some (Publish batch k) → ss_sent ss = Some t →
  rt_ids t' = rt_ids t → (∀ evt err, rt_failed t' = Some (evt, err) → oe_EventID evt ∈ rt_ids t) →
  session_ok C log (with_sent ss t').
Proof.
  intros Hok Hp Hsent Hids Hf. destruct (publish_phase _ _ _ _ (sk_phase _ _ _ Hok _ Hp))
    as (t0 & H1 & H2 & H3 & [H4 _] & ->).
  rewrite Hsent in H2. injection H2 as <-. destruct Hok as [S1 S2 S3 S4 S5]. split; try done.
  intros p Hp'. cbn in Hp'. rewrite Hp in Hp'. injection Hp' as <-.
  eapply ph_publishing; [done|done|done| |done].
  split; rewrite Hids; [done|by rewrite <- Hids in *].
Qed.

Lemma rt_ids_failed don evt todo err :
  ∀ e err', rt_failed (mkRelayTx don (evt :: todo) (Some (evt, err))) = Some (e, err') →
  oe_EventID e ∈ rt_ids (mkRelayTx don (evt :: todo) None).
Proof.
  intros e err' [= <- _]. unfold rt_ids. cbn. rewrite fmap_app. apply elem_of_app. right. left.
Qed.

Lemma rt_ids_acked don evt todo :
  rt_ids (mkRelayTx (don ++ [evt]) todo None) = rt_ids (mkRelayTx don (evt :: todo) None).
Proof. unfold rt_ids. cbn. by rewrite <- app_assoc. Qed.

Lemma published_session_ok C log ss batch k t :
  session_ok C log ss → ss_prog ss = Some (Publish batch k) → ss_sent ss = Some t → finished t →
  session_ok C log (with_prog ss (Some (k (rt_result t)))).
Proof.
  intros Hok Hp Hsent Hfin. destruct (publish_phase _ _ _ _ (sk_phase _ _ _ Hok _ Hp))
    as (t0 & H1 & H2 & H3 & [H4 H5] & ->).
  rewrite Hsent in H2. injection H2 as <-. destruct Hok as [S1 S2 S3 S4 S5]. split; try done.
  intros p [= <-]. eapply (ph_settling _ _ _ t); cbn; try done.
  - apply plain_settle; cbn.
    + intros id Hid. apply H4. unfold rt_ids. rewrite fmap_app. apply elem_of_app. by left.
    + destruct (rt_failed t) as [[evt err]|] eqn:Ef; [|done]. intros _. by eapply H4, H5.
  - rewrite H3. apply replay_refl.
Qed.

Lemma rand_session_ok C log ss k :
  session_ok C log ss → ss_prog ss = Some (Rand8 k) →
  session_ok C log (with_prog ss (Some (k (ss_bytes ss)))).
Proof.
  intros Hok Hp.
  assert (phase C (with_prog ss (Some (k (ss_bytes ss)))) (k (ss_bytes ss))) as Hph.
  { destruct (sk_phase _ _ _ Hok _ Hp) as [H1 H2 H3 H4 H5|H1 H2 H3 H4|? ? ? [=]|? ? ? ? ? ? [=]|t H1 H2 H3 H4 H5 H6].
    - apply plain_inv in H4. apply ph_writing; try done. by apply replay_rand.
    - by destruct (ss_job ss).
    - apply plain_inv in H5. eapply ph_settling; try done. by apply replay_rand. }
  destruct Hok as [S1 S2 S3 S4 S5]. split; try done. by intros p [= <-].
Qed.

Lemma failed_session_ok C log ss : session_ok C log ss → session_ok C log (with_prog ss None).
Proof. by intros []; split. Qed.

Lemma begin_session_ok C log nw bytes job :
  String.length bytes = 8 → job_ok log job →
  session_ok C log (mkSession nw bytes job ∅ empty_DB None (Some (body_of job))).
Proof.
  intros Hb Hj. split; cbn; try done.
  - intros id Hid. by rewrite lookup_empty in Hid; destruct Hid.
  - intros p [= <-]. destruct job as [| |].
    + apply ph_writing; try done; [apply plain_create|apply replay_refl].
    + by apply ph_claiming.
    + apply ph_writing; try done; [apply plain_record|apply replay_refl].
Qed.

Lemma append_kept log msg p k rec :
  log p !! k = Some rec → append partition_of log msg p !! k = Some rec.
Proof. apply append_old. Qed.

(** *** Every step keeps the invariant *)

Lemma session_step_ok s i s' : csys_ok s → session_step s i s' → csys_ok s'.
Proof.
  intros Hok Hstep. pose proof (ck_sessions _ Hok) as Hss.
  destruct Hstep as [nw bytes job Hi Hb Hj|ss o h k locked a v' Hi Hp Hf Hl v Hs|ss k Hi Hp|ss Hi
    |ss batch k don evt todo msg Hi Hp Ht Hm|ss batch k don evt todo err log' Hi Hp Ht Hlog
    |ss batch k t Hi Hp Ht Hfin|ss handled' Hi Hp Hh|].
  - apply csys_ok_set; [done|by apply begin_session_ok|]. intros j ss' _ _.
    split; [apply apart_empty_l|apply disjoint_empty_l].
  - by eapply exec_keeps.
  - eapply csys_ok_same; [done..|]. eapply rand_session_ok; eauto.
  - eapply csys_ok_same; [done..|]. eapply failed_session_ok; eauto.
  - apply csys_ok_log; [intros p n rec; apply append_kept|]. eapply csys_ok_same; [done..|].
    eapply sent_session_ok; [by eapply Hss|done..|apply rt_ids_acked|done].
  - apply csys_ok_log.
    + destruct Hlog as [->|(msg & _ & ->)]; [done|]. intros p n rec. apply append_kept.
    + eapply csys_ok_same; [done..|].
      eapply sent_session_ok; [by eapply Hss|done..|apply rt_ids_failed].
  - eapply csys_ok_same; [done..|]. eapply published_session_ok; eauto.
  - apply csys_ok_delete; [done|]. intros j ss' Hij Hj.
    destruct (ck_apart _ Hok j i ss' ss) as [? ?]; [done..|].
    eapply committed_keeps; eauto.
  - apply csys_ok_delete; [done|]. intros j ss' Hij Hj. eauto.
Qed.

Lemma csys_step_ok s s' : csys_ok s → csys_step s s' → csys_ok s'.
Proof.
  intros Hok [i s1 Hstep|id row msg Hr Hm|p Hh|p]; [by eapply session_step_ok| |by destruct Hok|by destruct Hok].
  apply csys_ok_log; [|done]. intros p n rec. apply append_kept.
Qed.

Lemma csys_init_ok : csys_ok csys_init.
Proof. split; cbn; [intros i ss Hi|intros i j ss ss' _ Hi]; by rewrite lookup_empty in Hi. Qed.

Lemma creachable_ok s : creachable s → csys_ok s.
Proof.
  apply (rtc_ind_r csys_ok csys_init); [apply csys_init_ok|].
  intros y z _ Hstep Hok. by eapply csys_step_ok.
Qed.

(** ** The simulation *)

(** No publisher: a transaction without a batch never calls it. *)
#[local] Definition no_publisher : PublishFunc string := λ _ w, (zero_PublishResult, w).

Lemma replay_runs {A} C L nw w (p : Prog A) own :
  String.length w = 8 → replay C L nw w (forget p) (Ret ()) own →
  ∃ a t, run_prog no_publisher p (mkTx nw ∅ [] w C) = (Ok a, t) ∧ tx_db t = overlay own C.
Proof.
  intros Hw Hr. apply (replay_run no_publisher) with (locked := ∅) in Hr.
  apply run_forget in Hr as [a Ha]. by eexists _, _.
Qed.

Lemma create_runs C nw w shipment evt own :
  String.length w = 8 → replay C ∅ nw w (forget (create_prog shipment evt)) (Ret ()) own →
  runs (create_tx shipment evt) ∅ C () (overlay own C).
Proof.
  intros Hw (a & t & Hr & Ht)%replay_runs; [|done]. destruct a. rewrite run_create in Hr.
  by exists nw, w, t.
Qed.

Lemma record_runs_replayed C nw w req own :
  String.length w = 8 → replay C ∅ nw w (forget (record_prog req)) (Ret ()) own →
  ∃ r, runs (record_tx req) ∅ C r (overlay own C).
Proof.
  intros Hw (r & t & Hr & Ht)%replay_runs; [|done]. rewrite run_record in Hr.
  by exists r, nw, w, t.
Qed.

Lemma settle_runs C L nw w result own :
  String.length w = 8 → replay C L nw w (forget (settle_prog result)) (Ret ()) own →
  runs (mark_tx result;;; fail_tx result) ∅ C () (overlay own C).
Proof.
  intros Hw (r & t & Hr & Ht)%replay_runs; [|done]. rewrite run_settle in Hr.
  exists nw, w, t. split; [done|]. split; [|done]. revert Hr. unfold tx_bind, tx_ret.
  destruct (mark_tx result _) as [[[]|e] t1]; [|done].
  destruct (fail_tx result t1) as [[[]|e] t2]; [|done]. by intros [= _ ->].
Qed.

(** A relay holds the rows of its batch. *)
Lemma relay_holds C log ss t :
  session_ok C log ss → relay_of ss = Some t → ∀ id, id ∈ rt_ids t → id ∈ ss_locks ss.
Proof.
  intros Hok. unfold relay_of. destruct (ss_prog ss) as [p|] eqn:Hp; [|done]. intros Hr.
  destruct (sk_phase _ _ _ Hok _ Hp)
    as [H1 H2 H3 H4 H5|H1 H2 H3 H4|H1 H2|t' b H1 H2 H3 [H4 _] H5|t' H1 H2 [H3 _] H4 H5 H6];
    rewrite Hr in *; simplify_eq; auto.
Qed.

Lemma locked_rows_others s i :
  csys_ok s → locked_rows (omap relay_of (cs_sessions s)) i ⊆ others_locks (cs_sessions s) i.
Proof.
  intros Hok id. unfold locked_rows. rewrite elem_of_list_to_set.
  intros (l & Hl%list_elem_of_In & Hid%list_elem_of_In)%list_elem_of_In%in_concat.
  apply list_elem_of_fmap in Hl as ((j & t) & -> & Hj). cbn in Hid.
  apply elem_of_map_to_list, lookup_delete_Some in Hj as [Hij Hj].
  apply lookup_omap_Some in Hj as (ss & Hr & Hj).
  eapply others_locks_elem; [|exact Hj|]; [done|]. eapply relay_holds; [|done..]. by eapply Hok.
Qed.

Notation sys_step := (sys_step partition_of).

Lemma rollback_abs s i :
  sys_step (abs s) (mkSys (cs_db s) (delete i (omap relay_of (cs_sessions s))) (cs_log s) (cs_offset s) (cs_handled s)).
Proof. apply (step_rollback partition_of (abs s)). Qed.

(** A session that keeps its batch, or never had one, is not seen. *)
Lemma abs_set_same s i ss ss' :
  cs_sessions s !! i = Some ss → relay_of ss' = relay_of ss → abs (set_session s i ss') = abs s.
Proof.
  intros Hi Hr. unfold abs, set_session. cbn. f_equal. apply map_eq. intros j. rewrite !lookup_omap.
  destruct (decide (j = i)) as [->|]; [|by rewrite lookup_insert_ne].
  rewrite lookup_insert_eq, Hi. exact Hr.
Qed.

Lemma abs_set_none s i ss :
  relay_of ss = None → rtc sys_step (abs s) (abs (set_session s i ss)).
Proof.
  intros Hr. apply rtc_once. unfold set_session, abs at 2. cbn. rewrite omap_insert_None by done.
  apply rollback_abs.
Qed.

Lemma exec_sim s i ss o h k locked a v' :
  csys_ok s → cs_sessions s !! i = Some ss → ss_prog ss = Some (Exec o h k) →
  others_locks (cs_sessions s) i ⊆ locked →
  stmt_of locked o (ss_now ss) (overlay (ss_own ss) (cs_db s)) = Ok (a, v') →
  rtc sys_step (abs s) (abs (set_session s i (after_exec ss o k (cs_db s) a v'))).
Proof.
  intros Hok Hi Hp Hlk Hs. pose proof (ck_sessions _ Hok _ _ Hi) as Hss.
  destruct (exec_phase _ _ _ _ _ _ _ _ _ Hss Hp Hs)
    as [_ [(_ & _ & _ & Hsent)|(limit & rows & Hj & Hsent & _ & Hsel & _ & Hsent')]].
  - erewrite abs_set_same; [apply rtc_refl|exact Hi|]. unfold relay_of. cbn [ss_prog after_exec]. by rewrite Hsent, Hp.
  - destruct (scanOutboxEvent <$> rows) as [|evt batch] eqn:Eb.
    { by apply abs_set_none. }
    apply rtc_once. unfold set_session, abs at 2. cbn [cs_db cs_sessions cs_log cs_offset cs_handled].
    erewrite omap_insert_Some by exact Hsent'.
    apply (step_claim partition_of (abs s) i limit locked (evt :: batch) (cs_db s)); cbn.
    + rewrite lookup_omap, Hi. cbn. unfold relay_of. by rewrite Hp.
    + etrans; [by apply locked_rows_others|done].
    + exists (ss_now ss), (ss_bytes ss), (mkTx (ss_now ss) locked [] (ss_bytes ss) (cs_db s)).
      split; [by apply Hss|]. split; [|done].
      unfold claimPending, tx_bind, tx_map_err, exec. cbn [tx_faults tx_now tx_db tx_locked tx_ext tail].
      rewrite Hsel. cbn. by rewrite Eb.
Qed.

Lemma commit_sim s i ss handled' :
  csys_ok s → cs_sessions s !! i = Some ss → ss_prog ss = Some (Ret ()) →
  handled' = cs_handled s ∨
  (∃ p rec evt, ss_job ss = JRecord p (cs_offset s p) rec evt ∧ handled' = fn_set p true (cs_handled s)) →
  rtc sys_step (abs s) (abs (mkCSys (overlay (ss_own ss) (cs_db s)) (delete i (cs_sessions s))
                          (cs_log s) (cs_offset s) handled')).
Proof.
  intros Hok Hi Hp Hh. pose proof (ck_sessions _ Hok _ _ Hi) as Hss.
  unfold abs at 2. cbn [cs_db cs_sessions cs_log cs_offset cs_handled]. rewrite omap_delete.
  assert (relay_of ss = ss_sent ss) as Hrel by (unfold relay_of; by rewrite Hp).
  assert (is_relay (ss_job ss) = true → handled' = cs_handled s) as Hrelay.
  { intros Hr. destruct Hh as [?|(p & rec & evt & Hj & _)]; [done|]. by rewrite Hj in Hr. }
  destruct (sk_phase _ _ _ Hss _ Hp) as [H1 H2 H3 H4 H5|H1 H2 H3 H4|H1 H2 H3 _|t b H1 H2 H3 H4 [=]|t H1 H2 H3 H4 H5 H6].
  - assert (delete i (omap relay_of (cs_sessions s)) = omap relay_of (cs_sessions s)) as ->.
    { apply delete_id. rewrite lookup_omap, Hi. cbn. by rewrite Hrel. }
    apply rtc_once. pose proof (sk_job _ _ _ Hss) as Hj. pose proof (sk_bytes _ _ _ Hss) as Hw.
    destruct (ss_job ss) as [rnd rnd' weight price at_ cid evt| |p n rec evt] eqn:Ej; [|done|].
    + destruct Hh as [->|(? & ? & ? & [=] & _)]. destruct Hj as (Hg & Hr & Hr' & He).
      eapply (step_create partition_of (abs s)); [exact Hg|exact Hr|exact Hr'|exact He|].
      by eapply create_runs.
    + destruct Hj as [Hl Hd]. eapply record_runs_replayed in H5 as [r Hr]; [|done].
      destruct Hh as [->|(p' & rec' & evt' & [= -> -> -> ->] & ->)].
      * by eapply (step_record partition_of (abs s) p n rec evt r _ false).
      * by eapply (step_record partition_of (abs s) p' _ rec' evt' r _ true).
  - by destruct (ss_job ss).
  - rewrite H3, overlay_empty, Hrelay by done. apply rtc_once, rollback_abs.
  - rewrite Hrelay by done. apply rtc_once. eapply (step_commit partition_of (abs s)); [|exact H4|].
    + cbn. rewrite lookup_omap, Hi. cbn. by rewrite Hrel.
    + eapply settle_runs; [by apply Hss|exact H6].
Qed.

Lemma relay_lookup s i ss p t :
  cs_sessions s !! i = Some ss → ss_prog ss = Some p → ss_sent ss = Some t →
  sy_relays (abs s) !! i = Some t.
Proof. intros Hi Hp Ht. cbn. rewrite lookup_omap, Hi. cbn. unfold relay_of. by rewrite Hp. Qed.

(** What a session does is nothing, or one step of the system. *)
Lemma session_sim s i s' : csys_ok s → session_step s i s' → rtc sys_step (abs s) (abs s').
Proof.
  intros Hok Hstep.
  destruct Hstep as [nw bytes job Hi Hb Hj|ss o h k locked a v' Hi Hp Hf Hl v Hs|ss k Hi Hp|ss Hi
    |ss batch k don evt todo msg Hi Hp Ht Hm|ss batch k don evt todo err log' Hi Hp Ht Hlog
    |ss batch k t Hi Hp Ht Hfin|ss handled' Hi Hp Hh|].
  - by apply abs_set_none.
  - by eapply exec_sim.
  - erewrite abs_set_same; [apply rtc_refl|exact Hi|]. unfold relay_of. cbn. by rewrite Hp.
  - by apply abs_set_none.
  - apply rtc_once. unfold abs at 2. cbn. erewrite omap_insert_Some by (unfold relay_of; cbn; by rewrite Hp).
    eapply (step_ack partition_of (abs s)); [by eapply relay_lookup|done].
  - apply rtc_once. unfold abs at 2. cbn. erewrite omap_insert_Some by (unfold relay_of; cbn; by rewrite Hp).
    eapply (step_fail partition_of (abs s)); [by eapply relay_lookup|done].
  - erewrite abs_set_same; [apply rtc_refl|exact Hi|]. unfold relay_of. cbn. by rewrite Hp.
  - by eapply commit_sim.
  - apply rtc_once. unfold abs at 2. cbn. rewrite omap_delete. apply rollback_abs.
Qed.

Lemma csys_sim s s' : csys_ok s → csys_step s s' → rtc sys_step (abs s) (abs s').
Proof.
  intros Hok [i s1 Hstep|id row msg Hr Hm|p Hh|p]; [by eapply session_sim|apply rtc_once..].
  - by apply (step_replay partition_of (abs s) id row).
  - by apply (step_offset partition_of (abs s)).
  - by apply (step_consumer_crash partition_of (abs s)).
Qed.

Lemma interleaving_reaches s : creachable s → reachable partition_of (abs s).
Proof.
  intros Hr. enough (csys_ok s ∧ reachable partition_of (abs s)) as [_ ?] by done.
  revert Hr. apply (rtc_ind_r (λ s, csys_ok s ∧ reachable partition_of (abs s)) csys_init).
  - split; [apply csys_init_ok|]. unfold abs. cbn. rewrite omap_empty. apply rtc_refl.
  - intros y z _ Hstep [Hok Hr]. split; [by eapply csys_step_ok|].
    unfold reachable in *. etrans; [exact Hr|by eapply csys_sim].
Qed.

(** ** Properties *)

(** C7: concurrent transactions are serializable: whatever sessions of the service,
    of relays and of consumers are open at once, however their statements
    interleave, and wherever they fail, the committed tables, the topic and the
    offsets are in a state that the system reaches with each transaction as one
    step; every single step of a session is nothing or such a step. *)
Theorem interleaving_is_serial s :
  creachable s →
  reachable partition_of (abs s) ∧ ∀ s', csys_step s s' → rtc sys_step (abs s) (abs s').
Proof.
  intros Hr. split; [by apply interleaving_reaches|]. intros s' Hstep.
  eapply csys_sim; [by apply creachable_ok|done].
Qed.

(** C9: several relays can run at once: the row locks keep two of them from having
    the same event in their batches, and an event in a batch stays unpublished in
    the committed tables until its relay's transaction ends. *)
Theorem claimed_events_are_exclusive s i ss t :
  creachable s → cs_sessions s !! i = Some ss → relay_of ss = Some t →
  (∀ j ss' t', i ≠ j → cs_sessions s !! j = Some ss' → relay_of ss' = Some t' →
     ∀ id, id ∈ rt_ids t → id ∉ rt_ids t') ∧
  (∀ id, id ∈ rt_ids t → ∃ row, outbox_events (cs_db s) !! id = Some row ∧ pending row).
Proof.
  intros Hok%creachable_ok Hi Ht.
  assert (∀ j ss' t', cs_sessions s !! j = Some ss' → relay_of ss' = Some t' →
    ∀ id, id ∈ rt_ids t' → id ∈ ss_locks ss') as Hheld.
  { intros j ss' t' Hj. eapply relay_holds, Hok, Hj. }
  split.
  - intros j ss' t' Hij Hj Ht' id Hid Hid'.
    destruct (ck_apart _ Hok i j ss ss') as [_ Hdis]; [done..|].
    eapply Hdis; [by eapply Hheld|by eapply (Hheld j)].
  - intros id Hid. eapply (sk_locks _ _ _ (ck_sessions _ Hok _ _ Hi)). by eapply Hheld.
Qed.

End isolation.
