(* ===== verification/Waiting.v ===== *)
(** * Waiting sessions

    Who waits for whom among the sessions of Isolation, and that the waiting ends:
    the statements of each transaction come in an order that leaves no cycle.  A
    scheduler that runs the next statement of a session makes runs that the
    examples evaluate. *)
From S2P Require Import Prelude GoErrors GoUtf8 GoTime Domain Events Jsonb GoContext Database Storage Broker Relay Consumer ShipmentApi Programs System Sessions Isolation.

(** Session [i] is at a statement that has to wait for session [j]. *)
Definition waits_for (s : CSys) (i j : nat) : Prop :=
  i ≠ j ∧ ∃ ss o h k ss', cs_sessions s !! i = Some ss ∧ ss_prog ss = Some (Exec o h k) ∧
    cs_sessions s !! j = Some ss' ∧ lock_conflict o (ss_own ss') (ss_locks ss') = true.

Section waiting.
Context {IJ : Jsonb} {IS : PgScan} (partition_of : string → nat).

(** What a session can have written before it sends the statement. *)
Definition wrote_before (o : Op) (own : DB) : Prop :=
  match o with
  | InsertShipment _ _ _ _ _ | InsertProcessed _ => own = empty_DB
  | InsertOutbox _ _ _ _ _ => outbox_events own = ∅ ∧ processed_events own = ∅ ∧ dispatches own = ∅
  | InsertDispatch _ _ _ _ _ => shipments own = ∅ ∧ outbox_events own = ∅ ∧ dispatches own = ∅
  | _ => True
  end.

Lemma wstep_inv {A} C L nw w (x y : Prog A * DB) :
  wstep C L nw w x y →
  match x.1 with
  | Exec o h k => ∃ a v', stmt_of ∅ o nw (overlay x.2 C) = Ok (a, v') ∧
      y = (k a, overlay (diff v' (overlay x.2 C)) x.2)
  | Rand8 k => y = (k w, x.2)
  | _ => False
  end.
Proof. destruct 1; cbn; eauto. Qed.

(** The first step of a replay, when there is one. *)
Lemma rtc_wstep_inv {A} C L nw w (x y : Prog A * DB) :
  rtc (wstep C L nw w) x y →
  x = y ∨ match x.1 with
          | Exec o h k => ∃ a v', stmt_of ∅ o nw (overlay x.2 C) = Ok (a, v') ∧
              rtc (wstep C L nw w) (k a, overlay (diff v' (overlay x.2 C)) x.2) y
          | Rand8 k => rtc (wstep C L nw w) (k w, x.2) y
          | _ => False
          end.
Proof.
  destruct 1 as [x|x z y Hstep Hr]; [by left|right]. apply wstep_inv in Hstep.
  destruct (x.1); [done| |by subst|done]. destruct Hstep as (a & v' & Hs & ->). eauto.
Qed.

(** [p] is at [Exec o] only with [wrote_before o own]. *)
Definition before (x : Prog () * DB) : Prop :=
  match x.1 with Exec o _ _ => wrote_before o x.2 | _ => True end.

Lemma create_before C nw w shipment evt p own :
  replay C ∅ nw w (forget (create_prog shipment evt)) p own → before (p, own).
Proof.
  intros [<-|(a & v' & Hs & Hr)]%rtc_wstep_inv; [done|]. cbn [fst snd] in *.
  destruct (stmt_writes _ _ _ _ _ _ Hs) as [_ (row & E & _)]. rewrite E in Hr.
  apply rtc_wstep_inv in Hr as [<-|(a' & v'' & _ & Hr)].
  - split_and!; apply map_union_empty.
  - by apply rtc_wstep_inv in Hr as [<-|[]].
Qed.

Lemma record_before C nw w req p own :
  replay C ∅ nw w (forget (record_prog req)) p own → before (p, own).
Proof.
  intros [<-|(a & v' & Hs & Hr)]%rtc_wstep_inv; [done|]. cbn [fst snd] in *.
  destruct (stmt_writes _ _ _ _ _ _ Hs) as [_ Hw]. case_bool_decide.
  { by apply rtc_wstep_inv in Hr as [<-|[]]. }
  apply rtc_wstep_inv in Hr as [<-|Hr]; [done|]. cbn [fst snd forget] in Hr.
  apply rtc_wstep_inv in Hr as [<-|(a' & v'' & _ & Hr)].
  - destruct Hw as [->|(t & -> & _)]; split_and!; apply map_union_empty.
  - by apply rtc_wstep_inv in Hr as [<-|[]].
Qed.

Lemma settle_before C L nw w result p own :
  replay C L nw w (forget (settle_prog result)) p own → before (p, own).
Proof.
  assert (∀ own', rtc (wstep C L nw w) (forget (fail_prog result), own') (p, own) → before (p, own)) as Hfail.
  { intros own' Hr. unfold fail_prog in Hr. case_bool_decide.
    - by apply rtc_wstep_inv in Hr as [<-|[]].
    - apply rtc_wstep_inv in Hr as [<-|(a & v' & _ & Hr)]; [done|].
      by apply rtc_wstep_inv in Hr as [<-|[]]. }
  unfold replay, settle_prog. destruct (pr_Published result); [apply Hfail|].
  intros [<-|(a & v' & _ & Hr)]%rtc_wstep_inv; [done|]. by eapply Hfail.
Qed.

(** A relay never waits: it updates only rows it holds. *)
Definition may_wait (o : Op) : bool :=
  match o with SelectPending _ | MarkPublished _ | RecordFailure _ _ => false | _ => true end.

Lemma not_held (ids : list string) (locks locks' : gset string) :
  (∀ id, id ∈ ids → id ∈ locks) → locks ## locks' → existsb (λ id, bool_decide (id ∈ locks')) ids = false.
Proof.
  intros Hids Hdis. apply not_true_iff_false. intros (id & Hin%list_elem_of_In & Hb)%existsb_exists.
  apply bool_decide_eq_true in Hb. by apply (Hdis id); [apply Hids|].
Qed.

Lemma exec_before C log ss o h k :
  session_ok C log ss → ss_prog ss = Some (Exec o h k) →
  wrote_before o (ss_own ss) ∧ (may_wait o = false → ∀ id, id ∈ upd_ids o → id ∈ ss_locks ss).
Proof.
  intros Hok Hp.
  destruct (sk_phase _ _ _ Hok _ Hp) as [H1 H2 H3 H4 H5|H1 H2 H3 H4|? ? ? [=]|? ? ? ? ? ? [=]|t H1 H2 H3 H4 H5 H6].
  - apply plain_inv in H4 as (_ & Hids & _). split; [|intros _ id Hid; by apply Hids, elem_of_empty in Hid].
    destruct (ss_job ss) as [| |]; [|done|]; [by apply create_before in H5|by apply record_before in H5].
  - destruct (ss_job ss); try done. injection H4 as -> _. split; [done|]. by intros _ id ?%elem_of_nil.
  - apply plain_inv in H5 as (_ & Hids & _). split; [|done].
    by apply settle_before in H6.
Qed.

Lemma waiter_may_wait s i j ss o h k ss' :
  csys_ok s → i ≠ j → cs_sessions s !! i = Some ss → ss_prog ss = Some (Exec o h k) →
  cs_sessions s !! j = Some ss' → lock_conflict o (ss_own ss') (ss_locks ss') = true → may_wait o = true.
Proof.
  intros Hok Hij Hi Hp Hj Hc. destruct (may_wait o) eqn:Hm; [done|].
  destruct (exec_before _ _ _ _ _ _ (ck_sessions _ Hok _ _ Hi) Hp) as [_ Hids]. specialize (Hids Hm).
  destruct (ck_apart _ Hok i j ss ss') as [_ Hdis]; [done..|].
  pose proof (not_held _ _ _ Hids Hdis) as Hn. destruct o; try done; cbn in *; congruence.
Qed.

(** The statement a transaction begins with. *)
Definition is_first (o : Op) : bool :=
  match o with InsertShipment _ _ _ _ _ | InsertProcessed _ => true | _ => false end.

Lemma conflict_with_waiter o o' own locks :
  may_wait o = true → may_wait o' = true → wrote_before o' own → lock_conflict o own locks = true →
  is_first o = true ∧ is_first o' = false.
Proof.
  assert (∀ {A} k, bool_decide (is_Some ((∅ : gmap string A) !! k)) = false) as Hno.
  { done. }
  assert (∀ db sid, dispatches db = ∅ → bool_decide (is_Some (dispatch_of db sid)) = false) as Hd.
  { intros db sid E. unfold dispatch_of. by rewrite E, map_to_list_empty. }
  intros H1 H2 Hw Hc. destruct o'; try done; cbn [wrote_before] in Hw.
  - subst own. exfalso. destruct o; try done; cbn [lock_conflict] in Hc; by rewrite ?Hno, ?Hd in Hc.
  - destruct Hw as (E1 & E2 & E3). destruct o; try done; cbn [lock_conflict] in Hc;
      by rewrite ?E1, ?E2, ?E3, ?Hno, ?Hd in Hc.
  - subst own. exfalso. destruct o; try done; cbn [lock_conflict] in Hc; by rewrite ?Hno, ?Hd in Hc.
  - destruct Hw as (E1 & E2 & E3). destruct o; try done; cbn [lock_conflict] in Hc;
      by rewrite ?E1, ?E2, ?E3, ?Hno, ?Hd in Hc.
Qed.

Definition starting (s : CSys) (i : nat) : Prop :=
  ∃ ss o h k, cs_sessions s !! i = Some ss ∧ ss_prog ss = Some (Exec o h k) ∧ is_first o = true.

Lemma waits_twice s i j k :
  csys_ok s → waits_for s i j → waits_for s j k → starting s i ∧ ¬ starting s j.
Proof.
  intros Hok (Hij & ss & o & h & c & ss' & Hi & Hp & Hj & Hc) (Hjk & ssj & o' & h' & c' & ssk & Hj' & Hp' & Hk & Hc').
  simplify_eq. pose proof (waiter_may_wait _ _ _ _ _ _ _ _ Hok Hij Hi Hp Hj Hc) as M1.
  pose proof (waiter_may_wait _ _ _ _ _ _ _ _ Hok Hjk Hj Hp' Hk Hc') as M2.
  destruct (exec_before _ _ _ _ _ _ (ck_sessions _ Hok _ _ Hj) Hp') as [Hw _].
  destruct (conflict_with_waiter _ _ _ _ M1 M2 Hw Hc) as [F1 F2]. split.
  - by exists ss, o, h, c.
  - intros (ss2 & o2 & h2 & c2 & Hj2 & Hp2 & Hf). rewrite Hj in Hj2. injection Hj2 as <-.
    rewrite Hp' in Hp2. injection Hp2 as <- _ _. congruence.
Qed.

(** Whether somebody has to wait can be computed. *)
Lemma waits_dec s i : (∃ j, waits_for s i j) ∨ ¬ ∃ j, waits_for s i j.
Proof.
  destruct (cs_sessions s !! i) as [ss|] eqn:Hi; [|right; intros (j & _ & ? & ? & ? & ? & ? & ? & _); congruence].
  destruct (ss_prog ss) as [[|o h k| |]|] eqn:Hp;
    try (right; intros (j & _ & ? & ? & ? & ? & ? & ? & ? & _); congruence).
  destruct (free (cs_sessions s) i o) eqn:Hf.
  - right. intros (j & Hij & ss1 & o1 & h1 & k1 & ss' & Hi1 & Hp1 & Hj & Hc).
    rewrite Hi in Hi1. injection Hi1 as <-. rewrite Hp in Hp1. injection Hp1 as <- _ _.
    by rewrite (free_spec _ _ _ j ss' Hf) in Hc.
  - left. unfold free in Hf. apply not_true_iff_false in Hf.
    destruct (existsb (λ p, lock_conflict o (ss_own p.2) (ss_locks p.2)) (map_to_list (delete i (cs_sessions s)))) eqn:He.
    + apply existsb_exists in He as ((j & ss') & Hin & Hc).
      apply list_elem_of_In, elem_of_map_to_list, lookup_delete_Some in Hin as [Hij Hj].
      exists j. split; [done|]. by exists ss, o, h, k, ss'.
    + exfalso. apply Hf, forallb_forall. intros p Hin. apply negb_true_iff, not_true_iff_false. intros Hc.
      apply not_true_iff_false in He as []. apply existsb_exists. eauto.
Qed.

(** ** A scheduler

    The next step of a session when nothing fails: [None] while it has to wait. *)
Definition commit_session (s : CSys) (i : nat) (ss : Session) : CSys :=
  mkCSys (overlay (ss_own ss) (cs_db s)) (delete i (cs_sessions s)) (cs_log s) (cs_offset s) (cs_handled s).

Definition publish_next (s : CSys) (i : nat) (ss : Session) (k : PublishResult → Prog ()) : option CSys :=
  match ss_sent ss with
  | Some (mkRelayTx don (evt :: todo) None) =>
      match MessageFor evt with
      | Ok msg => Some (set_log (set_session s i (with_sent ss (mkRelayTx (don ++ [evt]) todo None)))
                          (append partition_of (cs_log s) msg))
      | Err _ => None
      end
  | Some t => Some (set_session s i (with_prog ss (Some (k (rt_result t)))))
  | None => None
  end.

Definition advance (s : CSys) (i : nat) : option CSys :=
  ss ← cs_sessions s !! i;
  p ← ss_prog ss;
  match p with
  | Ret _ => Some (commit_session s i ss)
  | Exec o h k =>
      if free (cs_sessions s) i o then
        match stmt_of (others_locks (cs_sessions s) i) o (ss_now ss) (overlay (ss_own ss) (cs_db s)) with
        | Ok (a, v') => Some (set_session s i (after_exec ss o k (cs_db s) a v'))
        | Err _ => Some (set_session s i (with_prog ss None))
        end
      else None
  | Rand8 k => Some (set_session s i (with_prog ss (Some (k (ss_bytes ss)))))
  | Publish _ k => publish_next s i ss k
  end.

(** A schedule is the sessions that take the next steps. *)
Fixpoint schedule (s : CSys) (l : list nat) : option CSys :=
  match l with
  | [] => Some s
  | i :: l => s' ← advance s i; schedule s' l
  end.

Lemma advance_step s i s' : advance s i = Some s' → session_step partition_of s i s'.
Proof.
  unfold advance. intros (ss & Hi & (p & Hp & H)%bind_Some)%bind_Some. destruct p as [[]|o h k|k|batch k].
  - injection H as <-. eapply c_commit; [done..|by left].
  - destruct (free _ _ _) eqn:Hf; [|done]. destruct (stmt_of _ _ _ _) as [[a v']|e] eqn:Hs; injection H as <-.
    + by eapply c_exec.
    + by eapply c_fail.
  - injection H as <-. by eapply c_rand.
  - unfold publish_next in H. destruct (ss_sent ss) as [[don [|evt todo] [f|]]|] eqn:Ht; try done.
    + injection H as <-. eapply c_published; [done..|by left].
    + injection H as <-. eapply c_published; [done..|by left].
    + injection H as <-. eapply c_published; [done..|by right].
    + destruct (MessageFor evt) as [msg|] eqn:Hm; [|done]. injection H as <-. by eapply c_ack.
Qed.

Lemma schedule_steps s l s' : schedule s l = Some s' → rtc (csys_step partition_of) s s'.
Proof.
  revert s. induction l as [|i l IH]; intros s; [intros [= <-]; apply rtc_refl|].
  cbn. intros (s1 & Hs%advance_step & Hr)%bind_Some. eapply rtc_l; [by eapply c_session|by apply IH].
Qed.

Definition begin_session (s : CSys) (i : nat) (bytes : string) (job : Job) : CSys :=
  set_session s i (mkSession ex_now bytes job ∅ empty_DB None (Some (body_of job))).

Lemma begin_step s i bytes job :
  cs_sessions s !! i = None → String.length bytes = 8 → job_ok (cs_log s) job →
  csys_step partition_of s (begin_session s i bytes job).
Proof. intros. eapply (c_session _ _ i). by apply c_begin. Qed.

(** ** Properties *)

(** C10: sessions never wait for each other in a circle: of three in a row the last
    does not wait, so that following who waits for whom from any session leads to
    one that is not waiting. *)
Theorem no_deadlock s :
  creachable partition_of s →
  (∀ i j k l, waits_for s i j → waits_for s j k → ¬ waits_for s k l) ∧
  (∀ i, ∃ j, rtc (waits_for s) i j ∧ ∀ k, ¬ waits_for s j k).
Proof.
  intros Hok%creachable_ok.
  assert (∀ i j k l, waits_for s i j → waits_for s j k → ¬ waits_for s k l) as Hchain.
  { intros i j k l H1 H2 H3. apply (waits_twice _ _ _ _ Hok H1 H2). by eapply waits_twice. }
  split; [exact Hchain|]. intros i.
  destruct (waits_dec s i) as [[j Hij]|Hn]; [|exists i; split; [apply rtc_refl|naive_solver]].
  destruct (waits_dec s j) as [[k Hjk]|Hn]; [|exists j; split; [by apply rtc_once|naive_solver]].
  exists k. split; [|intros l; by apply (Hchain i j)]. eapply rtc_l; [done|]. by apply rtc_once.
Qed.

End waiting.

(** ** Runs *)

Section examples.
#[local] Existing Instances ref_PgScan.
Notation creachable := (creachable (λ _, 0)).
Notation schedule := (schedule (λ _, 0)).

(** Two orders, their transactions interleaved. *)
Definition ex_order (rnd rnd' : string) : Job :=
  let shipment := created_shipment rnd 1500 (mkMoney 700 "EUR") ex_now in
  JCreate rnd rnd' 1500 (mkMoney 700 "EUR") ex_now "req_1"
    (from_res (mkOutboxEvent "" "" "" "" ex_now 0) (newOutboxEvent rnd' shipment "req_1")).
Definition ex_order1 : Job := ex_order "abcdefgh" "ijklmnop".
Definition ex_order2 : Job := ex_order "ABCDEFGH" "IJKLMNOP".
Definition ex_consume : Job := JRecord 0 0 (mkLogRecord (m_Key ex_msg) (m_Value ex_msg)) ex_wire.

Definition ex_run (s : CSys) (l : list nat) : CSys := default csys_init (schedule s l).

Definition ex_c1 : CSys :=
  ex_run (begin_session (begin_session csys_init 0 "00000000" ex_order1) 1 "00000000" ex_order2) [0; 1; 1; 0; 1; 0].
(** Two relays with a batch each, the first after an acknowledgement. *)
Definition ex_c2 : CSys :=
  ex_run (begin_session (begin_session ex_c1 2 "00000000" (JRelay 1)) 3 "00000000" (JRelay 1)) [2; 3; 2].
(** Both settle; two consumers have the first record, the second of them waits. *)
Definition ex_c3 : CSys := ex_run ex_c2 [2; 3; 2; 3; 3; 2; 3].
Definition ex_c4 : CSys :=
  ex_run (begin_session (begin_session ex_c3 4 "12345678" ex_consume) 5 "87654321" ex_consume) [4].
(** The first commits, the second finds the event processed. *)
Definition ex_c5 : CSys := ex_run ex_c4 [4; 4; 4; 5; 5].

Example c2_batches :
  (λ ss, rt_ids <$> relay_of ss) <$> cs_sessions ex_c2 !! 2 = Some (Some [NewEventID "ijklmnop"]) ∧
  (λ ss, rt_ids <$> relay_of ss) <$> cs_sessions ex_c2 !! 3 = Some (Some [NewEventID "IJKLMNOP"]).
Proof. vm_compute. split; reflexivity. Qed.

Lemma ex_run_steps s l :
  bool_decide (is_Some (schedule s l)) = true → creachable s → creachable (ex_run s l).
Proof.
  intros [s' E]%bool_decide_eq_true Hr. unfold ex_run. rewrite E. unfold Isolation.creachable. etrans; [exact Hr|].
  by eapply schedule_steps.
Qed.

(** Two sessions begin. *)
Lemma ex_begin s i j bytes bytes' job job' :
  creachable s → cs_sessions s !! i = None → cs_sessions s !! j = None → i ≠ j →
  String.length bytes = 8 → String.length bytes' = 8 →
  job_ok (cs_log s) job → job_ok (cs_log s) job' →
  creachable (begin_session (begin_session s i bytes job) j bytes' job').
Proof.
  intros Hr Hi Hj Hij Hb Hb' Hjob Hjob'. eapply rtc_r; [eapply rtc_r; [exact Hr|by apply (begin_step _ s i bytes job)]|].
  apply begin_step; [|done..]. cbn. by rewrite lookup_insert_ne.
Qed.

Ltac ran x := unfold x; apply ex_run_steps; [vm_compute; reflexivity|].
Ltac began := apply ex_begin; [|vm_compute; reflexivity|vm_compute; reflexivity|done|reflexivity|reflexivity|..].

Lemma ex_c1_reachable : creachable ex_c1.
Proof.
  assert (∀ rnd rnd', String.length rnd = 8 → String.length rnd' = 8 →
    (∃ evt, newOutboxEvent rnd' (created_shipment rnd 1500 (mkMoney 700 "EUR") ex_now) "req_1" = Ok evt) →
    job_ok (λ _, []) (ex_order rnd rnd')) as Hjob.
  { intros rnd rnd' H1 H2 [evt E]. split; [apply ex_good|]. split; [done|]. split; [done|]. by rewrite E. }
  ran ex_c1. began; [apply rtc_refl|..].
  - apply Hjob; [done|done|]. eexists. vm_compute. reflexivity.
  - apply Hjob; [done|done|]. eexists. vm_compute. reflexivity.
Qed.

Lemma ex_c2_reachable : creachable ex_c2.
Proof. ran ex_c2. began; [apply ex_c1_reachable|done|done]. Qed.

Lemma ex_c4_reachable : creachable ex_c4.
Proof.
  assert (Decode (m_Value ex_msg) = Ok ex_wire) as Hd by (apply from_res_ok; vm_compute; reflexivity).
  assert (cs_log ex_c3 0 !! 0 = Some (mkLogRecord (m_Key ex_msg) (m_Value ex_msg))) as Hl
    by (vm_compute; reflexivity).
  ran ex_c4. began; [ran ex_c3; apply ex_c2_reachable|exact (conj Hl Hd)|exact (conj Hl Hd)].
Qed.

Lemma ex_c5_reachable : creachable ex_c5.
Proof. ran ex_c5. apply ex_c4_reachable. Qed.

(** Two consumers recorded the event at the same time: it has one dispatch. *)
Lemma interleaving_is_serial_witness :
  reachable (λ _, 0) (abs ex_c5) ∧ (map_to_list (dispatches (cs_db ex_c5))).*1 = ["dsp_3132333435363738"].
Proof.
  split; [exact (proj1 (interleaving_is_serial (λ _, 0) ex_c5 ex_c5_reachable))|]. vm_compute. reflexivity.
Defined.

Lemma claimed_events_are_exclusive_witness :
  ∃ ss ss' t t', cs_sessions ex_c2 !! 2 = Some ss ∧ cs_sessions ex_c2 !! 3 = Some ss' ∧
    relay_of ss = Some t ∧ relay_of ss' = Some t' ∧ rt_ids t ≠ [] ∧ rt_ids t' ≠ [] ∧
    ∀ id, id ∈ rt_ids t → id ∉ rt_ids t'.
Proof.
  destruct (cs_sessions ex_c2 !! 2) as [ss|] eqn:E2; [|vm_compute in E2; discriminate].
  destruct (cs_sessions ex_c2 !! 3) as [ss'|] eqn:E3; [|vm_compute in E3; discriminate].
  pose proof c2_batches as [B2 B3]. rewrite E2 in B2. rewrite E3 in B3.
  apply (inj Some) in B2, B3.
  destruct (relay_of ss) as [t|] eqn:Et; [|discriminate B2].
  destruct (relay_of ss') as [t'|] eqn:Et'; [|discriminate B3].
  exists ss, ss', t, t'. split; [reflexivity|]. split; [reflexivity|]. split; [exact Et|]. split; [exact Et'|].
  apply (inj Some) in B2, B3. rewrite B2, B3. split; [discriminate|]. split; [discriminate|].
  rewrite <- B2, <- B3.
  exact (proj1 (claimed_events_are_exclusive (λ _, 0) ex_c2 2 ss t ex_c2_reachable E2 Et) 3 ss' t'
           (Nat.neq_succ_diag_r 2) E3 Et').
Defined.

(** The second consumer waits for the first, which waits for nobody. *)
Lemma no_deadlock_witness :
  advance (λ _, 0) ex_c4 5 = None ∧ ∃ j, rtc (waits_for ex_c4) 5 j ∧ ∀ k, ¬ waits_for ex_c4 j k.
Proof.
  split; [vm_compute; reflexivity|]. exact (proj2 (no_deadlock (λ _, 0) ex_c4 ex_c4_reachable) 5).
Defined.

End examples.
