(* ===== verification/Lifecycle.v ===== *)
(** * The lifecycle of an order

    What the whole program promises, without its processes: an order is created
    once, its event is sent at least once (which the specification records once),
    marked published only after it was sent, and dispatched at most once, at the
    order's own price, also only after it was sent.  [system_refines_lifecycle]
    shows that every run of the system is a run of this specification. *)
From S2P Require Import Prelude GoErrors GoStrconv GoUtf8 GoTime Domain Events Jsonb GoContext Database Storage Broker Relay Consumer ShipmentApi System.

(** ** The specification *)

Record Order := mkOrder {
  o_shipment : string;
  o_weight : Z;
  o_amount : Z;
  o_currency : string;
  o_sent : bool;
  o_published : bool;
  o_dispatch : option string
}.

(** Orders by the identifier of their event. *)
Abbreviation Orders := (gmap string Order).

Definition send (o : Order) : Order :=
  mkOrder (o_shipment o) (o_weight o) (o_amount o) (o_currency o) true (o_published o) (o_dispatch o).
Definition set_published (o : Order) : Order :=
  mkOrder (o_shipment o) (o_weight o) (o_amount o) (o_currency o) (o_sent o) true (o_dispatch o).
Definition dispatch_as (d : string) (o : Order) : Order :=
  mkOrder (o_shipment o) (o_weight o) (o_amount o) (o_currency o) (o_sent o) (o_published o) (Some d).

Inductive Label :=
  | Created (id : string)
  | Sent (id : string)
  | Published (id : string)
  | Dispatched (id d : string).

Inductive spec_step (O : Orders) : Label → Orders → Prop :=
  | spec_create id sid w a c :
      O !! id = None → (∀ i o, O !! i = Some o → o_shipment o ≠ sid) →
      valid_weight w → valid_money (mkMoney a c) →
      spec_step O (Created id) (<[id := mkOrder sid w a c false false None]> O)
  | spec_send id o :
      O !! id = Some o → o_sent o = false → spec_step O (Sent id) (<[id := send o]> O)
  | spec_publish id o :
      O !! id = Some o → o_sent o = true → o_published o = false →
      spec_step O (Published id) (<[id := set_published o]> O)
  | spec_dispatch id o d :
      O !! id = Some o → o_sent o = true → o_dispatch o = None →
      (∀ i o', O !! i = Some o' → o_dispatch o' ≠ Some d) →
      spec_step O (Dispatched id d) (<[id := dispatch_as d o]> O).

Inductive spec_run : Orders → list Label → Orders → Prop :=
  | run_nil O : spec_run O [] O
  | run_cons O l O1 ls O2 : spec_step O l O1 → spec_run O1 ls O2 → spec_run O (l :: ls) O2.

Lemma spec_run_app O ls O1 ls' O2 : spec_run O ls O1 → spec_run O1 ls' O2 → spec_run O (ls ++ ls') O2.
Proof. induction 1; [done|]. intros. simpl. econstructor; eauto. Qed.

Lemma spec_run_one O l O1 : spec_step O l O1 → spec_run O [l] O1.
Proof. intros H. econstructor; [exact H|constructor]. Qed.

Lemma spec_run_snoc O ls O2 : spec_run O ls O2 → ls = [] ∧ O = O2 ∨ ∃ ls' l O1, ls = ls' ++ [l] ∧ spec_run O ls' O1 ∧ spec_step O1 l O2.
Proof.
  induction 1 as [O|O l O1 ls O2 Hs Hr IH]; [by left|right].
  destruct IH as [[-> ->]|(ls' & l' & O' & -> & Hr' & Hs')].
  - exists [], l, O. split; [done|]. split; [constructor|done].
  - exists (l :: ls'), l', O'. split; [done|]. split; [by econstructor|done].
Qed.

(** What the labels so far say about the state: each of them happened exactly
    when its order shows it. *)
Definition label_id (l : Label) : string :=
  match l with Created id | Sent id | Published id | Dispatched id _ => id end.

Definition shows (o : Order) (l : Label) : Prop :=
  match l with
  | Created _ => True
  | Sent _ => o_sent o = true
  | Published _ => o_published o = true
  | Dispatched _ d => o_dispatch o = Some d
  end.

Definition says (O : Orders) (l : Label) : Prop := ∃ o, O !! label_id l = Some o ∧ shows o l.

(** What has to have happened before. *)
Definition requires (l : Label) : option Label :=
  match l with
  | Created _ => None
  | Sent id => Some (Created id)
  | Published id | Dispatched id _ => Some (Sent id)
  end.

Lemma says_insert O id o l :
  says (<[id := o]> O) l ↔ if decide (label_id l = id) then shows o l else says O l.
Proof.
  unfold says. case_decide as Hd.
  - rewrite <- Hd. split; [intros (o' & Ho & Hs)|intros Hs; exists o; split; [|done]].
    + rewrite lookup_insert_eq in Ho. naive_solver.
    + by rewrite lookup_insert_eq.
  - split; intros (o' & Ho & Hs); exists o'; (split; [|done]).
    + by rewrite lookup_insert_ne in Ho.
    + by rewrite lookup_insert_ne.
Qed.

Lemma spec_step_says O l O' l' : spec_step O l O' → (says O' l' ↔ says O l' ∨ l' = l).
Proof.
  intros Hs. destruct Hs as [id sid w a c Hi _ _ _|id o Hi He|id o Hi _ He|id o d Hi _ He Hf];
    rewrite says_insert; case_decide as Hd; try (split; [by left|intros [?| ->]; [done|by destruct Hd]]);
    destruct l' as [i|i|i|i d']; cbn in *; subst i; unfold says; cbn; rewrite Hi; naive_solver.
Qed.

Lemma spec_step_new O l O' : spec_step O l O' → ¬ says O l ∧ (∀ l', requires l = Some l' → says O l').
Proof.
  intros Hs. destruct Hs as [id sid w a c Hi _ _ _|id o Hi He|id o Hi Hs He|id o d Hi Hs He Hf];
    (split; [intros (o' & Ho & Hsh); cbn in Ho, Hsh; congruence|]); cbn; intros l' [= <-]; by exists o.
Qed.

(** In a run of the specification every label happens at most once, after the
    one it requires, and an order has one dispatch of its own. *)
Lemma spec_run_says ls O : spec_run ∅ ls O → ∀ l, l ∈ ls ↔ says O l.
Proof.
  revert O. induction ls as [|l ls IH] using rev_ind; intros O Hr l0.
  - apply spec_run_snoc in Hr as [[_ <-]|(ls' & l' & O1 & E & _)]; [|by destruct ls'].
    split; [by intros ?%not_elem_of_nil|].
    intros (o & Ho & _). by rewrite lookup_empty in Ho.
  - apply spec_run_snoc in Hr as [[E _]|(ls' & l' & O1 & E & Hr & Hs)]; [by destruct ls|].
    apply app_inj_tail in E as [<- <-]. rewrite (spec_step_says _ _ _ _ Hs), <- (IH _ Hr).
    rewrite elem_of_app, list_elem_of_singleton. done.
Qed.

Lemma spec_run_once ls O :
  spec_run ∅ ls O →
  NoDup ls ∧ (∀ pre l post l', ls = pre ++ l :: post → requires l = Some l' → l' ∈ pre).
Proof.
  revert O. induction ls as [|l ls IH] using rev_ind; intros O Hr.
  { split; [constructor|]. intros pre l post l' E. by destruct pre. }
  apply spec_run_snoc in Hr as [[E _]|(ls' & l0 & O1 & E & Hr & Hs)]; [by destruct ls|].
  apply app_inj_tail in E as [<- <-]. destruct (IH _ Hr) as [Hn Hb].
  apply spec_step_new in Hs as [Hnew Hreq]. split.
  - apply list.NoDup_app. split; [done|]. split; [|apply NoDup_singleton].
    intros l' Hl' ->%list_elem_of_singleton. by apply Hnew, (spec_run_says _ _ Hr).
  - intros pre l1 post l' E Hl'. destruct post as [|l2 post _] using rev_ind.
    + apply app_inj_tail in E as [<- <-]. by apply (spec_run_says _ _ Hr), Hreq.
    + rewrite app_comm_cons, app_assoc in E. apply app_inj_tail in E as [-> <-]. by eapply Hb.
Qed.

(** ** The orders of a state of the system *)

#[export] Instance LogRecord_eq_dec : EqDecision LogRecord.
Proof. solve_decision. Defined.

#[export] Instance pending_decision row : Decision (pending row).
Proof. unfold pending. apply _. Defined.

Section refinement.
Context {IJ : Jsonb} {IS : PgScan} (partition_of : string → nat).
Notation sys_step := (sys_step partition_of).
Notation sys_ok := (sys_ok partition_of).

Definition row_record (row : OutboxRow) : LogRecord := mkLogRecord (or_shipment_id row) (or_payload row).

(** The order of an event: its shipment, whether the topic has its record,
    whether its row is marked, and the dispatch of its shipment. *)
Definition order_of (db : DB) (log : nat → list LogRecord) (row : OutboxRow) (sr : ShipmentRow) : Order :=
  mkOrder (or_shipment_id row) (sr_weight_grams sr) (sr_amount_cents sr) (sr_currency sr)
    (bool_decide (row_record row ∈ log (partition_of (or_shipment_id row))))
    (bool_decide (¬ pending row))
    (fst <$> dispatch_of db (or_shipment_id row)).

Definition orders (db : DB) (log : nat → list LogRecord) : Orders :=
  map_imap (λ _ row, order_of db log row <$> shipments db !! or_shipment_id row) (outbox_events db).

Definition sys_orders (s : Sys) : Orders := orders (sy_db s) (sy_log s).

Lemma orders_lookup db log id :
  orders db log !! id =
    (row ← outbox_events db !! id; order_of db log row <$> shipments db !! or_shipment_id row).
Proof. unfold orders. by rewrite map_lookup_imap. Qed.

Lemma orders_Some db log id o :
  orders db log !! id = Some o ↔
  ∃ row sr, outbox_events db !! id = Some row ∧ shipments db !! or_shipment_id row = Some sr ∧
    o = order_of db log row sr.
Proof.
  rewrite orders_lookup, bind_Some. setoid_rewrite fmap_Some. naive_solver.
Qed.

Lemma order_of_row db log id row :
  db_ok db → outbox_events db !! id = Some row →
  ∃ sr, shipments db !! or_shipment_id row = Some sr ∧ orders db log !! id = Some (order_of db log row sr).
Proof.
  intros Hok Hr. destruct (ok_outbox _ Hok _ _ Hr) as (_ & [sr Hs] & _).
  exists sr. split; [done|]. apply orders_Some. by exists row, sr.
Qed.

Lemma dispatch_of_iff db sid id d :
  db_ok db →
  dispatch_of db sid = Some (id, d) ↔ dispatches db !! id = Some d ∧ dr_shipment_id d = sid.
Proof.
  intros Hok. split; [apply dispatch_of_Some|]. intros [Hd Hs].
  destruct (dispatch_of db sid) as [[id' d']|] eqn:E.
  - apply dispatch_of_Some in E as [Hd' Hs']. assert (id = id') as -> by (eapply ok_unique; eauto; congruence).
    congruence.
  - exfalso. rewrite dispatch_of_None in E. by eapply E.
Qed.

Lemma dispatch_of_same db db' sid : dispatches db' = dispatches db → dispatch_of db' sid = dispatch_of db sid.
Proof. intros E. unfold dispatch_of. by rewrite E. Qed.

(** *** How the steps change the orders *)

Lemma append_elem log msg p x :
  x ∈ append partition_of log msg p ↔
  x ∈ log p ∨ (p = partition_of (m_Key msg) ∧ x = mkLogRecord (m_Key msg) (m_Value msg)).
Proof.
  unfold append, fn_set. case_decide as Hp; [subst|naive_solver].
  rewrite elem_of_app, list_elem_of_singleton. naive_solver.
Qed.

(** The shipment of a new order is in no record of the topic yet. *)
Lemma not_in_log s p rec :
  sys_ok s → shipments (sy_db s) !! lr_key rec = None → rec ∉ sy_log s p.
Proof.
  intros Hok Hn [k Hk]%list_elem_of_lookup.
  destruct (so_log _ _ Hok _ _ _ Hk) as (_ & id & row & Hr & _ & Hkey).
  destruct (ok_outbox _ (so_db _ _ Hok) _ _ Hr) as (_ & [sr Hs] & _). congruence.
Qed.

Lemma orders_created s shipment evt db' :
  sys_ok s → created shipment evt (sy_db s) db' → oe_ShipmentID evt = s_ID shipment →
  valid_money (s_Price shipment) →
  spec_step (sys_orders s) (Created (oe_EventID evt)) (orders db' (sy_log s)).
Proof.
  intros Hok (Hs & He & Hw & Ha & c & p & Hc & _ & ->) Hsid Hm.
  rewrite currency_char3 in Hc by (apply isCurrencyCode_spec, Hm). apply (inj Ok) in Hc as <-.
  set (row := outbox_row shipment evt p).
  assert (dispatch_of (sy_db s) (s_ID shipment) = None) as Hd.
  { apply dispatch_of_None. intros id d Hdi Hds.
    destruct (ok_dispatches _ (so_db _ _ Hok) _ _ Hdi) as ([sr Hsr] & _). congruence. }
  replace (orders _ (sy_log s)) with
    (<[oe_EventID evt := mkOrder (s_ID shipment) (s_WeightGrams shipment) (AmountCents (s_Price shipment))
        (Currency (s_Price shipment)) false false None]> (sys_orders s)).
  { apply spec_create; [| |exact Hw|by destruct (s_Price shipment)].
    - unfold sys_orders. by rewrite orders_lookup, He.
    - intros i o (row' & sr & Hr & Hsr & ->)%orders_Some Heq. simpl in Heq. congruence. }
  apply map_eq. intros i. rewrite orders_lookup. cbn [outbox_events shipments set_outbox set_shipments].
  destruct (decide (i = oe_EventID evt)) as [->|Hne].
  - rewrite !lookup_insert_eq. cbn. rewrite Hsid, lookup_insert_eq. cbn. f_equal.
    unfold order_of. rewrite (bool_decide_eq_false_2 (¬ pending _)) by (intros H; by apply H).
    rewrite (bool_decide_eq_false_2 (_ ∈ _)) by (apply not_in_log; [done|]; cbn; by rewrite Hsid).
    rewrite (dispatch_of_same (sy_db s)) by done. cbn. by rewrite Hsid, Hd.
  - rewrite !lookup_insert_ne by done. unfold sys_orders. rewrite orders_lookup.
    destruct (outbox_events (sy_db s) !! i) as [r|] eqn:Hr; [|done]. cbn.
    destruct (ok_outbox _ (so_db _ _ Hok) _ _ Hr) as (_ & [sr Hsr] & _).
    rewrite lookup_insert_ne by congruence. rewrite Hsr. cbn. f_equal.
Qed.

(** A record that is appended sends its order, if nothing had sent it yet. *)
Lemma orders_append s id row msg :
  sys_ok s → outbox_events (sy_db s) !! id = Some row →
  m_Key msg = or_shipment_id row → m_Value msg = or_payload row →
  ∃ ls, spec_run (sys_orders s) ls (orders (sy_db s) (append partition_of (sy_log s) msg)).
Proof.
  intros Hok Hr Hk Hv. set (db := sy_db s) in *. set (log' := append partition_of (sy_log s) msg).
  assert (∀ i r, outbox_events db !! i = Some r →
    row_record r ∈ log' (partition_of (or_shipment_id r)) ↔
    row_record r ∈ sy_log s (partition_of (or_shipment_id r)) ∨ i = id) as Hsent.
  { intros i r Hi. unfold log'. rewrite append_elem, Hk, Hv. split.
    - intros [?|[_ E]]; [by left|right]. injection E as E _.
      exact (proj2 (so_outbox _ _ Hok) _ _ _ _ Hi Hr E).
    - intros [?| ->]; [by left|]. assert (r = row) as -> by congruence. by right. }
  destruct (order_of_row db (sy_log s) id row (so_db _ _ Hok) Hr) as (sr & Hsr & Ho).
  set (o := order_of db (sy_log s) row sr) in *.
  assert (orders db log' = <[id := send o]> (sys_orders s)) as ->.
  { apply map_eq. intros i. rewrite orders_lookup. destruct (decide (i = id)) as [->|Hne].
    - rewrite lookup_insert_eq, Hr. cbn. rewrite Hsr. cbn. f_equal. unfold order_of at 1.
      rewrite bool_decide_eq_true_2; [done|]. apply (Hsent _ _ Hr). by right.
    - rewrite lookup_insert_ne by done. unfold sys_orders. fold db. rewrite orders_lookup.
      destruct (outbox_events db !! i) as [r|] eqn:Hi; [|done]. cbn.
      destruct (shipments db !! or_shipment_id r) as [sr'|]; [|done]. cbn. f_equal. unfold order_of. f_equal.
      apply bool_decide_ext. rewrite (Hsent _ _ Hi). naive_solver. }
  destruct (o_sent o) eqn:Es.
  - exists []. replace (<[id := send o]> (sys_orders s)) with (sys_orders s); [constructor|].
    symmetry. apply insert_id. unfold sys_orders. fold db. rewrite Ho. f_equal.
    destruct o. cbn in *. by subst.
  - exists [Sent id]. apply spec_run_one. by apply spec_send.
Qed.

(** Marking orders, one after the other. *)
Definition mark_orders (ids : list string) (O : Orders) : Orders :=
  map_imap (λ id o, Some (if bool_decide (id ∈ ids) then set_published o else o)) O.

Lemma mark_orders_run ids O :
  (∀ id o, id ∈ ids → O !! id = Some o → o_sent o = true) → ∃ ls, spec_run O ls (mark_orders ids O).
Proof.
  induction ids as [|id ids IH] using rev_ind; intros Hs.
  { exists []. replace (mark_orders [] O) with O; [constructor|]. apply map_eq. intros i.
    unfold mark_orders. rewrite map_lookup_imap. destruct (O !! i); [|done]. cbn.
    by rewrite bool_decide_eq_false_2 by apply not_elem_of_nil. }
  destruct IH as [ls Hr]. { intros i o Hi. apply Hs, elem_of_app. by left. }
  assert (∀ i, mark_orders (ids ++ [id]) O !! i =
    (λ o, if decide (i = id) then set_published o else o) <$> mark_orders ids O !! i) as Hm.
  { intros i. unfold mark_orders. rewrite !map_lookup_imap. destruct (O !! i) as [o|]; [|done]. cbn. f_equal.
    case_decide as Hi.
    - rewrite bool_decide_eq_true_2 by (subst; set_solver). by case_bool_decide.
    - assert (i ∈ ids ++ [id] ↔ i ∈ ids) as E by set_solver. by rewrite (bool_decide_ext _ _ E). }
  destruct (mark_orders ids O !! id) as [o|] eqn:Eo.
  - assert (mark_orders (ids ++ [id]) O = <[id := set_published o]> (mark_orders ids O)) as ->.
    { apply map_eq. intros i. rewrite Hm. destruct (decide (i = id)) as [->|].
      - by rewrite Eo, lookup_insert_eq.
      - rewrite lookup_insert_ne by done. by destruct (mark_orders ids O !! i). }
    destruct (o_published o) eqn:Ep.
    + exists ls. rewrite insert_id; [done|]. rewrite Eo. f_equal. destruct o. cbn in *. by subst.
    + exists (ls ++ [Published id]). eapply spec_run_app; [exact Hr|]. apply spec_run_one, spec_publish; [done| |done].
      unfold mark_orders in Eo. rewrite map_lookup_imap in Eo. destruct (O !! id) as [o'|] eqn:E; [|done].
      cbn in Eo. injection Eo as <-. assert (o_sent o' = true) by (apply (Hs id); [set_solver|done]).
      by case_bool_decide.
  - exists ls. replace (mark_orders (ids ++ [id]) O) with (mark_orders ids O); [done|].
    apply map_eq. intros i. rewrite Hm. case_decide as Hi; [subst; by rewrite Eo|by destruct (mark_orders ids O !! i)].
Qed.

Lemma orders_settled s ids now result db' :
  sys_ok s → pr_Published result = ids → outbox_step (settle now result) (sy_db s) db' →
  (∀ id, id ∈ ids → in_log (sy_log s) (sy_db s) id) →
  ∃ ls, spec_run (sys_orders s) ls (orders db' (sy_log s)).
Proof.
  intros Hok Hids (Hs & _ & Hd & Ho) Hin.
  assert (orders db' (sy_log s) = mark_orders ids (sys_orders s)) as ->.
  { apply map_eq. intros i. unfold mark_orders. rewrite map_lookup_imap. unfold sys_orders.
    rewrite !orders_lookup, Ho. destruct (outbox_events (sy_db s) !! i) as [row|]; [|done]. cbn.
    destruct (settle_same now result i row) as (Ep & Es & _). rewrite Es, Hs.
    destruct (shipments (sy_db s) !! or_shipment_id row) as [sr|]; [|done]. cbn. f_equal.
    assert (¬ pending (settle now result i row) ↔ i ∈ ids ∨ ¬ pending row) as Hp.
    { rewrite <- Hids. unfold settle. destruct (decide (i ∈ pr_Published result)) as [Hi|Hi].
      - rewrite (bool_decide_eq_true_2 (i ∈ _)) by done. unfold pending. by case_bool_decide; split; [left| |left|].
      - rewrite (bool_decide_eq_false_2 (i ∈ _)) by done. unfold pending. case_bool_decide; cbn; tauto. }
    unfold order_of, row_record. rewrite Ep, Es, (dispatch_of_same (sy_db s) db') by done.
    rewrite (bool_decide_ext _ _ Hp). destruct (decide (i ∈ ids)) as [Hi|Hi].
    - rewrite (bool_decide_eq_true_2 (i ∈ ids ∨ _)) by (by left).
      by rewrite (bool_decide_eq_true_2 (i ∈ ids)) by done.
    - rewrite (bool_decide_eq_false_2 (i ∈ ids)) by done. f_equal. apply bool_decide_ext. naive_solver. }
  apply mark_orders_run. intros id o Hi (row & sr & Hr & _ & ->)%orders_Some.
  destruct (Hin _ Hi) as (p & k & rec & Hl & row' & Hr' & Hv & Hk).
  assert (row' = row) as -> by congruence.
  apply bool_decide_eq_true_2. destruct (so_log _ _ Hok _ _ _ Hl) as [-> _]. rewrite Hk in Hl.
  apply list_elem_of_lookup_2 in Hl. unfold row_record. rewrite <- Hv, <- Hk. rewrite <- Hk in Hl. by destruct rec.
Qed.

Lemma orders_recorded s p k rec evt d db' :
  sys_ok s → sy_log s p !! k = Some rec → Decode (lr_value rec) = Ok evt →
  recorded (request_of evt) d (sy_db s) db' → db_ok db' →
  spec_step (sys_orders s) (Dispatched (e_EventID evt) (d_ID d)) (orders db' (sy_log s)).
Proof.
  intros Hok Hl Hd Hrec Hdb.
  destruct (log_event _ s p k rec evt Hok Hl Hd) as (row & sr & Hr & Hsid & Hsh & _).
  destruct (so_log _ _ Hok _ _ _ Hl) as (-> & id & row' & Hr' & Hv & Hk).
  destruct (proj1 (so_outbox _ _ Hok) _ _ Hr') as (_ & e & _ & He & Hid & _).
  assert (e = evt) as -> by congruence. subst id. assert (row' = row) as -> by congruence.
  destruct Hrec as (_ & Hn & Hdi & _ & _ & c & _ & E). cbn in Hn.
  set (id := e_EventID evt) in *. set (o := order_of (sy_db s) (sy_log s) row sr).
  assert (sys_orders s !! id = Some o) as Ho.
  { apply orders_Some. exists row, sr. split; [done|]. split; [by rewrite Hsid|done]. }
  assert (orders db' (sy_log s) = <[id := dispatch_as (d_ID d) o]> (sys_orders s)) as ->.
  { apply map_eq. intros i. rewrite orders_lookup, E. cbn [outbox_events shipments set_dispatches set_processed].
    rewrite <- E. destruct (decide (i = id)) as [->|Hne].
    - rewrite lookup_insert_eq, Hr. cbn. rewrite Hsid, Hsh. cbn. unfold order_of, dispatch_as, o. cbn. f_equal. f_equal.
      assert (dispatch_of db' (or_shipment_id row) = Some (d_ID d, mkDispatchRow (e_ShipmentID evt) id
        (ed_AmountCents (e_Data evt)) c (d_DispatchedAt d))) as ->; [|done].
      apply dispatch_of_iff; [done|]. rewrite E. cbn. by rewrite lookup_insert_eq.
    - rewrite lookup_insert_ne by done. unfold sys_orders. rewrite orders_lookup.
      destruct (outbox_events (sy_db s) !! i) as [r|] eqn:Hi; [|done]. cbn.
      destruct (shipments (sy_db s) !! or_shipment_id r); [|done]. cbn. f_equal. unfold order_of. f_equal. f_equal.
      assert (or_shipment_id r ≠ e_ShipmentID evt) as Hrs.
      { intros Heq. apply Hne. eapply (proj2 (so_outbox _ _ Hok)); [exact Hi|exact Hr|congruence]. }
      apply option_eq. intros [di dr]. rewrite !dispatch_of_iff by (done || apply Hok). rewrite E. cbn.
      rewrite lookup_insert_Some. split; [|by intros [Hdr ?]; split; [right; split; [congruence|]|]].
      intros [[[_ <-]|[_ ?]] Hs]; [|done]. cbn in Hs. congruence. }
  apply spec_dispatch; [done| | |].
  - cbn. apply bool_decide_eq_true_2. apply list_elem_of_lookup. exists k.
    unfold row_record. rewrite <- Hk, Hl. f_equal. rewrite <- Hv. by destruct rec.
  - cbn. by rewrite Hsid, Hn.
  - intros i o' (r & sr' & Hi & _ & ->)%orders_Some. cbn.
    intros ([di dr] & Hdo & Hde)%fmap_Some. apply dispatch_of_Some in Hdo as [Hdo _]. cbn in *. congruence.
Qed.

(** ** The simulation *)

Lemma sys_step_refines s s' :
  sys_ok s → sys_step s s' → ∃ ls, spec_run (sys_orders s) ls (sys_orders s').
Proof.
  intros Hok Hstep. assert (sys_ok s') as Hok' by by eapply sys_step_ok.
  destruct Hstep as
    [s rnd rnd' weight price at_ cid evt db' Hgood _ _ shipment Hevt (now & w & t & _ & Hb & <-)
    |s i limit locked batch db' Hi _ (now & w & t & _ & Hb & <-)
    |s i don evt todo msg Hi Hm
    |s i don evt todo err log' Hi Hlog
    |s i t db' Hi Hend Hrun
    |s i
    |s id row msg Hr Hm
    |s p k rec evt r db' mine Hl Hd Hrun Hmine
    |s p Hh
    |s p]; try (exists []; constructor).
  - apply create_tx_spec in Hb. exists [Created (oe_EventID evt)]. apply spec_run_one.
    eapply (orders_created s); [done|exact Hb| |by destruct Hgood as (_ & _ & ? & _)].
    by apply newOutboxEvent_ok in Hevt as (_ & _ & ? & _).
  - apply claimPending_ok in Hb as (E & _). unfold sys_orders. cbn. rewrite E. exists []. constructor.
  - destruct (so_relays _ _ Hok _ _ Hi) as [Hf _]. apply list.Forall_app in Hf as [_ Hf].
    inversion Hf as [|? ? (row & Hr & Hp & Hs) _]; subst. apply MessageFor_ok in Hm as [Hk Hv].
    eapply (orders_append s); [done|exact Hr|congruence..].
  - destruct Hlog as [->|(msg & Hm & ->)]; [exists []; constructor|].
    destruct (so_relays _ _ Hok _ _ Hi) as [Hf _]. apply list.Forall_app in Hf as [_ Hf].
    inversion Hf as [|? ? (row & Hr & Hp & Hs) _]; subst. apply MessageFor_ok in Hm as [Hk Hv].
    eapply (orders_append s); [done|exact Hr|congruence..].
  - destruct (commit_step _ _ _ _ Hrun (so_db _ _ Hok)) as (_ & now & Hst).
    destruct (so_relays _ _ Hok _ _ Hi) as [_ Hdone].
    eapply (orders_settled s); [done|reflexivity|exact Hst|].
    intros id (evt & -> & He)%list_elem_of_fmap. by apply Hdone.
  - apply MessageFor_ok in Hm as [Hk Hv]. eapply (orders_append s); [done|exact Hr|done..].
  - destruct Hrun as (now & w & t & _ & Hb & <-). pose proof Hb as Hspec.
    apply record_tx_spec in Hspec; [|by constructor]. destruct r as [d []]; cbn in Hspec.
    + destruct Hspec as (_ & _ & E). unfold sys_orders. cbn. rewrite E. exists []. constructor.
    + exists [Dispatched (e_EventID evt) (d_ID d)]. apply spec_run_one.
      eapply (orders_recorded s); [done|exact Hl|done|exact Hspec|]. by destruct Hok'.
Qed.

Lemma sys_steps_refine s s' :
  sys_ok s → rtc sys_step s s' → ∃ ls, spec_run (sys_orders s) ls (sys_orders s').
Proof.
  intros Hok Hr. revert Hok. induction Hr as [s|s s1 s' Hs _ IH]; intros Hok; [exists []; constructor|].
  destruct (sys_step_refines _ _ Hok Hs) as [ls1 H1].
  destruct IH as [ls2 H2]; [by eapply sys_step_ok|]. exists (ls1 ++ ls2). by eapply spec_run_app.
Qed.

Lemma init_orders : sys_orders sys_init = ∅.
Proof. apply map_eq. intros i. unfold sys_orders. by rewrite orders_lookup. Qed.

(** What the labels of a history say of the tables. *)
Lemma says_dispatched s id d :
  sys_ok s → says (sys_orders s) (Dispatched id d) ↔
  ∃ row, dispatches (sy_db s) !! d = Some row ∧ dr_event_id row = id.
Proof.
  intros Hok. unfold says. cbn. split.
  - intros (o & (row & sr & Hr & Hsr & ->)%orders_Some & Hd). cbn in Hd.
    apply fmap_Some in Hd as ([d' dr] & Hd & ->). apply dispatch_of_Some in Hd as [Hd Hs]. exists dr. split; [done|].
    destruct (so_dispatches _ _ Hok _ _ Hd) as (row' & _ & Hr' & Hs' & _).
    eapply (proj2 (so_outbox _ _ Hok)); [exact Hr'|exact Hr|congruence].
  - intros (dr & Hd & <-). destruct (so_dispatches _ _ Hok _ _ Hd) as (row & sr & Hr & Hs & Hsr & _).
    exists (order_of (sy_db s) (sy_log s) row sr). split.
    + apply orders_Some. exists row, sr. by rewrite Hs.
    + cbn. assert (dispatch_of (sy_db s) (or_shipment_id row) = Some (d, dr)) as ->; [|done].
      apply dispatch_of_iff; [apply Hok|by rewrite Hs].
Qed.

Lemma says_published s id :
  sys_ok s → says (sys_orders s) (Published id) ↔
  ∃ row, outbox_events (sy_db s) !! id = Some row ∧ ¬ pending row.
Proof.
  intros Hok. unfold says. cbn. split.
  - intros (o & (row & sr & Hr & _ & ->)%orders_Some & Hp). cbn in Hp. apply bool_decide_eq_true in Hp. by exists row.
  - intros (row & Hr & Hp). destruct (order_of_row _ (sy_log s) _ _ (so_db _ _ Hok) Hr) as (sr & _ & Ho).
    eexists. split; [exact Ho|]. cbn. by apply bool_decide_eq_true_2.
Qed.

(** ** Properties *)

(** C8: the system refines the lifecycle of an order: whatever services, relays,
    consumers, crashes and replays do from a reachable state on, the orders it
    holds go through steps of the specification.  Its whole history has labels
    of which each happens at most once and after the one it requires (an event
    is sent before it is marked or dispatched), the rows marked published and
    the dispatches of the tables are exactly those the history names, and an
    order has one dispatch in it. *)
Theorem system_refines_lifecycle s s' :
  reachable partition_of s → rtc sys_step s s' →
  ∃ ls ls',
    spec_run ∅ ls (sys_orders s) ∧ spec_run (sys_orders s) ls' (sys_orders s') ∧
    let history := ls ++ ls' in
    NoDup history ∧
    (∀ pre l post l', history = pre ++ l :: post → requires l = Some l' → l' ∈ pre) ∧
    (∀ id, Published id ∈ history ↔ ∃ row, outbox_events (sy_db s') !! id = Some row ∧ ¬ pending row) ∧
    (∀ id d, Dispatched id d ∈ history ↔ ∃ row, dispatches (sy_db s') !! d = Some row ∧ dr_event_id row = id) ∧
    (∀ id d d', Dispatched id d ∈ history → Dispatched id d' ∈ history → d = d').
Proof.
  intros Hr Hss. pose proof (reachable_ok _ _ Hr) as Hok.
  assert (sys_ok s') as Hok'.
  { eapply reachable_ok. unfold reachable in *. by etrans. }
  destruct (sys_steps_refine _ _ (sys_init_ok _) Hr) as [ls H1]. rewrite init_orders in H1.
  destruct (sys_steps_refine _ _ Hok Hss) as [ls' H2]. exists ls, ls'. split; [done|]. split; [done|].
  pose proof (spec_run_app _ _ _ _ _ H1 H2) as H. destruct (spec_run_once _ _ H) as [Hn Hb].
  pose proof (spec_run_says _ _ H) as Hsays. cbn zeta. split_and!; try done.
  - intros id. rewrite Hsays. by apply says_published.
  - intros id d. rewrite Hsays. by apply says_dispatched.
  - intros id d d'. rewrite !Hsays. intros (o & Ho & Hd) (o' & Ho' & Hd'). cbn in *. congruence.
Qed.

End refinement.

Section examples.
#[local] Existing Instances ref_PgScan.

(** The run of the system's example: its only order is sent and dispatched. *)
Lemma system_refines_lifecycle_witness :
  ∃ ls O, spec_run ∅ ls O ∧ NoDup ls ∧
    Dispatched (oe_EventID ex_evt) (NewDispatchID "12345678") ∈ ls ∧ Sent (oe_EventID ex_evt) ∈ ls.
Proof.
  destruct ex_reachable as (s & Hr & Hdb & _).
  destruct (system_refines_lifecycle (λ _, 0) s s Hr (rtc_refl _ s)) as (ls & ls' & H1 & H2 & Hn & Hb & _ & Hd & _).
  exists (ls ++ ls'), (sys_orders (λ _, 0) s). split; [by eapply spec_run_app|]. split; [exact Hn|].
  assert (Dispatched (oe_EventID ex_evt) (NewDispatchID "12345678") ∈ ls ++ ls') as Hin.
  { apply Hd. rewrite Hdb. destruct (dispatches ex_db4 !! NewDispatchID "12345678") as [row|] eqn:E.
    - exists row. split; [reflexivity|]. revert E. vm_compute. by intros [= <-].
    - exfalso. revert E. vm_compute. discriminate. }
  split; [exact Hin|]. apply list_elem_of_split in Hin as (pre & post & E).
  pose proof (Hb _ _ _ _ E eq_refl) as Hs. rewrite E. apply elem_of_app. by left.
Defined.

End examples.
