(* ===== verification/Implementation.v ===== *)
(** * The components implement the system

    The operations the processes really run, a call of the API, a poll of the
    relay, one record of the consumer and a replay, each a function on the tables
    and the rest of the world, are simulated by the steps of [System]: what a
    poll does is a claim, acknowledgements and a commit or a rollback, and so on.
    So everything proved about reachable states holds for the states the code can
    produce, and these go through the lifecycle of [Lifecycle] too. *)
From S2P Require Import Prelude GoErrors GoStrconv GoUtf8 GoTime Domain Events Jsonb GoContext Observability Database Storage Broker Relay Pricing Consumer ShipmentApi Config App Binaries System Lifecycle.

(** ** Running a transaction body in two worlds

    The bodies look at the world only for randomness, so a body that succeeded
    on one side succeeds on the other, which draws the same bytes. *)
Section sim.
Context {W : Type}.

(** The second transaction has the tables and the time of the first, no
    failures, and a world related to the first's. *)
Definition tx_like (R : W → string → Prop) (t : tx W) (u : tx string) : Prop :=
  tx_now u = tx_now t ∧ tx_db u = tx_db t ∧ tx_faults u = [] ∧ R (tx_ext t) (tx_ext u).

Definition tx_sim {A} (R R' : W → string → Prop) (m : TX W A) (m' : TX string A) : Prop :=
  ∀ t u a t', tx_like R t u → m t = (Ok a, t') → ∃ u', m' u = (Ok a, u') ∧ tx_like R' t' u'.

Lemma sim_ret {A} R (a : A) : tx_sim R R (tx_ret a) (tx_ret a).
Proof. intros t u b t' Hl [= <- <-]. by exists u. Qed.

Lemma sim_fail {A} R R' e m : tx_sim (A := A) R R' (tx_fail e) m.
Proof. by intros t u b t' _ [=]. Qed.

Lemma sim_bind {A B} R R1 R' (m : TX W A) m' (f : A → TX W B) f' :
  tx_sim R R1 m m' → (∀ a, tx_sim R1 R' (f a) (f' a)) → tx_sim R R' (tx_bind m f) (tx_bind m' f').
Proof.
  intros Hm Hf t u b t' Hl. unfold tx_bind. destruct (m t) as [[a|e] t1] eqn:E; [|done]. intros Hb.
  destruct (Hm _ _ _ _ Hl E) as (u1 & -> & Hl1). exact (Hf a _ _ _ _ Hl1 Hb).
Qed.

Lemma sim_map_err {A} R R' f (m : TX W A) m' : tx_sim R R' m m' → tx_sim R R' (tx_map_err f m) (tx_map_err f m').
Proof.
  intros Hm t u b t' Hl. unfold tx_map_err. destruct (m t) as [[a|e] t1] eqn:E; [|done]. intros [= <- <-].
  destruct (Hm _ _ _ _ Hl E) as (u1 & -> & Hl1). by exists u1.
Qed.

Lemma exec_ok {V A} (stmt : Stmt A) (t : tx V) a t' :
  exec stmt t = (Ok a, t') →
  stmt (tx_now t) (tx_db t) = Ok (a, tx_db t') ∧ tx_now t' = tx_now t ∧ tx_ext t' = tx_ext t.
Proof.
  destruct (exec_cases stmt t) as (fs & _ & [(e & -> & _)|(b & db & -> & Hs)]); [done|]. by intros [= <- <-].
Qed.

Lemma sim_exec {A} R (stmt : Stmt A) : tx_sim R R (exec stmt) (exec stmt).
Proof.
  intros t u a t' (Hn & Hd & Hf & Hr) (Hs & Hn' & He)%exec_ok. exists (mkTx (tx_now u) (tx_locked u) [] (tx_ext u) (tx_db t')).
  unfold exec. rewrite Hf, Hn, Hd, Hs. split; [done|]. split; [by rewrite Hn'|]. split_and!; [done..|by rewrite He].
Qed.

(** A statement whose failure the body looks at and then fails on as well. *)
Lemma sim_try {A B} R R' (stmt : Stmt A) (f : res A → TX W B) f' :
  (∀ a, tx_sim R R' (f (Ok a)) (f' (Ok a))) → (∀ e t b t', f (Err e) t ≠ (Ok b, t')) →
  tx_sim R R' (tx_bind (tx_try (exec stmt)) f) (tx_bind (tx_try (exec stmt)) f').
Proof.
  intros Hf He t u b t' Hl. unfold tx_bind, tx_try. destruct (exec stmt t) as [[a|e] t1] eqn:E.
  - intros Hb. destruct (sim_exec R stmt _ _ _ _ Hl E) as (u1 & -> & Hl1). exact (Hf a _ _ _ _ Hl1 Hb).
  - intros Hb. by apply He in Hb.
Qed.

Definition same_bytes `{!Rand W} (w : W) (v : string) : Prop := (rand8 w).1 = v.
Definition anything (_ : W) (_ : string) : Prop := True.

Lemma sim_rand `{!Rand W} : tx_sim same_bytes anything (tx_do rand8) (tx_do rand8).
Proof.
  intros t u a t' (Hn & Hd & Hf & Hr). unfold tx_do, same_bytes in *. destruct (rand8 (tx_ext t)) as [rnd w] eqn:E.
  cbn in Hr. intros [= <- <-]. rewrite <- Hr. cbn. eexists. by split.
Qed.

Context {IJ : Jsonb} {IS : PgScan}.

Lemma sim_create s evt : tx_sim anything anything (create_tx s evt) (create_tx s evt).
Proof. eapply sim_bind; [|intros _]; apply sim_map_err, sim_exec. Qed.

Lemma sim_settle result :
  tx_sim anything anything (mark_tx result;;; fail_tx result) (mark_tx result;;; fail_tx result).
Proof.
  apply (sim_bind _ anything).
  - unfold mark_tx. destruct (pr_Published result); [apply sim_ret|apply sim_map_err, sim_exec].
  - intros _. unfold fail_tx. case_bool_decide; [apply sim_ret|apply sim_map_err, sim_exec].
Qed.

Lemma sim_record `{!Rand W} req : tx_sim same_bytes anything (record_tx req) (record_tx req).
Proof.
  unfold record_tx. eapply sim_bind; [apply sim_map_err, sim_exec|]. intros rows. case_bool_decide.
  { intros t u a t' (? & ? & ? & _) [= <- <-]. exists u. by split. }
  eapply sim_bind; [apply sim_rand|]. intros rnd. apply sim_try.
  - intros a. apply sim_ret.
  - intros e t b t'. by destruct (isUniqueViolation e).
Qed.

(** A body that succeeded, as the system runs it. *)
Lemma sim_runs {A} R (m : TX W A) m' nw lk lk' fs w v db a t :
  tx_sim R anything m m' → String.length v = 8 → R w v →
  m (mkTx nw lk fs w db) = (Ok a, t) → runs m' lk' db a (tx_db t).
Proof.
  intros Hs Hv Hr Hm. assert (tx_like R (mkTx nw lk fs w db) (mkTx nw lk' [] v db)) as Hl by done.
  destruct (Hs _ _ _ _ Hl Hm) as (u & Hu & (_ & Hd & _ & _)).
  exists nw, v, u. by split_and!.
Qed.

Lemma eight : String.length "01234567" = 8. Proof. done. Qed.

End sim.

(** ** The implementation *)

(** The topic of the Kafka cluster in the world. *)
Class TopicWorld (W : Type) := { topic : W → nat → list LogRecord }.

Section implementation.
Context {IJ : Jsonb} {IS : PgScan} {IP : Pgconn} {IG : GrpcStatus} {W : Type} {IC : Clock W} {IX : Pgxpool W}
  {IK : Kgo W} {IM : GoMap} {IR : Rand W} {IPr : Pricer W} {IWc : WallClock W} {IKC : KafkaConsumer (St W)}
  {IT : TopicWorld W} (IPool : pgpool → Pool W) (partition_of : string → nat).
Implicit Types (st : St W).
Notation sys_step := (sys_step partition_of).
Notation sys_ok := (sys_ok partition_of).

(** The state: the world with the tables, and the group's committed offsets. *)
Record Impl := mkImpl { im_st : St W; im_offset : nat → nat }.

(** The committed offset after a record: advanced when there was no error; left
    alone when handling failed; either when only the commit reported a failure. *)
Inductive offset_after (p : nat) (off : nat → nat) : option goerr → (nat → nat) → Prop :=
  | offset_committed : offset_after p off None (fn_set p (S (off p)) off)
  | offset_kept err : offset_after p off (Some err) off
  | offset_unsure err : Is err ErrStopped = false → offset_after p off (Some err) (fn_set p (S (off p)) off).

Inductive impl_step : Impl → Impl → Prop :=
  (** A call of the API. *)
  | impl_create pool ctx weight st off r st' :
      let IPo := IPool pool in
      utf8_valid (FromContext ctx) = true → ShipmentApi.CreateShipment ctx weight st = (r, st') →
      impl_step (mkImpl st off) (mkImpl st' off)
  (** A poll of a relay. *)
  | impl_poll pool p ctx limit st off r st' :
      let IPo := IPool pool in let IPb := kafka_PublisherI p in
      outbox_ProcessPending ctx limit publishBatch st = (r, st') →
      impl_step (mkImpl st off) (mkImpl st' off)
  (** The record at the committed offset of a partition. *)
  | impl_record pool cfg ctx p rec lr st off m err st' m' off' :
      let IPo := IPool pool in
      topic (st_ext st) p !! off p = Some lr → rec_Value rec = lr_value lr →
      processRecord cfg ctx rec st m = Some (err, st', m') → offset_after p off err off' →
      impl_step (mkImpl st off) (mkImpl st' off')
  (** A replay. *)
  | impl_replay ctx cfg store id st off r st' :
      replay_event IPool ctx cfg store id st = Some (r, st') →
      impl_step (mkImpl st off) (mkImpl st' off).

(** What the libraries and the other service promise: only producing writes to
    the topic, a failed produce may have written, randomness is eight bytes, the
    prices are valid and the clock is between the years 0 and 9999. *)
Definition as_message (rec : KRecord) : Message := mkMessage (k_Topic rec) (k_Key rec) (k_Value rec) ∅.

Record topic_laws : Prop := mk_topic_laws {
  tl_produce ctx c rec w :
    match ProduceSync ctx c rec w with
    | (None, w') => topic w' = append partition_of (topic w) (as_message rec)
    | (Some _, w') => topic w' = topic w ∨ topic w' = append partition_of (topic w) (as_message rec)
    end;
  tl_wait t w : topic (wait_until t w) = topic w;
  tl_new brokers w : topic (NewClient brokers w).2 = topic w;
  tl_ping ctx c w : topic (client_Ping ctx c w).2 = topic w;
  tl_close c w : topic (client_Close c w) = topic w;
  tl_rand w : topic (rand8 w).2 = topic w ∧ String.length (rand8 w).1 = 8;
  tl_wall w : topic (wall_now w).2 = topic w ∧ utc_ok (UTC (wall_now w).1) = true;
  tl_quote ctx weight w :
    topic (pricer_Quote ctx weight w).2 = topic w ∧
    ∀ price, (pricer_Quote ctx weight w).1 = Ok price → valid_money price ∧ int64_ok (AmountCents price) = true;
  tl_commit ctx rec st :
    topic (st_ext (CommitRecords ctx rec st).2) = topic (st_ext st) ∧ st_db (CommitRecords ctx rec st).2 = st_db st
}.

Hypothesis laws : topic_laws.

(** The state of the system an implementation is in; the relays are between
    polls. *)
Definition impl_rel (i : Impl) (s : Sys) : Prop :=
  sy_db s = st_db (im_st i) ∧ sy_log s = topic (st_ext (im_st i)) ∧ sy_offset s = im_offset i ∧ sy_relays s = ∅.

Lemma BeginFunc_run {IPo : Pool W} {A} (body : TX W A) st r st' :
  BeginFunc body st = (r, st') →
  (st' = st ∧ ∃ e, r = Err e) ∨
  ∃ nw lk fs r' t, body (mkTx nw lk fs (st_ext st) (st_db st)) = (r', t) ∧ st_ext st' = tx_ext t ∧
    (∀ a, r = Ok a → r' = Ok a ∧ st_db st' = tx_db t) ∧
    (st_db st' = st_db st ∨ ∃ a, r' = Ok a ∧ st_db st' = tx_db t).
Proof.
  intros [(e & -> & -> & _)|(nw & lk & fs & r' & t & _ & Hb & He & H)]%BeginFunc_cases; [left; by eauto|].
  right. exists nw, lk, fs, r', t. split; [done|]. split; [done|].
  destruct H as [(e & -> & -> & Hd)|[(a & -> & -> & Hd)|(a & e & -> & -> & _ & [Hd|Hd])]]; naive_solver.
Qed.

Lemma eight_bytes (w : W) : ∃ v, String.length v = 8 ∧ same_bytes w v.
Proof. exists (rand8 w).1. split; [apply laws|done]. Qed.

(** *** What the statements leave alone *)

(** Statements never touch the rest of the world. *)
Definition keeps_ext {A} (m : TX W A) : Prop := ∀ t, tx_ext (m t).2 = tx_ext t.

Lemma ext_ret {A} (a : A) : keeps_ext (tx_ret a).
Proof. by intros t. Qed.
Lemma ext_exec {A} f (stmt : Stmt A) : keeps_ext (tx_map_err f (exec stmt)).
Proof.
  intros t. unfold tx_map_err. by destruct (exec_cases stmt t) as (fs & _ & [(e & -> & _)|(a & db & -> & _)]).
Qed.
Lemma ext_bind {A B} (m : TX W A) (f : A → TX W B) : keeps_ext m → (∀ a, keeps_ext (f a)) → keeps_ext (tx_bind m f).
Proof.
  intros Hm Hf t. unfold tx_bind. specialize (Hm t). destruct (m t) as [[a|e] t1]; cbn in Hm; [|done].
  by rewrite Hf.
Qed.

Lemma create_tx_ext sh evt : keeps_ext (create_tx sh evt).
Proof. apply ext_bind; [|intros _]; apply ext_exec. Qed.

Lemma mark_tx_ext result : keeps_ext (mark_tx result).
Proof. unfold mark_tx. destruct (pr_Published result); [apply ext_ret|apply ext_exec]. Qed.

Lemma fail_tx_ext result : keeps_ext (fail_tx result).
Proof. unfold fail_tx. case_bool_decide; [apply ext_ret|apply ext_exec]. Qed.

(** A claim that succeeded, as the system makes it. *)
Lemma claim_runs limit nw lk fs (w : W) db batch (t : tx W) :
  claimPending limit (mkTx nw lk fs w db) = (Ok batch, t) →
  runs (claimPending limit) lk db batch db ∧ tx_db t = db ∧ tx_ext t = w.
Proof.
  intros Ec. split; [|apply claimPending_ok in Ec as (? & ? & _); by split].
  exists nw, "01234567", (mkTx nw lk [] "01234567" db). split; [done|].
  unfold claimPending, tx_bind, tx_map_err in Ec |- *.
  match type of Ec with context [exec ?q ?t0] => destruct (exec q t0) as [[rows|e] t2] eqn:Ex end; [|done].
  apply exec_ok in Ex as (Hs & _ & _). cbn in Hs, Ec |- *. injection Ec as Ec _. unfold exec. cbn. rewrite Hs. cbn.
  apply select_pending_db in Hs as (Hs & _ & _). by rewrite Hs, Ec.
Qed.

(** The rest of the transaction after the batch was published. *)
Lemma settle_rest result (t : tx W) r t' :
  (mark_tx result;;; fail_tx result;;; tx_ret result) t = (r, t') →
  tx_ext t' = tx_ext t ∧ ((∃ e, r = Err e) ∨ (mark_tx result;;; fail_tx result) t = (Ok (), t')).
Proof.
  unfold tx_bind. pose proof (mark_tx_ext result t) as H1. destruct (mark_tx result t) as [[[]|e] t1]; cbn in H1.
  - pose proof (fail_tx_ext result t1) as H2. destruct (fail_tx result t1) as [[[]|e] t2]; cbn in H2;
      intros [= <- <-]; (split; [congruence|]); [by right|left; by eexists].
  - intros [= <- <-]. split; [done|]. left. by eexists.
Qed.

(** *** A call of the API *)

Lemma create_refines pool ctx weight st off r st' s :
  let IPo := IPool pool in
  utf8_valid (FromContext ctx) = true → ShipmentApi.CreateShipment ctx weight st = (r, st') →
  impl_rel (mkImpl st off) s → ∃ s', rtc sys_step s s' ∧ impl_rel (mkImpl st' off) s'.
Proof.
  intros IPo Hutf H (Hdb & Hlog & Hoff & Hrel). cbn in *. unfold ShipmentApi.CreateShipment, server_quote in H.
  destruct (ValidateWeight weight). { injection H as _ <-. by exists s. }
  cbn in H. unfold on_ext in H. destruct (tl_quote laws ctx weight (st_ext st)) as [Hq Hp].
  destruct (pricer_Quote ctx weight (st_ext st)) as [[price|err] w1]; cbn in Hq, Hp.
  2: { injection H as _ <-. exists s. split; [done|]. split_and!; cbn; congruence. }
  destruct (Hp _ eq_refl) as [Hvm Hi]. cbn in H.
  destruct (tl_rand laws w1) as [Hr1 Hl1]. destruct (rand8 w1) as [rnd w2]. cbn in H, Hr1, Hl1.
  destruct (tl_wall laws w2) as [Hw2 Hu]. destruct (wall_now w2) as [at_ w3]. cbn in H, Hw2, Hu.
  destruct (tl_rand laws w3) as [Hr3 Hl3]. destruct (rand8 w3) as [rnd' w4]. cbn in H, Hr3, Hl3.
  set (sh := mkShipment (NewShipmentID rnd) weight price (UTC at_)) in *.
  destruct (newOutboxEvent rnd' sh (FromContext ctx)) as [evt|err] eqn:Ee.
  2: { injection H as _ <-. exists s. split; [done|]. split_and!; cbn; congruence. }
  set (st4 := mkSt w4 (st_db st)) in *.
  assert (∃ r', BeginFunc (create_tx sh evt) st4 = (r', st')) as [r' Hb].
  { unfold Storage.CreateShipment, classified in H. destruct (BeginFunc (create_tx sh evt) st4) as [[u|e] st5]; cbn in H;
      injection H as _ <-; by eexists. }
  assert (st_ext st' = w4) as He4.
  { apply BeginFunc_run in Hb as [[-> _]|(nw & lk & fs & r1 & t & Hm & -> & _)]; [done|].
    pose proof (create_tx_ext sh evt (mkTx nw lk fs w4 (st_db st))) as Hx. unfold st4 in Hm. cbn in Hm, Hx.
    by rewrite Hm in Hx. }
  assert (topic (st_ext st') = topic (st_ext st)) as Htop by congruence.
  apply BeginFunc_run in Hb as [[-> _]|(nw & lk & fs & r1 & t & Hm & He & _ & [Hsame|([] & -> & Hdb')])].
  1, 2: exists s; split; [done|]; split_and!; cbn in *; congruence.
  exists (mkSys (tx_db t) (sy_relays s) (sy_log s) (sy_offset s) (sy_handled s)). split.
  - apply rtc_once. eapply step_create; [|exact Hl1|exact Hl3|exact Ee|].
    + split_and!; [exact Hutf|exact Hu|exact Hvm|exact Hi].
    + rewrite Hdb. eapply sim_runs; [apply sim_create|apply eight|done|exact Hm].
  - split_and!; cbn in *; congruence.
Qed.

(** *** A poll *)

Lemma append_message log msg : append partition_of log (as_message (record_of msg)) = append partition_of log msg.
Proof. done. Qed.

Lemma Publish_topic p ctx msg w :
  match Broker.Publish p ctx msg w with
  | (None, w') => topic w' = append partition_of (topic w) msg
  | (Some _, w') => topic w' = topic w ∨ topic w' = append partition_of (topic w) msg
  end.
Proof.
  unfold Broker.Publish. pose proof (tl_produce laws (WithTimeout ctx (p_timeout p) w) (p_client p) (record_of msg) w) as H.
  destruct (ProduceSync _ _ _ w) as [[e|] w']; exact H.
Qed.

(** The acknowledgements of a batch, one step each. *)
Lemma acks_refine {IPb : PublisherI W} ctx i pre post w w1 don s :
  (∀ ctx msg w w', publish ctx msg w = (None, w') → topic w' = append partition_of (topic w) msg) →
  all_published ctx pre w w1 → sy_log s = topic w →
  sy_relays s !! i = Some (mkRelayTx don (pre ++ post) None) →
  rtc sys_step s (mkSys (sy_db s) (<[i := mkRelayTx (don ++ pre) post None]> (sy_relays s)) (topic w1)
                    (sy_offset s) (sy_handled s)).
Proof.
  intros Hpub Ha. revert don s. induction Ha as [w|evt batch msg w w1 w2 Hm Hp Ha IH]; intros don s Hl Hr.
  - rewrite app_nil_r, insert_id by done. rewrite <- Hl. destruct s. apply rtc_refl.
  - eapply rtc_l; [by eapply (step_ack _ s i don evt (batch ++ post) msg)|].
    replace (append partition_of (sy_log s) msg) with (topic w1) by (rewrite Hl; by eapply Hpub).
    specialize (IH (don ++ [evt]) (mkSys (sy_db s) (<[i := mkRelayTx (don ++ [evt]) (batch ++ post) None]> (sy_relays s))
      (topic w1) (sy_offset s) (sy_handled s)) eq_refl). cbn in IH. rewrite lookup_insert_eq in IH. specialize (IH eq_refl).
    rewrite insert_insert_eq, <- app_assoc in IH. exact IH.
Qed.

(** Publishing a claimed batch, up to the event that failed. *)
Lemma batch_refines p ctx batch w result w' s i :
  let IPb := kafka_PublisherI p in
  publishBatch ctx batch w = (result, w') → sy_log s = topic w →
  sy_relays s !! i = Some (mkRelayTx [] batch None) →
  ∃ t, rt_result t = result ∧ (rt_todo t = [] ∨ rt_failed t ≠ None) ∧
    rtc sys_step s (mkSys (sy_db s) (<[i := t]> (sy_relays s)) (topic w') (sy_offset s) (sy_handled s)).
Proof.
  intros IPb (pre & post & w1 & -> & Hpub & Ha & Hpost)%publish_loop_spec Hl Hr. cbn in Hpub.
  eapply (acks_refine ctx i pre post w w1 [] s) in Ha as Hsteps; [|intros c m v v' E|done|done].
  2: { pose proof (Publish_topic p c m v) as Ht. cbn in E. by rewrite E in Ht. }
  destruct result as [pub fl er]. cbn in *. subst pub. destruct post as [|evt post].
  - destruct Hpost as (-> & -> & ->). exists (mkRelayTx pre [] None). split; [done|]. split; [by left|exact Hsteps].
  - destruct Hpost as (-> & e & -> & Hf). exists (mkRelayTx pre (evt :: post) (Some (evt, e))).
    split; [done|]. split; [by right|]. etrans; [exact Hsteps|]. apply rtc_once.
    pose proof (step_fail partition_of (mkSys (sy_db s) (<[i := mkRelayTx pre (evt :: post) None]> (sy_relays s)) (topic w1)
      (sy_offset s) (sy_handled s)) i pre evt post e (topic w')) as Hstep. cbn in Hstep.
    rewrite lookup_insert_eq, insert_insert_eq in Hstep. apply Hstep; [done|].
    destruct Hf as [[_ ->]|(msg & Hm & Hp)]; [by left|].
    pose proof (Publish_topic p (WithID ctx (default "" (m_Headers msg !! HeaderCorrelationID))) msg w1) as Ht.
    cbn in Hp. rewrite Hp in Ht. destruct Ht; [by left|right; by exists msg].
Qed.

(** A transaction that claimed a batch and published it, up to its end. *)
Lemma claimed_refines p ctx lk limit full st result w2 st0 (t : tx W) s nw lk' fs :
  let IPb := kafka_PublisherI p in
  sy_db s = st_db st → sy_log s = topic (st_ext st) → sy_relays s = ∅ →
  runs (claimPending limit) lk (st_db st) full (st_db st) →
  publishBatch ctx full (st_ext st) = (result, w2) → st_ext st0 = w2 →
  (st_db st0 = st_db st ∨
   (mark_tx result;;; fail_tx result) (mkTx nw lk' fs w2 (st_db st)) = (Ok (), t) ∧ st_db st0 = tx_db t) →
  ∃ s', rtc sys_step s s' ∧ impl_rel (mkImpl st0 (sy_offset s)) s'.
Proof.
  intros IPb Hdb Hlog Hrel Hclaim Hp Hw Hend.
  set (s1 := mkSys (sy_db s) {[0 := mkRelayTx [] full None]} (sy_log s) (sy_offset s) (sy_handled s)).
  assert (Hs1 : sys_step s s1).
  { unfold s1. rewrite <- insert_empty, <- Hrel. eapply (step_claim _ s 0 limit lk).
    - by rewrite Hrel.
    - rewrite Hrel. unfold locked_rows. rewrite delete_empty, map_to_list_empty. set_solver.
    - by rewrite Hdb. }
  destruct (batch_refines p ctx full (st_ext st) result w2 s1 0 Hp Hlog (lookup_singleton_eq _ _)) as (tr & Hres & Hended & Hs2).
  cbn in Hs2. rewrite insert_singleton_eq in Hs2. destruct Hend as [Hsame|[Hm Hdb']].
  - exists (mkSys (sy_db s) ∅ (topic w2) (sy_offset s) (sy_handled s)). split; [|split_and!; cbn; congruence].
    eapply rtc_l; [exact Hs1|]. etrans; [exact Hs2|]. apply rtc_once.
    rewrite <- (delete_singleton_eq 0 tr). apply (step_rollback _ (mkSys _ _ _ _ _)).
  - exists (mkSys (tx_db t) ∅ (topic w2) (sy_offset s) (sy_handled s)). split; [|split_and!; cbn; congruence].
    eapply rtc_l; [exact Hs1|]. etrans; [exact Hs2|]. apply rtc_once.
    rewrite <- (delete_singleton_eq 0 tr). eapply (step_commit _ (mkSys _ _ _ _ _) 0 tr).
    + apply lookup_singleton_eq.
    + exact Hended.
    + cbn. rewrite Hres, Hdb. eapply sim_runs; [apply sim_settle|apply eight|done|exact Hm].
Qed.

Lemma poll_refines pool p ctx limit st off r st' s :
  let IPo := IPool pool in let IPb := kafka_PublisherI p in
  outbox_ProcessPending ctx limit publishBatch st = (r, st') →
  impl_rel (mkImpl st off) s → ∃ s', rtc sys_step s s' ∧ impl_rel (mkImpl st' off) s'.
Proof.
  intros IPo IPb H (Hdb & Hlog & Hoff & Hrel). cbn in *. subst off. unfold ProcessPending, classified in H.
  destruct (BeginFunc _ st) as [r0 st0] eqn:Hb. cbn in H. injection H as _ <-.
  apply BeginFunc_run in Hb as [[-> _]|(nw & lk & fs & r1 & t & Hm & He & _ & Hend)].
  { exists s. by split_and!. }
  assert (Hnothing : tx_ext t = st_ext st → st_db st0 = st_db st → ∃ s', rtc sys_step s s' ∧ impl_rel (mkImpl st0 (sy_offset s)) s').
  { intros Hx Hd. exists s. split; [done|]. split_and!; cbn; congruence. }
  unfold process_tx in Hm. unfold tx_bind at 1 in Hm.
  destruct (claimPending limit _) as [[full|e] t1] eqn:Ec.
  2: { injection Hm as <- <-. apply Hnothing; [by apply claimPending_ext in Ec|]. by destruct Hend as [?|(? & [=] & _)]. }
  apply claim_runs in Ec as (Hclaim & Ed1 & Ex1).
  destruct full as [|evt batch].
  { injection Hm as <- <-. apply Hnothing; [congruence|]. destruct Hend as [?|(a & _ & ?)]; congruence. }
  remember (evt :: batch) as full. clear Heqfull evt batch.
  unfold tx_bind at 1, tx_do in Hm. destruct (publishBatch ctx full (tx_ext t1)) as [result w2] eqn:Ep. cbn in Hm.
  rewrite Ex1 in Ep. rewrite Ed1 in Hm.
  apply settle_rest in Hm as [Hx Hm]. cbn in Hx. eapply claimed_refines; [done..|exact Hclaim|exact Ep|congruence|].
  destruct Hend as [?|(a & -> & Hd)]; [by left|right]. destruct Hm as [[e [=]]|Hm]. split; [exact Hm|exact Hd].
Qed.

(** *** A record *)

Lemma record_tx_topic req (t : tx W) : topic (tx_ext (record_tx req t).2) = topic (tx_ext t).
Proof.
  unfold record_tx. unfold tx_bind at 1. pose proof (ext_exec (wrapf "insert processed_event: ") (insert_processed (rq_EventID req)) t) as H1.
  destruct (tx_map_err _ _ t) as [[rows|e] t1]; cbn in *; [|by rewrite H1]. case_bool_decide; cbn; [by rewrite H1|].
  unfold tx_bind at 1, tx_do. destruct (tl_rand laws (tx_ext t1)) as [Hr _]. destruct (rand8 (tx_ext t1)) as [rnd w]. cbn in *.
  unfold tx_bind, tx_try.
  match goal with |- context [exec ?q ?t0] => destruct (exec_cases q t0) as (f2 & _ & [(e & -> & _)|(a2 & db2 & -> & _)]) end;
    cbn; [destruct (isUniqueViolation e)|]; cbn; congruence.
Qed.

(** The system works on a record of its own partition. *)
Definition at_record (s : Sys) (p : nat) (rec : LogRecord) (evt : ShipmentCreated) : Prop :=
  sy_log s p !! sy_offset s p = Some rec ∧ Decode (lr_value rec) = Ok evt.

(** One transaction that records the dispatch: nothing happened, or a step. *)
Lemma record_once {IPo : Pool W} req st r st' p rec evt off s :
  RecordDispatch req st = (r, st') → req = request_of evt → impl_rel (mkImpl st off) s → at_record s p rec evt →
  ∃ s', rtc sys_step s s' ∧ impl_rel (mkImpl st' off) s' ∧ (is_ok r = true → sy_handled s' p = true).
Proof.
  intros H -> (Hdb & Hlog & Hoff & Hrel) [Hrec Hdec]. cbn in *. unfold RecordDispatch, classified in H.
  destruct (BeginFunc _ st) as [r0 st0] eqn:Hb. cbn in H. injection H as <- <-.
  apply BeginFunc_run in Hb as [[-> [e ->]]|(nw & lk & fs & r1 & t & Hm & He & Hok & Hend)].
  { exists s. split; [done|]. split; [by split_and!|done]. }
  assert (topic (st_ext st0) = topic (st_ext st)) as Htop.
  { rewrite He. pose proof (record_tx_topic (request_of evt) (mkTx nw lk fs (st_ext st) (st_db st))) as Ht.
    by rewrite Hm in Ht. }
  destruct (eight_bytes (st_ext st)) as (v & Hv & Hsame). destruct r0 as [a|e].
  - destruct (Hok a eq_refl) as [-> Hd].
    exists (mkSys (tx_db t) (sy_relays s) (sy_log s) (sy_offset s) (fn_set p true (sy_handled s))). split; [|split].
    + apply rtc_once. eapply (step_record _ s p (sy_offset s p) rec evt a (tx_db t) true); [done..| |done].
      rewrite Hdb. eapply sim_runs; [apply sim_record|exact Hv|exact Hsame|exact Hm].
    + split_and!; cbn; congruence.
    + intros _. cbn. unfold fn_set. by rewrite decide_True.
  - destruct Hend as [Hd|(a & -> & Hd)].
    { exists s. split; [done|]. split; [|done]. split_and!; cbn; congruence. }
    exists (mkSys (tx_db t) (sy_relays s) (sy_log s) (sy_offset s) (sy_handled s)). split; [|split; [|done]].
    + apply rtc_once. eapply (step_record _ s p (sy_offset s p) rec evt a (tx_db t) false); [done..| |done].
      rewrite Hdb. eapply sim_runs; [apply sim_record|exact Hv|exact Hsame|exact Hm].
    + split_and!; cbn; congruence.
Qed.

Lemma at_record_rel st off st' s s' p rec evt :
  impl_rel (mkImpl st off) s → impl_rel (mkImpl st' off) s' → topic (st_ext st') = topic (st_ext st) →
  at_record s p rec evt → at_record s' p rec evt.
Proof. intros (_ & E1 & E2 & _) (_ & E3 & E4 & _) Ht [H1 H2]. cbn in *. split; [|done]. congruence. Qed.

Lemma select_timer_topic ctx d st r st' :
  select_timer ctx d st = (r, st') → topic (st_ext st') = topic (st_ext st) ∧ st_db st' = st_db st.
Proof. unfold select_timer. intros H. repeat case_match; simplify_eq/=; split; try done; apply laws. Qed.

Lemma RecordDispatch_topic {IPo : Pool W} req st : topic (st_ext (RecordDispatch req st).2) = topic (st_ext st).
Proof.
  unfold RecordDispatch, classified. destruct (BeginFunc (record_tx req) st) as [r st'] eqn:Hb. cbn.
  apply BeginFunc_run in Hb as [[-> _]|(nw & lk & fs & r1 & t & Hm & -> & _)]; [done|].
  pose proof (record_tx_topic req (mkTx nw lk fs (st_ext st) (st_db st))) as Ht. by rewrite Hm in Ht.
Qed.

Lemma attempts_refine {IPo : Pool W} fuel retry ctx attempt st m o err st' m' p rec evt off s :
  attempts fuel retry ctx (request_of evt) attempt st m = Some (o, err, st', m') →
  impl_rel (mkImpl st off) s → at_record s p rec evt →
  ∃ s', rtc sys_step s s' ∧ impl_rel (mkImpl st' off) s' ∧ (err = None → sy_handled s' p = true).
Proof.
  revert attempt st m s. induction fuel as [|fuel IH]; intros attempt st m s; cbn [attempts]; [done|].
  cbn [store_RecordDispatch store_DispatchStore]. pose proof (RecordDispatch_topic (request_of evt) st) as Ht.
  destruct (RecordDispatch (request_of evt) st) as [r st1] eqn:Er. cbn in Ht. intros H Hrel Hat.
  destruct (record_once _ _ _ _ _ _ _ _ _ Er eq_refl Hrel Hat) as (s1 & Hs1 & Hrel1 & Hh).
  pose proof (at_record_rel _ _ _ _ _ _ _ _ Hrel Hrel1 Ht Hat) as Hat1.
  assert (Hstop : ∀ err0, err0 = err → (err = None → is_ok r = true) → st1 = st' →
    ∃ s', rtc sys_step s s' ∧ impl_rel (mkImpl st' off) s' ∧ (err = None → sy_handled s' p = true)).
  { intros e0 _ Hr <-. exists s1. split; [done|]. split; [done|]. auto. }
  destruct r as [[d []]|e]; [injection H as _ <- <- _; by apply (Hstop None)..|].
  destruct (Is e ErrDispatchConflict); [injection H as _ <- <- _; by apply (Hstop (Some e))|].
  destruct (ctx_Err ctx st1); [injection H as _ <- <- _; by eapply Hstop|].
  destruct (MaxAttempts retry <=? attempt)%Z; [injection H as _ <- <- _; by eapply Hstop|].
  destruct (select_timer ctx _ st1) as [[e1|] st2] eqn:Et; apply select_timer_topic in Et as [Ht2 Hd2].
  - injection H as _ <- <- _. exists s1. split; [done|]. split; [|done].
    destruct Hrel1 as (? & ? & ? & ?). split_and!; cbn in *; congruence.
  - destruct (IH _ _ _ s1 H) as (s2 & Hs2 & Hrel2 & Hh2).
    + destruct Hrel1 as (? & ? & ? & ?). split_and!; cbn in *; congruence.
    + exact Hat1.
    + exists s2. split; [by etrans|]. by split.
Qed.

Lemma record_refines pool cfg ctx p rec lr st off m err st' m' off' s :
  let IPo := IPool pool in
  topic (st_ext st) p !! off p = Some lr → rec_Value rec = lr_value lr →
  processRecord cfg ctx rec st m = Some (err, st', m') → offset_after p off err off' →
  impl_rel (mkImpl st off) s → ∃ s', rtc sys_step s s' ∧ impl_rel (mkImpl st' off') s'.
Proof.
  intros IPo Hl Hv H Hoff Hrel. unfold processRecord in H. apply bind_Some in H as ([[[o e] st1] m1] & Hh & H).
  unfold Handle in Hh. apply bind_Some in Hh as ([[[o1 e1] st2] m2] & Hh & [= <- <- <- <-]). unfold handle in Hh.
  assert (∃ s1, rtc sys_step s s1 ∧ impl_rel (mkImpl st2 off) s1 ∧ (e1 = None → sy_handled s1 p = true))
    as (s1 & Hs1 & Hrel1 & Hhd).
  { rewrite Hv in Hh. destruct (Decode (lr_value lr)) as [evt|ed] eqn:Ed.
    - eapply attempts_refine; [exact Hh|exact Hrel|]. split; [|exact Ed].
      destruct Hrel as (_ & -> & -> & _). exact Hl.
    - injection Hh as _ <- <- _. exists s. split; [done|]. split; [done|]. intros [=]. }
  destruct e1 as [e1|].
  - injection H as <- <- _. inversion Hoff as [|err0|err0 Hns]; subst; [by exists s1|]. exfalso.
    unfold ErrStopped in Hns. rewrite Is_wrap in Hns. cbn [existsb] in Hns. by rewrite Is_refl in Hns.
  - destruct (tl_commit laws (WithTimeout ctx commitTimeout st2) rec st2) as [Hct Hcd].
    destruct (CommitRecords _ rec st2) as [ce st3] eqn:Ec. cbn in Hct, Hcd.
    assert (st3 = st') as -> by (destruct ce; by injection H as _ <- _).
    assert (Hkeep : impl_rel (mkImpl st' off) s1).
    { destruct Hrel1 as (? & ? & ? & ?). split_and!; cbn in *; congruence. }
    assert (Hmove : ∃ s', rtc sys_step s1 s' ∧ impl_rel (mkImpl st' (fn_set p (S (off p)) off)) s').
    { exists (mkSys (sy_db s1) (sy_relays s1) (sy_log s1) (fn_set p (S (sy_offset s1 p)) (sy_offset s1))
               (fn_set p false (sy_handled s1))). split; [apply rtc_once, step_offset; by apply Hhd|].
      destruct Hkeep as (? & ? & E & ?). cbn in E. rewrite E. by split_and!. }
    inversion Hoff; subst; [|by exists s1|]; destruct Hmove as (s' & ? & ?); exists s'; (split; [by etrans|done]).
Qed.

(** *** A replay *)

Lemma NewPublisher_topic ctx cfg w : topic (NewPublisher ctx cfg w).2 = topic w.
Proof.
  unfold NewPublisher. destruct (PublisherConfig_Validate cfg); [done|].
  pose proof (tl_new laws (pc_Brokers cfg) w) as Hn. destruct (NewClient _ w) as [[c|e] w1]; [|done].
  pose proof (tl_ping laws ctx c w1) as Hp. destruct (client_Ping ctx c w1) as [[e|] w2]; cbn in *; [|congruence].
  rewrite (tl_close laws). congruence.
Qed.

Lemma replay_refines ctx cfg store id st off r st' s :
  replay_event IPool ctx cfg store id st = Some (r, st') →
  impl_rel (mkImpl st off) s → ∃ s', rtc sys_step s s' ∧ impl_rel (mkImpl st' off) s'.
Proof.
  intros H (Hdb & Hlog & Hoff & Hrel). cbn in *. unfold replay_event in H. cbv zeta in H. revert H.
  set (IPo := IPool (st_pool store)). destruct (GetOutboxEvent id st) as [[evt|e] st1] eqn:Eg.
  2: { intros [= _ <-]. apply GetOutboxEvent_cases in Eg as (Hd & Hx & _). exists s. split; [done|].
       split_and!; cbn; congruence. }
  apply GetOutboxEvent_cases in Eg as (Hd1 & Hx1 & row & Hr & ->).
  destruct (MessageFor (scanOutboxEvent (id, row))) as [msg|e] eqn:Em.
  2: { intros [= _ <-]. exists s. split; [done|]. split_and!; cbn; congruence. }
  unfold on_ext. pose proof (NewPublisher_topic ctx cfg (st_ext st1)) as Hn.
  destruct (NewPublisher ctx cfg (st_ext st1)) as [[p|e] w2]; cbn in Hn.
  2: { intros [= _ <-]. exists s. split; [done|]. split_and!; cbn; congruence. }
  unfold deferred. cbn. pose proof (Publish_topic p ctx msg w2) as Hp.
  destruct (Broker.Publish p ctx msg w2) as [err w3]. intros [= _ <-]. cbn.
  assert (topic w3 = topic (st_ext st) ∨ topic w3 = append partition_of (topic (st_ext st)) msg) as [Ht|Ht].
  { rewrite Hx1 in Hn. destruct err; [rewrite <- Hn; exact Hp|right; congruence]. }
  - exists s. split; [done|]. split_and!; cbn; rewrite ?(tl_close laws); congruence.
  - exists (mkSys (sy_db s) (sy_relays s) (append partition_of (sy_log s) msg) (sy_offset s) (sy_handled s)). split.
    + apply rtc_once. eapply step_replay; [rewrite Hdb; exact Hr|exact Em].
    + split_and!; cbn; rewrite ?(tl_close laws); congruence.
Qed.

(** ** Properties *)

Lemma impl_step_refines i i' s :
  impl_step i i' → impl_rel i s → ∃ s', rtc sys_step s s' ∧ impl_rel i' s'.
Proof.
  intros Hs Hrel. destruct Hs as
    [pool ctx weight st off r st' IPo Hu H|pool p ctx limit st off r st' IPo IPb H
    |pool cfg ctx p rec lr st off m err st' m' off' IPo Hl Hv H Hoff|ctx cfg store id st off r st' H].
  - by eapply create_refines.
  - by eapply poll_refines.
  - by eapply record_refines.
  - by eapply replay_refines.
Qed.

Lemma impl_steps_refine i i' s :
  rtc impl_step i i' → impl_rel i s → ∃ s', rtc sys_step s s' ∧ impl_rel i' s'.
Proof.
  intros H. revert s. induction H as [|i0 i1 i2 H1 _ IH]; intros s Hrel; [by exists s|].
  destruct (impl_step_refines _ _ _ H1 Hrel) as (s1 & Hs1 & Hrel1). destruct (IH _ Hrel1) as (s2 & Hs2 & Hrel2).
  exists s2. split; [by etrans|done].
Qed.

(** C5: the code refines the system: start with empty tables and an empty topic
    and run any sequence of API calls, relay polls, handled records and replays,
    each with whatever failures of the database and of Kafka; the tables, the
    topic and the committed offsets are then those of a reachable state of the
    system, the orders they hold went through a history of the lifecycle in which
    each label happens once, and the guarantees of the system hold of them: a
    shipment has at most one dispatch, and what is below a committed offset was
    dispatched. *)
Theorem implementation_refines_system st0 i :
  st_db st0 = empty_DB → topic (st_ext st0) = (λ _, []) →
  rtc impl_step (mkImpl st0 (λ _, 0)) i →
  let db := st_db (im_st i) in
  let log := topic (st_ext (im_st i)) in
  (∃ s, reachable partition_of s ∧ sy_db s = db ∧ sy_log s = log ∧ sy_offset s = im_offset i) ∧
  (∃ history, spec_run ∅ history (orders partition_of db log) ∧ NoDup history) ∧
  (∀ j k d d', dispatches db !! j = Some d → dispatches db !! k = Some d' → dr_shipment_id d = dr_shipment_id d' → j = k) ∧
  (∀ p k, k < im_offset i p → ∃ rec evt j d, log p !! k = Some rec ∧ Decode (lr_value rec) = Ok evt ∧
    dispatches db !! j = Some d ∧ dr_event_id d = e_EventID evt).
Proof.
  intros Hdb Hlog Hrun. cbn zeta.
  assert (∃ s, rtc sys_step sys_init s ∧ impl_rel i s) as (s & Hs & Hi).
  { apply (impl_steps_refine _ _ _ Hrun). by split_and!. }
  destruct Hi as (Ed & El & Eo & _). rewrite <- Ed, <- El, <- Eo. split_and!.
  - by exists s.
  - destruct (sys_steps_refine partition_of _ _ (sys_init_ok _) Hs) as [ls H]. rewrite init_orders in H.
    exists ls. split; [exact H|]. by apply spec_run_once in H as [? _].
  - intros j k d d' Hj Hk E. pose proof (reachable_ok _ _ Hs) as Hok. by eapply ok_unique; [apply Hok|..].
  - intros p k Hk. pose proof (reachable_ok _ _ Hs) as Hok. destruct (so_offset _ _ Hok _ _ Hk) as (rec & evt & Hl & Hd & Hp).
    destruct (so_linked _ _ Hok _ Hp) as (j & d & Hj & He). by exists rec, evt, j, d.
Qed.

End implementation.

(** ** A run of the code *)

(** A clock and the topic, of one partition; Kafka answers at once. *)
Record KWorld := mkKWorld { kw_now : Z; kw_topic : nat → list LogRecord }.

Section examples.
#[local] Existing Instances ref_PgScan ref_Pgconn ref_GrpcStatus ref_GoMap.
#[local] Instance KWorld_Clock : Clock KWorld.
Proof.
  refine {| now := kw_now; wait_until := λ t w, mkKWorld (Z.max t (kw_now w)) (kw_topic w); pick_done := λ _, true |};
    intros; cbn; lia.
Defined.
#[local] Instance KWorld_Topic : TopicWorld KWorld := {| topic := kw_topic |}.
#[local] Instance KWorld_Pgxpool : Pgxpool KWorld := {|
  pgconfig := (); pgpool := (); ParseConfig := λ _, Ok (); set_MaxConns := λ _ c, c;
  NewWithConfig := λ _ _ w, (Ok (), w); pool_Ping := λ _ _ w, (None, w); pool_Close := λ _ w, w |}.
#[local] Instance KWorld_Kgo : Kgo KWorld := {|
  kclient := (); NewClient := λ _ w, (Ok (), w); client_Ping := λ _ _ w, (None, w); client_Close := λ _ w, w;
  ProduceSync := λ _ _ rec w, (None, mkKWorld (kw_now w) (append (λ _, 0) (kw_topic w) (as_message rec))) |}.
#[local] Instance KWorld_Rand : Rand KWorld := ref_Rand KWorld.
#[local] Instance KWorld_Wall : WallClock KWorld := {| wall_now := λ w, (mkTime 1700000000 123456000 7200, w) |}.
#[local] Instance KWorld_Pricer : Pricer KWorld := {| pricer_Quote := λ _ _ w, (Ok (mkMoney 700 "EUR"), w) |}.
#[local] Instance KWorld_Consumer : KafkaConsumer (St KWorld) := {|
  consumer_New := λ _ st, (None, st); consumer_Ping := λ _ st, (None, st); PollRecords := λ _ _ st, (mkFetches false [], st);
  CommitRecords := λ _ _ st, (None, st); AllowRebalance := λ st, st; consumer_Close := λ st, st |}.
Definition KWorld_Pool : pgpool (W := KWorld) → Pool KWorld := λ _, ref_Pool KWorld (mkTime 1700000100 0 0).

Lemma KWorld_laws : topic_laws (λ _, 0).
Proof.
  split; intros; cbn; try done. split; [done|]. intros price [= <-]. split; [|reflexivity].
  split; [discriminate|]. exists "E"%char, "U"%char, "R"%char. vm_compute. intuition discriminate.
Qed.

Definition ex_pub : Broker.Publisher KWorld := mkPublisher (() : kclient (W := KWorld)) 5.

(** A shipment is created, its event polled and published, and its record
    handled. *)
Definition ex_st0 : St KWorld := mkSt (mkKWorld 0 (λ _, [])) empty_DB.
Definition ex_st1 : St KWorld :=
  (let IPo := KWorld_Pool () in ShipmentApi.CreateShipment (WithID Background "req_1") 1500 ex_st0).2.
Definition ex_st2 : St KWorld :=
  (let IPo := KWorld_Pool () in let IPb := kafka_PublisherI ex_pub in
   outbox_ProcessPending Background 10 publishBatch ex_st1).2.
Definition ex_record : LogRecord := List.nth 0 (topic (st_ext ex_st2) 0) (mkLogRecord "" "").
Definition ex_cfg : Consumer.Config := Consumer.mkConfig ["localhost:9092"] (mkRetryPolicy 3 0) Second.
Definition ex_handled : option (option goerr * St KWorld * Consumer.Metrics) :=
  let IPo := KWorld_Pool () in
  processRecord ex_cfg Background (mkRecord 0 0 (lr_value ex_record)) ex_st2 zero_Metrics.

Lemma implementation_refines_system_witness :
  ∃ st history, rtc (impl_step KWorld_Pool) (mkImpl ex_st0 (λ _, 0)) (mkImpl st (fn_set 0 1 (λ _, 0))) ∧
    size (dispatches (st_db st)) = 1 ∧
    spec_run ∅ history (orders (λ _, 0) (st_db st) (topic (st_ext st))) ∧ NoDup history.
Proof.
  destruct ex_handled as [[[err st3] m]|] eqn:E.
  2: { exfalso. revert E. vm_compute. discriminate. }
  assert (err = None) as -> by (revert E; vm_compute; by intros [= <- _ _]).
  assert (size (dispatches (st_db st3)) = 1) as Hsize by (revert E; vm_compute; by intros [= <- _]).
  assert (rtc (impl_step KWorld_Pool) (mkImpl ex_st0 (λ _, 0)) (mkImpl st3 (fn_set 0 1 (λ _, 0)))) as Hrun.
  { eapply rtc_l.
    { eapply (impl_create KWorld_Pool () (WithID Background "req_1") 1500 ex_st0 _ _ ex_st1); [reflexivity|].
      unfold ex_st1. cbv zeta. apply surjective_pairing. }
    eapply rtc_l.
    { eapply (impl_poll KWorld_Pool () ex_pub Background 10 ex_st1 _ _ ex_st2).
      unfold ex_st2. cbv zeta. apply surjective_pairing. }
    apply rtc_once. eapply (impl_record KWorld_Pool () ex_cfg Background 0 (mkRecord 0 0 (lr_value ex_record)) ex_record ex_st2
      (λ _, 0) zero_Metrics None st3 m).
    - vm_compute. reflexivity.
    - reflexivity.
    - exact E.
    - apply (offset_committed 0 (λ _, 0)). }
  destruct (implementation_refines_system KWorld_Pool (λ _, 0) KWorld_laws ex_st0 _ eq_refl eq_refl Hrun)
    as (_ & (history & Hspec & Hnodup) & _).
  exists st3, history. split; [exact Hrun|]. split; [exact Hsize|]. split; [exact Hspec|exact Hnodup].
Defined.

End examples.
