(* ===== verification/Progress.v ===== *)
(** * Progress

    No reachable state is a dead end: the relay can publish everything that is
    pending and the consumers can record and commit everything that is published,
    whatever happened before.  The argument is constructive: it stops the relays
    that hold batches, lets one of them claim all pending rows, and lets the
    consumers work through the partitions of the events. *)
From S2P Require Import Prelude GoErrors GoStrconv GoUtf8 GoTime Domain Events Jsonb GoContext Database Storage Broker Relay Consumer ShipmentApi System.

(** ** A new identifier *)

(** The [n] bytes of a number, least significant first. *)
Fixpoint le_bytes (n : nat) (z : Z) : string :=
  match n with
  | O => ""
  | S n => String (chr (z mod 256)) (le_bytes n (z / 256))
  end.

Lemma le_bytes_length n z : String.length (le_bytes n z) = n.
Proof. revert z. induction n as [|n IH]; intros z; [done|]. simpl. by rewrite IH. Qed.

Lemma le_bytes_inj n y z :
  (0 ≤ y < 256 ^ Z.of_nat n)%Z → (0 ≤ z < 256 ^ Z.of_nat n)%Z → le_bytes n y = le_bytes n z → y = z.
Proof.
  revert y z. induction n as [|n IH]; intros y z Hy Hz; [simpl in *; lia|].
  rewrite Nat2Z.inj_succ, Z.pow_succ_r in Hy, Hz by lia. simpl. intros [= Hc Hr].
  pose proof (Z.div_mod y 256). pose proof (Z.div_mod z 256).
  pose proof (Z.mod_pos_bound y 256). pose proof (Z.mod_pos_bound z 256).
  apply (f_equal code) in Hc. rewrite !code_chr in Hc by lia.
  apply IH in Hr; [lia|split; [apply Z.div_pos; lia|apply Z.div_lt_upper_bound; lia]..].
Qed.

Lemma fresh_dispatch_id (ids : gset string) :
  (Z.of_nat (size ids) < 2 ^ 64)%Z → ∃ w, String.length w = 8 ∧ NewDispatchID w ∉ ids.
Proof.
  intros Hsize. set (cand := (λ z, NewDispatchID (le_bytes 8 z)) <$> seqZ 0 (Z.of_nat (S (size ids)))).
  destruct (decide (Exists (λ id, id ∉ ids) cand)) as [He|Hn].
  { apply list.Exists_exists in He as (id & (z & -> & _)%list_elem_of_fmap & Hid).
    exists (le_bytes 8 z). split; [apply le_bytes_length|done]. }
  exfalso. apply list.not_Exists_Forall in Hn; [|intros; apply _].
  assert (NoDup cand) as Hnd.
  { apply NoDup_fmap_2_strong; [|apply NoDup_seqZ].
    intros y z Hy%elem_of_seqZ Hz%elem_of_seqZ E%newID_inj.
    apply (le_bytes_inj 8); [lia..|done]. }
  assert (list_to_set (C := gset string) cand ⊆ ids) as Hsub.
  { intros id Hid%elem_of_list_to_set. rewrite list.Forall_forall in Hn. apply Hn in Hid.
    by destruct (decide (id ∈ ids)). }
  apply subseteq_size in Hsub. rewrite size_list_to_set in Hsub by done.
  unfold cand in Hsub. rewrite length_fmap, length_seqZ in Hsub. lia.
Qed.

(** A shipment that was not dispatched leaves an identifier free. *)
Lemma dispatches_fewer db sid :
  db_ok db → is_Some (shipments db !! sid) → dispatch_of db sid = None →
  size (dispatches db) < size (shipments db).
Proof.
  intros [_ _ Hd Hu] Hs Hn. pose proof (proj1 (dispatch_of_None _ _) Hn) as Hn'.
  set (ids := (λ p, dr_shipment_id p.2) <$> map_to_list (dispatches db)).
  assert (NoDup ids) as Hnd.
  { apply NoDup_fmap_2_strong; [|apply NoDup_map_to_list].
    intros [i d] [j d'] Hi%elem_of_map_to_list Hj%elem_of_map_to_list E. simpl in E.
    pose proof (Hu _ _ _ _ Hi Hj E). congruence. }
  assert (list_to_set (C := gset string) ids ⊆ dom (shipments db) ∖ {[sid]}) as Hsub.
  { intros x ([i d] & -> & Hi%elem_of_map_to_list)%elem_of_list_to_set%list_elem_of_fmap.
    apply elem_of_difference. rewrite elem_of_dom, elem_of_singleton. split.
    - by apply (Hd _ _ Hi).
    - by apply (Hn' _ _ Hi). }
  apply subseteq_size in Hsub. rewrite size_list_to_set in Hsub by done.
  unfold ids in Hsub. rewrite length_fmap, length_map_to_list in Hsub.
  apply elem_of_dom in Hs. rewrite size_difference, size_singleton, size_dom in Hsub by set_solver.
  assert (size (dom (shipments db)) ≠ 0) by (apply size_non_empty_iff; set_solver).
  rewrite size_dom in *. lia.
Qed.

(** ** The consumers *)

(** The world has fewer shipments than identifiers of eight bytes. *)
Definition few_shipments (db : DB) : Prop := (Z.of_nat (size (shipments db)) ≤ 2 ^ 64)%Z.

Section progress.
Context {IJ : Jsonb} {IS : PgScan} (partition_of : string → nat).
Notation sys_step := (sys_step partition_of).
Notation sys_ok := (sys_ok partition_of).

Lemma steps_ok s s' : sys_ok s → rtc sys_step s s' → sys_ok s'.
Proof. intros Hok H. induction H as [|s1 s2 s3 Hst _ IH]; [done|]. apply IH. by eapply sys_step_ok. Qed.

(** Every record of the topic can be handled. *)
Lemma record_possible s p k rec :
  sys_ok s → few_shipments (sy_db s) → sy_log s p !! k = Some rec →
  ∃ evt r db', Decode (lr_value rec) = Ok evt ∧ runs (record_tx (request_of evt)) ∅ (sy_db s) r db'.
Proof.
  intros Hok Hfew Hl. destruct (so_log _ _ Hok _ _ _ Hl) as (_ & id & row & Hr & Hv & _).
  destruct (proj1 (so_outbox _ _ Hok) _ _ Hr) as (_ & evt & sr & Hd & _ & He & Hsh & _).
  rewrite <- Hv in Hd. rewrite <- He in Hsh.
  assert (∃ w, String.length w = 8 ∧ (processed_events (sy_db s) !! e_EventID evt = None →
    dispatches (sy_db s) !! NewDispatchID w = None)) as (w & Hw & Hfresh).
  { destruct (processed_events (sy_db s) !! e_EventID evt) eqn:Ep; [by exists "12345678"|].
    destruct (fresh_dispatch_id (dom (dispatches (sy_db s)))) as (w & Hw & Hni).
    { rewrite size_dom. unfold few_shipments in Hfew.
      enough (size (dispatches (sy_db s)) < size (shipments (sy_db s))) by lia.
      eapply dispatches_fewer; [by apply (so_db partition_of)|by eexists|]. by eapply no_conflict. }
    exists w. split; [done|]. intros _. by apply not_elem_of_dom. }
  destruct (record_runs partition_of s p k rec evt zero_Time w) as (r & t & E); try done.
  exists evt, r, (tx_db t). split; [done|]. by exists zero_Time, w, t.
Qed.

(** What the consumers leave alone. *)
Definition consumed (s s' : Sys) : Prop :=
  sy_log s' = sy_log s ∧ sy_relays s' = sy_relays s ∧
  outbox_events (sy_db s') = outbox_events (sy_db s) ∧ shipments (sy_db s') = shipments (sy_db s) ∧
  ∀ q, sy_offset s q ≤ sy_offset s' q.

Lemma consumed_trans s1 s2 s3 : consumed s1 s2 → consumed s2 s3 → consumed s1 s3.
Proof.
  intros (H1 & H2 & H3 & H4 & H5) (I1 & I2 & I3 & I4 & I5). split_and!; try congruence.
  intros q. specialize (H5 q). specialize (I5 q). lia.
Qed.

Lemma record_tx_tables req db r db' :
  runs (record_tx req) ∅ db r db' →
  outbox_events db' = outbox_events db ∧ shipments db' = shipments db.
Proof.
  intros (now & w & t & _ & Hb & <-). apply record_tx_spec in Hb; [|by constructor].
  destruct r as [d []]; simpl in Hb.
  - destruct Hb as (_ & _ & ->). done.
  - destruct Hb as (_ & _ & _ & _ & _ & c & _ & ->). done.
Qed.

(** One more record of a partition. *)
Lemma consume_one s p rec :
  sys_ok s → few_shipments (sy_db s) → sy_log s p !! sy_offset s p = Some rec →
  ∃ s', rtc sys_step s s' ∧ consumed s s' ∧ sy_offset s' p = S (sy_offset s p).
Proof.
  intros Hok Hfew Hl. destruct (record_possible s p _ rec Hok Hfew Hl) as (evt & r & db' & Hd & Hrun).
  eexists. split.
  - eapply rtc_l; [eapply (step_record partition_of s p _ rec evt r db' true); done|].
    eapply rtc_l; [apply (step_offset _ _ p)|apply rtc_refl].
    cbn. unfold fn_set. by rewrite decide_True.
  - destruct (record_tx_tables _ _ _ _ Hrun) as [Ho Hs]. split; [split_and!; try done|]; cbn.
    + intros q. unfold fn_set. case_decide; subst; lia.
    + unfold fn_set. by rewrite decide_True.
Qed.

(** A partition to its end. *)
Lemma consume_partition s p :
  sys_ok s → few_shipments (sy_db s) →
  ∃ s', rtc sys_step s s' ∧ consumed s s' ∧ length (sy_log s' p) ≤ sy_offset s' p.
Proof.
  remember (length (sy_log s p) - sy_offset s p) as n eqn:E. revert s E.
  induction n as [|n IH]; intros s E Hok Hfew.
  - exists s. split; [apply rtc_refl|]. split; [|lia]. by split_and!.
  - destruct (lookup_lt_is_Some_2 (sy_log s p) (sy_offset s p)) as [rec Hrec]; [lia|].
    destruct (consume_one s p rec Hok Hfew Hrec) as (s1 & Hs1 & Hc1 & Ho1).
    pose proof Hc1 as (Hl & _ & _ & Hsh & _).
    destruct (IH s1) as (s2 & Hs2 & Hc2 & Ho2).
    + rewrite Hl, Ho1. lia.
    + by eapply steps_ok.
    + unfold few_shipments. by rewrite Hsh.
    + exists s2. split; [by etrans|]. split; [by eapply consumed_trans|done].
Qed.

Lemma consume_partitions s ps :
  sys_ok s → few_shipments (sy_db s) →
  ∃ s', rtc sys_step s s' ∧ consumed s s' ∧ Forall (λ p, length (sy_log s' p) ≤ sy_offset s' p) ps.
Proof.
  intros Hok Hfew. induction ps as [|p ps (s1 & Hs1 & Hc1 & Hf)].
  { exists s. split; [apply rtc_refl|]. split; [by split_and!|constructor]. }
  destruct (consume_partition s1 p) as (s2 & Hs2 & Hc2 & Ho2).
  - by eapply steps_ok.
  - unfold few_shipments. by rewrite (proj1 (proj2 (proj2 (proj2 Hc1)))).
  - exists s2. split; [by etrans|]. split; [by eapply consumed_trans|]. constructor; [done|].
    destruct Hc2 as (Hl & _ & _ & _ & Ho). eapply list.Forall_impl; [exact Hf|].
    intros q Hq. simpl in *. rewrite Hl. specialize (Ho q). lia.
Qed.

(** ** The relay *)

(** Relays that stop roll their transactions back. *)
Lemma stop_relays s :
  rtc sys_step s (mkSys (sy_db s) ∅ (sy_log s) (sy_offset s) (sy_handled s)).
Proof.
  destruct s as [db relays log off han]. cbn. induction relays as [|i t relays Hi IH] using map_ind.
  - apply rtc_refl.
  - eapply rtc_l; [apply (step_rollback _ _ i)|]. cbn. by rewrite delete_insert_id.
Qed.

(** Kafka acknowledges every event of a batch. *)
Lemma ack_all s don todo :
  sy_relays s = {[0 := mkRelayTx don todo None]} →
  Forall (λ evt, ∃ msg, MessageFor evt = Ok msg) todo →
  ∃ log', rtc sys_step s (mkSys (sy_db s) {[0 := mkRelayTx (don ++ todo) [] None]} log' (sy_offset s) (sy_handled s)).
Proof.
  revert s don. induction todo as [|evt todo IH]; intros s don Hr Hf.
  - exists (sy_log s). rewrite app_nil_r, <- Hr. destruct s. apply rtc_refl.
  - apply Forall_cons_1 in Hf as [[msg Hm] Hf].
    destruct (IH (mkSys (sy_db s) (<[0 := mkRelayTx (don ++ [evt]) todo None]> (sy_relays s))
                   (append partition_of (sy_log s) msg) (sy_offset s) (sy_handled s)) (don ++ [evt]))
      as (log' & H); [by rewrite Hr, insert_singleton_eq|done|].
    exists log'. eapply rtc_l; [|rewrite <- app_assoc in H; exact H].
    eapply step_ack; [|done]. rewrite Hr. apply lookup_singleton_eq.
Qed.

(** All pending rows in one batch. *)
Definition everything (db : DB) : Z := Z.of_nat (length (claimable ∅ db)).

Lemma claim_everything db :
  ∃ batch, runs (claimPending (everything db)) ∅ db batch db ∧
    batch = scanOutboxEvent <$> claimed_rows ∅ (everything db) db ∧
    ∀ id row, outbox_events db !! id = Some row → pending row → id ∈ oe_EventID <$> batch.
Proof.
  eexists. split; [|split; [reflexivity|]].
  - exists zero_Time, "12345678". eexists. split; [done|].
    unfold claimPending, tx_bind, tx_map_err, exec, select_pending, must. cbn [tx_faults tx_locked tx_now tx_db].
    assert (0 <=? everything db = true)%Z as -> by (apply Z.leb_le; unfold everything; lia).
    cbn. split; reflexivity.
  - intros id row Hr Hp. rewrite claimed_ids. apply list_elem_of_fmap. exists (id, row). split; [done|].
    destruct (claimed_rows_perm ∅ (everything db) db) as (rest & Hperm & _ & Hlen).
    destruct rest as [|x rest].
    + rewrite app_nil_r in Hperm. rewrite Hperm. apply claimable_elem. set_solver.
    + exfalso. apply Permutation_length in Hperm. rewrite length_app, Hlen in Hperm by done.
      unfold everything in Hperm. rewrite Nat2Z.id in Hperm. simpl in Hperm. lia.
Qed.

(** The attempts of the pending rows still fit their column. *)
Definition retriable (db : DB) : Prop :=
  map_Forall (λ _ row, pending row → int32_ok (or_attempts row + 1) = true) (outbox_events db).

Lemma mark_everything {V} now locked (v : V) db ids :
  retriable db → (∀ id row, id ∈ ids → outbox_events db !! id = Some row → pending row) →
  let result := mkPublishResult ids "" None in
  ∃ t, (mark_tx result;;; fail_tx result) (mkTx now locked [] v db) = (Ok (), t) ∧ tx_ext t = v.
Proof.
  intros Hret Hp result. unfold mark_tx, fail_tx. subst result. cbn [pr_Published pr_Failed pr_Err].
  destruct ids as [|id ids]; [by eexists|]. set (l := id :: ids) in *.
  assert (∃ db', update_outbox (mark_row now) l db = Ok db') as [db' E].
  { unfold update_outbox, must. eexists.
    match goal with |- context [forallb ?f ?m] => assert (forallb f m = true) as -> end; [|reflexivity].
    apply forallb_forall. intros [i row] Hin%list_elem_of_In.
    apply elem_of_map_to_list, map_lookup_filter_Some in Hin as [Hr Hi]. simpl in *.
    apply (Hret _ _ Hr). by eapply Hp. }
  unfold tx_bind, tx_map_err, exec. cbn [tx_faults tx_now tx_db]. unfold mark_published. rewrite E. by eexists.
Qed.

Lemma MessageFor_possible evt e : Decode (oe_Payload evt) = Ok e → ∃ msg, MessageFor evt = Ok msg.
Proof. intros Hd. unfold MessageFor. rewrite Hd. by eexists. Qed.

Lemma publish_everything s :
  sys_ok s → retriable (sy_db s) →
  ∃ s', rtc sys_step s s' ∧ shipments (sy_db s') = shipments (sy_db s) ∧
    ∀ id row, outbox_events (sy_db s) !! id = Some row →
      ∃ row', outbox_events (sy_db s') !! id = Some row' ∧ ¬ pending row' ∧
        or_shipment_id row' = or_shipment_id row ∧ or_payload row' = or_payload row.
Proof.
  intros Hok Hret. pose proof (stop_relays s) as Hstop.
  destruct s as [db relays log off han]. cbn [sy_db sy_relays sy_log sy_offset sy_handled] in *.
  destruct (claim_everything db) as (batch & Hclaim & Hbatch & Hall).
  destruct (claimed_facts ∅ (everything db) db) as (_ & _ & _ & Hfacts & _).
  assert (∀ evt, evt ∈ batch → ∃ row, outbox_events db !! oe_EventID evt = Some row ∧ pending row ∧
    oe_Payload evt = or_payload row) as Hrows.
  { intros evt. rewrite Hbatch. intros ([id row] & -> & (Hr & Hp & _)%Hfacts)%list_elem_of_fmap. by exists row. }
  destruct (ack_all (mkSys db {[0 := mkRelayTx [] batch None]} log off han) [] batch) as (log' & Hack);
    [done| |].
  { apply list.Forall_forall. intros evt (row & Hr & _ & Hpay)%Hrows.
    destruct (proj1 (so_outbox _ _ Hok) _ _ Hr) as (_ & e & sr & Hd & _).
    eapply MessageFor_possible. by rewrite Hpay. }
  destruct (mark_everything zero_Time ∅ "12345678" db (oe_EventID <$> batch) Hret) as (t & Et & _).
  { intros id row (evt & -> & (row' & Hr & Hp & _)%Hrows)%list_elem_of_fmap Hr'. congruence. }
  assert (runs (mark_tx _;;; fail_tx _) ∅ db () (tx_db t)) as Hmark by (by exists zero_Time, "12345678", t).
  set (db' := tx_db t) in *.
  destruct (commit_step _ _ _ _ Hmark (so_db _ _ Hok)) as (_ & now & Hsh & _ & _ & Hrow).
  exists (mkSys db' ∅ log' off han). split; [|split; [exact Hsh|]].
  - etrans; [exact Hstop|]. eapply rtc_l.
    { eapply (step_claim _ _ 0 (everything db) ∅ batch db); [done|set_solver|exact Hclaim]. }
    cbn [sy_db sy_relays sy_log sy_offset sy_handled]. rewrite insert_empty.
    etrans; [exact Hack|]. eapply rtc_l.
    { eapply (step_commit _ _ 0); [apply lookup_singleton_eq|by left|exact Hmark]. }
    cbn. rewrite delete_singleton_eq. apply rtc_refl.
  - cbn. intros id row Hr. exists (settle now (mkPublishResult (oe_EventID <$> batch) "" None) id row).
    rewrite Hrow, Hr. destruct (settle_same now (mkPublishResult (oe_EventID <$> batch) "" None) id row)
      as (Hpay & Hsid & _). split_and!; try done.
    destruct (decide (pending row)) as [Hp|Hn].
    + rewrite settle_pending by done. intros Hni. apply Hni. by eapply Hall.
    + unfold settle, pending in *. cbn. rewrite (bool_decide_eq_false_2 ("" ≠ "" ∧ _)) by naive_solver.
      clear Hpay Hsid. by case_bool_decide.
Qed.

(** A published event of a partition that is committed to its end. *)
Lemma published_completes s id row :
  sys_ok s → outbox_events (sy_db s) !! id = Some row → ¬ pending row →
  length (sy_log s (partition_of (or_shipment_id row))) ≤ sy_offset s (partition_of (or_shipment_id row)) →
  (∃ k, k < sy_offset s (partition_of (or_shipment_id row)) ∧
    sy_log s (partition_of (or_shipment_id row)) !! k = Some (mkLogRecord (or_shipment_id row) (or_payload row))) ∧
  (∃ i d, dispatches (sy_db s) !! i = Some d ∧ dr_event_id d = id ∧ dr_shipment_id d = or_shipment_id row).
Proof.
  intros Hok Hr Hn Hend.
  destruct (so_published _ _ Hok _ _ Hr Hn) as (p & k & [key value] & Hk & row2 & Hr2 & Hv & Hkey).
  destruct (so_log _ _ Hok _ _ _ Hk) as [-> _]. simpl in *.
  rewrite Hr in Hr2. injection Hr2 as <-. rewrite Hkey, Hv in Hk.
  assert (k < sy_offset s (partition_of (or_shipment_id row))) as Hlt
    by (apply lookup_lt_Some in Hk; lia).
  split; [by exists k|].
  destruct (so_offset _ _ Hok _ _ Hlt) as (rec & evt & Hrec & Hd & Hp).
  rewrite Hk in Hrec. injection Hrec as <-. simpl in Hd.
  destruct (proj1 (so_outbox _ _ Hok) _ _ Hr) as (_ & evt' & sr & Hd' & Hid & He & _).
  rewrite Hd in Hd'. apply (inj Ok) in Hd' as <-.
  destruct (so_linked _ _ Hok _ Hp) as (i & d & Hi & Hev).
  exists i, d. split_and!; [done|congruence|].
  destruct (so_dispatches _ _ Hok _ _ Hi) as (row3 & _ & Hr3 & Hsid3 & _). congruence.
Qed.

(** ** Properties *)

(** C4: no reachable state is a dead end: as long as the attempts of the pending
    rows fit their column and identifiers are left, the system can go on to a
    state in which every event of the outbox is published, its record is below
    the committed offset of its partition, and its shipment has its dispatch,
    whatever crashed or failed before. *)
Theorem every_event_can_complete s :
  reachable partition_of s → retriable (sy_db s) → few_shipments (sy_db s) →
  ∃ s', rtc sys_step s s' ∧
    ∀ id row, outbox_events (sy_db s) !! id = Some row →
      (∃ row', outbox_events (sy_db s') !! id = Some row' ∧ ¬ pending row') ∧
      (∃ k, k < sy_offset s' (partition_of (or_shipment_id row)) ∧
        sy_log s' (partition_of (or_shipment_id row)) !! k =
          Some (mkLogRecord (or_shipment_id row) (or_payload row))) ∧
      (∃ i d, dispatches (sy_db s') !! i = Some d ∧ dr_event_id d = id ∧
        dr_shipment_id d = or_shipment_id row).
Proof.
  intros Hok%reachable_ok Hret Hfew.
  destruct (publish_everything s Hok Hret) as (s1 & Hs1 & Hsh & Hpub).
  pose proof (steps_ok _ _ Hok Hs1) as Hok1.
  destruct (consume_partitions s1 ((λ p, partition_of (or_shipment_id p.2)) <$> map_to_list (outbox_events (sy_db s))))
    as (s2 & Hs2 & (Hl & _ & Ho & _) & Hps); [done|unfold few_shipments; by rewrite Hsh|].
  pose proof (steps_ok _ _ Hok1 Hs2) as Hok2.
  exists s2. split; [by etrans|]. intros id row Hr.
  destruct (Hpub _ _ Hr) as (row' & Hr' & Hn & Hsid & Hpay). rewrite <- Ho in Hr'.
  rewrite list.Forall_forall in Hps.
  assert (length (sy_log s2 (partition_of (or_shipment_id row))) ≤ sy_offset s2 (partition_of (or_shipment_id row))) as Hend.
  { apply (Hps (partition_of (or_shipment_id row))). apply list_elem_of_fmap.
    exists (id, row). split; [done|]. by apply elem_of_map_to_list. }
  destruct (published_completes s2 id row' Hok2 Hr' Hn) as [Hk Hd]; [by rewrite Hsid|].
  rewrite Hsid, Hpay in *. split; [by exists row'|]. by split.
Qed.

End progress.

Section examples.
#[local] Existing Instances ref_PgScan.

Lemma every_event_can_complete_witness :
  ∃ s' i d, rtc (sys_step (λ _, 0)) (mkSys ex_db1 ∅ (λ _, []) (λ _, 0) (λ _, false)) s' ∧
    dispatches (sy_db s') !! i = Some d ∧ dr_shipment_id d = NewShipmentID "abcdefgh".
Proof.
  assert (is_Some (outbox_events ex_db1 !! NewEventID "ijklmnop")) as [row Hrow] by (vm_compute; eexists; reflexivity).
  assert (or_shipment_id row = NewShipmentID "abcdefgh") as Hsid.
  { transitivity (default "" (or_shipment_id <$> outbox_events ex_db1 !! NewEventID "ijklmnop"));
      [by rewrite Hrow|vm_compute; reflexivity]. }
  destruct (every_event_can_complete (λ _, 0) (mkSys ex_db1 ∅ (λ _, []) (λ _, 0) (λ _, false)))
    as (s' & Hs & Hall).
  - eapply rtc_l; [exact ex_create_step|apply rtc_refl].
  - intros id r Hr _. revert id r Hr.
    change (map_Forall (λ _ r, int32_ok (or_attempts r + 1) = true) (outbox_events ex_db1)).
    apply (bool_decide_unpack _). vm_compute. exact I.
  - vm_compute. intros Hc. discriminate Hc.
  - destruct (Hall _ _ Hrow) as (_ & _ & i & d & Hi & _ & Hd). exists s', i, d.
    exact (conj Hs (conj Hi (eq_trans Hd Hsid))).
Defined.

End examples.
