(* ===== verification/Delivery.v ===== *)
(** * Delivery

    The code delivers.  Whatever crashes and failures came before, once the
    database and Kafka work again the loops of the relay and the consumer, as
    [Relay.Run] and [Consumer.Run] run them, publish every pending event, handle
    every record of the topic that no offset covers, each once, and leave every
    stored event with its dispatch; the numbers of polls are given.  Progress says
    that the system has a way to that end, this file that the code takes it. *)
From S2P Require Import Prelude GoErrors GoStrconv GoUtf8 GoTime Domain Events Jsonb GoContext Observability Database Storage Broker Relay Pricing Consumer ShipmentApi Config App Binaries System Implementation Progress.

(** What Kafka keeps of the consumer group, by partition: the committed offset and
    the position the client has reached; the bytes drawn so far, and how many draws
    are left before some are drawn again; and whether the services work now. *)
Class Group (W : Type) := {
  committed : W → nat → nat;
  position : W → nat → nat;
  drawn : W → gset string;
  draws_left : W → nat;
  healthy : W → Prop
}.

(** One place of a list counts one more. *)
Lemma sum_list_with_step {A} `{!EqDecision A} (f g : A → nat) (p : A) l :
  NoDup l → p ∈ l → f p = S (g p) → (∀ q, q ≠ p → f q = g q) → sum_list_with f l = S (sum_list_with g l).
Proof.
  intros Hnd Hp Hfp Hf. induction Hnd as [|x l Hx Hnd IH]; [by apply not_elem_of_nil in Hp|]. cbn.
  apply elem_of_cons in Hp as [<-|Hp].
  - rewrite Hfp. enough (sum_list_with f l = sum_list_with g l) by lia.
    clear Hnd IH. induction l as [|y l IH]; [done|]. apply not_elem_of_cons in Hx as [Hy Hx]. cbn. rewrite IH by done.
    by rewrite Hf by done.
  - rewrite IH, Hf by (done || congruence). lia.
Qed.

Section delivery.
Context {IJ : Jsonb} {IS : PgScan} {IP : Pgconn} {IG : GrpcStatus} {W : Type} {IC : Clock W} {IX : Pgxpool W}
  {IK : Kgo W} {IM : GoMap} {IR : Rand W} {IPr : Pricer W} {IWc : WallClock W} {IKC : KafkaConsumer (St W)}
  {IT : TopicWorld W} {IGr : Group W} (IPool : pgpool → Pool W) (partition_of : string → nat) (partitions : list nat).
Implicit Types (st : St W) (w : W).
Notation sys_step := (sys_step partition_of).
Notation reachable := (reachable partition_of).

(** ** Working services *)

(** An operation that is not about the group. *)
Definition same_group w w' : Prop :=
  committed w' = committed w ∧ position w' = position w ∧ drawn w ⊆ drawn w' ∧ draws_left w ≤ draws_left w' ∧
  (healthy w → healthy w').

(** A client's operation that neither writes to the topic nor commits. *)
Definition reads st st' : Prop :=
  st_db st' = st_db st ∧ topic (st_ext st') = topic (st_ext st) ∧
  committed (st_ext st') = committed (st_ext st) ∧ drawn (st_ext st) ⊆ drawn (st_ext st') ∧
  draws_left (st_ext st) ≤ draws_left (st_ext st') ∧ (healthy (st_ext st) → healthy (st_ext st')).

Definition unread w : Prop := ∃ p, p ∈ partitions ∧ position w p < length (topic w p).

(** While the services work, and from then on they do, the database runs every
    transaction, Kafka answers while the context lasts, and a poll of a topic with
    unread records returns the next one of a partition.  What is drawn is new while
    draws are left. *)
Record works : Prop := mk_works {
  wk_begin pool {A} (body : TX W A) st : healthy (st_ext st) →
    ∃ at_, @BeginFunc W (IPool pool) A body st = ref_begin at_ body st;
  wk_produce ctx c rec w : healthy w → ctx_Err ctx w = None →
    (ProduceSync ctx c rec w).1 = None ∧ same_group w (ProduceSync ctx c rec w).2;
  wk_wait t w : same_group w (wait_until t w);
  wk_rand w : let (b, w') := rand8 w in
    committed w' = committed w ∧ position w' = position w ∧ drawn w ⊆ drawn w' ∧ b ∈ drawn w' ∧
    (0 < draws_left w → b ∉ drawn w) ∧ draws_left w ≤ S (draws_left w') ∧ (healthy w → healthy w');
  wk_new cfg st : healthy (st_ext st) →
    (consumer_New cfg st).1 = None ∧ reads st (consumer_New cfg st).2 ∧
    position (st_ext (consumer_New cfg st).2) = committed (st_ext st);
  wk_ping ctx st : healthy (st_ext st) → ctx_Err ctx st = None →
    (consumer_Ping ctx st).1 = None ∧ reads st (consumer_Ping ctx st).2 ∧
    position (st_ext (consumer_Ping ctx st).2) = position (st_ext st);
  wk_poll ctx st : healthy (st_ext st) → ctx_Err ctx st = None → unread (st_ext st) →
    ∃ p lr, let k := position (st_ext st) p in
      topic (st_ext st) p !! k = Some lr ∧
      (PollRecords ctx 1 st).1 = mkFetches false [mkRecord (Z.of_nat p) (Z.of_nat k) (lr_value lr)] ∧
      reads st (PollRecords ctx 1 st).2 ∧
      position (st_ext (PollRecords ctx 1 st).2) = fn_set p (S k) (position (st_ext st));
  wk_commit ctx p k v st : healthy (st_ext st) → ctx_Err ctx st = None →
    let (err, st') := CommitRecords ctx (mkRecord (Z.of_nat p) (Z.of_nat k) v) st in
    err = None ∧ committed (st_ext st') = fn_set p (S k) (committed (st_ext st)) ∧
    position (st_ext st') = position (st_ext st) ∧ drawn (st_ext st) ⊆ drawn (st_ext st') ∧
    draws_left (st_ext st) ≤ draws_left (st_ext st') ∧ healthy (st_ext st');
  wk_allow st : reads st (AllowRebalance st) ∧ position (st_ext (AllowRebalance st)) = position (st_ext st)
}.

Hypothesis laws : topic_laws partition_of.
Hypothesis up : works.
Hypothesis partitions_nodup : NoDup partitions.
Hypothesis partitions_all : ∀ key, partition_of key ∈ partitions.

Lemma same_group_refl w : same_group w w.
Proof. by split_and!. Qed.
Lemma same_group_trans w1 w2 w3 : same_group w1 w2 → same_group w2 w3 → same_group w1 w3.
Proof. intros (? & ? & ? & ? & ?) (? & ? & ? & ? & ?). split_and!; [congruence..|by etrans|lia|auto]. Qed.

(** ** What holds between the operations *)

(** Every dispatch has an identifier that was drawn. *)
Definition ids_drawn st : Prop :=
  ∀ id, is_Some (dispatches (st_db st) !! id) → ∃ b, b ∈ drawn (st_ext st) ∧ id = NewDispatchID b.

Definition group_rel st : Sys → Prop := impl_rel (mkImpl st (committed (st_ext st))).

Record ready st (s : Sys) : Prop := mk_ready {
  rd_healthy : healthy (st_ext st);
  rd_reachable : reachable s;
  rd_rel : group_rel st s;
  rd_drawn : ids_drawn st;
  rd_retriable : retriable (st_db st)
}.

Lemma ready_ok st s : ready st s → sys_ok partition_of s.
Proof. intros []. by apply reachable_ok. Qed.

Lemma ready_db st s : ready st s → sy_db s = st_db st.
Proof. by intros [_ _ (? & _) _ _]. Qed.

Lemma ready_topic st s : ready st s → sy_log s = topic (st_ext st).
Proof. by intros [_ _ (_ & ? & _) _ _]. Qed.

Lemma reachable_steps s s' : reachable s → rtc sys_step s s' → reachable s'.
Proof. unfold System.reachable. intros. by etrans. Qed.

(** Time that passes, and reading from the topic, keep a state ready. *)
Lemma ready_reads st st' s : reads st st' → ready st s → ready st' s.
Proof.
  intros (Hd & Ht & Hc & Hdr & _ & Hh) [Hok Hr (E1 & E2 & E3 & E4) Hi Hret].
  cbn in *. split; [by apply Hh|done| | |by rewrite Hd].
  - split_and!; cbn; congruence.
  - intros id Hs. rewrite Hd in Hs. destruct (Hi id Hs) as (b & Hb & ->). exists b. split; [by apply Hdr|done].
Qed.

Lemma wait_reads t st : reads st (wait_until t st).
Proof. destruct (wk_wait up t (st_ext st)) as (? & ? & ? & ? & ?). split_and!; try done. apply laws. Qed.

Lemma wait_ready t st s : ready st s → ready (wait_until t st) s.
Proof. apply ready_reads, wait_reads. Qed.

Lemma fresh_timeout {V} {IV : Clock V} ctx d (v : V) :
  ctx_done ctx = None → (0 < d)%Z → ctx_Err (WithTimeout ctx d v) v = None.
Proof.
  intros Hd Hpos. unfold ctx_Err, WithTimeout. rewrite Hd. cbn. destruct (Z.leb_spec (now v + d) (now v)); [lia|done].
Qed.

(** ** The records that no offset covers *)

Definition uncommitted (w : W) : nat := sum_list_with (λ q, length (topic w q) - committed w q) partitions.

Lemma uncommitted_none w q : uncommitted w = 0 → q ∈ partitions → length (topic w q) ≤ committed w q.
Proof.
  unfold uncommitted. clear partitions_nodup partitions_all.
  induction partitions as [|x l IH]; cbn; intros H Hq; [by apply not_elem_of_nil in Hq|].
  apply elem_of_cons in Hq as [->|Hq]; [lia|]. apply IH; [lia|done].
Qed.

Lemma some_uncommitted w n : uncommitted w = S n → ∃ p, p ∈ partitions ∧ committed w p < length (topic w p).
Proof.
  unfold uncommitted. clear partitions_nodup partitions_all. induction partitions as [|x l IH]; cbn; [done|]. intros H.
  destruct (decide (committed w x < length (topic w x))); [exists x; split; [by left|done]|].
  destruct IH as (p & ? & ?); [lia|]. exists p. split; [by right|done].
Qed.

(** Committing the next record of a partition. *)
Lemma uncommitted_commit w w' p :
  topic w' = topic w → committed w' = fn_set p (S (committed w p)) (committed w) →
  committed w p < length (topic w p) → p ∈ partitions → uncommitted w = S (uncommitted w').
Proof.
  intros Ht Hc Hlt Hp. apply (sum_list_with_step _ _ p); try done; rewrite Ht, Hc; unfold fn_set.
  - rewrite decide_True by done. lia.
  - intros q Hq. by rewrite decide_False.
Qed.

(** An offset covers only records that exist. *)
Definition within w : Prop := ∀ q, committed w q ≤ length (topic w q).

Lemma within_append w w' msg :
  topic w' = append partition_of (topic w) msg → committed w' = committed w → within w → within w'.
Proof.
  intros Ht Hc Hle q. rewrite Ht, Hc. specialize (Hle q). unfold append, fn_set. case_decide; [|done]. subst.
  rewrite length_app. lia.
Qed.

(** Publishing a record. *)
Lemma uncommitted_append w w' msg :
  topic w' = append partition_of (topic w) msg → committed w' = committed w → within w → uncommitted w' = S (uncommitted w).
Proof.
  intros Ht Hc Hle. apply (sum_list_with_step _ _ (partition_of (m_Key msg))); try done; rewrite Ht, Hc;
    unfold append, fn_set.
  - rewrite decide_True, length_app by done. specialize (Hle (partition_of (m_Key msg))). cbn. lia.
  - intros q Hq. by rewrite decide_False.
Qed.

Lemma topic_partition st s p k lr : ready st s → topic (st_ext st) p !! k = Some lr → p ∈ partitions.
Proof.
  intros Hrd Hl. rewrite <- (ready_topic _ _ Hrd) in Hl. destruct (so_log _ _ (ready_ok _ _ Hrd) _ _ _ Hl) as [-> _].
  apply partitions_all.
Qed.

Lemma committed_within st s : ready st s → within (st_ext st).
Proof.
  intros Hrd q. destruct (committed (st_ext st) q) as [|k] eqn:Ek; [lia|].
  assert (sy_offset s = committed (st_ext st)) as Hoff by apply (rd_rel _ _ Hrd).
  destruct (so_offset _ _ (ready_ok _ _ Hrd) q k) as (rec & _ & Hl & _); [rewrite Hoff; lia|].
  rewrite (ready_topic _ _ Hrd) in Hl. by apply lookup_lt_Some in Hl.
Qed.

(** ** A poll of the relay *)

Lemma claimPending_run limit (now : Time) locked w db : (0 ≤ limit)%Z →
  claimPending limit (mkTx now locked [] w db) =
    (Ok (scanOutboxEvent <$> claimed_rows locked limit db), mkTx now locked [] w db).
Proof.
  intros Hl. unfold claimPending, tx_bind, tx_map_err, exec, select_pending, must. cbn [tx_faults tx_locked tx_now tx_db].
  assert (0 <=? limit = true)%Z as -> by lia. done.
Qed.

(** Kafka acknowledges the whole batch. *)
Lemma publish_all p batch acc w :
  (0 < p_timeout p)%Z → Forall (λ evt, ∃ msg, MessageFor evt = Ok msg) batch → healthy w → within w →
  let IPb := kafka_PublisherI p in
  ∃ w', publish_loop Background batch acc w = (mkPublishResult (acc ++ (oe_EventID <$> batch)) "" None, w') ∧
    same_group w w' ∧ uncommitted w' = uncommitted w + length batch.
Proof.
  intros Hp Hm Hh Hw IPb. revert acc w Hh Hw.
  induction Hm as [|evt batch [msg Hmsg] _ IH]; intros acc w Hh Hw; cbn [publish_loop].
  { exists w. rewrite app_nil_r. split; [done|]. split; [apply same_group_refl|cbn; lia]. }
  rewrite Hmsg. cbn [publish IPb kafka_PublisherI]. unfold Broker.Publish.
  match goal with |- context [ProduceSync ?c ?k ?r w] =>
    destruct (wk_produce up c k r w Hh) as [He Hg]; [by apply fresh_timeout|]; pose proof (tl_produce _ laws c k r w) as Ht;
    destruct (ProduceSync c k r w) as [err w1] end.
  cbn in He, Hg. subst err. cbn in Ht |- *. rewrite append_message in Ht.
  pose proof (uncommitted_append _ _ _ Ht (proj1 Hg) Hw) as Hu.
  destruct (IH (acc ++ [oe_EventID evt]) w1) as (w' & -> & Hg' & Hu').
  { by apply Hg. }
  { by eapply within_append; [..|apply Hg|]. }
  exists w'. rewrite <- app_assoc. split; [done|]. split; [by eapply same_group_trans|cbn; lia].
Qed.

Lemma nothing_claimed limit db : (0 < limit)%Z → (claimed_rows ∅ limit db).*1 = [] → pending_ids db = ∅.
Proof.
  intros Hl E%fmap_nil_inv. destruct (claimed_rows_perm ∅ limit db) as (rest & Hp & _ & Hn). rewrite E in Hp, Hn.
  cbn in Hp, Hn.
  destruct rest as [|x rest]; [|specialize (Hn ltac:(done)); lia].
  apply elem_of_equiv_empty_L. intros id (row & Hr & Hpe)%pending_ids_elem.
  assert ((id, row) ∈ claimable ∅ db) as Hin by (apply claimable_elem; set_solver).
  rewrite <- Hp in Hin. by apply elem_of_nil in Hin.
Qed.

(** What marking a batch published leaves. *)
Lemma settled_db now ids db db' :
  outbox_step (settle now (mkPublishResult ids "" None)) db db' →
  (∀ id, id ∈ ids → id ∈ pending_ids db) → retriable db →
  retriable db' ∧ grows db db' ∧ dispatches db' = dispatches db ∧
  pending_ids db' = pending_ids db ∖ list_to_set ids.
Proof.
  intros Hst Hids Hret. split; [|split; [by eapply outbox_step_grows|split; [apply Hst|]]].
  - intros id row' Hr Hp. destruct Hst as (_ & _ & _ & Hst). rewrite Hst in Hr.
    apply fmap_Some in Hr as (row & Hr & ->). revert Hp. unfold settle. cbn.
    rewrite (bool_decide_eq_false_2 (_ ∧ _)) by naive_solver.
    case_bool_decide as Hin; [|intros Hp; by apply (Hret _ _ Hr)].
    intros Hp. exfalso. revert Hp. unfold pending. by cbn.
  - apply (outbox_step_pending now (mkPublishResult ids "" None)); [exact Hst|]. cbn. intros id row Hr Hin.
    apply Hids, pending_ids_elem in Hin as (row' & Hr' & Hp). congruence.
Qed.

(** The events a transaction claims, by identifier. *)
Definition claimed_now (limit : Z) db : list string := (claimed_rows ∅ limit db).*1.

Lemma claimed_pending limit db id : id ∈ claimed_now limit db → id ∈ pending_ids db.
Proof.
  intros ([id' row] & -> & Hr)%list_elem_of_fmap. apply pending_ids_elem. exists row.
  destruct (claimed_facts ∅ limit db) as (_ & _ & _ & Hf & _). by apply Hf in Hr as (? & ? & _).
Qed.

Lemma poll_tx_run p limit at_ w db s :
  sys_ok partition_of s → sy_db s = db → retriable db → healthy w → within w → (0 < limit)%Z → (0 < p_timeout p)%Z →
  let IPb := kafka_PublisherI p in
  ∃ t, process_tx limit (publishBatch Background) (mkTx at_ ∅ [] w db) =
         (Ok (mkPublishResult (claimed_now limit db) "" None), t) ∧ same_group w (tx_ext t) ∧
    uncommitted (tx_ext t) = uncommitted w + length (claimed_now limit db).
Proof.
  intros Hok <- Hret Hh Hw Hlim Hpt IPb. set (db := sy_db s) in *. unfold process_tx. unfold tx_bind at 1.
  rewrite claimPending_run by lia. unfold claimed_now. rewrite <- (claimed_ids ∅ limit db).
  destruct (claimed_facts ∅ limit db) as (_ & _ & _ & Hfacts & _).
  assert (∀ evt, evt ∈ scanOutboxEvent <$> claimed_rows ∅ limit db → ∃ row, outbox_events db !! oe_EventID evt = Some row ∧
    pending row ∧ oe_Payload evt = or_payload row) as Hrows.
  { intros evt ([id row] & -> & (Hr & Hp & _)%Hfacts)%list_elem_of_fmap. by exists row. }
  destruct (scanOutboxEvent <$> claimed_rows ∅ limit db) as [|evt batch].
  { eexists. split; [done|]. split; [apply same_group_refl|cbn; lia]. }
  set (full := evt :: batch) in *. unfold tx_bind at 1, tx_do. cbn [tx_ext].
  destruct (publish_all p full [] w Hpt) as (w1 & Ep & Hg & Hu); [|done..|].
  { apply list.Forall_forall. intros e (row & Hr & _ & Hpay)%Hrows.
    destruct (proj1 (so_outbox _ _ Hok) _ _ Hr) as (_ & c & sr & Hd & _). eapply MessageFor_possible. by rewrite Hpay. }
  subst IPb. unfold publishBatch. rewrite Ep. cbn [app tx_now tx_locked tx_faults tx_db].
  destruct (mark_everything at_ ∅ w1 db (oe_EventID <$> full) Hret) as (t & Em & Ht).
  { intros id row (e & -> & (row' & Hr & Hp & _)%Hrows)%list_elem_of_fmap Hr'. congruence. }
  exists t. rewrite Ht, length_fmap. split; [|done]. revert Em. unfold tx_bind.
  destruct (mark_tx _ _) as [[u|e] t1]; [|done].
  destruct (fail_tx _ t1) as [[[]|e] t2]; [|done]. by intros [= <-].
Qed.

(** A poll publishes a batch, the whole backlog if it fits. *)
Lemma poll_ready pool p limit st s :
  let IPo := IPool pool in let IPb := kafka_PublisherI p in
  ready st s → (0 < limit)%Z → (0 < p_timeout p)%Z →
  let ids := claimed_now limit (st_db st) in
  ∃ st' s', outbox_ProcessPending Background limit publishBatch st = (Ok (mkPublishResult ids "" None), st') ∧
    rtc sys_step s s' ∧ ready st' s' ∧ grows (st_db st) (st_db st') ∧
    size (pending_ids (st_db st')) + length ids = size (pending_ids (st_db st)) ∧
    uncommitted (st_ext st') = uncommitted (st_ext st) + length ids ∧ draws_left (st_ext st) ≤ draws_left (st_ext st').
Proof.
  intros IPo IPb Hrd Hlim Hpt ids. pose proof (rd_retriable _ _ Hrd) as Hret.
  destruct (wk_begin up pool (process_tx limit (publishBatch Background)) st (rd_healthy _ _ Hrd)) as [at_ Hb].
  unfold ref_begin in Hb.
  destruct (poll_tx_run p limit at_ (st_ext st) (st_db st) s) as (t & Et & Hg & Hu);
    [by apply (ready_ok st)|by apply ready_db|done|apply Hrd|by eapply committed_within|done..|].
  cbn zeta in Et. unfold IPb in Hb. rewrite Et in Hb. set (st' := mkSt (tx_ext t) (tx_db t)) in *.
  assert (outbox_ProcessPending Background limit publishBatch st = (Ok (mkPublishResult ids "" None), st')) as E.
  { cbn. unfold ProcessPending, classified, IPo, IPb. by rewrite Hb. }
  destruct Hg as (Hc & _ & Hdr & Hleft & Hh).
  destruct (poll_refines IPool partition_of laws pool p Background limit st (committed (st_ext st)) _ _ s E (rd_rel _ _ Hrd))
    as (s' & Hs' & Hrel).
  assert (retriable (st_db st') ∧ grows (st_db st) (st_db st') ∧ dispatches (st_db st') = dispatches (st_db st) ∧
    pending_ids (st_db st') = pending_ids (st_db st) ∖ list_to_set ids) as (Hret' & Hgr & Hd & Hpend).
  { apply process_tx_ok in Et as [(_ & E0 & Ed & _)|(_ & _ & Hst)]; cbn in *.
    - injection E0 as E0. unfold ids. rewrite E0, Ed. split_and!; [done|apply grows_refl|done|set_solver].
    - apply (settled_db at_ ids); [exact Hst|apply claimed_pending|done]. }
  exists st', s'. split; [done|]. split; [done|]. split; [|split; [done|]].
  - split; [by apply Hh, Hrd|by eapply reachable_steps; [apply Hrd|]| | |done].
    + unfold group_rel. cbn. by rewrite Hc.
    + intros id Hs. rewrite Hd in Hs. destruct (rd_drawn _ _ Hrd id Hs) as (b & ? & ->). exists b. by split; [apply Hdr|].
  - assert (NoDup ids) by apply (claimed_facts ∅ limit). rewrite Hpend.
    assert (list_to_set ids ⊆ pending_ids (st_db st)) as Hsub.
    { intros id Hid%elem_of_list_to_set. by apply (claimed_pending limit). }
    pose proof (subseteq_size _ _ Hsub) as Hle. rewrite size_list_to_set in Hle by done.
    rewrite size_difference, size_list_to_set by done. split; [lia|done].
Qed.

(** ** The loop of the relay *)

Lemma grows_trans db1 db2 db3 : grows db1 db2 → grows db2 db3 → grows db1 db3.
Proof.
  intros (H1 & H2 & H3) (I1 & I2 & I3). split_and!; [|by etrans..]. intros id row Hr.
  destruct (H1 _ _ Hr) as (row1 & Hr1 & ? & ?). destruct (I1 _ _ Hr1) as (row2 & Hr2 & ? & ?).
  exists row2. split_and!; [done|congruence..].
Qed.

(** One iteration of [Run] publishes at least an event of a backlog, counts what it
    published and no failure, and goes on. *)
Lemma relay_step pool p cfg backoff st s m :
  let IPo := IPool pool in let IPb := kafka_PublisherI p in
  ready st s → (0 < BatchSize cfg)%Z → (0 < p_timeout p)%Z →
  ∃ b st' m' s' (n : nat), run_step cfg Background backoff st m = (Some b, st', m') ∧
    rtc sys_step s s' ∧ ready st' s' ∧ grows (st_db st) (st_db st') ∧
    size (pending_ids (st_db st')) + n = size (pending_ids (st_db st)) ∧
    uncommitted (st_ext st') = uncommitted (st_ext st) + n ∧ draws_left (st_ext st) ≤ draws_left (st_ext st') ∧
      (n = 0 → pending_ids (st_db st) = ∅) ∧
    mt_published m' = (mt_published m + Z.of_nat n)%Z ∧ mt_failures m' = mt_failures m.
Proof.
  intros IPo IPb Hrd Hb Hpt. unfold run_step, poll.
  assert (∃ g, ObserveBacklog Background st m = (Relay.mkMetrics (mt_published m) (mt_failures m) g, st)) as [g ->].
  { unfold ObserveBacklog. cbn. unfold CountPending, classified.
    destruct (Query count_pending st) as [r st1] eqn:E. apply Query_cases in E as E'.
    destruct E' as [(e & -> & -> & _)|(nw & n & -> & Hs & Hx)]; cbn; [destruct m; by eexists|].
    assert (st1 = st) as -> by (destruct st, st1; cbn in *; injection Hs as _ <-; by subst). by eexists. }
  destruct (poll_ready pool p (BatchSize cfg) st s Hrd Hb Hpt) as (st' & s' & E & Hs' & Hrd' & Hg & Hsize & Hu & Hleft).
  unfold IPo, IPb. rewrite E. set (ids := claimed_now _ _) in *.
  change (ctx_Err Background st') with (@None goerr). unfold after_poll. cbn [pr_Failed pr_Published].
  rewrite (bool_decide_eq_false_2 ("" ≠ "")) by naive_solver.
  assert (∀ wait, ∃ t, sleep Background wait st' = (None, if (wait <=? 0)%Z then st' else wait_until t st')) as Hsleep.
  { intros wait. unfold sleep. by destruct (wait <=? 0)%Z; eexists. }
  assert (∀ t (c : bool), let st1 := if c then st' else wait_until t st' in
    ready st1 s' ∧ st_db st1 = st_db st' ∧ uncommitted (st_ext st1) = uncommitted (st_ext st') ∧
    draws_left (st_ext st') ≤ draws_left (st_ext st1)) as Hwait.
  { intros t []; cbn zeta; [by split_and!|]. pose proof (wait_reads t st') as Hr. split; [by apply wait_ready|].
    split; [done|]. destruct Hr as (_ & Ht & Hc & _ & Hl & _). split; [|done]. unfold uncommitted. by rewrite Ht, Hc. }
  assert (length ids = 0 → pending_ids (st_db st) = ∅) as Hnone.
  { intros E0%nil_length_inv. by apply (nothing_claimed (BatchSize cfg)). }
  destruct (0 <? Z.of_nat (length ids))%Z; match goal with |- context [sleep Background ?d st'] =>
    destruct (Hsleep d) as [t ->]; destruct (Hwait t (d <=? 0)%Z) as (Hr & Hd & Hu1 & Hl1) end;
    (eexists _, _, _, s', (length ids); split; [reflexivity|]; rewrite Hd, Hu1; cbn in Hl1 |- *; split_and!; try done; lia).
Qed.

(** As many polls as there are pending events publish them all. *)
Lemma relay_delivers pool p cfg n backoff st s m :
  let IPo := IPool pool in let IPb := kafka_PublisherI p in
  ready st s → (0 < BatchSize cfg)%Z → (0 < p_timeout p)%Z → size (pending_ids (st_db st)) ≤ n →
  ∃ b st' m' s', run_loop n cfg Background backoff st m = (Some b, st', m') ∧
    rtc sys_step s s' ∧ ready st' s' ∧ grows (st_db st) (st_db st') ∧ pending_ids (st_db st') = ∅ ∧
    uncommitted (st_ext st') = uncommitted (st_ext st) + size (pending_ids (st_db st)) ∧
    draws_left (st_ext st) ≤ draws_left (st_ext st') ∧
    mt_published m' = (mt_published m + Z.of_nat (size (pending_ids (st_db st))))%Z ∧ mt_failures m' = mt_failures m.
Proof.
  intros IPo IPb Hrd Hb Hpt. revert backoff st s m Hrd. induction n as [|n IH]; intros backoff st s m Hrd Hn.
  { eexists _, st, m, s. cbn [run_loop]. assert (size (pending_ids (st_db st)) = 0) as E by lia.
    split_and!; [done..|apply grows_refl|by apply size_empty_inv, leibniz_equiv in E|lia|done|rewrite E; cbn; lia|done]. }
  destruct (relay_step pool p cfg backoff st s m Hrd Hb Hpt)
    as (b & st1 & m1 & s1 & k & E & Hs1 & Hrd1 & Hg1 & Hk & Hu1 & Hl1 & Hk0 & Hm1 & Hf1).
  destruct (IH b st1 s1 m1 Hrd1) as (b' & st' & m' & s' & E' & Hs' & Hrd' & Hg' & Hp' & Hu' & Hl' & Hm' & Hf').
  { destruct k; [rewrite Hk0, size_empty in Hk by done; lia|lia]. }
  exists b', st', m', s'. cbn [run_loop]. unfold IPo, IPb. rewrite E.
  split_and!; [exact E'|by etrans|done| |done|lia..|congruence].
  by eapply grows_trans.
Qed.

(** ** A record *)

(** What a transaction that recorded a dispatch drew. *)
Lemma record_tx_drew req (t : tx W) r t' :
  record_tx req t = (Ok r, t') →
  (tx_ext t' = tx_ext t ∧ r = (zero_Dispatch, true)) ∨
  (tx_ext t' = (rand8 (tx_ext t)).2 ∧ d_ID r.1 = NewDispatchID (rand8 (tx_ext t)).1 ∧ r.2 = false).
Proof.
  unfold record_tx. unfold tx_bind at 1.
  pose proof (ext_exec (wrapf "insert processed_event: ") (insert_processed (rq_EventID req)) t) as H1.
  destruct (tx_map_err _ _ t) as [[rows|e] t1]; cbn in H1; [|done].
  case_bool_decide; [intros [= <- <-]; by left|]. unfold tx_bind at 1, tx_do. rewrite H1.
  destruct (rand8 (tx_ext t)) as [rnd w]. unfold tx_bind, tx_try.
  match goal with |- context [exec ?q ?t0] => destruct (exec_cases q t0)
    as (fs & _ & [(e & -> & _)|(at_ & db & -> & _)]) end.
  - by destruct (isUniqueViolation e).
  - intros [= <- <-]. by right.
Qed.

(** A fresh identifier is drawn when one is needed, so recording cannot fail. *)
Lemma dispatch_ready pool st s p k rec evt :
  let IPo := IPool pool in
  ready st s → 0 < draws_left (st_ext st) → topic (st_ext st) p !! k = Some rec → Decode (lr_value rec) = Ok evt →
  ∃ d st', RecordDispatch (request_of evt) st = (Ok d, st') ∧
    committed (st_ext st') = committed (st_ext st) ∧ position (st_ext st') = position (st_ext st) ∧ ids_drawn st' ∧
    outbox_events (st_db st') = outbox_events (st_db st) ∧ draws_left (st_ext st) ≤ S (draws_left (st_ext st')) ∧
      healthy (st_ext st').
Proof.
  intros IPo Hrd Hleft Hl Hd. pose proof (wk_rand up (st_ext st)) as Hrand.
  destruct (rand8 (st_ext st)) as [rnd w'] eqn:Erand. destruct Hrand as (Hc & Hp & Hdr & Hin & Hnew & Hless & Hh).
  pose proof (rd_healthy _ _ Hrd) as Hh0.
  destruct (wk_begin up pool (record_tx (request_of evt)) st Hh0) as [at_ Hb]. unfold ref_begin in Hb.
  rewrite <- (ready_db _ _ Hrd) in Hb. rewrite <- (ready_topic _ _ Hrd) in Hl.
  destruct (record_runs partition_of s p k rec evt at_ (st_ext st)) as (r & t & E); try done.
  { by apply (ready_ok st). }
  { intros _. apply eq_None_not_Some. rewrite (ready_db _ _ Hrd). intros (b & Hb' & Ei%newID_inj)%(rd_drawn _ _ Hrd).
    rewrite Erand in Ei. cbn in Ei. subst b. by apply Hnew. }
  rewrite E in Hb. exists r, (mkSt (tx_ext t) (tx_db t)).
  assert (RecordDispatch (request_of evt) st = (Ok r, mkSt (tx_ext t) (tx_db t))) as Er.
  { unfold RecordDispatch, classified, IPo. by rewrite Hb. }
  split; [done|]. apply RecordDispatch_cases in Er.
  apply record_tx_drew in E as [(Ex & ->)|(Ex & Hid & Hr)]; cbn in *.
  - destruct Er as (_ & _ & Edb). rewrite Ex, Edb. split_and!; try done; [|lia]. intros id Hs. by apply (rd_drawn _ _ Hrd).
  - destruct r as [d []]; [done|]. rewrite Erand in Ex, Hid. cbn in *. destruct Er as (_ & _ & _ & _ & _ & c & _ & Edb).
    rewrite Ex. split_and!; [done|done| |by rewrite Edb|lia|auto]. intros id Hs. cbn in Hs. rewrite Edb in Hs. cbn in *.
    destruct (decide (id = d_ID d)) as [->|Hne]; [by eexists|]. rewrite lookup_insert_ne in Hs by done.
    destruct (rd_drawn _ _ Hrd id Hs) as (b & ? & ->). exists b. by split; [apply Hdr|].
Qed.

(** The next record of a partition is handled at the first attempt and its offset
    committed. *)
Lemma record_ready pool cfg p lr st s m :
  let IPo := IPool pool in let k := committed (st_ext st) p in
  ready st s → 0 < draws_left (st_ext st) → topic (st_ext st) p !! k = Some lr → (0 < RecordTimeout cfg)%Z →
  ∃ st' m' s', processRecord cfg Background (mkRecord (Z.of_nat p) (Z.of_nat k) (lr_value lr)) st m = Some (None, st', m') ∧
    rtc sys_step s s' ∧ ready st' s' ∧ outbox_events (st_db st') = outbox_events (st_db st) ∧
    topic (st_ext st') = topic (st_ext st) ∧ committed (st_ext st') = fn_set p (S k) (committed (st_ext st)) ∧
    position (st_ext st') = position (st_ext st) ∧ draws_left (st_ext st) ≤ S (draws_left (st_ext st')) ∧
    Consumer.mt_durations m' = (Consumer.mt_durations m + 1)%Z.
Proof.
  intros IPo k Hrd Hleft Hl Hto. pose proof (ready_ok _ _ Hrd) as Hok.
  assert (∃ evt, Decode (lr_value lr) = Ok evt) as [evt Hd].
  { pose proof Hl as Hl'. rewrite <- (ready_topic _ _ Hrd) in Hl'.
    destruct (so_log _ _ Hok _ _ _ Hl') as (_ & id & row & Hr & -> & _).
    destruct (proj1 (so_outbox _ _ Hok) _ _ Hr) as (_ & evt & sr & Hd & _). by exists evt. }
  destruct (dispatch_ready pool st s p k lr evt Hrd Hleft Hl Hd) as (d & st1 & Er & Hc1 & Hp1 & Hdrawn & Ho & Hl1 & Hh1).
  pose proof (RecordDispatch_topic partition_of laws (IPo := IPo) (request_of evt) st) as Ht1. unfold IPo in Ht1.
  rewrite Er in Ht1. cbn in Ht1.
  set (rec := mkRecord (Z.of_nat p) (Z.of_nat k) (lr_value lr)).
  assert (∃ o, Handle (Consumer.Retry cfg) (WithTimeout Background (RecordTimeout cfg) st) rec st m =
    Some (o, None, st1, observe_duration (inc_event o m))) as [o Eh].
  { unfold Handle, handle, rec. cbn [rec_Value]. rewrite Hd. unfold handle_fuel.
    cbn [attempts store_RecordDispatch store_DispatchStore].
    unfold IPo. rewrite Er. destruct d as [d []]; by eexists. }
  pose proof (wk_commit up (WithTimeout Background commitTimeout st1) p k (lr_value lr) st1 Hh1) as Hcm.
  destruct (tl_commit _ laws (WithTimeout Background commitTimeout st1) rec st1) as [Hct Hcd].
  destruct (CommitRecords _ rec st1) as [err st'] eqn:Ec. fold rec in Hcm. rewrite Ec in Hcm.
  destruct Hcm as (-> & Hc2 & Hp2 & Hdr2 & Hl2 & Hh2); [by apply fresh_timeout|]. cbn in Hct, Hcd.
  assert (processRecord cfg Background rec st m = Some (None, st', observe_duration (inc_event o m))) as E.
  { unfold processRecord. unfold IPo in Eh |- *. rewrite Eh. cbn [mbind option_bind]. by rewrite Ec. }
  rewrite Hc1 in Hc2.
  destruct (record_refines IPool partition_of laws pool cfg Background p rec lr st (committed (st_ext st)) m
    None st' _ (committed (st_ext st')) s Hl eq_refl E) as (s' & Hs' & Hrel); [rewrite Hc2; constructor|apply Hrd|].
  exists st', (observe_duration (inc_event o m)), s'. split; [done|]. split; [done|].
  split; [|split_and!; [congruence|congruence|done|congruence|lia|done]].
  split; [done|by eapply reachable_steps; [apply Hrd|]|exact Hrel| |].
  - intros id Hs. rewrite Hcd in Hs. destruct (Hdrawn id Hs) as (b & ? & ->). exists b. by split; [apply Hdr2|].
  - unfold retriable. rewrite Hcd, Ho. apply Hrd.
Qed.

(** ** The loop of the consumer *)

(** As many polls as there are uncommitted records handle them all, each once. *)
Lemma consumer_delivers pool cfg n st s m :
  let IPo := IPool pool in
  ready st s → position (st_ext st) = committed (st_ext st) → (0 < RecordTimeout cfg)%Z → uncommitted (st_ext st) = n →
  n ≤ draws_left (st_ext st) →
  ∃ st' m' s', consume n cfg Background st m = Some (inr (), st', m') ∧
    rtc sys_step s s' ∧ ready st' s' ∧ outbox_events (st_db st') = outbox_events (st_db st) ∧
    uncommitted (st_ext st') = 0 ∧ Consumer.mt_durations m' = (Consumer.mt_durations m + Z.of_nat n)%Z.
Proof.
  intros IPo Hrd Hpos Hto. revert st s m Hrd Hpos. induction n as [|n IH]; intros st s m Hrd Hpos Hn Hleft; cbn [consume];
    change (ctx_Err Background st) with (@None goerr).
  { exists st, m, s. split_and!; try done. lia. }
  destruct (wk_poll up Background st) as (p & lr & Hl & Hf & Hreads & Hpos1); [apply Hrd|done| |].
  { destruct (some_uncommitted _ _ Hn) as (p & Hin & Hp). exists p. by rewrite Hpos. }
  destruct (PollRecords Background 1 st) as [fetches st1]. cbn [fst snd] in *. subst fetches.
  cbn [f_closed f_records processFetches].
  pose proof Hreads as (_ & Ht1 & Hc1 & _ & Hl1 & _). pose proof (ready_reads _ _ _ Hreads Hrd) as Hrd1.
  rewrite Hpos in Hl, Hpos1 |- *. rewrite <- Ht1 in Hl. rewrite <- Hc1 in Hl, Hpos1 |- *.
  destruct (record_ready pool cfg p lr st1 s m Hrd1 ltac:(lia) Hl Hto) 
    as (st2 & m2 & s2 & E & Hs2 & Hrd2 & Ho2 & Ht2 & Hc2 & Hp2 & Hl2 & Hm2).
  unfold IPo. rewrite E. cbn [mbind option_bind]. destruct (wk_allow up st2) as [Hreads3 Hpos3].
  pose proof Hreads3 as (Hd3 & Ht3 & Hc3 & _ & Hl3 & _). change (ctx_Err Background (AllowRebalance st2)) with (@None goerr).
  pose proof (uncommitted_commit (st_ext st) (st_ext st2) p) as Hu. rewrite <- Hc1, <- Ht1 in Hu.
  specialize (Hu Ht2 Hc2 (lookup_lt_Some _ _ _ Hl) (topic_partition _ _ _ _ _ Hrd1 Hl)).
  destruct (IH (AllowRebalance st2) s2 m2) as (st' & m' & s' & E' & Hs' & Hrd' & Ho' & Hu' & Hm').
  { by eapply ready_reads. }
  { congruence. }
  { assert (uncommitted (st_ext (AllowRebalance st2)) = uncommitted (st_ext st2)) as E3
      by (unfold uncommitted; by rewrite Ht3, Hc3).
    lia. }
  { lia. }
  exists st', m', s'. split_and!; [exact E'|by etrans|done| |done|lia].
  rewrite Ho', Hd3, Ho2. by rewrite (proj1 Hreads).
Qed.

(** [Run] connects, starts at the committed offsets, and consumes. *)
Lemma consumer_run pool cfg st s m :
  let IPo := IPool pool in
  ready st s → Consumer.Config_Validate cfg = None → uncommitted (st_ext st) ≤ draws_left (st_ext st) →
  ∃ st' m' s', Consumer.Run (uncommitted (st_ext st)) cfg Background st m = Some (inr (), st', m') ∧
    rtc sys_step s s' ∧ ready st' s' ∧ outbox_events (st_db st') = outbox_events (st_db st) ∧
    uncommitted (st_ext st') = 0 ∧
    Consumer.mt_durations m' = (Consumer.mt_durations m + Z.of_nat (uncommitted (st_ext st)))%Z.
Proof.
  intros IPo Hrd Hv Hleft. unfold Consumer.Run. rewrite Hv.
  assert (0 < RecordTimeout cfg)%Z as Hto.
  { revert Hv. unfold Consumer.Config_Validate. destruct (_ =? 0); [done|]. destruct (RetryPolicy_Validate _); [done|].
    by destruct (Z.leb_spec (RecordTimeout cfg) 0). }
  destruct (wk_new up cfg st (rd_healthy _ _ Hrd)) as (He1 & Hr1 & Hp1). destruct (consumer_New cfg st) as [err1 st1].
  cbn in *. subst err1.
  pose proof (rd_healthy _ _ (ready_reads _ _ _ Hr1 Hrd)) as Hh1.
  destruct (wk_ping up Background st1 Hh1 eq_refl) as (He2 & Hr2 & Hp2).
  destruct (consumer_Ping Background st1) as [err2 st2]. cbn in *. subst err2.
  pose proof Hr1 as (Hd1 & Ht1 & Hc1 & _ & Hl1 & _). pose proof Hr2 as (Hd2 & Ht2 & Hc2 & _ & Hl2 & _).
  destruct (consumer_delivers pool cfg (uncommitted (st_ext st)) st2 s m) as (st' & m' & s' & E & Hs & Hrd' & Ho & Hu & Hm).
  - eapply ready_reads; [exact Hr2|]. by eapply ready_reads.
  - congruence.
  - done.
  - unfold uncommitted. by rewrite Ht2, Hc2, Ht1, Hc1.
  - lia.
  - exists st', m', s'. unfold IPo. rewrite E. split_and!; try done. congruence.
Qed.

(** ** Properties *)

(** C6: the code delivers: take any state that API calls, polls, records and
    replays have left, each with whatever failures of the database and of Kafka,
    and let the services work from then on.  [Relay.Run] then publishes the whole
    backlog in as many polls as there are pending events, counting each once and no
    failure; [Consumer.Run] then handles each record that no offset covers, those of
    before and those just published, in one poll each; and after that no event is
    pending, every offset is at the end of its partition, and every event stored at
    the start has its record there and its dispatch, for its shipment. *)
Theorem pipeline_delivers st0 st pool p rcfg ccfg n m mc :
  let IPo := IPool pool in let IPb := kafka_PublisherI p in
  st_db st0 = empty_DB → topic (st_ext st0) = (λ _, []) →
  rtc (impl_step IPool) (mkImpl st0 (λ _, 0)) (mkImpl st (committed (st_ext st))) →
  healthy (st_ext st) → ids_drawn st → retriable (st_db st) →
  Relay.Config_Validate rcfg = None → Consumer.Config_Validate ccfg = None → (0 < p_timeout p)%Z →
  let pending := size (pending_ids (st_db st)) in let todo := uncommitted (st_ext st) + pending in
  pending ≤ n → todo ≤ draws_left (st_ext st) →
  ∃ b st1 m1 st2 m2,
    Relay.Run n rcfg Background st m = (Some b, st1, m1) ∧
    Consumer.Run todo ccfg Background st1 mc = Some (inr (), st2, m2) ∧
    mt_published m1 = (mt_published m + Z.of_nat pending)%Z ∧ mt_failures m1 = mt_failures m ∧
    Consumer.mt_durations m2 = (Consumer.mt_durations mc + Z.of_nat todo)%Z ∧
    pending_ids (st_db st2) = ∅ ∧
    (∀ q, committed (st_ext st2) q = length (topic (st_ext st2) q)) ∧
    ∀ id row, outbox_events (st_db st) !! id = Some row →
      (∃ k, topic (st_ext st2) (partition_of (or_shipment_id row)) !! k =
        Some (mkLogRecord (or_shipment_id row) (or_payload row))) ∧
      (∃ i d, dispatches (st_db st2) !! i = Some d ∧ dr_event_id d = id ∧ dr_shipment_id d = or_shipment_id row).
Proof.
  intros IPo IPb Hdb Hlog Hrun Hh Hdrawn Hret Hr Hc Hpt pending todo Hn Hleft.
  destruct (impl_steps_refine IPool partition_of laws _ _ sys_init Hrun) as (s & Hs & Hrel); [by split_and!|].
  destruct (relay_delivers pool p rcfg n (PollInterval rcfg) st s m) 
    as (b & st1 & m1 & s1 & E1 & Hs1 & Hrd1 & Hg & Hp1 & Hu1 & Hl1 & Hm1 & Hf1);
    [done| |done|done|].
  { revert Hr. unfold Relay.Config_Validate. destruct (_ <=? 0)%Z; [done|]. by destruct (Z.leb_spec (BatchSize rcfg) 0). }
  destruct (consumer_run pool ccfg st1 s1 mc Hrd1 Hc) as (st2 & m2 & s2 & E2 & Hs2 & Hrd2 & Ho2 & Hu2 & Hm2); [lia|].
  fold pending in Hu1. fold todo in Hu1. rewrite Hu1 in E2, Hm2.
  exists b, st1, m1, st2, m2. split; [exact E1|]. split; [exact E2|]. split; [done|]. split; [done|]. split; [done|].
  pose proof (ready_ok _ _ Hrd2) as Hok. pose proof (ready_topic _ _ Hrd2) as Ht2. pose proof (ready_db _ _ Hrd2) as Hd2.
  assert (sy_offset s2 = committed (st_ext st2)) as Hoff by apply (rd_rel _ _ Hrd2).
  split; [|split].
  - unfold pending_ids in *. by rewrite Ho2.
  - intros q. apply Nat.le_antisymm; [by apply (committed_within _ _ Hrd2)|].
    destruct (decide (q ∈ partitions)) as [|Hq]; [by apply uncommitted_none|].
    destruct (topic (st_ext st2) q) as [|lr l] eqn:Eq; [cbn; lia|].
    exfalso. apply Hq, (topic_partition st2 s2 q 0 lr Hrd2). by rewrite Eq.
  - intros id row Hrow. destruct Hg as [Hg _]. destruct (Hg _ _ Hrow) as (row1 & Hr1 & Hpay & Hsid).
    destruct (published_completes partition_of s2 id row1) as [(k & _ & Hk) Hd]; [done|by rewrite Hd2, Ho2| | |].
    + intros Hpend. assert (id ∈ pending_ids (st_db st1)) as Hin by (apply pending_ids_elem; eauto). by rewrite Hp1 in Hin.
    + rewrite Ht2, Hoff. apply uncommitted_none; [done|apply partitions_all].
    + rewrite Hsid, ?Hpay, Ht2, Hd2 in *. split; [by exists k|done].
Qed.

End delivery.

(** ** An outage *)

(** Two partitions; Kafka is away for five seconds from the first second on, and a
    produce then ends at its deadline; a quote takes half a second. *)
Record Cluster := mkCluster {
  cl_now : Z; cl_topic : nat → list LogRecord; cl_committed : nat → nat; cl_position : nat → nat; cl_drawn : N
}.

Section examples.
#[local] Existing Instances ref_PgScan ref_Pgconn ref_GrpcStatus ref_GoMap.

Definition outage_end : Z := 6 * Second.
Definition answers (c : Cluster) : bool := (cl_now c <? Second)%Z || (outage_end <=? cl_now c)%Z.
Definition at_time (t : Z) (c : Cluster) : Cluster :=
  mkCluster (Z.max t (cl_now c)) (cl_topic c) (cl_committed c) (cl_position c) (cl_drawn c).
Definition with_topic (l : nat → list LogRecord) (c : Cluster) : Cluster :=
  mkCluster (cl_now c) l (cl_committed c) (cl_position c) (cl_drawn c).
Definition with_position (f : nat → nat) (c : Cluster) : Cluster :=
  mkCluster (cl_now c) (cl_topic c) (cl_committed c) f (cl_drawn c).
Definition with_committed (f : nat → nat) (c : Cluster) : Cluster :=
  mkCluster (cl_now c) (cl_topic c) f (cl_position c) (cl_drawn c).
Definition on_cluster (f : Cluster → Cluster) (st : St Cluster) : St Cluster := mkSt (f (st_ext st)) (st_db st).

Definition by_digit (key : string) : nat :=
  match String.get 5 key with Some c => Z.to_nat (code c / 2 mod 2) | None => 0 end.

#[local] Instance Cluster_Clock : Clock Cluster.
Proof. refine {| now := cl_now; wait_until := at_time; pick_done := λ _, true |}; intros; cbn; lia. Defined.
#[local] Instance Cluster_Topic : TopicWorld Cluster := {| topic := cl_topic |}.
#[local] Instance Cluster_Pgxpool : Pgxpool Cluster := {|
  pgconfig := (); pgpool := (); ParseConfig := λ _, Ok (); set_MaxConns := λ _ c, c;
  NewWithConfig := λ _ _ w, (Ok (), w); pool_Ping := λ _ _ w, (None, w); pool_Close := λ _ w, w |}.
#[local] Instance Cluster_Kgo : Kgo Cluster := {|
  kclient := (); NewClient := λ _ w, (Ok (), w); client_Ping := λ _ _ w, (None, w); client_Close := λ _ w, w;
  ProduceSync := λ ctx _ rec w,
    if answers w then (None, with_topic (append by_digit (cl_topic w) (as_message rec)) w)
    else (Some (EOther "kafka is away"), match ctx_done ctx with Some (t, _) => at_time t w | None => w end) |}.
#[local] Instance Cluster_Rand : Rand Cluster := {|
  rand8 := λ w, (le_bytes 8 (Z.of_N (cl_drawn w)),
                 mkCluster (cl_now w) (cl_topic w) (cl_committed w) (cl_position w) (N.succ (cl_drawn w))) |}.
#[local] Instance Cluster_Wall : WallClock Cluster := {| wall_now := λ w, (mkTime 1700000000 123456000 7200, w) |}.
#[local] Instance Cluster_Pricer : Pricer Cluster := {|
  pricer_Quote := λ _ _ w, (Ok (mkMoney 700 "EUR"), at_time (cl_now w + Second / 2) w) |}.

(** A poll takes from the first partition that has a record. *)
Fixpoint take_record (ps : list nat) (st : St Cluster) : Fetches * St Cluster :=
  match ps with
  | [] => (mkFetches false [], st)
  | p :: ps =>
      let k := cl_position (st_ext st) p in
      match cl_topic (st_ext st) p !! k with
      | Some lr => (mkFetches false [mkRecord (Z.of_nat p) (Z.of_nat k) (lr_value lr)],
                    on_cluster (with_position (fn_set p (S k) (cl_position (st_ext st)))) st)
      | None => take_record ps st
      end
  end.

#[local] Instance Cluster_Consumer : KafkaConsumer (St Cluster) := {|
  consumer_New := λ _ st, (None, on_cluster (with_position (cl_committed (st_ext st))) st);
  consumer_Ping := λ _ st, (None, st);
  PollRecords := λ _ _ st, take_record [0; 1] st;
  CommitRecords := λ _ rec st,
    (None, on_cluster (with_committed (fn_set (Z.to_nat (rec_Partition rec)) (S (Z.to_nat (rec_Offset rec)))
                                         (cl_committed (st_ext st)))) st);
  AllowRebalance := λ st, st; consumer_Close := λ st, st |}.

#[local] Instance Cluster_Group : Group Cluster := {|
  committed := cl_committed; position := cl_position;
  drawn := λ w, list_to_set (le_bytes 8 <$> seqZ 0 (Z.of_N (cl_drawn w)));
  draws_left := λ w, Z.to_nat (1000 - Z.of_N (cl_drawn w));
  healthy := λ w, (outage_end ≤ cl_now w)%Z |}.

Definition Cluster_Pool : pgpool (W := Cluster) → Pool Cluster := λ _, ref_Pool Cluster (mkTime 1700000100 0 0).

Lemma Cluster_laws : topic_laws by_digit.
Proof.
  split; intros; cbn; try done.
  - by destruct (answers w); [|left; destruct (ctx_done ctx) as [[??]|]].
  - split; [done|]. intros price [= <-]. split; [|reflexivity].
    split; [discriminate|]. exists "E"%char, "U"%char, "R"%char. vm_compute. intuition discriminate.
Qed.

Lemma take_record_works ps st :
  (∃ p, p ∈ ps ∧ cl_position (st_ext st) p < length (cl_topic (st_ext st) p)) →
  ∃ p lr, let k := cl_position (st_ext st) p in
    cl_topic (st_ext st) p !! k = Some lr ∧
    take_record ps st = (mkFetches false [mkRecord (Z.of_nat p) (Z.of_nat k) (lr_value lr)],
      on_cluster (with_position (fn_set p (S k) (cl_position (st_ext st)))) st).
Proof.
  induction ps as [|q ps IH]; intros (p & Hin & Hp); [by apply not_elem_of_nil in Hin|]. cbn.
  destruct (cl_topic (st_ext st) q !! _) as [lr|] eqn:E; [by exists q, lr|]. apply IH. exists p. split; [|done].
  apply elem_of_cons in Hin as [->|]; [|done]. apply lookup_lt_is_Some in Hp as [? ?]. congruence.
Qed.

Lemma Cluster_works : works Cluster_Pool [0; 1].
Proof.
  assert (∀ t w, same_group w (at_time t w)) as Hat.
  { intros t w. split_and!; try done. cbn. intros. lia. }
  split; intros; cbn -[take_record]; try by split_and!.
  - by exists (mkTime 1700000100 0 0).
  - assert (answers w = true) as -> by (unfold answers; cbn in *; apply orb_true_iff; right; lia). by split_and!.
  - apply Hat.
  - split_and!; try done; [| | |lia].
    + rewrite N2Z.inj_succ. intros x (z & -> & Hz%elem_of_seqZ)%elem_of_list_to_set%list_elem_of_fmap.
      apply elem_of_list_to_set, list_elem_of_fmap. exists z. split; [done|]. apply elem_of_seqZ. lia.
    + apply elem_of_list_to_set, list_elem_of_fmap. exists (Z.of_N (cl_drawn w)). split; [done|]. apply elem_of_seqZ. lia.
    + intros Hleft (z & E & Hz%elem_of_seqZ)%elem_of_list_to_set%list_elem_of_fmap.
      change (256 ^ Z.of_nat 8)%Z with (2 ^ 64)%Z in *. apply (le_bytes_inj 8) in E; cbn; lia.
  - destruct (take_record_works [0; 1] st) as (p & lr & Hl & ->); [done|]. by exists p, lr.
  - rewrite !Nat2Z.id. by split_and!.
Qed.

(** The first shipment is published before the outage; two more are not: the second
    poll fails, and its produce waits until Kafka is back. *)
Definition ex_publisher : Broker.Publisher Cluster := mkPublisher (() : kclient (W := Cluster)) (5 * Second).
Definition ex_start : St Cluster := mkSt (mkCluster 0 (λ _, []) (λ _, 0) (λ _, 0) 0) empty_DB.
Definition ex_create (st : St Cluster) : St Cluster :=
  (let IPo := Cluster_Pool () in ShipmentApi.CreateShipment (WithID Background "req_1") 1500 st).2.
Definition ex_poll (st : St Cluster) : res PublishResult * St Cluster :=
  let IPo := Cluster_Pool () in let IPb := kafka_PublisherI ex_publisher in
  outbox_ProcessPending Background 10 publishBatch st.
Definition ex_before : St Cluster := ex_create (ex_create (ex_poll (ex_create ex_start)).2).
Definition ex_after : St Cluster := (ex_poll ex_before).2.
Definition ex_relay : Relay.Config := Relay.mkConfig Second 10.
Definition ex_consumer : Consumer.Config := Consumer.mkConfig ["localhost:9092"] (mkRetryPolicy 3 0) Second.

Lemma create_run st off : rtc (impl_step Cluster_Pool) (mkImpl st off) (mkImpl (ex_create st) off).
Proof.
  apply rtc_once. eapply (impl_create Cluster_Pool () (WithID Background "req_1") 1500 st off _ (ex_create st));
    [reflexivity|].
  unfold ex_create. cbv zeta. apply surjective_pairing.
Qed.

Lemma poll_run st off : rtc (impl_step Cluster_Pool) (mkImpl st off) (mkImpl (ex_poll st).2 off).
Proof.
  apply rtc_once, (impl_poll Cluster_Pool () ex_publisher Background 10 st off (ex_poll st).1). apply surjective_pairing.
Qed.

Lemma run_before off : rtc (impl_step Cluster_Pool) (mkImpl ex_start off) (mkImpl ex_after off).
Proof.
  unfold ex_after, ex_before. etrans; [exact (create_run ex_start off)|].
  etrans; [exact (poll_run (ex_create ex_start) off)|].
  set (st := (ex_poll (ex_create ex_start)).2). clearbody st. etrans; [exact (create_run st off)|].
  etrans; [exact (create_run (ex_create st) off)|]. exact (poll_run (ex_create (ex_create st)) off).
Qed.

Example outage : pr_Failed (from_res zero_PublishResult (ex_poll ex_before).1) ≠ "" ∧
  size (pending_ids (st_db ex_after)) = 2.
Proof. split; [|vm_compute; reflexivity]. vm_compute. discriminate. Qed.

Lemma pipeline_delivers_witness :
  ∃ b st1 m1 st2 m2,
    (let IPo := Cluster_Pool () in let IPb := kafka_PublisherI ex_publisher in
     Relay.Run 2 ex_relay Background ex_after (Relay.mkMetrics 0 0 None) = (Some b, st1, m1) ∧
     Consumer.Run 3 ex_consumer Background st1 zero_Metrics = Some (inr (), st2, m2)) ∧
    mt_published m1 = 2%Z ∧ Consumer.mt_durations m2 = 3%Z ∧ pending_ids (st_db st2) = ∅.
Proof.
  assert (committed (st_ext ex_after) = λ _, 0) as Hoff by (vm_compute; reflexivity).
  assert (size (pending_ids (st_db ex_after)) = 2) as Hp by (vm_compute; reflexivity).
  assert (uncommitted [0; 1] (st_ext ex_after) = 1) as Hu by (vm_compute; reflexivity).
  destruct (pipeline_delivers Cluster_Pool by_digit [0; 1] Cluster_laws Cluster_works)
    with (st0 := ex_start) (st := ex_after) (pool := ()) (p := ex_publisher) (rcfg := ex_relay) (ccfg := ex_consumer) (n := 2) (m := Relay.mkMetrics 0 0 None)
      (mc := zero_Metrics)
    as (b & st1 & m1 & st2 & m2 & E1 & E2 & Hm1 & _ & Hm2 & Hp2 & _).
  - apply (bool_decide_unpack _). vm_compute. exact I.
  - intros key. unfold by_digit. destruct (String.get 5 key) as [c|]; [|by left].
    pose proof (Z.mod_pos_bound (code c / 2) 2 ltac:(lia)).
    assert (code c / 2 mod 2 = 0 ∨ code c / 2 mod 2 = 1)%Z as [-> | ->] by lia; [by left|by right; left].
  - reflexivity.
  - reflexivity.
  - rewrite Hoff. exact (run_before _).
  - vm_compute. discriminate.
  - intros id [d Hd]. exfalso. assert (dispatches (st_db ex_after) = ∅) as E0 by (vm_compute; reflexivity).
    rewrite E0 in Hd. discriminate Hd.
  - intros id row Hr _. revert id row Hr.
    change (map_Forall (λ _ r, int32_ok (or_attempts r + 1) = true) (outbox_events (st_db ex_after))).
    apply (bool_decide_unpack _). vm_compute. exact I.
  - reflexivity.
  - reflexivity.
  - reflexivity.
  - rewrite Hp. lia.
  - rewrite Hp, Hu. vm_compute. lia.
  - rewrite Hp in E2, Hm1, Hm2. rewrite Hu in E2, Hm2. exists b, st1, m1, st2, m2.
    exact (conj (conj E1 E2) (conj Hm1 (conj Hm2 Hp2))).
Defined.

End examples.
